(** * CVTM archive container: codec, empty-archive writer, reader, QCOW2 synthesizer

    A shallow embedding of the Go packages [archive] and [archive/entries].

    Conventions of the embedding.
    - Go integers are [Z]; every conversion and every operation that can
      leave the range of its Go type is followed by the wrap-around of that
      type ([uint8], [uint32], [int32], [int64], [uint64] below).  Go's [int]
      and [uint] are the 64-bit ones.
    - [[]byte] and [[n]byte] are [list byte]; little-endian integers are
      coqutil's [le_split] / [le_combine].
    - A function that can return an [error] or call [panic] returns an
      [Outcome]: [Ok v], [Err e] or [Panic p].
    - The reflection-driven code ([reflect.Value], [forEachField]) runs over
      [fieldsOf] / [setFields], the field view of the entry structs.
    - [log.Println] output is not part of the model. *)

From Stdlib Require Import ZArith Lia List String.
From coqutil Require Import Byte Word.LittleEndianList.
From stdpp Require Import base option gmap list.
Local Open Scope Z_scope.
Set Warnings "-register-all".

(** ** Machine integers *)

Definition uint8 (z : Z) : Z := z mod 2 ^ 8.
Definition uint32 (z : Z) : Z := z mod 2 ^ 32.
Definition uint64 (z : Z) : Z := z mod 2 ^ 64.
Definition int32 (z : Z) : Z := (z + 2 ^ 31) mod 2 ^ 32 - 2 ^ 31.
Definition int64 (z : Z) : Z := (z + 2 ^ 63) mod 2 ^ 64 - 2 ^ 63.

(** [binary.LittleEndian.PutUint32] and [binary.LittleEndian.Uint32]. *)
Definition PutUint32 (v : Z) : list byte := le_split 4 v.
Definition Uint32 (b : list byte) : Z := le_combine (take 4 b).

(** [binary.BigEndian.PutUint32] / [PutUint64]. *)
Definition be_split (n : nat) (v : Z) : list byte := rev (le_split n v).
Definition be_combine (b : list byte) : Z := le_combine (rev b).

(** ** Errors, panics and outcomes *)

Inductive error : Type :=
  | io_EOF
  | io_ErrUnexpectedEOF
  | binary_invalid_type          (* "binary.Read: invalid type ..." *)
  | errCrossesBoundary           (* "entry crosses header boundary" *)
  | errFieldIncomplete           (* "Field is incomplete" *)
  | badEntry (pos : Z) (err : error)
  | errEarlyEOF                  (* "got EOF reading header" *)
  | errBadMagic                  (* "bad magic number" *)
  | errBadEntrySize (n : Z)      (* "bad entry size %d" *)
  | errBadHeaderSize (n : Z)     (* "bad header size %d" *)
  | errHeaderTooBig (n : Z)      (* "header size too big %d" *)
  | errBadChecksum               (* "bad checksum" *)
  | errEndingTooBig (n : Z)      (* "end pointer too big %d blocks" *)
  | errNoPrivateKey              (* "Archive is encrypted, but private key is not given" *)
  | unknownEnum (name : string) (value : Z)
  | errNoEndPointers             (* "Archive has no end pointers" *)
  | errBadEndPointerLocation (blk : Z)
  | errorList (errs : list error)
  | errNoValidEndPointer         (* "No valid end pointer exists" *)
  | errOutsideImageArea (endAt : Z)
  | errBadEndPointer (e : Z)     (* "Bad end pointer %d" *)
  | errDecryption                (* rsa.ErrDecryption *)
  | errNoMoreImages              (* "No more images" *)
  | errBadEndingMagic (id : list byte)
  | errBadEndingSize (n : Z)     (* "Bad ending size %d" *)
  | errStartAfterEnd             (* "Image start is after end" *)
  | errExtracting (endAt : Z) (err : error)
  | errNotBackwards (next endAt : Z)
  | errNotEnoughSpace (sentinelEnd imgAreaEnd : Z)
  | errEndingTooLong (len max : Z)
  | errEncryption                (* an error of rsa.EncryptOAEP *)
  | errFillBackwards (pos offset : Z)
  | errSeek (offset : Z)         (* the operating system refuses the seek *)
  | errSeekWhence (whence : Z)   (* "Unsupported seek whence %d" *)
  | errNegativeOffset.           (* ReadAt: "negative offset" *)

Inductive panic : Type :=
  | panicSliceBounds (lo hi : Z)     (* slice bounds out of range [lo:hi] *)
  | panicBadType                     (* gotBadType *)
  | panicMakeLen (n : Z)             (* makeslice: len out of range *)
  | panicWriteBackwards (size : Z)   (* "can't write backwards size %d" *)
  | panicUndefinedCipher (c : Z)
  | panicChecksumType (algo : Z)
  | panicNilKey                      (* nil pointer dereference *)
  | panicFillMethod (m : Z)          (* "unknown fill method %d" *)
  | panicIndex (i n : Z)             (* index out of range [i] with length n *)
  | panicFuel.                       (* unreachable: see the totality lemmas *)

Inductive Outcome (A : Type) : Type :=
  | Ok (a : A)
  | Err (e : error)
  | Panic (p : panic).
Arguments Ok {A} a.
Arguments Err {A} e.
Arguments Panic {A} p.

#[global] Instance Outcome_ret : MRet Outcome := @Ok.
#[global] Instance Outcome_bind : MBind Outcome := fun A B f m =>
  match m with
  | Ok a => f a
  | Err e => Err e
  | Panic p => Panic p
  end.

Definition isOk {A} (m : Outcome A) : bool :=
  match m with Ok _ => true | _ => false end.

(** ** Package entries: the registered entry structs *)

#[global] Instance byte_eq_dec : EqDecision byte := Byte.byte_eq_dec.
#[global] Instance byte_countable : Countable byte :=
  inj_countable Byte.to_N Byte.of_N Byte.of_to_N.

(** [EntryTypeID] is [[16]byte], and a key of Go maps. *)
Abbreviation EntryTypeID := (list byte) (only parsing).

(** A 16-byte identifier: the ASCII name, NUL-padded. *)
Definition mkID (s : string) : EntryTypeID :=
  take 16 (list_byte_of_string s ++ replicate 16 Byte.x00).

Module entries.

Definition IdCvtmMagic : EntryTypeID := mkID "CVTM-MAGIC".
Definition IdAllocateOnce : EntryTypeID := mkID "ALLOCATE-ONCE".
Definition IdEndPointerChec : EntryTypeID := mkID "END-POINTER-CHEC".
Definition IdEndPointerLoca : EntryTypeID := mkID "END-POINTER-LOCA".
Definition IdEndingCipher : EntryTypeID := mkID "ENDING-CIPHER".
Definition IdEndingSize : EntryTypeID := mkID "ENDING-SIZE".
Definition IdGlobalLogLocat : EntryTypeID := mkID "GLOBAL-LOG-LOCAT".
Definition IdImageArea : EntryTypeID := mkID "IMAGE-AREA".
Definition IdImageBasic : EntryTypeID := mkID "IMAGE-BASIC".
Definition IdImageLog : EntryTypeID := mkID "IMAGE-LOG".
Definition IdSdCid : EntryTypeID := mkID "SD-CID".
Definition IdNoMoreImages : EntryTypeID := mkID "NO-MORE-IMAGES".
Definition IdEnding : EntryTypeID := mkID "ENDING".
Definition IdImageKey : EntryTypeID := mkID "IMAGE-KEY".
Definition IdImageLogLocati : EntryTypeID := mkID "IMAGE-LOG-LOCATI".

Record CvtmMagic := { CvtmMagic_Checksum : list byte; CvtmMagic_HeaderLength : Z }.
Record AllocateOnce := { AllocationIncrement : Z }.
Record EndPointerChec := { EndPointerChec_Algo : Z }.
Record EndPointerLoca := { Blk : Z }.
Record EndingCipher := { EndingCipher_Algo : Z; EndingCipher_Key : list byte }.
Record EndingSize := { EndingSize_Size : Z }.
Record GlobalLogLocat := { GlobalLogLocat_Start : Z; GlobalLogLocat_Count : Z }.
Record ImageArea := { ImageArea_Start : Z; ImageArea_End : Z }.
Record ImageBasic := { ImgCipher : Z; ImgClusterSizeExp : Z }.
Record ImageLog := { BlkCount : Z }.
Record SdCid := { SdCid_SdCid : list byte }.
Record NoMoreImages := { }.
Record Ending := {
  Ending_Length : Z;
  Ending_Start : Z;
  Ending_Prev : Z;
  DataClusterCount : Z;
  ClusterSizeExp : Z;
  ClustersOffset : Z }.
Record ImageKey := { ImageKey_Key : list byte }.
Record ImageLogLocati := { ImageLogLocati_Offset : Z; ImageLogLocati_Size : Z }.

(** [reflect.Type] of the registered structs: the keys of [TypeToID]. *)
Inductive EntryType : Type :=
  | TCvtmMagic | TAllocateOnce | TEndPointerChec | TEndPointerLoca
  | TEndingCipher | TEndingSize | TGlobalLogLocat | TImageArea | TImageBasic
  | TImageLog | TSdCid | TNoMoreImages | TEnding | TImageKey | TImageLogLocati.

Definition TypeToID (t : EntryType) : EntryTypeID :=
  match t with
  | TCvtmMagic => IdCvtmMagic
  | TAllocateOnce => IdAllocateOnce
  | TEndPointerChec => IdEndPointerChec
  | TEndPointerLoca => IdEndPointerLoca
  | TEndingCipher => IdEndingCipher
  | TEndingSize => IdEndingSize
  | TGlobalLogLocat => IdGlobalLogLocat
  | TImageArea => IdImageArea
  | TImageBasic => IdImageBasic
  | TImageLog => IdImageLog
  | TSdCid => IdSdCid
  | TNoMoreImages => IdNoMoreImages
  | TEnding => IdEnding
  | TImageKey => IdImageKey
  | TImageLogLocati => IdImageLogLocati
  end.

(** [Entry interface{}], restricted to the registered structs. *)
Inductive Entry : Type :=
  | ECvtmMagic (x : CvtmMagic)
  | EAllocateOnce (x : AllocateOnce)
  | EEndPointerChec (x : EndPointerChec)
  | EEndPointerLoca (x : EndPointerLoca)
  | EEndingCipher (x : EndingCipher)
  | EEndingSize (x : EndingSize)
  | EGlobalLogLocat (x : GlobalLogLocat)
  | EImageArea (x : ImageArea)
  | EImageBasic (x : ImageBasic)
  | EImageLog (x : ImageLog)
  | ESdCid (x : SdCid)
  | ENoMoreImages (x : NoMoreImages)
  | EEnding (x : Ending)
  | EImageKey (x : ImageKey)
  | EImageLogLocati (x : ImageLogLocati).

Definition typeOf (e : Entry) : EntryType :=
  match e with
  | ECvtmMagic _ => TCvtmMagic
  | EAllocateOnce _ => TAllocateOnce
  | EEndPointerChec _ => TEndPointerChec
  | EEndPointerLoca _ => TEndPointerLoca
  | EEndingCipher _ => TEndingCipher
  | EEndingSize _ => TEndingSize
  | EGlobalLogLocat _ => TGlobalLogLocat
  | EImageArea _ => TImageArea
  | EImageBasic _ => TImageBasic
  | EImageLog _ => TImageLog
  | ESdCid _ => TSdCid
  | ENoMoreImages _ => TNoMoreImages
  | EEnding _ => TEnding
  | EImageKey _ => TImageKey
  | EImageLogLocati _ => TImageLogLocati
  end.

(** The zero value of each struct (arrays are zero-filled, slices nil). *)
Definition zero (t : EntryType) : Entry :=
  match t with
  | TCvtmMagic => ECvtmMagic {| CvtmMagic_Checksum := replicate 32 Byte.x00;
                                CvtmMagic_HeaderLength := 0 |}
  | TAllocateOnce => EAllocateOnce {| AllocationIncrement := 0 |}
  | TEndPointerChec => EEndPointerChec {| EndPointerChec_Algo := 0 |}
  | TEndPointerLoca => EEndPointerLoca {| Blk := 0 |}
  | TEndingCipher => EEndingCipher {| EndingCipher_Algo := 0; EndingCipher_Key := [] |}
  | TEndingSize => EEndingSize {| EndingSize_Size := 0 |}
  | TGlobalLogLocat => EGlobalLogLocat {| GlobalLogLocat_Start := 0; GlobalLogLocat_Count := 0 |}
  | TImageArea => EImageArea {| ImageArea_Start := 0; ImageArea_End := 0 |}
  | TImageBasic => EImageBasic {| ImgCipher := 0; ImgClusterSizeExp := 0 |}
  | TImageLog => EImageLog {| BlkCount := 0 |}
  | TSdCid => ESdCid {| SdCid_SdCid := replicate 15 Byte.x00 |}
  | TNoMoreImages => ENoMoreImages Build_NoMoreImages
  | TEnding => EEnding {| Ending_Length := 0; Ending_Start := 0; Ending_Prev := 0;
                          DataClusterCount := 0; ClusterSizeExp := 0; ClustersOffset := 0 |}
  | TImageKey => EImageKey {| ImageKey_Key := [] |}
  | TImageLogLocati => EImageLogLocati {| ImageLogLocati_Offset := 0; ImageLogLocati_Size := 0 |}
  end.

End entries.
Import entries.

(** ** Reflection: the fields of an entry struct

    [Value] is what [reflect.Value.Field] yields on the registered structs:
    a [uint32], a [byte], a byte array of fixed length or a byte slice. *)

Inductive Value : Type :=
  | VUint32 (x : Z)
  | VUint8 (x : Z)
  | VArray (n : nat) (b : list byte)
  | VSlice (b : list byte).

Definition fieldsOf (e : Entry) : list Value :=
  match e with
  | ECvtmMagic x => [VArray 32 (CvtmMagic_Checksum x); VUint32 (CvtmMagic_HeaderLength x)]
  | EAllocateOnce x => [VUint32 (AllocationIncrement x)]
  | EEndPointerChec x => [VUint32 (EndPointerChec_Algo x)]
  | EEndPointerLoca x => [VUint32 (Blk x)]
  | EEndingCipher x => [VUint32 (EndingCipher_Algo x); VSlice (EndingCipher_Key x)]
  | EEndingSize x => [VUint32 (EndingSize_Size x)]
  | EGlobalLogLocat x => [VUint32 (GlobalLogLocat_Start x); VUint32 (GlobalLogLocat_Count x)]
  | EImageArea x => [VUint32 (ImageArea_Start x); VUint32 (ImageArea_End x)]
  | EImageBasic x => [VUint32 (ImgCipher x); VUint8 (ImgClusterSizeExp x)]
  | EImageLog x => [VUint32 (BlkCount x)]
  | ESdCid x => [VArray 15 (SdCid_SdCid x)]
  | ENoMoreImages _ => []
  | EEnding x => [VUint32 (Ending_Length x); VUint32 (Ending_Start x);
                  VUint32 (Ending_Prev x); VUint32 (DataClusterCount x);
                  VUint8 (ClusterSizeExp x); VUint32 (ClustersOffset x)]
  | EImageKey x => [VSlice (ImageKey_Key x)]
  | EImageLogLocati x => [VUint32 (ImageLogLocati_Offset x); VUint32 (ImageLogLocati_Size x)]
  end.

(** Storing through [v.Addr()] / [v.Set]: the struct with its fields
    replaced, in order.  A list of the wrong shape leaves the struct as is. *)
Definition setFields (e : Entry) (vs : list Value) : Entry :=
  match e, vs with
  | ECvtmMagic _, [VArray _ c; VUint32 h] =>
      ECvtmMagic {| CvtmMagic_Checksum := c; CvtmMagic_HeaderLength := h |}
  | EAllocateOnce _, [VUint32 a] => EAllocateOnce {| AllocationIncrement := a |}
  | EEndPointerChec _, [VUint32 a] => EEndPointerChec {| EndPointerChec_Algo := a |}
  | EEndPointerLoca _, [VUint32 a] => EEndPointerLoca {| Blk := a |}
  | EEndingCipher _, [VUint32 a; VSlice k] =>
      EEndingCipher {| EndingCipher_Algo := a; EndingCipher_Key := k |}
  | EEndingSize _, [VUint32 a] => EEndingSize {| EndingSize_Size := a |}
  | EGlobalLogLocat _, [VUint32 a; VUint32 b] =>
      EGlobalLogLocat {| GlobalLogLocat_Start := a; GlobalLogLocat_Count := b |}
  | EImageArea _, [VUint32 a; VUint32 b] =>
      EImageArea {| ImageArea_Start := a; ImageArea_End := b |}
  | EImageBasic _, [VUint32 a; VUint8 b] =>
      EImageBasic {| ImgCipher := a; ImgClusterSizeExp := b |}
  | EImageLog _, [VUint32 a] => EImageLog {| BlkCount := a |}
  | ESdCid _, [VArray _ c] => ESdCid {| SdCid_SdCid := c |}
  | EEnding _, [VUint32 a; VUint32 b; VUint32 c; VUint32 d; VUint8 e'; VUint32 f] =>
      EEnding {| Ending_Length := a; Ending_Start := b; Ending_Prev := c;
                 DataClusterCount := d; ClusterSizeExp := e'; ClustersOffset := f |}
  | EImageKey _, [VSlice k] => EImageKey {| ImageKey_Key := k |}
  | EImageLogLocati _, [VUint32 a; VUint32 b] =>
      EImageLogLocati {| ImageLogLocati_Offset := a; ImageLogLocati_Size := b |}
  | _, _ => e
  end.

(** [binary.Size] of one field: [-1] for what [encoding/binary] does not
    support directly (a struct field of slice type). *)
Definition sizeofField (v : Value) : Z :=
  match v with
  | VUint32 _ => 4
  | VUint8 _ => 1
  | VArray n _ => Z.of_nat n
  | VSlice _ => -1
  end.

(** [binary.Size(ent.Interface())] on a struct: the sum of the field sizes,
    [-1] once a field has no fixed size. *)
Fixpoint sizeofStruct (vs : list Value) : Z :=
  match vs with
  | [] => 0
  | v :: rest =>
      let s := sizeofField v in
      let r := sizeofStruct rest in
      if (s <? 0) || (r <? 0) then -1 else s + r
  end.

(** [binary.Write(w, LittleEndian, v)] on a value it supports. *)
Definition binaryWriteField (v : Value) : list byte :=
  match v with
  | VUint32 x => le_split 4 x
  | VUint8 x => le_split 1 x
  | VArray n b => take n (b ++ replicate n Byte.x00)
  | VSlice b => b
  end.

Definition binaryWriteStruct (vs : list Value) : list byte :=
  concat (map binaryWriteField vs).

(** ** Writing entries (archive/common.go) *)

Definition len {A} (l : list A) : Z := Z.of_nat (length l).

(** The slice expression [l[lo:hi]], with Go's bounds check. *)
Definition sliceOf {A} (l : list A) (lo hi : Z) : Outcome (list A) :=
  if (0 <=? lo) && (lo <=? hi) && (hi <=? len l)
  then Ok (take (Z.to_nat (hi - lo)) (drop (Z.to_nat lo) l))
  else Panic (panicSliceBounds lo hi).

(** [binary.Size] of the value a field holds: a byte slice has the size of
    its elements. *)
Definition binarySize (v : Value) : Z :=
  match v with
  | VSlice b => len b
  | _ => sizeofField v
  end.

(** The closure [bare] of [writeEntry] on one field: written by
    [binary.Write] when [binary.Size] is positive, else handed to
    [forEachField], which finds no element to visit. *)
Definition bareField (v : Value) : list byte :=
  if 0 <? binarySize v then binaryWriteField v else [].

(** [bare] on the entry struct itself. *)
Definition bare (ent : Entry) : list byte :=
  if 0 <? sizeofStruct (fieldsOf ent)
  then binaryWriteStruct (fieldsOf ent)
  else concat (map bareField (fieldsOf ent)).

(** [writeEntry]: the bytes handed to [w].  The first pass over [bare] feeds
    the [sizeWriter]; its count is [len (bare ent)]. *)
Definition writeEntry (ent : Entry) : list byte :=
  let cnt := len (bare ent) in
  TypeToID (typeOf ent) ++ PutUint32 (uint32 (20 + uint32 cnt)) ++ bare ent.

(** A field of the struct given to [writeMultipleEntries]: one entry
    struct, a slice of entry structs, or a slice of [Entry] interfaces
    ([Optional]).  [e.Index(i)] of the latter has kind [Interface], and its
    [Type()] is not a key of [TypeToID]. *)
Inductive Field : Type :=
  | FStruct (e : Entry)
  | FSlice (t : EntryType) (es : list Entry)
  | FInterfaces (es : list Entry).

Definition writeField (f : Field) : Outcome (list byte) :=
  match f with
  | FStruct e => Ok (writeEntry e)
  | FSlice _ es => Ok (concat (map writeEntry es))
  | FInterfaces [] => Ok []
  | FInterfaces (_ :: _) => Panic panicBadType
  end.

Fixpoint writeMultipleEntries (fields : list Field) : Outcome (list byte) :=
  match fields with
  | [] => Ok []
  | f :: rest =>
      b ← writeField f;
      bs ← writeMultipleEntries rest;
      Ok (b ++ bs)
  end.

(** ** Reading entries (archive reader) *)

Record entryRead := { at_ : Z; data : list byte }.

(** [splitEntries].  Every turn of the loop that goes on drops at least 20
    bytes, so [S (length data)] turns are enough ([splitEntries_fuel]). *)
Fixpoint splitEntries_loop (fuel : nat) (data : list byte) (start : Z)
    (result : gmap EntryTypeID (list entryRead))
    : Outcome (gmap EntryTypeID (list entryRead)) :=
  match fuel with
  | O => Panic panicFuel
  | S fuel =>
      if len data =? 0 then Ok result
      else if len data <? 20 then Err (badEntry start errCrossesBoundary)
      else
        szb ← sliceOf data 16 20;
        let entSize := Uint32 szb in
        if entSize >? len data then Err (badEntry start errCrossesBoundary)
        else
          let typeID := take 16 data in
          payload ← sliceOf data 20 entSize;
          let result :=
            <[typeID := default [] (result !! typeID)
                        ++ [{| at_ := start; data := payload |}]]> result in
          data' ← sliceOf data entSize (len data);
          splitEntries_loop fuel data' (start + entSize) result
  end.

Definition splitEntries (data : list byte) (start : Z)
    : Outcome (gmap EntryTypeID (list entryRead)) :=
  splitEntries_loop (S (length data)) data start ∅.

(** [binary.Read(r, order, data)] with [data] a struct passed by value, as
    in [dest.Interface()]: [intDataSize] knows no struct, and the reflective
    path accepts only a pointer or a slice, so the call reads nothing and
    returns "binary.Read: invalid type". *)
Definition binary_Read_value (r : list byte) (dest : Entry) : option error :=
  Some binary_invalid_type.

(** [binary.Read(r, order, v.Addr().Interface())] on a field of fixed size
    [n]: [io.ReadFull] of [n] bytes from the [bytes.Reader] whose unread part
    is [r].  Nothing left gives [io.EOF], fewer than [n] bytes
    [io.ErrUnexpectedEOF]. *)
Definition binary_Read_ptr (r : list byte) (v : Value) : Outcome (Value * list byte) :=
  let n := sizeofField v in
  if n =? 0 then Ok (v, r)
  else if len r =? 0 then Err io_EOF
  else if len r <? n then Err io_ErrUnexpectedEOF
  else
    let b := take (Z.to_nat n) r in
    let r' := drop (Z.to_nat n) r in
    match v with
    | VUint32 _ => Ok (VUint32 (le_combine b), r')
    | VUint8 _ => Ok (VUint8 (le_combine b), r')
    | VArray k _ => Ok (VArray k b, r')
    | VSlice _ => Err binary_invalid_type
    end.

(** The callback of [forEachField] in [parseEntry], run over the fields of
    [dest] in order; [r] is the unread part of [ent.data]. *)
Fixpoint parseFields (r : list byte) (vs : list Value) : Outcome (list Value) :=
  match vs with
  | [] => Ok []
  | VSlice old :: rest =>
      let v := if len r =? 0 then VSlice old else VSlice r in
      rest' ← parseFields r rest;
      Ok (v :: rest')
  | v :: rest =>
      '(v', r') ← binary_Read_ptr r v;
      rest' ← parseFields r' rest;
      Ok (v' :: rest')
  end.

(** [parseEntry].  On an error the fields stored so far stay in [dest]; no
    caller looks at [dest] after an error, so only the error is returned. *)
Definition parseEntry (ent : entryRead) (dest : Entry) : Outcome Entry :=
  match binary_Read_value (data ent) dest with
  | Some io_EOF => Ok dest
  | Some io_ErrUnexpectedEOF => Err (badEntry (at_ ent) errFieldIncomplete)
  | _ =>
      match parseFields (data ent) (fieldsOf dest) with
      | Ok vs => Ok (setFields dest vs)
      | Err e => Err (badEntry (at_ ent) e)
      | Panic p => Panic p
      end
  end.

(** ** crypto/sha256 and hash/crc32: the functions the archive calls

    Both are the published algorithms (FIPS 180-4; CRC-32C with the reflected
    Castagnoli polynomial), written out so that archives can be computed. *)

Module sha256.

Definition w32 (z : Z) : Z := z mod 2 ^ 32.
Definition rotr (n x : Z) : Z := Z.lor (Z.shiftr x n) (w32 (Z.shiftl x (32 - n))).
Definition Ch (x y z : Z) : Z := Z.lxor (Z.land x y) (Z.land (Z.lxor x 0xffffffff) z).
Definition Maj (x y z : Z) : Z := Z.lxor (Z.lxor (Z.land x y) (Z.land x z)) (Z.land y z).
Definition bsig0 (x : Z) : Z := Z.lxor (Z.lxor (rotr 2 x) (rotr 13 x)) (rotr 22 x).
Definition bsig1 (x : Z) : Z := Z.lxor (Z.lxor (rotr 6 x) (rotr 11 x)) (rotr 25 x).
Definition ssig0 (x : Z) : Z := Z.lxor (Z.lxor (rotr 7 x) (rotr 18 x)) (Z.shiftr x 3).
Definition ssig1 (x : Z) : Z := Z.lxor (Z.lxor (rotr 17 x) (rotr 19 x)) (Z.shiftr x 10).

(** The first 64 primes. *)
Definition isPrime (n : Z) : bool :=
  forallb (fun d => negb (n mod d =? 0) || (n <=? d))
    (map Z.of_nat (seq 2 18)).

Definition primes : list Z :=
  filter (fun n => isPrime n = true) (map Z.of_nat (seq 2 310)).

(** The integer cube root, bit by bit from bit [k - 1] down. *)
Fixpoint cbrt_bits (k : nat) (r n : Z) : Z :=
  match k with
  | O => r
  | S k =>
      let r' := r + 2 ^ Z.of_nat k in
      if r' * r' * r' <=? n then cbrt_bits k r' n else cbrt_bits k r n
  end.

(** The round constants: the first 32 bits of the fractional parts of the
    cube roots of the primes. *)
Definition K : list Z :=
  Eval vm_compute in map (fun p => w32 (cbrt_bits 36 0 (p * 2 ^ 96))) primes.

(** The initial hash value: the same of the square roots of the first 8. *)
Definition H0 : list Z :=
  Eval vm_compute in map (fun p => w32 (Z.sqrt (p * 2 ^ 64))) (take 8 primes).

(** The padded message: a one bit, zeros up to 56 mod 64, the bit length. *)
Definition pad (msg : list byte) : list byte :=
  let l := Z.of_nat (length msg) in
  msg ++ [Byte.x80] ++ replicate (Z.to_nat ((55 - l) mod 64)) Byte.x00 ++ be_split 8 (8 * l).

(** The big-endian 32-bit words of a byte string. *)
Fixpoint words (n : nat) (b : list byte) : list Z :=
  match n with
  | O => []
  | S n => be_combine (take 4 b) :: words n (drop 4 b)
  end.

(** The message schedule, latest word first. *)
Fixpoint schedule (n : nat) (w : list Z) : list Z :=
  match n with
  | O => w
  | S n =>
      let x := w32 (ssig1 (nth 1 w 0) + nth 6 w 0 + ssig0 (nth 14 w 0) + nth 15 w 0) in
      schedule n (x :: w)
  end.

Definition round (s : list Z) (kw : Z * Z) : list Z :=
  match s with
  | [a; b; c; d; e; f; g; h] =>
      let t1 := h + bsig1 e + Ch e f g + fst kw + snd kw in
      let t2 := bsig0 a + Maj a b c in
      [w32 (t1 + t2); a; b; c; w32 (d + t1); e; f; g]
  | _ => s
  end.

Definition compress (h : list Z) (block : list byte) : list Z :=
  let w := rev (schedule 48 (rev (words 16 block))) in
  let s := fold_left round (zip K w) h in
  zip_with (fun x y => w32 (x + y)) h s.

Fixpoint blocks (n : nat) (h : list Z) (b : list byte) : list Z :=
  match n with
  | O => h
  | S n => blocks n (compress h (take 64 b)) (drop 64 b)
  end.

(** [sha256.Sum256]. *)
Definition Sum256 (msg : list byte) : list byte :=
  let p := pad msg in
  concat (map (be_split 4) (blocks (length p / 64) H0 p)).

End sha256.

Module crc32.

(** One byte of the bitwise CRC, reflected polynomial 0x82f63b78. *)
Fixpoint bits (n : nat) (crc : Z) : Z :=
  match n with
  | O => crc
  | S n =>
      bits n (if Z.testbit crc 0 then Z.lxor (Z.shiftr crc 1) 0x82f63b78
              else Z.shiftr crc 1)
  end.

Definition update (crc : Z) (b : byte) : Z := bits 8 (Z.lxor crc (byte.unsigned b)).

(** [crc32.Checksum(data, crc32.MakeTable(crc32.Castagnoli))]. *)
Definition Checksum (data : list byte) : Z :=
  Z.lxor (fold_left update data 0xffffffff) 0xffffffff.

End crc32.

(** ** crypto/rsa and crypto/x509

    A public key is its modulus and exponent.  [MarshalPKCS1PublicKey] is
    the DER encoding (for a non-negative modulus and exponent); parsing and
    the OAEP operations are taken from the library as they are. *)

Module rsa.

Record PublicKey := { N : Z; E : Z }.
Record PrivateKey := { Public : PublicKey; D : Z }.

Definition BitLen (z : Z) : Z := if z <=? 0 then 0 else Z.log2 z + 1.

(** [PublicKey.Size]: the modulus size in bytes. *)
Definition Size (k : PublicKey) : Z := (BitLen (N k) + 7) / 8.

End rsa.

Module x509.

Definition derLength (n : Z) : list byte :=
  if n <? 128 then [byte.of_Z n]
  else
    let k := Z.to_nat ((rsa.BitLen n + 7) / 8) in
    byte.of_Z (128 + Z.of_nat k) :: be_split k n.

Definition derInteger (z : Z) : list byte :=
  let k := Z.to_nat (rsa.BitLen z / 8 + 1) in
  let body := be_split k z in
  [Byte.x02] ++ derLength (len body) ++ body.

Definition MarshalPKCS1PublicKey (k : rsa.PublicKey) : list byte :=
  let body := derInteger (rsa.N k) ++ derInteger (rsa.E k) in
  [Byte.x30] ++ derLength (len body) ++ body.

End x509.

(** What the reader and the writer take from the crypto libraries without
    looking inside. *)
Record Crypto := {
  ParsePKCS1PublicKey : list byte -> option rsa.PublicKey;
  (* rsa.EncryptOAEP(sha256.New(), rand.Reader, key, msg, []byte{}) *)
  EncryptOAEP : rsa.PublicKey -> list byte -> option (list byte);
  (* rsa.DecryptOAEP(sha256.New(), nil, key, ciphertext, []byte{}) *)
  DecryptOAEP : rsa.PrivateKey -> list byte -> option (list byte) }.

(** ** Files

    The bytes of a file and its length.  A write past the end extends the
    file; what lies between the old end and the write is whatever [fdata]
    held there (zeros for a new file, the old contents of a device). *)

Record File := { fdata : Z -> byte; fsize : Z }.

Definition file_put (f : File) (pos n : Z) (g : Z -> byte) : File :=
  if n <=? 0 then f
  else {| fdata := fun i => if (pos <=? i) && (i <? pos + n) then g (i - pos) else fdata f i;
          fsize := Z.max (fsize f) (pos + n) |}.

Definition file_write (f : File) (pos : Z) (p : list byte) : File :=
  file_put f pos (len p) (fun k => nth (Z.to_nat k) p Byte.x00).

Definition file_bytes (f : File) (off n : Z) : list byte :=
  map (fun k => fdata f (off + Z.of_nat k)) (seq 0 (Z.to_nat n)).

(** [File.ReadAt(buf, off)] with [len(buf) = n]: all of [buf] or an
    error. *)
Definition ReadAt (f : File) (n off : Z) : Outcome (list byte) :=
  if off <? 0 then Err errNegativeOffset
  else if off + n <=? fsize f then Ok (file_bytes f off n)
  else Err io_EOF.

Definition emptyFile : File := {| fdata := fun _ => Byte.x00; fsize := 0 |}.

(** ** archive/common.go: constants and helpers *)

Definition BlockSize : Z := 512.

Definition ImgCipherNull : Z := 0.
Definition ImgCipherXTSAES : Z := 1.
Definition EndingCipherNull : Z := 0.
Definition EndingCipherRSA : Z := 1.
Definition EndPointerChecksumSHA256 : Z := 0.
Definition EndPointerChecksumCRC32 : Z := 1.

Definition FillSeek : Z := 0.
Definition FillZero : Z := 1.
Definition FillRandom : Z := 2.

Definition SeekStart : Z := 0.
Definition SeekCurrent : Z := 1.

Definition endPointerLiteral : list byte :=
  take 32 (list_byte_of_string "END-POINTER" ++ replicate 21 Byte.x00).

(** [computeEndPointerChecksum]: the checksum, and [data] as the call
    leaves it, its first 32 bytes overwritten by the literal. *)
Definition computeEndPointerChecksum (data : list byte) (algo : Z)
    : Outcome (list byte * list byte) :=
  if len data <? 32 then Panic (panicSliceBounds 0 32)
  else
    let data := endPointerLiteral ++ drop 32 data in
    if algo =? EndPointerChecksumSHA256 then Ok (sha256.Sum256 data, data)
    else if algo =? EndPointerChecksumCRC32 then
      Ok (PutUint32 (crc32.Checksum data) ++ replicate 28 Byte.x00, data)
    else Panic (panicChecksumType algo).

Definition alignUp (n alignment : Z) : Z :=
  Z.land (int64 (n + int64 (alignment - 1))) (int64 (- alignment)).

Definition alignDown (n alignment : Z) : Z :=
  Z.land n (int64 (- alignment)).

(** [makeEndPointer]. *)
Definition makeEndPointer (pointTo checksumType : Z) : Outcome (list byte) :=
  let data := replicate 32 Byte.x00 ++ PutUint32 (uint32 pointTo) ++ replicate 476 Byte.x00 in
  '(sum, data) ← computeEndPointerChecksum data checksumType;
  Ok (take 32 sum ++ drop 32 data).

(** ** The writer's header and options *)

Record ArchiveHeaderWrite := {
  W_CvtmMagic : CvtmMagic;
  W_EndPointerChec : EndPointerChec;
  W_EndPointerLoca : list EndPointerLoca;
  W_EndingCipher : EndingCipher;
  W_EndingSize : EndingSize;
  W_GlobalLogLocat : list GlobalLogLocat;
  W_ImageArea : ImageArea;
  W_ImageBasic : ImageBasic;
  W_ImageLog : list ImageLog;
  W_Optional : list Entry }.

(** The fields of the struct as [forEachField] visits them. *)
Definition ArchiveHeaderWrite_fields (h : ArchiveHeaderWrite) : list Field :=
  [ FStruct (ECvtmMagic (W_CvtmMagic h));
    FStruct (EEndPointerChec (W_EndPointerChec h));
    FSlice TEndPointerLoca (map EEndPointerLoca (W_EndPointerLoca h));
    FStruct (EEndingCipher (W_EndingCipher h));
    FStruct (EEndingSize (W_EndingSize h));
    FSlice TGlobalLogLocat (map EGlobalLogLocat (W_GlobalLogLocat h));
    FStruct (EImageArea (W_ImageArea h));
    FStruct (EImageBasic (W_ImageBasic h));
    FSlice TImageLog (map EImageLog (W_ImageLog h));
    FInterfaces (W_Optional h) ].

(** [sizeOfHeader]. *)
Definition sizeOfHeader (h : ArchiveHeaderWrite) : Outcome Z :=
  b ← writeMultipleEntries (ArchiveHeaderWrite_fields h);
  Ok (len b).

Record LogConf := { LogConf_Size : Z }.

Module Conf.
Record NewArchiveOptions := {
  Output : File;
  DiskSize : Z;
  GlobalLogs : list LogConf;
  ImgLogs : list LogConf;
  EndPointersHead : Z;
  EndPointersTail : Z;
  EndingCipher : Z;
  EndPointerChecksum : Z;
  PublicKeyRSA : option rsa.PublicKey;
  ImgCipher : Z;
  ImgClusterSizeExp : Z;
  AlignmentBlocks : Z;
  FillMethod : Z }.
End Conf.
Abbreviation NewArchiveOptions := Conf.NewArchiveOptions.

(** What [WriteEmptyArchive] has worked out when it starts to write. *)
Record Layout := {
  L_header : ArchiveHeaderWrite;
  L_endingSize : Z;
  L_endPointerStart : Z;
  L_imgAreaStart : Z;
  L_imgAreaEnd : Z;
  L_sentinelEnd : Z }.

(** The loop over [conf.GlobalLogs]: the entries, and [imgAreaStart] after. *)
Fixpoint globalLogs (logs : list LogConf) (imgAreaStart alignment : Z)
    : list GlobalLogLocat * Z :=
  match logs with
  | [] => ([], imgAreaStart)
  | v :: logs =>
      let e := {| GlobalLogLocat_Start := uint32 imgAreaStart;
                  GlobalLogLocat_Count := LogConf_Size v |} in
      let '(es, s) := globalLogs logs
                        (int64 (imgAreaStart + alignUp (LogConf_Size v) alignment))
                        alignment in
      (e :: es, s)
  end.

(** The loop over the head end pointers. *)
Fixpoint headPointers (n : nat) (imgAreaStart alignment : Z)
    : list EndPointerLoca * Z :=
  match n with
  | O => ([], imgAreaStart)
  | S n =>
      let '(es, s) := headPointers n (int64 (imgAreaStart + alignment)) alignment in
      ({| Blk := uint32 imgAreaStart |} :: es, s)
  end.

(** The loop over the tail end pointers, for [i = first, first+1, ...]. *)
Fixpoint tailPointers (n : nat) (i imgAreaEnd alignment : Z) : list EndPointerLoca :=
  match n with
  | O => []
  | S n =>
      {| Blk := uint32 (uint32 imgAreaEnd + uint32 (uint32 i * uint32 alignment)) |}
      :: tailPointers n (i + 1) imgAreaEnd alignment
  end.

(** Lines 479-576 of [WriteEmptyArchive]: the header with its checksum, and
    the block numbers the rest of the function writes at. *)
Definition layout (conf : NewArchiveOptions) : Outcome Layout :=
  let alignment := Conf.AlignmentBlocks conf in
  let nLoca := uint64 (Conf.EndPointersHead conf + Conf.EndPointersTail conf) in
  '(endingSize, key) ←
    (if Conf.EndingCipher conf =? EndingCipherNull then Ok (1, [])
     else if Conf.EndingCipher conf =? EndingCipherRSA then
       match Conf.PublicKeyRSA conf with
       | None => Panic panicNilKey
       | Some k => Ok (uint32 (alignUp (rsa.Size k) BlockSize),
                       x509.MarshalPKCS1PublicKey k)
       end
     else Panic (panicUndefinedCipher (Conf.EndingCipher conf)));
  let skeleton :=
    {| W_CvtmMagic := {| CvtmMagic_Checksum := replicate 32 Byte.x00;
                         CvtmMagic_HeaderLength := 0 |};
       W_EndPointerChec := {| EndPointerChec_Algo := Conf.EndPointerChecksum conf |};
       W_EndPointerLoca := replicate (Z.to_nat nLoca) {| Blk := 0 |};
       W_EndingCipher := {| EndingCipher_Algo := Conf.EndingCipher conf;
                            EndingCipher_Key := key |};
       W_EndingSize := {| EndingSize_Size := endingSize |};
       W_GlobalLogLocat :=
         replicate (length (Conf.GlobalLogs conf))
           {| GlobalLogLocat_Start := 0; GlobalLogLocat_Count := 0 |};
       W_ImageArea := {| ImageArea_Start := 0; ImageArea_End := 0 |};
       W_ImageBasic := {| ImgCipher := Conf.ImgCipher conf;
                          ImgClusterSizeExp := Conf.ImgClusterSizeExp conf |};
       W_ImageLog := replicate (length (Conf.ImgLogs conf)) {| BlkCount := 0 |};
       W_Optional := [] |} in
  headerSize ← sizeOfHeader skeleton;
  let imgAreaStart := alignUp headerSize (int64 (alignment * BlockSize)) ÷ BlockSize in
  let imageLog := map (fun v => {| BlkCount := LogConf_Size v |}) (Conf.ImgLogs conf) in
  let '(globalLogLocat, imgAreaStart) :=
    globalLogs (Conf.GlobalLogs conf) imgAreaStart alignment in
  let endPointerStart := imgAreaStart in
  if nLoca <? Conf.EndPointersHead conf then Panic (panicIndex nLoca nLoca)
  else
    let '(headLoca, imgAreaStart) :=
      headPointers (Z.to_nat (Conf.EndPointersHead conf)) imgAreaStart alignment in
    let imgAreaEnd := alignDown (Conf.DiskSize conf ÷ BlockSize) alignment in
    let imgAreaEnd :=
      int64 (imgAreaEnd - int64 (alignment * int64 (Conf.EndPointersTail conf))) in
    let tailLoca :=
      tailPointers (Z.to_nat (Conf.EndPointersTail conf)) 0 imgAreaEnd alignment in
    let sentinelEnd := int64 (imgAreaStart + endingSize) in
    if sentinelEnd >? imgAreaEnd then Err (errNotEnoughSpace sentinelEnd imgAreaEnd)
    else
      let header :=
        {| W_CvtmMagic := {| CvtmMagic_Checksum := replicate 32 Byte.x00;
                             CvtmMagic_HeaderLength := uint32 headerSize |};
           W_EndPointerChec := W_EndPointerChec skeleton;
           W_EndPointerLoca := headLoca ++ tailLoca;
           W_EndingCipher := W_EndingCipher skeleton;
           W_EndingSize := W_EndingSize skeleton;
           W_GlobalLogLocat := globalLogLocat;
           W_ImageArea := {| ImageArea_Start := uint32 imgAreaStart;
                             ImageArea_End := uint32 imgAreaEnd |};
           W_ImageBasic := W_ImageBasic skeleton;
           W_ImageLog := imageLog;
           W_Optional := [] |} in
      hashed ← writeMultipleEntries (ArchiveHeaderWrite_fields header);
      let header :=
        {| W_CvtmMagic := {| CvtmMagic_Checksum := sha256.Sum256 hashed;
                             CvtmMagic_HeaderLength := uint32 headerSize |};
           W_EndPointerChec := W_EndPointerChec header;
           W_EndPointerLoca := W_EndPointerLoca header;
           W_EndingCipher := W_EndingCipher header;
           W_EndingSize := W_EndingSize header;
           W_GlobalLogLocat := W_GlobalLogLocat header;
           W_ImageArea := W_ImageArea header;
           W_ImageBasic := W_ImageBasic header;
           W_ImageLog := W_ImageLog header;
           W_Optional := W_Optional header |} in
      Ok {| L_header := header;
            L_endingSize := endingSize;
            L_endPointerStart := endPointerStart;
            L_imgAreaStart := imgAreaStart;
            L_imgAreaEnd := imgAreaEnd;
            L_sentinelEnd := sentinelEnd |}.

(** ** The fill writer

    [fillSeeker] over the buffered output.  The output is taken at offset 0,
    so the offset of the underlying file is [pos] throughout; the buffer of
    [bufWriteSeeker] holds back no byte past a [Seek] or the final [Flush]
    and is left out.  [consumed] counts the bytes taken from [randReader]. *)

Record fillSeeker := { target : File; pos : Z; method : Z; consumed : Z }.

Section Writer.

(** The bytes that [randReader] delivers, in order. *)
Variable randReader : Z -> byte.
Variable crypto : Crypto.

Definition fs_Write (w : fillSeeker) (p : list byte) : fillSeeker :=
  {| target := file_write (target w) (pos w) p;
     pos := int64 (pos w + len p);
     method := method w;
     consumed := consumed w |}.

(** [writeZeros]: [size & 511] zero bytes, then [size / 512] blocks of 512
    zero bytes, one after the other: [size] zero bytes in all. *)
Definition writeZeros (w : fillSeeker) (size : Z) : Outcome fillSeeker :=
  if size <? 0 then Panic (panicWriteBackwards size)
  else
    Ok {| target := file_put (target w) (pos w) size (fun _ => Byte.x00);
          pos := int64 (pos w + size);
          method := method w;
          consumed := consumed w |}.

(** [writeRandom]: [io.CopyN] of [size] bytes from [randReader]. *)
Definition writeRandom (w : fillSeeker) (size : Z) : Outcome fillSeeker :=
  if size <? 0 then Panic (panicWriteBackwards size)
  else
    Ok {| target := file_put (target w) (pos w) size (fun k => randReader (consumed w + k));
          pos := int64 (pos w + size);
          method := method w;
          consumed := consumed w + size |}.

(** [fillSeeker.Seek]. *)
Definition fs_Seek (w : fillSeeker) (offset whence : Z) : Outcome fillSeeker :=
  if ((whence =? SeekStart) && (offset =? pos w))
     || ((whence =? SeekCurrent) && (offset =? 0)) then Ok w
  else if method w =? FillSeek then
    let newpos := if whence =? SeekStart then offset
                  else if whence =? SeekCurrent then int64 (pos w + offset)
                  else int64 (fsize (target w) + offset) in
    if newpos <? 0 then Err (errSeek newpos)
    else Ok {| target := target w; pos := newpos; method := method w;
               consumed := consumed w |}
  else
    offset ← (if whence =? SeekStart then Ok (int64 (offset - pos w))
              else if whence =? SeekCurrent then Ok offset
              else Err (errSeekWhence whence));
    if offset <? 0 then Err (errFillBackwards (pos w) offset)
    else if method w =? FillZero then writeZeros w offset
    else if method w =? FillRandom then writeRandom w offset
    else Panic (panicFillMethod (method w)).

(** [alignWriter]. *)
Definition alignWriter (w : fillSeeker) (alignment : Z) : Outcome fillSeeker :=
  w ← fs_Seek w 0 SeekCurrent;
  let cur := pos w in
  fs_Seek w (Z.land (int64 (alignment - 1)) (int64 (- cur))) SeekCurrent.

(** [writeRepeatedly]. *)
Fixpoint writeRepeatedly (w : fillSeeker) (data : list byte) (repeat : nat)
    (alignment : Z) : Outcome fillSeeker :=
  match repeat with
  | O => Ok w
  | S repeat =>
      w ← alignWriter (fs_Write w data) alignment;
      writeRepeatedly w data repeat alignment
  end.

(** [writeImageEnding]; [ent] is a slice of [Entry] interfaces, which
    [forEachField] unwraps one by one. *)
Definition writeImageEnding (w : fillSeeker) (ent : list Entry) (cipher : Z)
    (key : option rsa.PublicKey) (blocks : Z) : Outcome fillSeeker :=
  data ← writeMultipleEntries (map FStruct ent);
  data ← (if cipher =? EndingCipherRSA then
            match key with
            | None => Panic panicNilKey
            | Some key =>
                match EncryptOAEP crypto key data with
                | Some c => Ok c
                | None => Err errEncryption
                end
            end
          else Ok data);
  let size := uint64 (blocks * BlockSize) in
  if len data >? size then Err (errEndingTooLong (len data) size)
  else
    let padTail := size - len data in
    let w := fs_Write w data in
    if padTail =? 0 then Ok w else writeRandom w padTail.

(** [WriteEmptyArchive]: the output file once the deferred [Flush] has run. *)
Definition WriteEmptyArchive (conf : NewArchiveOptions) : Outcome File :=
  let dest := {| target := Conf.Output conf; pos := 0;
                 method := Conf.FillMethod conf; consumed := 0 |} in
  let alignment := Conf.AlignmentBlocks conf in
  l ← layout conf;
  header ← writeMultipleEntries (ArchiveHeaderWrite_fields (L_header l));
  let dest := fs_Write dest header in
  dest ← writeZeros dest (int64 (int64 (L_endPointerStart l * BlockSize) - pos dest));
  endPointer ← makeEndPointer (uint32 (L_sentinelEnd l)) (Conf.EndPointerChecksum conf);
  dest ← writeRepeatedly dest endPointer (Z.to_nat (Conf.EndPointersHead conf))
           (int64 (alignment * BlockSize));
  dest ← fs_Seek dest (int64 (L_imgAreaStart l * BlockSize)) SeekStart;
  dest ← writeImageEnding dest [ENoMoreImages Build_NoMoreImages]
           (Conf.EndingCipher conf) (Conf.PublicKeyRSA conf) (L_endingSize l);
  dest ← fs_Seek dest (int64 (L_imgAreaEnd l * BlockSize)) SeekStart;
  dest ← writeRepeatedly dest endPointer (Z.to_nat (Conf.EndPointersTail conf))
           (int64 (alignment * BlockSize));
  dest ← fs_Seek dest (Conf.DiskSize conf) SeekStart;
  Ok (target dest).

End Writer.

(** ** The reader: parsing a region into a struct of entries *)

Definition maxHeaderSize : Z := 0x100000.
Definition maxEndingSize : Z := 32.

Record ArchiveHeaderRead := {
  R_AllocateOnce : AllocateOnce;
  R_EndPointerChec : EndPointerChec;
  R_EndPointerLoca : list EndPointerLoca;
  R_EndingCipher : EndingCipher;
  R_EndingSize : EndingSize;
  R_GlobalLogLocat : list GlobalLogLocat;
  R_ImageArea : ImageArea;
  R_ImageBasic : ImageBasic;
  R_ImageLog : list ImageLog;
  R_SdCid : SdCid }.

Record EndingRead := {
  ER_NoMoreImages : NoMoreImages;
  ER_Ending : Ending;
  ER_ImageKey : ImageKey;
  ER_ImageLogLocati : list ImageLogLocati }.

Record ExtractOptions := {
  File_ : File;
  PrivateKey : option rsa.PrivateKey;
  Overwrite : bool;
  Raw : bool }.

(** [parseEntry] over the elements of a bucket, in order. *)
Fixpoint parseAll (toParse : list entryRead) (t : EntryType) : Outcome (list Entry) :=
  match toParse with
  | [] => Ok []
  | e :: rest =>
      x ← parseEntry e (zero t);
      xs ← parseAll rest t;
      Ok (x :: xs)
  end.

(** The callback of [forEachField] in [parseEntries], on one field of the
    result struct: the field after the call, and [ent] without the bucket. *)
Definition parseField (ent : gmap EntryTypeID (list entryRead)) (v : Field)
    : Outcome (Field * gmap EntryTypeID (list entryRead)) :=
  match v with
  | FSlice t old =>
      let typeID := TypeToID t in
      let toParse := default [] (ent !! typeID) in
      if len toParse =? 0 then Ok (FSlice t old, delete typeID ent)
      else
        result ← parseAll toParse t;
        Ok (FSlice t result, delete typeID ent)
  | FStruct v =>
      let typeID := TypeToID (typeOf v) in
      match last (default [] (ent !! typeID)) with
      | None => Ok (FStruct v, delete typeID ent)
      | Some e =>
          v' ← parseEntry e v;
          Ok (FStruct v', delete typeID ent)
      end
  | FInterfaces _ => Panic panicBadType
  end.

Fixpoint parseFieldsOf (ent : gmap EntryTypeID (list entryRead)) (vs : list Field)
    : Outcome (list Field) :=
  match vs with
  | [] => Ok []
  | v :: rest =>
      '(v', ent) ← parseField ent v;
      rest' ← parseFieldsOf ent rest;
      Ok (v' :: rest')
  end.

(** [parseEntries]: the fields of [result] after the call. *)
Definition parseEntries (data : list byte) (bytesSkipped : Z) (result : list Field)
    : Outcome (list Field) :=
  ent ← splitEntries data bytesSkipped;
  parseFieldsOf ent result.

Definition asEndPointerLoca (e : Entry) : option EndPointerLoca :=
  match e with EEndPointerLoca x => Some x | _ => None end.
Definition asGlobalLogLocat (e : Entry) : option GlobalLogLocat :=
  match e with EGlobalLogLocat x => Some x | _ => None end.
Definition asImageLog (e : Entry) : option ImageLog :=
  match e with EImageLog x => Some x | _ => None end.
Definition asImageLogLocati (e : Entry) : option ImageLogLocati :=
  match e with EImageLogLocati x => Some x | _ => None end.

Definition ArchiveHeaderRead_zero : ArchiveHeaderRead :=
  {| R_AllocateOnce := {| AllocationIncrement := 0 |};
     R_EndPointerChec := {| EndPointerChec_Algo := 0 |};
     R_EndPointerLoca := [];
     R_EndingCipher := {| EndingCipher_Algo := 0; EndingCipher_Key := [] |};
     R_EndingSize := {| EndingSize_Size := 0 |};
     R_GlobalLogLocat := [];
     R_ImageArea := {| ImageArea_Start := 0; ImageArea_End := 0 |};
     R_ImageBasic := {| ImgCipher := 0; ImgClusterSizeExp := 0 |};
     R_ImageLog := [];
     R_SdCid := {| SdCid_SdCid := replicate 15 Byte.x00 |} |}.

Definition ArchiveHeaderRead_fields (h : ArchiveHeaderRead) : list Field :=
  [ FStruct (EAllocateOnce (R_AllocateOnce h));
    FStruct (EEndPointerChec (R_EndPointerChec h));
    FSlice TEndPointerLoca (map EEndPointerLoca (R_EndPointerLoca h));
    FStruct (EEndingCipher (R_EndingCipher h));
    FStruct (EEndingSize (R_EndingSize h));
    FSlice TGlobalLogLocat (map EGlobalLogLocat (R_GlobalLogLocat h));
    FStruct (EImageArea (R_ImageArea h));
    FStruct (EImageBasic (R_ImageBasic h));
    FSlice TImageLog (map EImageLog (R_ImageLog h));
    FStruct (ESdCid (R_SdCid h)) ].

(** The struct whose fields are [fs]; a field of another shape keeps the
    value it has in [h]. *)
Definition ArchiveHeaderRead_set (h : ArchiveHeaderRead) (fs : list Field)
    : ArchiveHeaderRead :=
  {| R_AllocateOnce :=
       match fs !! 0%nat with Some (FStruct (EAllocateOnce x)) => x | _ => R_AllocateOnce h end;
     R_EndPointerChec :=
       match fs !! 1%nat with Some (FStruct (EEndPointerChec x)) => x | _ => R_EndPointerChec h end;
     R_EndPointerLoca :=
       match fs !! 2%nat with Some (FSlice _ xs) => omap asEndPointerLoca xs | _ => R_EndPointerLoca h end;
     R_EndingCipher :=
       match fs !! 3%nat with Some (FStruct (EEndingCipher x)) => x | _ => R_EndingCipher h end;
     R_EndingSize :=
       match fs !! 4%nat with Some (FStruct (EEndingSize x)) => x | _ => R_EndingSize h end;
     R_GlobalLogLocat :=
       match fs !! 5%nat with Some (FSlice _ xs) => omap asGlobalLogLocat xs | _ => R_GlobalLogLocat h end;
     R_ImageArea :=
       match fs !! 6%nat with Some (FStruct (EImageArea x)) => x | _ => R_ImageArea h end;
     R_ImageBasic :=
       match fs !! 7%nat with Some (FStruct (EImageBasic x)) => x | _ => R_ImageBasic h end;
     R_ImageLog :=
       match fs !! 8%nat with Some (FSlice _ xs) => omap asImageLog xs | _ => R_ImageLog h end;
     R_SdCid :=
       match fs !! 9%nat with Some (FStruct (ESdCid x)) => x | _ => R_SdCid h end |}.

Definition EndingRead_zero : EndingRead :=
  {| ER_NoMoreImages := Build_NoMoreImages;
     ER_Ending := {| Ending_Length := 0; Ending_Start := 0; Ending_Prev := 0;
                     DataClusterCount := 0; ClusterSizeExp := 0; ClustersOffset := 0 |};
     ER_ImageKey := {| ImageKey_Key := [] |};
     ER_ImageLogLocati := [] |}.

Definition EndingRead_fields (e : EndingRead) : list Field :=
  [ FStruct (ENoMoreImages (ER_NoMoreImages e));
    FStruct (EEnding (ER_Ending e));
    FStruct (EImageKey (ER_ImageKey e));
    FSlice TImageLogLocati (map EImageLogLocati (ER_ImageLogLocati e)) ].

Definition EndingRead_set (e : EndingRead) (fs : list Field) : EndingRead :=
  {| ER_NoMoreImages :=
       match fs !! 0%nat with Some (FStruct (ENoMoreImages x)) => x | _ => ER_NoMoreImages e end;
     ER_Ending :=
       match fs !! 1%nat with Some (FStruct (EEnding x)) => x | _ => ER_Ending e end;
     ER_ImageKey :=
       match fs !! 2%nat with Some (FStruct (EImageKey x)) => x | _ => ER_ImageKey e end;
     ER_ImageLogLocati :=
       match fs !! 3%nat with Some (FSlice _ xs) => omap asImageLogLocati xs | _ => ER_ImageLogLocati e end |}.

(** ** bufio.Reader over a file

    [bufio.NewReader(f)] has a buffer of 4096 bytes.  [br_off] is the
    offset of the underlying file, [br_buf] the bytes read ahead and not
    yet handed out.  A read of the underlying file returns all the bytes it
    is asked for, or those left before the end. *)

Record bufReader := { br_file : File; br_off : Z; br_buf : list byte }.

Definition bufio_NewReader (f : File) (off : Z) : bufReader :=
  {| br_file := f; br_off := off; br_buf := [] |}.

(** [bufio.Reader.Read(p)] with [len(p) = n]: the bytes stored in [p]. *)
Definition bufio_Read (r : bufReader) (n : Z) : Outcome (list byte * bufReader) :=
  if n =? 0 then Ok ([], r)
  else if len (br_buf r) =? 0 then
    let left := Z.max 0 (fsize (br_file r) - br_off r) in
    if left =? 0 then Err io_EOF
    else if 4096 <=? n then
      let k := Z.min n left in
      Ok (file_bytes (br_file r) (br_off r) k,
          {| br_file := br_file r; br_off := br_off r + k; br_buf := [] |})
    else
      let k := Z.min 4096 left in
      let buf := file_bytes (br_file r) (br_off r) k in
      Ok (take (Z.to_nat n) buf,
          {| br_file := br_file r; br_off := br_off r + k;
             br_buf := drop (Z.to_nat n) buf |})
  else
    Ok (take (Z.to_nat n) (br_buf r),
        {| br_file := br_file r; br_off := br_off r;
           br_buf := drop (Z.to_nat n) (br_buf r) |}).

(** [io.ReadFull(r, buf)] with [len(buf) = n], [got] being the bytes read
    so far.  Every [Read] that goes on yields a byte, so [n] turns are
    enough. *)
Fixpoint io_ReadFull_loop (fuel : nat) (r : bufReader) (n : Z) (got : list byte)
    : Outcome (list byte * bufReader) :=
  if n <=? len got then Ok (got, r)
  else
    match fuel with
    | O => Panic panicFuel
    | S fuel =>
        match bufio_Read r (n - len got) with
        | Ok (b, r) => io_ReadFull_loop fuel r n (got ++ b)
        | Err io_EOF => if len got =? 0 then Err io_EOF else Err io_ErrUnexpectedEOF
        | Err e => Err e
        | Panic p => Panic p
        end
    end.

Definition io_ReadFull (r : bufReader) (n : Z) : Outcome (list byte * bufReader) :=
  io_ReadFull_loop (Z.to_nat n) r n [].

(** ** The reader: header, end pointers, endings *)

Section Reader.

Variable crypto : Crypto.

Definition set_EndingSize (h : ArchiveHeaderRead) (n : Z) : ArchiveHeaderRead :=
  {| R_AllocateOnce := R_AllocateOnce h;
     R_EndPointerChec := R_EndPointerChec h;
     R_EndPointerLoca := R_EndPointerLoca h;
     R_EndingCipher := R_EndingCipher h;
     R_EndingSize := {| EndingSize_Size := n |};
     R_GlobalLogLocat := R_GlobalLogLocat h;
     R_ImageArea := R_ImageArea h;
     R_ImageBasic := R_ImageBasic h;
     R_ImageLog := R_ImageLog h;
     R_SdCid := R_SdCid h |}.

(** The test of one end pointer in the loop of [checkArchiveHeader]. *)
Definition endPointerPlaced (header : ArchiveHeaderRead) (headerBlks : Z)
    (e : EndPointerLoca) : bool :=
  ((Blk e >=? headerBlks) && (Blk e <? ImageArea_Start (R_ImageArea header)))
  || (Blk e >=? ImageArea_End (R_ImageArea header)).

(** [checkArchiveHeader]: the errors collected, in order. *)
Definition checkArchiveHeader_errs (options : ExtractOptions)
    (header : ArchiveHeaderRead) (headerSize : Z) : list error :=
  let errs := [] in
  let errs :=
    if EndingSize_Size (R_EndingSize header) >? maxEndingSize
    then errs ++ [errEndingTooBig (EndingSize_Size (R_EndingSize header))]
    else errs in
  let algo := EndingCipher_Algo (R_EndingCipher header) in
  let errs :=
    if algo =? EndingCipherNull then errs
    else if algo =? EndingCipherRSA then
      match ParsePKCS1PublicKey crypto (EndingCipher_Key (R_EndingCipher header)) with
      | None => errs
      | Some pub =>
          match PrivateKey options with
          | None => errs ++ [errNoPrivateKey]
          | Some _ => errs
          end
      end
    else errs ++ [unknownEnum "EndingCipher.Algo" algo] in
  let errs :=
    if EndPointerChec_Algo (R_EndPointerChec header) >? 2
    then errs ++ [unknownEnum "EndPointerChec.Algo"
                    (EndPointerChec_Algo (R_EndPointerChec header))]
    else errs in
  let errs :=
    if len (R_EndPointerLoca header) =? 0 then errs ++ [errNoEndPointers] else errs in
  let headerBlks := uint32 (headerSize + (BlockSize - 1)) / BlockSize in
  errs ++ flat_map
            (fun e => if endPointerPlaced header headerBlks e then []
                      else [errBadEndPointerLocation (Blk e)])
            (R_EndPointerLoca header).

Definition checkArchiveHeader (options : ExtractOptions)
    (header : ArchiveHeaderRead) (headerSize : Z) : Outcome unit :=
  let errs := checkArchiveHeader_errs options header headerSize in
  if len errs =? 0 then Ok tt else Err (errorList errs).

(** The loop [for i := 20; i < 52; i++ { data[i] = 0 }] over a header of
    at least 56 bytes. *)
Definition zeroChecksum (data : list byte) : list byte :=
  take 20 data ++ replicate 32 Byte.x00 ++ drop 52 data.

(** [readArchiveHeader]: [result] after the call. *)
Definition readArchiveHeader (options : ExtractOptions) (result : ArchiveHeaderRead)
    : Outcome ArchiveHeaderRead :=
  let infile := bufio_NewReader (File_ options) 0 in
  '(data, infile) ← bufio_Read infile 56;
  if negb (len data =? 56) then Err errEarlyEOF
  else if negb (bool_decide (IdCvtmMagic = take 16 data)) then Err errBadMagic
  else
    let firstEntSize := Uint32 (drop 16 data) in
    if firstEntSize <? 56 then Err (errBadEntrySize firstEntSize)
    else
      (* binary.Read of data[20:] into firstEnt *)
      let headerSize := Uint32 (drop 52 data) in
      if headerSize <? firstEntSize then Err (errBadHeaderSize headerSize)
      else if headerSize >? maxHeaderSize then Err (errHeaderTooBig headerSize)
      else
        '(rest, infile) ← bufio_Read infile (headerSize - 56);
        if negb (len rest =? uint32 (headerSize - 56)) then Err errEarlyEOF
        else
          let data := data ++ rest in
          let checksum1 := take 32 (drop 20 data) in
          let data := zeroChecksum data in
          let checksum2 := sha256.Sum256 data in
          if negb (bool_decide (checksum1 = checksum2)) then Err errBadChecksum
          else
            tail ← sliceOf data firstEntSize (len data);
            fields ← parseEntries tail firstEntSize (ArchiveHeaderRead_fields result);
            let result := ArchiveHeaderRead_set result fields in
            let result :=
              if EndingSize_Size (R_EndingSize result) =? 0
              then set_EndingSize result 1 else result in
            _ ← checkArchiveHeader options result headerSize;
            Ok result.

(** The goroutine of [findEnd] for the end pointer at byte [at_byte]: the
    value it sends. *)
Definition readEndPointer (infile : File) (header : ArchiveHeaderRead) (at_byte : Z)
    : Outcome Z :=
  match ReadAt infile BlockSize at_byte with
  | Err _ => Ok 0
  | Panic p => Panic p
  | Ok buf =>
      let chkSum := take 32 buf in
      '(sum, buf) ← computeEndPointerChecksum buf
                      (EndPointerChec_Algo (R_EndPointerChec header));
      if negb (bool_decide (chkSum = sum)) then Ok 0
      else Ok (BlockSize * Uint32 (drop 32 buf))
  end.

(** [findEnd]: the greatest value sent, whatever the order of arrival. *)
Fixpoint findEnd_loop (infile : File) (header : ArchiveHeaderRead)
    (loca : list EndPointerLoca) (bytePos : Z) : Outcome Z :=
  match loca with
  | [] => Ok bytePos
  | ent :: loca =>
      a ← readEndPointer infile header (BlockSize * Blk ent);
      findEnd_loop infile header loca (if a >? bytePos then a else bytePos)
  end.

Definition findEnd (infile : File) (header : ArchiveHeaderRead) : Outcome Z :=
  findEnd_loop infile header (R_EndPointerLoca header) 0.

(** [readEnding]: [result] after the call.  A decrypted ending is taken
    with its capacity equal to its length. *)
Definition readEnding (end_ : Z) (result : EndingRead) (options : ExtractOptions)
    (header : ArchiveHeaderRead) : Outcome EndingRead :=
  let size := BlockSize * EndingSize_Size (R_EndingSize header) in
  if end_ <? size then Err (errBadEndPointer end_)
  else
    data ← ReadAt (File_ options) size (end_ - size);
    let algo := EndingCipher_Algo (R_EndingCipher header) in
    data ← (if algo =? EndingCipherNull then Ok data
            else if algo =? EndingCipherRSA then
              match PrivateKey options with
              | None => Panic panicNilKey
              | Some key =>
                  match DecryptOAEP crypto key data with
                  | Some m => Ok m
                  | None => Err errDecryption
                  end
              end
            else Panic (panicUndefinedCipher algo));
    id ← sliceOf data 0 16;
    if bool_decide (IdNoMoreImages = id) then Err errNoMoreImages
    else if negb (bool_decide (IdEnding = id)) then Err (errBadEndingMagic id)
    else
      szb ← sliceOf data 20 24;
      let size1 := Uint32 szb in
      if size1 >? size then Err (errBadEndingSize size1)
      else
        data ← sliceOf data 0 size1;
        fields ← parseEntries data 0 (EndingRead_fields result);
        Ok (EndingRead_set result fields).

End Reader.

(** ** The QCOW2 synthesizer *)

Record qcow3Header := {
  Magic : Z;
  Version : Z;
  BackingFileOffset : Z;
  BackingFileSize : Z;
  ClusterBits : Z;
  Size : Z;
  CryptMethod : Z;
  L1Size : Z;
  L1TableOffset : Z;
  RefcountTableOffset : Z;
  RefcountTableClusters : Z;
  NbSnapshots : Z;
  SnapshotsOffset : Z;
  IncompatibleFeatures : Z;
  CompatibleFeatures : Z;
  AutoclearFeatures : Z;
  RefcountOrder : Z;
  HeaderLength : Z }.

(** [binary.Write(dest, binary.BigEndian, qcow3Header{...})]: 104 bytes. *)
Definition qcow3Header_bytes (h : qcow3Header) : list byte :=
  be_split 4 (Magic h) ++ be_split 4 (Version h) ++ be_split 8 (BackingFileOffset h)
  ++ be_split 4 (BackingFileSize h) ++ be_split 4 (ClusterBits h) ++ be_split 8 (Size h)
  ++ be_split 4 (CryptMethod h) ++ be_split 4 (L1Size h) ++ be_split 8 (L1TableOffset h)
  ++ be_split 8 (RefcountTableOffset h) ++ be_split 4 (RefcountTableClusters h)
  ++ be_split 4 (NbSnapshots h) ++ be_split 8 (SnapshotsOffset h)
  ++ be_split 8 (IncompatibleFeatures h) ++ be_split 8 (CompatibleFeatures h)
  ++ be_split 8 (AutoclearFeatures h) ++ be_split 4 (RefcountOrder h)
  ++ be_split 4 (HeaderLength h).

(** [sort.Ints], as an insertion sort. *)
Fixpoint insertInt (x : Z) (l : list Z) : list Z :=
  match l with
  | [] => [x]
  | y :: l' => if x <=? y then x :: l else y :: insertInt x l'
  end.

Definition sort_Ints (l : list Z) : list Z := foldr insertInt [] l.

(** [sort.SearchInts(a, x)] on a sorted slice: the smallest index whose
    element is at least [x], [len(a)] when there is none. *)
Fixpoint sort_SearchInts (a : list Z) (x : Z) : Z :=
  match a with
  | [] => 0
  | y :: a' => if x <=? y then 0 else 1 + sort_SearchInts a' x
  end.

(** [io.CopyN(dest, src, n)]: the two files' offsets move by [n]; a source
    that ends early is [io.EOF], and a count below 1 copies nothing. *)
Definition io_CopyN (dest : File) (dpos : Z) (src : File) (soff n : Z)
    : Outcome (File * Z * Z) :=
  if n <=? 0 then Ok (dest, dpos, soff)
  else if soff + n <=? fsize src then
    Ok (file_put dest dpos n (fun k => fdata src (soff + k)), dpos + n, soff + n)
  else Err io_EOF.

(** The numbers that [extractImage] derives from the ending. *)
Record Geometry := {
  G_start : Z;
  G_allocatedBytes : Z;
  G_clusterExp : Z;
  G_allocatedClusters : Z;
  G_l1Start : Z;
  G_l1Len : Z;
  G_l1ClusterCount : Z;
  G_regularClustersEntryOffset : Z }.

Definition geometry (end_ : Z) (ending : EndingRead) : Geometry :=
  let e := ER_Ending ending in
  let start := BlockSize * Ending_Start e in
  let clusterExp := uint8 (9 + ClusterSizeExp e) in
  let l1Start := uint64 (Z.shiftl 1 clusterExp) in
  let l1Len :=
    int32 (- Z.shiftr (int32 (uint32 (- DataClusterCount e))) (uint8 (clusterExp - 2))) in
  let l1ClusterCount := int64 (- Z.shiftr (- l1Len) (uint8 (clusterExp - 4))) in
  {| G_start := start;
     G_allocatedBytes := int64 (end_ - start);
     G_clusterExp := clusterExp;
     G_allocatedClusters :=
       Z.shiftr (int64 (int64 (end_ - start) + 512 * ClustersOffset e)) clusterExp;
     G_l1Start := l1Start;
     G_l1Len := l1Len;
     G_l1ClusterCount := l1ClusterCount;
     G_regularClustersEntryOffset :=
       Z.lor 0x8000000000000000
         (uint64 (l1Start + uint64 (Z.shiftl (uint64 l1ClusterCount) clusterExp))) |}.

(** The closure [readIndex]. *)
Definition readIndex (allocatedClusters : Z) (r : bufReader) : Outcome (Z * bufReader) :=
  '(b, r) ← io_ReadFull r 4;
  let result := int32 (le_combine b) in
  if result <? 0 then Ok (result, r)
  else if result >? allocatedClusters then Ok (-1, r)
  else Ok (result, r).

Fixpoint readIndices (allocatedClusters : Z) (r : bufReader) (n : nat)
    : Outcome (list Z * bufReader) :=
  match n with
  | O => Ok ([], r)
  | S n =>
      '(x, r) ← readIndex allocatedClusters r;
      '(xs, r) ← readIndices allocatedClusters r n;
      Ok (x :: xs, r)
  end.

(** The header that [extractImage] writes. *)
Definition qcowHeader (g : Geometry) (ending : EndingRead) : qcow3Header :=
  {| Magic := 0x514649fb;
     Version := 3;
     BackingFileOffset := 0;
     BackingFileSize := 0;
     ClusterBits := G_clusterExp g;
     Size := uint64 (Z.shiftl (DataClusterCount (ER_Ending ending)) (G_clusterExp g));
     CryptMethod := 0;
     L1Size := uint32 (2 * G_l1Len g);
     L1TableOffset := G_l1Start g;
     RefcountTableOffset := uint64 (Z.shiftl 1 (G_clusterExp g));
     RefcountTableClusters := 1;
     NbSnapshots := 0;
     SnapshotsOffset := 0;
     IncompatibleFeatures := 1;
     CompatibleFeatures := 0;
     AutoclearFeatures := 0;
     RefcountOrder := 0;
     HeaderLength := 104 |}.

(** Where a source cluster goes: [regularClustersEntryOffset] plus the
    cluster and the tables doubled before it. *)
Definition clusterEntry (g : Geometry) (l2AtSrc : list Z) (c : Z) : Z :=
  uint64 (G_regularClustersEntryOffset g
          + uint64 (Z.shiftl (uint64 (uint64 (sort_SearchInts l2AtSrc c) + uint64 c))
                      (G_clusterExp g))).

(** The 16 bytes of the L1 table for one entry of [l1Data]. *)
Definition l1Entry (g : Geometry) (l2AtSrc : list Z) (l2 : Z) : list byte :=
  if l2 <? 0 then replicate 16 Byte.x00
  else
    let at_ := clusterEntry g l2AtSrc l2 in
    be_split 8 at_ ++ be_split 8 (uint64 (at_ + uint64 (Z.shiftl 1 (G_clusterExp g)))).

(** One L2 table of the output: the entries read, each as 8 bytes. *)
Definition l2Entry (g : Geometry) (l2AtSrc : list Z) (entIn : Z) : list byte :=
  be_split 8 (if entIn <? 0 then 0 else clusterEntry g l2AtSrc entIn).

(** The copying state of [extractImage]: the output and its offset, the
    offset of the archive, and [lastL2]. *)
Record CopyState := { cs_dest : File; cs_dpos : Z; cs_soff : Z; cs_lastL2 : Z }.

(** One turn of the loop over [l2AtSrc]. *)
Definition copyTable (src : File) (g : Geometry) (l2AtSrc : list Z)
    (st : CopyState) (l2 : Z) : Outcome CopyState :=
  '(dest, dpos, soff) ←
    io_CopyN (cs_dest st) (cs_dpos st) src (cs_soff st)
      (int64 (Z.shiftl (l2 - cs_lastL2 st) (G_clusterExp g)));
  let count := int64 (Z.shiftl 1 (uint8 (G_clusterExp g - 2))) in
  '(ents, r) ← readIndices (G_allocatedClusters g) (bufio_NewReader src soff)
                 (Z.to_nat count);
  let table := concat (map (l2Entry g l2AtSrc) ents) in
  Ok {| cs_dest := file_write dest dpos table;
        cs_dpos := dpos + len table;
        cs_soff := br_off r;
        cs_lastL2 := l2 |}.

Fixpoint copyTables (src : File) (g : Geometry) (l2AtSrc : list Z)
    (st : CopyState) (todo : list Z) : Outcome CopyState :=
  match todo with
  | [] => Ok st
  | l2 :: todo =>
      st ← copyTable src g l2AtSrc st l2;
      copyTables src g l2AtSrc st todo
  end.

(** [extractImage]: the output file, which is new or truncated. *)
Definition extractImage (options : ExtractOptions) (index end_ : Z)
    (header : ArchiveHeaderRead) (ending : EndingRead) : Outcome File :=
  let g := geometry end_ ending in
  let start := G_start g in
  if start >? end_ then Err errStartAfterEnd
  else
    let allocatedBytes := G_allocatedBytes g in
    let dest := emptyFile in
    let src := File_ options in
    if Raw options then
      '(dest, _, _) ← io_CopyN dest 0 src start allocatedBytes;
      Ok dest
    else if G_l1Len g <? 0 then Panic (panicMakeLen (G_l1Len g))
    else
      '(l1Data, _) ← readIndices (G_allocatedClusters g) (bufio_NewReader src start)
                        (Z.to_nat (G_l1Len g));
      let l2AtSrc := sort_Ints (filter (fun v => 0 <= v) l1Data) in
      let dest := file_write dest 0 (qcow3Header_bytes (qcowHeader g ending)) in
      let l1At := int64 (G_l1Start g) in
      if l1At <? 0 then Err (errSeek l1At)
      else
        let dest := file_write dest l1At (concat (map (l1Entry g l2AtSrc) l1Data)) in
        let dpos := int64 (Z.land (G_regularClustersEntryOffset g) 0x7fffffffffffffff) in
        let soff := int64 (start + 512 * ClustersOffset (ER_Ending ending)) in
        st ← copyTables src g l2AtSrc
               {| cs_dest := dest; cs_dpos := dpos; cs_soff := soff; cs_lastL2 := 0 |}
               l2AtSrc;
        '(dest, _, _) ←
          io_CopyN (cs_dest st) (cs_dpos st) src (cs_soff st)
            (int64 (allocatedBytes - int64 (Z.shiftl (cs_lastL2 st) (G_clusterExp g))));
        Ok dest.

(** ** ExtractArchive *)

Section Extract.

Variable crypto : Crypto.

(** The test at the top of the loop of [ExtractArchive]. *)
Inductive Guard : Type := GuardOutside | GuardStop | GuardGoOn.

Definition walkGuard (endAt : Z) (header : ArchiveHeaderRead) : Guard :=
  if endAt <=? ImageArea_Start (R_ImageArea header) then GuardOutside
  else if endAt =? ImageArea_Start (R_ImageArea header) then GuardStop
  else GuardGoOn.

(** The loop of [ExtractArchive]: the images extracted, the latest first. *)
Fixpoint walk (fuel : nat) (options : ExtractOptions) (header : ArchiveHeaderRead)
    (index endAt : Z) (images : list File) : Outcome (list File) :=
  match fuel with
  | O => Panic panicFuel
  | S fuel =>
      match walkGuard endAt header with
      | GuardOutside => Err (errOutsideImageArea endAt)
      | GuardStop => Ok images
      | GuardGoOn =>
          match readEnding crypto endAt EndingRead_zero options header with
          | Err errNoMoreImages => Ok images
          | Err e => Err e
          | Panic p => Panic p
          | Ok ending =>
              match extractImage options index
                      (endAt - BlockSize * EndingSize_Size (R_EndingSize header))
                      header ending with
              | Err e => Err (errExtracting endAt e)
              | Panic p => Panic p
              | Ok image =>
                  let endAtNext := BlockSize * Ending_Prev (ER_Ending ending) in
                  if endAtNext >=? endAt then Err (errNotBackwards endAtNext endAt)
                  else walk fuel options header (index + 1) endAtNext (images ++ [image])
              end
          end
      end
  end.

(** [ExtractArchive]: the images written.  [endAt] is a multiple of 512 and
    goes down at every turn, so [endAt / 512 + 2] turns are enough. *)
Definition ExtractArchive (options : ExtractOptions) : Outcome (list File) :=
  header ← readArchiveHeader crypto options ArchiveHeaderRead_zero;
  endAt ← findEnd (File_ options) header;
  if endAt =? 0 then Err errNoValidEndPointer
  else walk (Z.to_nat (endAt / BlockSize) + 2) options header 0 endAt [].

End Extract.

(** ** Legal payloads

    A payload is legal when every field is in the range of its Go type
    and the entry's length fits the 32-bit length field. *)

Definition wfValue (v : Value) : Prop :=
  match v with
  | VUint32 x => 0 <= x < 2 ^ 32
  | VUint8 x => 0 <= x < 2 ^ 8
  | VArray n b => length b = n
  | VSlice _ => True
  end.

(** Two values of the same Go type. *)
Definition sameKind (v d : Value) : Prop :=
  match v, d with
  | VUint32 _, VUint32 _ | VUint8 _, VUint8 _ | VSlice _, VSlice _ => True
  | VArray n _, VArray m _ => n = m
  | _, _ => False
  end.

(** A slice field, if there is one, is the last field of the struct. *)
Fixpoint sliceLast (vs : list Value) : Prop :=
  match vs with
  | [] => True
  | VSlice _ :: rest => rest = []
  | _ :: rest => sliceLast rest
  end.

(** The slice field of a zero value is nil. *)
Definition zeroLike (d : Value) : Prop :=
  match d with VSlice b => b = [] | _ => True end.

Definition legal (p : Entry) : Prop :=
  Forall wfValue (fieldsOf p) /\ 20 + len (bare p) < 2 ^ 32.

(** The fixed part of a struct: the bytes its fields of fixed size take. *)
Fixpoint fixedSize (vs : list Value) : Z :=
  match vs with
  | [] => 0
  | VSlice _ :: rest => fixedSize rest
  | v :: rest => sizeofField v + fixedSize rest
  end.

(** An [ENDING] entry and an [ENDING-CIPHER] entry with key bytes. *)
Definition exampleEnding : Entry :=
  EEnding {| Ending_Length := 41; Ending_Start := 256; Ending_Prev := 0;
             DataClusterCount := 4; ClusterSizeExp := 3; ClustersOffset := 8 |}.

Definition exampleEndingCipher : Entry :=
  EEndingCipher {| EndingCipher_Algo := 1;
                   EndingCipher_Key := [Byte.x30; Byte.x0d; Byte.x02; Byte.x01] |}.

(** ** Archives and endings used as examples *)

(** A crypto library that is never reached when the ending cipher is null. *)
Definition noCrypto : Crypto :=
  {| ParsePKCS1PublicKey := fun _ => None;
     EncryptOAEP := fun _ _ => None;
     DecryptOAEP := fun _ _ => None |}.

(** A crypto library whose ciphertexts have the length of the modulus. *)
Definition sizedCrypto : Crypto :=
  {| ParsePKCS1PublicKey := fun _ => None;
     EncryptOAEP := fun k _ => Some (replicate (Z.to_nat (rsa.Size k)) Byte.x5a);
     DecryptOAEP := fun _ _ => None |}.

Definition exampleRandom (k : Z) : byte := byte.of_Z (7 * k + 3).

(** 16 MiB, allocation units of 64 KiB, one end pointer at each end, null
    ending cipher, zero fill. *)
Definition confNull : NewArchiveOptions :=
  {| Conf.Output := emptyFile;
     Conf.DiskSize := 16 * 1024 * 1024;
     Conf.GlobalLogs := [];
     Conf.ImgLogs := [];
     Conf.EndPointersHead := 1;
     Conf.EndPointersTail := 1;
     Conf.EndingCipher := EndingCipherNull;
     Conf.EndPointerChecksum := EndPointerChecksumSHA256;
     Conf.PublicKeyRSA := None;
     Conf.ImgCipher := ImgCipherNull;
     Conf.ImgClusterSizeExp := 3;
     Conf.AlignmentBlocks := 128;
     Conf.FillMethod := FillZero |}.

(** A public key with a modulus of 2048 bits. *)
Definition key2048 : rsa.PublicKey := {| rsa.N := 2 ^ 2048 - 1; rsa.E := 65537 |}.

(** 1 MiB, allocation units of 4 KiB, RSA ending cipher with [key2048]. *)
Definition confRSA : NewArchiveOptions :=
  {| Conf.Output := emptyFile;
     Conf.DiskSize := 1024 * 1024;
     Conf.GlobalLogs := [];
     Conf.ImgLogs := [];
     Conf.EndPointersHead := 1;
     Conf.EndPointersTail := 1;
     Conf.EndingCipher := EndingCipherRSA;
     Conf.EndPointerChecksum := EndPointerChecksumSHA256;
     Conf.PublicKeyRSA := Some key2048;
     Conf.ImgCipher := ImgCipherNull;
     Conf.ImgClusterSizeExp := 3;
     Conf.AlignmentBlocks := 8;
     Conf.FillMethod := FillZero |}.

Definition optionsFor (f : File) (key : option rsa.PrivateKey) : ExtractOptions :=
  {| File_ := f; PrivateKey := key; Overwrite := false; Raw := false |}.

(** The archive of [confNull] with both end pointers rewritten to point at
    block 256, the start of its image area. *)
Definition archiveEndingAtStart : Outcome File :=
  f ← WriteEmptyArchive exampleRandom noCrypto confNull;
  ep ← makeEndPointer 256 EndPointerChecksumSHA256;
  Ok (file_write (file_write f (128 * 512) ep) (32640 * 512) ep).

(** The file [f] with bit [bit] of the byte at [off] flipped. *)
Definition flipBit (f : File) (off bit : Z) : File :=
  {| fdata := fun i => if i =? off
                       then byte.of_Z (Z.lxor (byte.unsigned (fdata f i)) (2 ^ bit))
                       else fdata f i;
     fsize := fsize f |}.

(** An ending with clusters of 4 KiB and 4 data clusters, and one whose
    cluster size exponent is 22. *)
Definition ending4K : EndingRead :=
  {| ER_NoMoreImages := Build_NoMoreImages;
     ER_Ending := {| Ending_Length := 41; Ending_Start := 256; Ending_Prev := 0;
                     DataClusterCount := 4; ClusterSizeExp := 3; ClustersOffset := 8 |};
     ER_ImageKey := {| ImageKey_Key := [] |};
     ER_ImageLogLocati := [] |}.

Definition endingExp22 : EndingRead :=
  {| ER_NoMoreImages := Build_NoMoreImages;
     ER_Ending := {| Ending_Length := 41; Ending_Start := 256; Ending_Prev := 0;
                     DataClusterCount := 0; ClusterSizeExp := 22; ClustersOffset := 0 |};
     ER_ImageKey := {| ImageKey_Key := [] |};
     ER_ImageLogLocati := [] |}.

(** A source L2 table of [n] entries: [ents], then unallocated entries. *)
Definition l2table (ents : list Z) (n : nat) : list byte :=
  concat (map (le_split 4) ents)
  ++ concat (replicate (n - length ents) (le_split 4 (-1))).

(** An archive holding, from block 256 on, an image with clusters of 4 KiB:
    a top-level index with the one entry 0, the L2 table in cluster 0 with
    the one entry 1, and the data cluster 1.  [end4K] is where the image
    ends. *)
Definition archive4K : File :=
  let f := file_put emptyFile 0 (256 * 512 + 65536) (fun _ => Byte.x00) in
  let f := file_write f (256 * 512) (le_split 4 0) in
  file_write f (256 * 512 + 4096) (l2table [1] 1024).

Definition end4K : Z := 256 * 512 + 3 * 4096.

(** [m] returns a value, and the value satisfies [P]. *)
Definition holds {A} (m : Outcome A) (P : A -> Prop) : Prop :=
  match m with Ok a => P a | _ => False end.

(** [options] with another file to read. *)
Definition withFile (o : ExtractOptions) (f : File) : ExtractOptions :=
  {| File_ := f; PrivateKey := PrivateKey o; Overwrite := Overwrite o; Raw := Raw o |}.

(** The empty archive that [WriteEmptyArchive] writes for [confNull]. *)
Definition archiveNull : File :=
  match WriteEmptyArchive exampleRandom noCrypto confNull with
  | Ok f => f
  | _ => emptyFile
  end.

(** [l] is in ascending order and starts at [lo] or above. *)
Fixpoint ascending (lo : Z) (l : list Z) : Prop :=
  match l with
  | [] => True
  | x :: l' => lo <= x /\ ascending x l'
  end.

(** The value of [lastL2] after a loop over [l] that started with [d]. *)
Fixpoint lastOf (d : Z) (l : list Z) : Z :=
  match l with
  | [] => d
  | x :: l' => lastOf x l'
  end.

(** A file of 8192 bytes that starts like a header of 8192 bytes. *)
Definition overlongHeader : File :=
  let f := file_put emptyFile 0 8192 (fun _ => Byte.x00) in
  let f := file_write f 0 (IdCvtmMagic ++ PutUint32 56) in
  file_write f 52 (PutUint32 8192).

(** The header that the reader takes from [archiveNull]. *)
Definition headerNull : ArchiveHeaderRead :=
  match readArchiveHeader noCrypto (optionsFor archiveNull None) ArchiveHeaderRead_zero with
  | Ok h => h
  | _ => ArchiveHeaderRead_zero
  end.

(** [header] with another end pointer checksum algorithm. *)
Definition withChecksumAlgo (header : ArchiveHeaderRead) (algo : Z) : ArchiveHeaderRead :=
  {| R_AllocateOnce := R_AllocateOnce header;
     R_EndPointerChec := {| EndPointerChec_Algo := algo |};
     R_EndPointerLoca := R_EndPointerLoca header;
     R_EndingCipher := R_EndingCipher header;
     R_EndingSize := R_EndingSize header;
     R_GlobalLogLocat := R_GlobalLogLocat header;
     R_ImageArea := R_ImageArea header;
     R_ImageBasic := R_ImageBasic header;
     R_ImageLog := R_ImageLog header;
     R_SdCid := R_SdCid header |}.

(** [header] with another ending cipher. *)
Definition withEndingCipher (header : ArchiveHeaderRead) (c : EndingCipher) : ArchiveHeaderRead :=
  {| R_AllocateOnce := R_AllocateOnce header;
     R_EndPointerChec := R_EndPointerChec header;
     R_EndPointerLoca := R_EndPointerLoca header;
     R_EndingCipher := c;
     R_EndingSize := R_EndingSize header;
     R_GlobalLogLocat := R_GlobalLogLocat header;
     R_ImageArea := R_ImageArea header;
     R_ImageBasic := R_ImageBasic header;
     R_ImageLog := R_ImageLog header;
     R_SdCid := R_SdCid header |}.

(** Options that ask for the raw image. *)
Definition rawOptionsFor (f : File) : ExtractOptions :=
  {| File_ := f; PrivateKey := None; Overwrite := false; Raw := true |}.

(** An ending whose cluster count, as an [int32], is negative. *)
Definition endingHugeCount : EndingRead :=
  {| ER_NoMoreImages := Build_NoMoreImages;
     ER_Ending := {| Ending_Length := 41; Ending_Start := 256; Ending_Prev := 0;
                     DataClusterCount := 2 ^ 32 - 1024; ClusterSizeExp := 3;
                     ClustersOffset := 8 |};
     ER_ImageKey := {| ImageKey_Key := [] |};
     ER_ImageLogLocati := [] |}.

(** ** cmd: [bytesToBlkExp]

    What a function of the command line returns: a value, or the exit code
    of [os.Exit]. *)
Inductive Exit (A : Type) : Type :=
  | Return (a : A)
  | Exits (code : Z)
  | NoFuel.
Arguments Return {A} a.
Arguments Exits {A} code.
Arguments NoFuel {A}.

(** The loop [for n != 0 { r++; n >>= 1 }] on a [uint32] and a [uint8]. *)
Fixpoint bytesToBlkExp_loop (fuel : nat) (n r : Z) : option Z :=
  if n =? 0 then Some r
  else
    match fuel with
    | O => None
    | S fuel => bytesToBlkExp_loop fuel (Z.shiftr n 1) (uint8 (r + 1))
    end.

(** [bytesToBlkExp(n uint32) uint8]. *)
Definition bytesToBlkExp (n : Z) : Exit Z :=
  if (n <? BlockSize) || negb (Z.land n (uint32 (n - 1)) =? 0) then Exits 1
  else
    match bytesToBlkExp_loop 32 (n / (2 * BlockSize)) 0 with
    | Some r => Return r
    | None => NoFuel
    end.

(** What [splitEntries] files for the entry [e] found at [pos]. *)
Definition fileEntry (m : gmap EntryTypeID (list entryRead)) (pe : Z * Entry)
    : gmap EntryTypeID (list entryRead) :=
  <[TypeToID (typeOf pe.2) :=
      default [] (m !! TypeToID (typeOf pe.2)) ++ [{| at_ := pe.1; data := bare pe.2 |}]]> m.

(** The entries of a stream with the offsets they are written at. *)
Fixpoint located (start : Z) (es : list Entry) : list (Z * Entry) :=
  match es with
  | [] => []
  | e :: es => (start, e) :: located (start + len (writeEntry e)) es
  end.

(** The entries of a header after CVTM-MAGIC, in the order they are
    written. *)
Definition headerEntries (h : ArchiveHeaderWrite) : list Entry :=
  [EEndPointerChec (W_EndPointerChec h)]
  ++ map EEndPointerLoca (W_EndPointerLoca h)
  ++ [EEndingCipher (W_EndingCipher h); EEndingSize (W_EndingSize h)]
  ++ map EGlobalLogLocat (W_GlobalLogLocat h)
  ++ [EImageArea (W_ImageArea h); EImageBasic (W_ImageBasic h)]
  ++ map EImageLog (W_ImageLog h).

(** What the reader is to find in the header written from [h]. *)
Definition readOf (h : ArchiveHeaderWrite) : ArchiveHeaderRead :=
  {| R_AllocateOnce := {| AllocationIncrement := 0 |};
     R_EndPointerChec := W_EndPointerChec h;
     R_EndPointerLoca := W_EndPointerLoca h;
     R_EndingCipher := W_EndingCipher h;
     R_EndingSize := W_EndingSize h;
     R_GlobalLogLocat := W_GlobalLogLocat h;
     R_ImageArea := W_ImageArea h;
     R_ImageBasic := W_ImageBasic h;
     R_ImageLog := W_ImageLog h;
     R_SdCid := {| SdCid_SdCid := replicate 15 Byte.x00 |} |}.

(** A header with entries of every kind that the writer emits. *)
Definition exampleHeader : ArchiveHeaderWrite :=
  {| W_CvtmMagic := {| CvtmMagic_Checksum := replicate 32 Byte.x00;
                       CvtmMagic_HeaderLength := 277 |};
     W_EndPointerChec := {| EndPointerChec_Algo := EndPointerChecksumCRC32 |};
     W_EndPointerLoca := [{| Blk := 128 |}; {| Blk := 32640 |}];
     W_EndingCipher := {| EndingCipher_Algo := EndingCipherRSA;
                          EndingCipher_Key := [Byte.x30; Byte.x0a] |};
     W_EndingSize := {| EndingSize_Size := 1 |};
     W_GlobalLogLocat := [{| GlobalLogLocat_Start := 8; GlobalLogLocat_Count := 1 |}];
     W_ImageArea := {| ImageArea_Start := 256; ImageArea_End := 32640 |};
     W_ImageBasic := {| ImgCipher := ImgCipherNull; ImgClusterSizeExp := 3 |};
     W_ImageLog := [{| BlkCount := 1 |}];
     W_Optional := [] |}.

(** [w'] is [w] after more writes: nothing before the offset of [w] has
    changed. *)
Definition extends (w w' : fillSeeker) : Prop :=
  pos w <= pos w'
  /\ method w' = method w
  /\ (forall i, i < pos w -> fdata (target w') i = fdata (target w) i)
  /\ fsize (target w) <= fsize (target w')
  /\ (method w <> FillSeek -> pos w <= fsize (target w) -> pos w' <= fsize (target w')).

(** The fill methods of the command line. *)
Definition validFill (m : Z) : Prop := m = FillZero \/ m = FillRandom \/ m = FillSeek.

(** A writer at offset 512 of an empty file, filling with zeros. *)
Definition exampleWriter : fillSeeker :=
  {| target := emptyFile; pos := 512; method := FillZero; consumed := 0 |}.

(** [exampleWriter] after a seek to offset 1024. *)
Definition exampleWriterAt1024 : fillSeeker :=
  {| target := file_put emptyFile 512 512 (fun _ => Byte.x00); pos := 1024;
     method := FillZero; consumed := 0 |}.

(** Options in the ranges of their Go types, with one of the three fill
    methods, an allocation unit of [2^k] blocks, at least one end pointer,
    a header of at most 4096 bytes before the key, and a size below 2^41
    bytes, which keeps the block numbers below 2^32. *)
Definition sizedConf (conf : NewArchiveOptions) (k : Z) : Prop :=
  validFill (Conf.FillMethod conf)
  /\ Conf.AlignmentBlocks conf = 2 ^ k /\ 0 <= k <= 31
  /\ 0 <= Conf.EndPointersHead conf /\ 0 <= Conf.EndPointersTail conf
  /\ 1 <= Conf.EndPointersHead conf + Conf.EndPointersTail conf
  /\ Forall (fun v => 0 <= LogConf_Size v < 2 ^ 32) (Conf.GlobalLogs conf)
  /\ Forall (fun v => 0 <= LogConf_Size v < 2 ^ 32) (Conf.ImgLogs conf)
  /\ 0 <= Conf.EndPointerChecksum conf < 2 ^ 32
  /\ 0 <= Conf.ImgCipher conf < 2 ^ 32
  /\ 0 <= Conf.ImgClusterSizeExp conf < 2 ^ 8
  /\ 181 + 24 * (Conf.EndPointersHead conf + Conf.EndPointersTail conf)
     + 28 * len (Conf.GlobalLogs conf) + 24 * len (Conf.ImgLogs conf) <= 4096
  /\ 0 <= Conf.DiskSize conf < 2 ^ 41.

(** The size of the header of [conf] with the key [key]. *)
Definition headerSizeOf (conf : NewArchiveOptions) (key : list byte) : Z :=
  181 + 24 * (Conf.EndPointersHead conf + Conf.EndPointersTail conf) + len key
  + 28 * len (Conf.GlobalLogs conf) + 24 * len (Conf.ImgLogs conf).

(** What [layout] has worked out, in blocks of 512 bytes. *)
Definition laidOut (conf : NewArchiveOptions) (k : Z) (key : list byte) (l : Layout)
    : Prop :=
  let h := L_header l in
  0 <= L_endingSize l < 2 ^ 32
  /\ 0 <= L_endPointerStart l
  /\ headerSizeOf conf key <= 512 * L_endPointerStart l
  /\ L_endPointerStart l mod 2 ^ k = 0
  /\ L_imgAreaStart l = L_endPointerStart l + Conf.EndPointersHead conf * 2 ^ k
  /\ L_sentinelEnd l = L_imgAreaStart l + L_endingSize l
  /\ L_sentinelEnd l <= L_imgAreaEnd l
  /\ L_imgAreaEnd l mod 2 ^ k = 0
  /\ 512 * (L_imgAreaEnd l + Conf.EndPointersTail conf * 2 ^ k) <= Conf.DiskSize conf
  /\ W_Optional h = []
  /\ Forall legal (headerEntries h)
  /\ W_CvtmMagic h
     = {| CvtmMagic_Checksum :=
            sha256.Sum256
              (writeEntry (ECvtmMagic {| CvtmMagic_Checksum := replicate 32 Byte.x00;
                                         CvtmMagic_HeaderLength := headerSizeOf conf key |})
               ++ concat (map writeEntry (headerEntries h)));
          CvtmMagic_HeaderLength := headerSizeOf conf key |}
  /\ len (concat (map writeEntry (headerEntries h))) = headerSizeOf conf key - 56
  /\ W_EndPointerLoca h <> []
  /\ (forall e, e ∈ W_EndPointerLoca h ->
        (exists j, 0 <= j < Conf.EndPointersHead conf
                   /\ Blk e = L_endPointerStart l + j * 2 ^ k)
        \/ (exists j, 0 <= j < Conf.EndPointersTail conf
                      /\ Blk e = L_imgAreaEnd l + j * 2 ^ k))
  /\ W_EndPointerChec h = {| EndPointerChec_Algo := Conf.EndPointerChecksum conf |}
  /\ W_EndingCipher h = {| EndingCipher_Algo := Conf.EndingCipher conf;
                           EndingCipher_Key := key |}
  /\ W_EndingSize h = {| EndingSize_Size := L_endingSize l |}
  /\ W_ImageArea h = {| ImageArea_Start := L_imgAreaStart l;
                        ImageArea_End := L_imgAreaEnd l |}.

(** The number of entries of the top-level index of an image in the
    archive, as the format has it: a second-level table is one cluster of
    entries of 4 bytes, one for each data cluster, and the top-level index
    has one entry for each second-level table, that is
    [ceil(DataClusterCount / (cluster_size / 4))] entries. *)
Definition topLevelEntries (e : Ending) : Z :=
  let cluster_size := 2 ^ (9 + ClusterSizeExp e) in
  (DataClusterCount e + cluster_size / 4 - 1) / (cluster_size / 4).

(** An ending whose cluster count is [2^32 - 1]. *)
Definition endingCountMax : EndingRead :=
  {| ER_NoMoreImages := Build_NoMoreImages;
     ER_Ending := {| Ending_Length := 41; Ending_Start := 256; Ending_Prev := 0;
                     DataClusterCount := 2 ^ 32 - 1; ClusterSizeExp := 3;
                     ClustersOffset := 8 |};
     ER_ImageKey := {| ImageKey_Key := [] |};
     ER_ImageLogLocati := [] |}.

(** * Properties *)

(** ** Lists, lengths and slices *)

Lemma len_app {A} (l k : list A) : len (l ++ k) = len l + len k.
Proof. unfold len. rewrite length_app. lia. Qed.

Lemma len_nonneg {A} (l : list A) : 0 <= len l.
Proof. unfold len. lia. Qed.

Lemma bareField_binaryWriteField v : bareField v = binaryWriteField v.
Proof.
  destruct v as [x|x|n b|b]; unfold bareField; cbn [binarySize sizeofField binaryWriteField]; try reflexivity.
  - destruct n; reflexivity.
  - destruct b; reflexivity.
Qed.

Lemma bare_concat ent : bare ent = concat (map binaryWriteField (fieldsOf ent)).
Proof.
  unfold bare, binaryWriteStruct. destruct (0 <? _); [reflexivity|].
  f_equal. apply map_ext. intros. apply bareField_binaryWriteField.
Qed.

Lemma len_binaryWriteField v : wfValue v -> sizeofField v >= 0 -> len (binaryWriteField v) = sizeofField v.
Proof.
  destruct v as [x|x|n b|b]; cbn; intros Hw Hs; try reflexivity; try lia.
  unfold len. rewrite length_take, length_app, length_replicate. lia.
Qed.

Lemma binary_Read_ptr_fixed r d :
  0 < sizeofField d -> sizeofField d <= len r ->
  binary_Read_ptr r d =
    let b := take (Z.to_nat (sizeofField d)) r in
    let r' := drop (Z.to_nat (sizeofField d)) r in
    match d with
    | VUint32 _ => Ok (VUint32 (le_combine b), r')
    | VUint8 _ => Ok (VUint8 (le_combine b), r')
    | VArray k _ => Ok (VArray k b, r')
    | VSlice _ => Err binary_invalid_type
    end.
Proof.
  intros Hp Hl. unfold binary_Read_ptr.
  destruct (Z.eqb_spec (sizeofField d) 0); [lia|].
  destruct (Z.eqb_spec (len r) 0); [lia|].
  destruct (Z.ltb_spec (len r) (sizeofField d)); [lia|]. reflexivity.
Qed.

Lemma binary_Read_ptr_app v d R :
  wfValue v -> wfValue d -> sameKind v d -> sizeofField v >= 0 ->
  binary_Read_ptr (binaryWriteField v ++ R) d = Ok (v, R).
Proof.
  intros Hv Hd Hk Hs.
  assert (Hsz : sizeofField d = sizeofField v).
  { destruct v, d; cbn in Hk |- *; try contradiction; congruence. }
  pose proof (len_binaryWriteField v Hv Hs) as Hlen.
  destruct (Z.eq_dec (sizeofField v) 0) as [Hz|Hnz].
  - unfold binary_Read_ptr. rewrite Hsz, Hz. cbn.
    destruct v as [x|x|n b|b], d as [y|y|m c|c]; cbn in *; try contradiction; try lia.
    destruct b as [|? ?]; [|cbn in *; lia]. destruct c as [|? ?]; [|cbn in *; lia].
    cbn in *. subst. reflexivity.
  - rewrite binary_Read_ptr_fixed; rewrite ?Hsz, ?len_app; pose proof (len_nonneg R); try lia.
    cbv zeta.
    assert (Hn : Z.to_nat (sizeofField v) = length (binaryWriteField v)).
    { unfold len in Hlen. lia. }
    rewrite Hn, take_app_length, drop_app_length.
    destruct v as [x|x|n b|b], d as [y|y|m c|c]; cbn in *; try contradiction; try lia.
    + rewrite le_combine_split, Z.mod_small by lia. done.
    + rewrite le_combine_split, Z.mod_small by lia. done.
    + subst. rewrite take_app_length' by done. rewrite Hk. done.
Qed.

Lemma parseFields_roundtrip vs : forall ds,
  Forall wfValue vs -> Forall wfValue ds -> Forall zeroLike ds ->
  Forall2 sameKind vs ds -> sliceLast vs ->
  parseFields (concat (map binaryWriteField vs)) ds = Ok vs.
Proof.
  induction vs as [|v vs IH]; intros ds Hv Hd Hz Hk Hl.
  - inversion Hk; subst. reflexivity.
  - inversion Hk as [|? d ? ds' Hk1 Hk2]; subst.
    inversion Hv; subst. inversion Hd; subst. inversion Hz; subst.
    cbn [map concat].
    destruct v as [x|x|n b|b].
    + destruct d; try contradiction. cbn [parseFields].
      rewrite binary_Read_ptr_app; [|done..|cbn; lia]. cbn.
      rewrite IH; done.
    + destruct d; try contradiction. cbn [parseFields].
      rewrite binary_Read_ptr_app; [|done..|cbn; lia]. cbn.
      rewrite IH; done.
    + destruct d; try contradiction. cbn [parseFields].
      rewrite binary_Read_ptr_app; [|done..|cbn; lia]. cbn.
      rewrite IH; done.
    + destruct d as [| | |c]; try contradiction. cbn in Hl. subst vs.
      inversion Hk2; subst. cbn. rewrite app_nil_r.
      match goal with H : zeroLike (VSlice c) |- _ => cbn in H; subst c end.
      destruct b; reflexivity.
Qed.

Lemma fieldsOf_zero_shape p :
  Forall2 sameKind (fieldsOf p) (fieldsOf (zero (typeOf p)))
  /\ Forall wfValue (fieldsOf (zero (typeOf p)))
  /\ Forall zeroLike (fieldsOf (zero (typeOf p)))
  /\ sliceLast (fieldsOf p).
Proof.
  destruct p; cbn; repeat split;
    repeat (constructor; cbn [sameKind wfValue zeroLike]); try done; lia.
Qed.

Lemma setFields_fieldsOf p d : typeOf d = typeOf p -> setFields d (fieldsOf p) = p.
Proof.
  destruct p as [x|x|x|x|x|x|x|x|x|x|x|x|x|x|x], d as [y|y|y|y|y|y|y|y|y|y|y|y|y|y|y];
    cbn; intros; try discriminate; destruct x, y; reflexivity.
Qed.

Lemma typeOf_zero t : typeOf (zero t) = t.
Proof. destruct t; reflexivity. Qed.

Lemma length_TypeToID t : length (TypeToID t) = 16%nat.
Proof. destruct t; reflexivity. Qed.

Lemma parseEntry_bare p start :
  Forall wfValue (fieldsOf p) ->
  parseEntry {| at_ := start; data := bare p |} (zero (typeOf p)) = Ok p.
Proof.
  intros Hw. unfold parseEntry. cbn [binary_Read_value data at_].
  destruct (fieldsOf_zero_shape p) as (Hk & Hd & Hz & Hl).
  rewrite bare_concat, parseFields_roundtrip by done.
  f_equal. apply setFields_fieldsOf. apply typeOf_zero.
Qed.

Lemma sliceOf_ok {A} (l : list A) lo hi :
  0 <= lo -> lo <= hi -> hi <= len l ->
  sliceOf l lo hi = Ok (take (Z.to_nat (hi - lo)) (drop (Z.to_nat lo) l)).
Proof.
  intros. unfold sliceOf.
  destruct (Z.leb_spec 0 lo); [|lia]. destruct (Z.leb_spec lo hi); [|lia].
  destruct (Z.leb_spec hi (len l)); [|lia]. reflexivity.
Qed.

Lemma splitEntries_writeEntry p start :
  20 + len (bare p) < 2 ^ 32 ->
  splitEntries (writeEntry p) start
  = Ok {[ TypeToID (typeOf p) := [ {| at_ := start; data := bare p |} ] ]}.
Proof.
  intros Hb. pose proof (len_nonneg (bare p)) as Hn.
  pose proof (length_TypeToID (typeOf p)) as Hid.
  unfold splitEntries. 
  assert (Hlen : len (writeEntry p) = 20 + len (bare p)).
  { unfold writeEntry. rewrite !len_app. unfold len at 1 2, PutUint32.
    rewrite Hid, length_le_split. lia. }
  cbn [splitEntries_loop].
  destruct (Z.eqb_spec (len (writeEntry p)) 0); [lia|].
  destruct (Z.ltb_spec (len (writeEntry p)) 20); [lia|].
  rewrite sliceOf_ok by lia. cbn [mbind Outcome_bind].
  assert (Hsz : Uint32 (take (Z.to_nat (20 - 16)) (drop (Z.to_nat 16) (writeEntry p)))
                = 20 + len (bare p)).
  { unfold writeEntry. change (Z.to_nat 16) with 16%nat.
    rewrite drop_app_length' by done. unfold Uint32, PutUint32.
    change (Z.to_nat (20 - 16)) with 4%nat.
    rewrite take_app_length' by (symmetry; apply length_le_split).
    rewrite take_ge by (rewrite length_le_split; lia).
    rewrite le_combine_split. unfold uint32.
    change (2 ^ (Z.of_nat 4 * 8)) with (2 ^ 32).
    rewrite (Z.mod_small (len (bare p))) by lia.
    rewrite !(Z.mod_small (20 + len (bare p))) by lia. reflexivity. }
  rewrite Hsz.
  destruct (Z.gtb_spec (20 + len (bare p)) (len (writeEntry p))); [lia|].
  rewrite sliceOf_ok by lia. cbn [mbind Outcome_bind].
  rewrite sliceOf_ok by lia. cbn [mbind Outcome_bind].
  assert (Hrest : drop (Z.to_nat (20 + len (bare p))) (writeEntry p) = []).
  { apply drop_ge. unfold len in *. lia. }
  rewrite Hrest, take_nil.
  destruct (length (writeEntry p)) eqn:E; [unfold len in Hlen; lia|].
  cbn [splitEntries_loop]. change (len (@nil byte) =? 0) with true. cbv iota.
  f_equal. rewrite lookup_empty. cbn [default app].
  assert (Hp : take (Z.to_nat (20 + len (bare p) - 20)) (drop (Z.to_nat 20) (writeEntry p)) = bare p).
  { unfold writeEntry. rewrite app_assoc. rewrite drop_app_length'.
    - apply take_ge. unfold len. lia.
    - rewrite length_app, Hid. unfold PutUint32. rewrite length_le_split. reflexivity. }
  rewrite Hp.
  assert (Hi : take 16 (writeEntry p) = TypeToID (typeOf p)).
  { unfold writeEntry. apply take_app_length'. done. }
  rewrite Hi. reflexivity.
Qed.

(** ** The entry codec: truncated payloads and short lengths *)

Lemma sizeofField_nonneg v : match v with VSlice _ => True | _ => 0 <= sizeofField v end.
Proof. destruct v; cbn; lia. Qed.

Lemma fixedSize_nonneg vs : 0 <= fixedSize vs.
Proof.
  induction vs as [|v vs IH]; cbn; [lia|].
  destruct v; cbn; lia.
Qed.

(** A payload shorter than the fixed part never parses: the first field it
    does not cover reports [io.EOF] when the payload ends on its boundary
    and [io.ErrUnexpectedEOF] when it ends inside. *)
Lemma parseFields_short vs : forall r,
  len r < fixedSize vs ->
  parseFields r vs = Err io_EOF \/ parseFields r vs = Err io_ErrUnexpectedEOF.
Proof.
  induction vs as [|v vs IH]; intros r Hr.
  - cbn in Hr. pose proof (len_nonneg r). lia.
  - assert (Hfix : forall n, sizeofField v = n -> 0 <= n ->
              len r < n + fixedSize vs ->
              (x ← binary_Read_ptr r v;
               let '(v', r') := x in rest' ← parseFields r' vs; Ok (v' :: rest'))
              = Err io_EOF
              \/ (x ← binary_Read_ptr r v;
                  let '(v', r') := x in rest' ← parseFields r' vs; Ok (v' :: rest'))
                 = Err io_ErrUnexpectedEOF).
    { intros n Hn Hn0 Hlt. unfold binary_Read_ptr. rewrite Hn.
      destruct (Z.eqb_spec n 0) as [Hz|Hz].
      - cbn [mbind Outcome_bind].
        assert (Hx : len r < fixedSize vs) by lia.
        destruct (IH r Hx) as [-> | ->]; auto.
      - destruct (Z.eqb_spec (len r) 0); [auto|].
        destruct (Z.ltb_spec (len r) n) as [Hl|Hl]; [auto|].
        assert (Hd : len (drop (Z.to_nat n) r) < fixedSize vs).
        { unfold len in *. rewrite length_drop. lia. }
        destruct v; cbn [mbind Outcome_bind]; try (destruct (IH _ Hd) as [-> | ->]; auto).
        cbn in Hn. lia. }
    destruct v as [x|x|n b|b]; cbn [parseFields fixedSize sizeofField] in *.
    + apply (Hfix 4); lia.
    + apply (Hfix 1); lia.
    + apply (Hfix (Z.of_nat n)); lia.
    + cbn [mbind Outcome_bind]. destruct (IH r Hr) as [-> | ->]; auto.
Qed.

Lemma parseEntry_short t pos payload :
  len payload < fixedSize (fieldsOf (zero t)) ->
  parseEntry {| at_ := pos; data := payload |} (zero t) = Err (badEntry pos io_EOF)
  \/ parseEntry {| at_ := pos; data := payload |} (zero t)
     = Err (badEntry pos io_ErrUnexpectedEOF).
Proof.
  intros H. unfold parseEntry. cbn [binary_Read_value data at_].
  destruct (parseFields_short _ _ H) as [-> | ->]; auto.
Qed.

Lemma sliceOf_reversed {A} (l : list A) lo hi :
  hi < lo -> sliceOf l lo hi = Panic (panicSliceBounds lo hi).
Proof.
  intros. unfold sliceOf. destruct (Z.leb_spec lo hi); [lia|].
  rewrite andb_false_r. reflexivity.
Qed.

Lemma splitEntries_loop_nofuel fuel : forall data start result,
  (length data < fuel)%nat ->
  splitEntries_loop fuel data start result <> Panic panicFuel.
Proof.
  induction fuel as [|fuel IH]; intros data start result Hf; [lia|].
  cbn [splitEntries_loop].
  destruct (Z.eqb_spec (len data) 0); [discriminate|].
  destruct (Z.ltb_spec (len data) 20); [discriminate|].
  rewrite sliceOf_ok by lia. cbn [mbind Outcome_bind].
  set (entSize := Uint32 _).
  destruct (Z.gtb_spec entSize (len data)); [discriminate|].
  destruct (Z.le_gt_cases 20 entSize) as [H20|H20].
  2: { rewrite (sliceOf_reversed data 20 entSize) by lia. discriminate. }
  rewrite !sliceOf_ok by lia. cbn [mbind Outcome_bind].
  apply IH. rewrite length_take, length_drop. unfold len in *. lia.
Qed.

(** The loop of [splitEntries] ends within the turns it is given. *)
Lemma splitEntries_fuel data start : splitEntries data start <> Panic panicFuel.
Proof. apply splitEntries_loop_nofuel. lia. Qed.

(** An entry in bounds whose declared length is below 20 makes the slice
    expression [data[20:entSize]] panic. *)
Lemma splitEntries_length_below_20 data start :
  20 <= len data -> Uint32 (take 4 (drop 16 data)) < 20 ->
  splitEntries data start = Panic (panicSliceBounds 20 (Uint32 (take 4 (drop 16 data)))).
Proof.
  intros Hl Hs. unfold splitEntries. cbn [splitEntries_loop].
  destruct (Z.eqb_spec (len data) 0); [lia|].
  destruct (Z.ltb_spec (len data) 20); [lia|].
  rewrite sliceOf_ok by lia. cbn [mbind Outcome_bind].
  change (Z.to_nat (20 - 16)) with 4%nat. change (Z.to_nat 16) with 16%nat.
  set (entSize := Uint32 _) in *.
  destruct (Z.gtb_spec entSize (len data)); [lia|].
  rewrite (sliceOf_reversed data 20 entSize) by lia. reflexivity.
Qed.

(** ** The entry codec: round trip *)

Lemma parseEntries_single p start :
  Forall wfValue (fieldsOf p) -> 20 + len (bare p) < 2 ^ 32 ->
  parseEntries (writeEntry p) start [FStruct (zero (typeOf p))] = Ok [FStruct p].
Proof.
  intros Hw Hb. unfold parseEntries.
  rewrite splitEntries_writeEntry by done. cbn [mbind Outcome_bind].
  cbn [parseFieldsOf parseField]. rewrite typeOf_zero, lookup_singleton_eq.
  cbn [default last id]. rewrite parseEntry_bare by done. reflexivity.
Qed.

(** C10. Entry round trip: for every registered entry type and every legal
    payload [p] of that type, the bytes written by [writeEntry p] split into
    exactly one entry, filed under the type's identifier and holding the
    payload; parsing it into the zero value of the type gives [p] back, and so
    does [parseEntries] on a struct with one field of that type. *)
Theorem entry_roundtrip (p : Entry) (start : Z) :
  legal p ->
  splitEntries (writeEntry p) start
    = Ok {[ TypeToID (typeOf p) := [ {| at_ := start; data := bare p |} ] ]}
  /\ parseEntry {| at_ := start; data := bare p |} (zero (typeOf p)) = Ok p
  /\ parseEntries (writeEntry p) start [FStruct (zero (typeOf p))] = Ok [FStruct p].
Proof.
  intros [Hw Hb]. split; [|split].
  - apply splitEntries_writeEntry, Hb.
  - apply parseEntry_bare, Hw.
  - apply parseEntries_single; assumption.
Qed.

Lemma legal_exampleEndingCipher : legal exampleEndingCipher.
Proof.
  split.
  - repeat constructor; cbn; lia.
  - vm_compute. reflexivity.
Defined.

Lemma entry_roundtrip_witness :
  legal exampleEndingCipher
  /\ splitEntries (writeEntry exampleEndingCipher) 0
      = Ok {[ TypeToID (typeOf exampleEndingCipher) :=
                [ {| at_ := 0; data := bare exampleEndingCipher |} ] ]}
  /\ parseEntry {| at_ := 0; data := bare exampleEndingCipher |}
        (zero (typeOf exampleEndingCipher)) = Ok exampleEndingCipher
  /\ parseEntries (writeEntry exampleEndingCipher) 0
        [FStruct (zero (typeOf exampleEndingCipher))] = Ok [FStruct exampleEndingCipher].
Proof.
  split; [exact legal_exampleEndingCipher|].
  exact (entry_roundtrip exampleEndingCipher 0 legal_exampleEndingCipher).
Defined.

(** C9 (the code departs from the claim).  On the 20-byte region made of the
    identifier IMAGE-AREA and the declared length 0, an entry that lies
    within the region, [splitEntries] neither succeeds nor returns a
    [badEntry]: the slice expression [data[20:entSize]] panics. *)
Theorem splitEntries_short_length_panics :
  splitEntries (IdImageArea ++ PutUint32 0) 0 = Panic (panicSliceBounds 20 0).
Proof. vm_compute. reflexivity. Qed.

(** C7 (the code departs from the claim).  An IMAGE-AREA payload of 4 bytes
    holds the field [Start] and ends on the boundary before [End].
    [parseEntry] does not leave [End] at zero: it fails with a [badEntry]
    whose cause is [io.EOF]. *)
Theorem parseEntry_boundary_truncation_fails :
  parseEntry {| at_ := 0; data := PutUint32 256 |} (zero TImageArea)
  = Err (badEntry 0 io_EOF).
Proof. vm_compute. reflexivity. Qed.

(** ** Machine integers in range *)

Lemma uint32_small z : 0 <= z < 2 ^ 32 -> uint32 z = z.
Proof. intros. unfold uint32. apply Z.mod_small. lia. Qed.

Lemma uint64_small z : 0 <= z < 2 ^ 64 -> uint64 z = z.
Proof. intros. unfold uint64. apply Z.mod_small. lia. Qed.

Lemma int64_small z : - 2 ^ 63 <= z < 2 ^ 63 -> int64 z = z.
Proof. intros. unfold int64. rewrite Z.mod_small; lia. Qed.

Lemma int32_small z : - 2 ^ 31 <= z < 2 ^ 31 -> int32 z = z.
Proof. intros. unfold int32. rewrite Z.mod_small; lia. Qed.

Lemma uint32_range z : 0 <= uint32 z < 2 ^ 32.
Proof. unfold uint32. apply Z.mod_pos_bound. lia. Qed.

Lemma int64_eqm z : exists k, int64 z = z + k * 2 ^ 64.
Proof.
  exists (- ((z + 2 ^ 63) / 2 ^ 64)). unfold int64.
  pose proof (Z.div_mod (z + 2 ^ 63) (2 ^ 64)). lia.
Qed.

Lemma uint32_int64 z : uint32 (int64 z) = uint32 z.
Proof.
  destruct (int64_eqm z) as [k ->]. unfold uint32.
  replace (z + k * 2 ^ 64) with (z + (k * 2 ^ 32) * 2 ^ 32) by lia.
  apply Z.mod_add. lia.
Qed.

Lemma uint32_idem z : uint32 (uint32 z) = uint32 z.
Proof. unfold uint32. apply Z.mod_mod. lia. Qed.

Lemma int32_range z : - 2 ^ 31 <= int32 z < 2 ^ 31.
Proof. unfold int32. pose proof (Z.mod_pos_bound (z + 2 ^ 31) (2 ^ 32)). lia. Qed.

Lemma uint8_small z : 0 <= z < 2 ^ 8 -> uint8 z = z.
Proof. intros. unfold uint8. apply Z.mod_small. lia. Qed.

Lemma land_neg_pow2 x k : 0 <= k -> Z.land x (- 2 ^ k) = 2 ^ k * (x / 2 ^ k).
Proof.
  intros Hk.
  replace (- 2 ^ k) with (Z.lnot (Z.ones k)).
  - rewrite <- Z.ldiff_land, Z.ldiff_ones_r by lia.
    rewrite Z.shiftl_mul_pow2, Z.shiftr_div_pow2 by lia. lia.
  - rewrite Z.ones_equiv. unfold Z.lnot. lia.
Qed.


(** ** The end pointer block *)

Lemma Uint32_PutUint32 v rest : Uint32 (PutUint32 v ++ rest) = uint32 v.
Proof.
  unfold Uint32, PutUint32. rewrite take_app_length' by (rewrite length_le_split; done).
  rewrite le_combine_split. reflexivity.
Qed.

Lemma length_be_split n v : length (be_split n v) = n.
Proof. unfold be_split. rewrite length_rev. apply length_le_split. Qed.

Lemma length_round s kw : length (sha256.round s kw) = length s.
Proof.
  unfold sha256.round.
  destruct s as [|a [|b [|c [|d [|e [|f [|g [|h [|i s]]]]]]]]]; reflexivity.
Qed.

Lemma length_fold_round l : forall s, length (fold_left sha256.round l s) = length s.
Proof.
  induction l as [|kw l IH]; intros s; cbn; [done|].
  rewrite IH. apply length_round.
Qed.

Lemma length_compress h block : length (sha256.compress h block) = length h.
Proof.
  unfold sha256.compress. rewrite length_zip_with, length_fold_round. lia.
Qed.

Lemma length_blocks n : forall h b, length (sha256.blocks n h b) = length h.
Proof.
  induction n as [|n IH]; intros h b; cbn; [done|].
  rewrite IH. apply length_compress.
Qed.

Lemma length_concat_be_split (l : list Z) :
  length (concat (map (be_split 4) l)) = (4 * length l)%nat.
Proof.
  induction l as [|x l IH]; cbn [map concat length]; [done|].
  rewrite length_app, length_be_split, IH. lia.
Qed.

(** [sha256.Sum256] returns 32 bytes. *)
Lemma length_Sum256 msg : length (sha256.Sum256 msg) = 32%nat.
Proof.
  unfold sha256.Sum256. rewrite length_concat_be_split, length_blocks. reflexivity.
Qed.

Lemma computeEndPointerChecksum_length data algo sum data' :
  computeEndPointerChecksum data algo = Ok (sum, data') -> length sum = 32%nat.
Proof.
  unfold computeEndPointerChecksum.
  destruct (len data <? 32); [discriminate|].
  destruct (algo =? EndPointerChecksumSHA256).
  - intros H.
    assert (Hs : sum = sha256.Sum256 (endPointerLiteral ++ drop 32 data)) by congruence.
    rewrite Hs. apply length_Sum256.
  - destruct (algo =? EndPointerChecksumCRC32); [|discriminate].
    intros H.
    assert (Hs : sum = PutUint32 (crc32.Checksum (endPointerLiteral ++ drop 32 data))
                       ++ replicate 28 Byte.x00) by congruence.
    rewrite Hs, length_app, length_replicate.
    unfold PutUint32. rewrite length_le_split. reflexivity.
Qed.

(** The checksum looks only at the bytes after the first 32. *)
Lemma computeEndPointerChecksum_tail data1 data2 algo :
  32 <= len data1 -> 32 <= len data2 -> drop 32 data1 = drop 32 data2 ->
  computeEndPointerChecksum data1 algo = computeEndPointerChecksum data2 algo.
Proof.
  intros H1 H2 Hd. unfold computeEndPointerChecksum.
  destruct (Z.ltb_spec (len data1) 32); [lia|].
  destruct (Z.ltb_spec (len data2) 32); [lia|].
  rewrite Hd. reflexivity.
Qed.

(** The block of [makeEndPointer]: a checksum that verifies, the value as
    four little-endian bytes, zeros. *)
Lemma makeEndPointer_inv pointTo algo ep :
  makeEndPointer pointTo algo = Ok ep ->
  exists sum,
    length sum = 32%nat
    /\ ep = sum ++ PutUint32 (uint32 pointTo) ++ replicate 476 Byte.x00
    /\ computeEndPointerChecksum ep algo
       = Ok (sum, endPointerLiteral ++ PutUint32 (uint32 pointTo) ++ replicate 476 Byte.x00).
Proof.
  unfold makeEndPointer. set (data0 := replicate 32 Byte.x00 ++ _).
  destruct (computeEndPointerChecksum data0 algo) as [[sum data']| |] eqn:E;
    cbn [mbind Outcome_bind]; try discriminate.
  intros [= <-]. pose proof (computeEndPointerChecksum_length _ _ _ _ E) as Hl.
  assert (Hd : data' = endPointerLiteral ++ PutUint32 (uint32 pointTo) ++ replicate 476 Byte.x00).
  { revert E. unfold computeEndPointerChecksum.
    destruct (len data0 <? 32); [discriminate|].
    assert (Hdrop : drop 32 data0 = PutUint32 (uint32 pointTo) ++ replicate 476 Byte.x00).
    { unfold data0. rewrite drop_app_length' by (rewrite length_replicate; done). done. }
    rewrite Hdrop.
    destruct (algo =? EndPointerChecksumSHA256); [intros H; congruence|].
    destruct (algo =? EndPointerChecksumCRC32); [intros H; congruence|discriminate]. }
  exists sum. split; [done|].
  assert (Hep : take 32 sum ++ drop 32 data'
                = sum ++ PutUint32 (uint32 pointTo) ++ replicate 476 Byte.x00).
  { rewrite take_ge by lia. rewrite Hd.
    rewrite drop_app_length' by reflexivity. done. }
  rewrite Hep. split; [done|].
  rewrite <- Hd, <- E.
  apply computeEndPointerChecksum_tail.
  - rewrite !len_app. unfold len. rewrite Hl. lia.
  - unfold data0. rewrite !len_app. unfold len. rewrite length_replicate. lia.
  - rewrite drop_app_length' by done. unfold data0.
    rewrite drop_app_length' by (rewrite length_replicate; done). done.
Qed.

(** [readEndPointer] on a block made by [makeEndPointer]: 512 times the
    value stored. *)
Lemma readEndPointer_makeEndPointer infile header at_byte pointTo ep :
  makeEndPointer pointTo (EndPointerChec_Algo (R_EndPointerChec header)) = Ok ep ->
  ReadAt infile BlockSize at_byte = Ok ep ->
  readEndPointer infile header at_byte = Ok (BlockSize * uint32 pointTo).
Proof.
  intros Hm Hr. destruct (makeEndPointer_inv _ _ _ Hm) as (sum & Hl & Hep & Hc).
  unfold readEndPointer. rewrite Hr, Hc. cbn [mbind Outcome_bind].
  assert (Ht : take 32 ep = sum) by (rewrite Hep; apply take_app_length'; done).
  rewrite Ht, bool_decide_true by done. cbn [negb].
  rewrite drop_app_length' by reflexivity.
  rewrite Uint32_PutUint32, uint32_idem. reflexivity.
Qed.

(** ** The layout of an empty archive *)

(** What [layout] guarantees when it returns. *)
Lemma layout_inv conf l :
  layout conf = Ok l ->
  L_sentinelEnd l = int64 (L_imgAreaStart l + L_endingSize l)
  /\ L_sentinelEnd l <= L_imgAreaEnd l
  /\ EndingSize_Size (W_EndingSize (L_header l)) = L_endingSize l
  /\ ImageArea_Start (W_ImageArea (L_header l)) = uint32 (L_imgAreaStart l)
  /\ ImageArea_End (W_ImageArea (L_header l)) = uint32 (L_imgAreaEnd l)
  /\ (Conf.EndingCipher conf = EndingCipherNull /\ L_endingSize l = 1
      \/ exists k, Conf.EndingCipher conf = EndingCipherRSA
                   /\ Conf.PublicKeyRSA conf = Some k
                   /\ L_endingSize l = uint32 (alignUp (rsa.Size k) BlockSize)).
Proof.
  unfold layout.
  set (cipher := (if Conf.EndingCipher conf =? EndingCipherNull then _ else _)).
  assert (Hc : forall es key, cipher = Ok (es, key) ->
             Conf.EndingCipher conf = EndingCipherNull /\ es = 1
             \/ exists k, Conf.EndingCipher conf = EndingCipherRSA
                          /\ Conf.PublicKeyRSA conf = Some k
                          /\ es = uint32 (alignUp (rsa.Size k) BlockSize)).
  { intros es key. unfold cipher.
    destruct (Z.eqb_spec (Conf.EndingCipher conf) EndingCipherNull) as [->|].
    - intros [= <- _]. left. done.
    - destruct (Z.eqb_spec (Conf.EndingCipher conf) EndingCipherRSA) as [E|]; [|done].
      destruct (Conf.PublicKeyRSA conf) as [k|]; [|done].
      intros [= <- _]. right. exists k. done. }
  destruct cipher as [[es key]| |]; cbn [mbind Outcome_bind]; try discriminate.
  specialize (Hc es key eq_refl).
  destruct (sizeOfHeader _) as [headerSize| |]; cbn [mbind Outcome_bind]; try discriminate.
  destruct (globalLogs _ _ _) as [globalLogLocat imgAreaStart0].
  destruct (_ <? Conf.EndPointersHead conf); [discriminate|].
  destruct (headPointers _ _ _) as [headLoca imgAreaStart].
  destruct (Z.gtb_spec (int64 (imgAreaStart + es))
              (int64 (alignDown (Conf.DiskSize conf ÷ BlockSize) (Conf.AlignmentBlocks conf)
                      - int64 (Conf.AlignmentBlocks conf * int64 (Conf.EndPointersTail conf)))));
    [discriminate|].
  destruct (writeMultipleEntries _) as [hashed| |]; cbn [mbind Outcome_bind]; try discriminate.
  intros [= <-]. cbn. repeat split; try done.
Qed.

Lemma layout_null conf l :
  Conf.EndingCipher conf = EndingCipherNull -> layout conf = Ok l -> L_endingSize l = 1.
Proof.
  intros Hn Hl. destruct (layout_inv _ _ Hl) as (_ & _ & _ & _ & _ & [[_ H]|(k & Hr & _)]).
  - exact H.
  - rewrite Hn in Hr. discriminate.
Qed.

(** For a modulus of 1 to 512 bytes the writer's ending size is 512. *)
Lemma endingSize_rsa k :
  0 < rsa.Size k <= 512 -> uint32 (alignUp (rsa.Size k) BlockSize) = 512.
Proof.
  intros H. unfold alignUp, BlockSize.
  change (int64 (512 - 1)) with 511. change (int64 (Z.opp 512)) with (- 2 ^ 9).
  rewrite int64_small by lia. rewrite land_neg_pow2 by lia.
  assert (Hq : (rsa.Size k + 511) / 2 ^ 9 = 1).
  { symmetry. apply Z.div_unique with (r := rsa.Size k - 1); lia. }
  rewrite Hq. reflexivity.
Qed.

(** C1 (the code departs from the claim).  With the RSA ending cipher and a
    key whose modulus has 2048 bits, hence 256 bytes, [WriteEmptyArchive]
    sets the ending size to 512 blocks, in its layout and in the header's
    ENDING-SIZE entry, where ceil(256 / 512) is 1. *)
Theorem rsa_2048_ending_size_is_512 :
  rsa.Size key2048 = 256
  /\ 256 / 512 + (if 256 mod 512 =? 0 then 0 else 1) = 1
  /\ holds (layout confRSA) (fun l =>
       L_endingSize l = 512
       /\ EndingSize_Size (W_EndingSize (L_header l)) = 512).
Proof. vm_compute. repeat split. Qed.

(** ** The test at the top of the chain walk *)

(** C4 (the code departs from the claim).  The test never takes its clean
    stop, whatever [endAt] and the header: the comparison before it is [<=].
    On the archive of [confNull] with its end pointers pointing at the start
    of the image area, [endAt] is [ImageArea.Start * 512] and the walk goes on
    to read the block before the image area and fails. *)
Theorem walk_has_no_clean_stop :
  (forall endAt header, walkGuard endAt header <> GuardStop)
  /\ holds archiveEndingAtStart (fun f =>
     holds (readArchiveHeader noCrypto (optionsFor f None) ArchiveHeaderRead_zero) (fun h =>
       findEnd f h = Ok (ImageArea_Start (R_ImageArea h) * 512)
       /\ ExtractArchive noCrypto (optionsFor f None)
          = Err (errBadEndingMagic (replicate 16 Byte.x00)))).
Proof.
  split.
  - intros endAt header. unfold walkGuard.
    destruct (Z.leb_spec endAt (ImageArea_Start (R_ImageArea header))); [discriminate|].
    destruct (Z.eqb_spec endAt (ImageArea_Start (R_ImageArea header))); [lia|discriminate].
  - vm_compute. split; reflexivity.
Qed.

(** ** The geometry of a synthesized image *)

(** [-(-n >> k)] is [n / 2^k] rounded up. *)
Lemma neg_shiftr_neg n k :
  0 <= n -> 0 <= k -> 0 <= - Z.shiftr (- n) k <= n /\ n <= 2 ^ k * - Z.shiftr (- n) k.
Proof.
  intros Hn Hk. rewrite Z.shiftr_div_pow2 by lia.
  assert (Hp : 0 < 2 ^ k) by (apply Z.pow_pos_nonneg; lia).
  pose proof (Z.div_mod (- n) (2 ^ k) ltac:(lia)) as Hd.
  pose proof (Z.mod_pos_bound (- n) (2 ^ k) Hp) as Hm.
  split; [split|]; nia.
Qed.

Lemma land_lor_top x :
  0 <= x < 2 ^ 63 -> Z.land (Z.lor 0x8000000000000000 x) 0x7fffffffffffffff = x.
Proof.
  intros Hx. change 0x8000000000000000 with (2 ^ 63).
  change 0x7fffffffffffffff with (Z.ones 63).
  rewrite Z.land_ones by lia. 
  rewrite <- Z.add_nocarry_lor.
  - rewrite Z.add_comm, Z_mod_plus_full with (b := 1) || idtac.
    replace (2 ^ 63 + x) with (x + 1 * 2 ^ 63) by lia.
    rewrite Z.mod_add by lia. apply Z.mod_small. lia.
  - apply Z.bits_inj'. intros n Hn. rewrite Z.land_spec, Z.bits_0.
    destruct (Z.eq_dec n 63) as [->|Hne].
    + rewrite (Z.bits_above_log2 x 63); [apply andb_false_r|lia|].
      destruct (Z.eq_dec x 0) as [->|]; [cbn; lia|].
      apply Z.log2_lt_pow2; lia.
    + rewrite Z.pow2_bits_false by lia. reflexivity.
Qed.

Section Geometry.

Variables (end_ : Z) (ending : EndingRead).
Local Abbreviation g := (geometry end_ ending).
Local Abbreviation cse := (ClusterSizeExp (ER_Ending ending)).
Local Abbreviation cluster_size := (2 ^ (9 + ClusterSizeExp (ER_Ending ending))).

Hypothesis Hcse : 0 <= cse <= 21.
Hypothesis Hl1 : 0 <= G_l1Len g.

Lemma G_clusterExp_eq : G_clusterExp g = 9 + cse.
Proof. cbn. apply uint8_small. lia. Qed.

Lemma cluster_size_bounds : 2 ^ 9 <= cluster_size <= 2 ^ 30.
Proof.
  split; apply Z.pow_le_mono_r; lia.
Qed.

Lemma G_l1Start_eq : G_l1Start g = cluster_size.
Proof.
  pose proof cluster_size_bounds.
  cbn [G_l1Start geometry]. rewrite uint8_small by lia.
  rewrite Z.shiftl_1_l. apply uint64_small. lia.
Qed.

Lemma G_l1Len_bound : G_l1Len g < 2 ^ 31.
Proof. cbn [G_l1Len geometry]. apply int32_range. Qed.

Lemma G_l1ClusterCount_bounds :
  0 <= G_l1ClusterCount g <= G_l1Len g
  /\ 16 * G_l1Len g <= cluster_size * G_l1ClusterCount g.
Proof.
  pose proof G_l1Len_bound as Hb. pose proof G_clusterExp_eq as Hce.
  assert (Hcc : G_l1ClusterCount g
                = int64 (- Z.shiftr (- G_l1Len g) (uint8 (G_clusterExp g - 4)))) by reflexivity.
  rewrite Hce, uint8_small in Hcc by lia.
  destruct (neg_shiftr_neg (G_l1Len g) (9 + cse - 4) Hl1 ltac:(lia)) as [H1 H2].
  rewrite int64_small in Hcc by lia. rewrite Hcc.
  split; [lia|].
  replace (9 + cse) with (4 + (9 + cse - 4)) at 1 by lia.
  rewrite Z.pow_add_r by lia. change (2 ^ 4) with 16. nia.
Qed.

Lemma G_regular_eq :
  G_regularClustersEntryOffset g
  = Z.lor 0x8000000000000000 ((1 + G_l1ClusterCount g) * cluster_size)
  /\ (1 + G_l1ClusterCount g) * cluster_size < 2 ^ 62.
Proof.
  pose proof G_l1Len_bound as Hb. pose proof G_clusterExp_eq as Hce.
  pose proof G_l1Start_eq as Hs. pose proof cluster_size_bounds as Hcs.
  destruct G_l1ClusterCount_bounds as [Hcc _].
  assert (Hr : G_regularClustersEntryOffset g
               = Z.lor 0x8000000000000000
                   (uint64 (G_l1Start g
                            + uint64 (Z.shiftl (uint64 (G_l1ClusterCount g)) (G_clusterExp g)))))
    by reflexivity.
  assert (Hm : (1 + G_l1ClusterCount g) * cluster_size < 2 ^ 62).
  { assert (1 + G_l1ClusterCount g <= 2 ^ 31) by lia.
    assert (cluster_size <= 2 ^ 30) by lia.
    change (2 ^ 62) with (2 * 2 ^ 31 * 2 ^ 30). nia. }
  rewrite Hr, Hs, Hce. rewrite (uint64_small (G_l1ClusterCount g)) by lia.
  rewrite Z.shiftl_mul_pow2 by lia.
  rewrite (uint64_small (_ * _)) by nia. rewrite uint64_small by nia.
  split; [f_equal; lia|exact Hm].
Qed.

End Geometry.

(** ** The header checksum *)

Lemma length_file_bytes f off n : length (file_bytes f off n) = Z.to_nat n.
Proof. unfold file_bytes. rewrite length_map, length_seq. reflexivity. Qed.

Lemma len_file_bytes f off n : 0 <= n -> len (file_bytes f off n) = n.
Proof. intros. unfold len. rewrite length_file_bytes. lia. Qed.

Lemma take_file_bytes f off n m :
  0 <= m <= n -> take (Z.to_nat m) (file_bytes f off n) = file_bytes f off m.
Proof.
  intros H. unfold file_bytes. rewrite firstn_map, take_seq. do 2 f_equal. lia.
Qed.

Lemma drop_file_bytes f off n m :
  0 <= m <= n -> drop (Z.to_nat m) (file_bytes f off n) = file_bytes f (off + m) (n - m).
Proof.
  intros H. unfold file_bytes. rewrite skipn_map, drop_seq.
  replace (Z.to_nat n - Z.to_nat m)%nat with (Z.to_nat (n - m)) by lia.
  rewrite Nat.add_0_l, <- (Nat.add_0_r (Z.to_nat m)), <- (fmap_add_seq (Z.to_nat m) 0).
  change (Nat.add (Z.to_nat m) <$> seq 0 (Z.to_nat (n - m)))
    with (map (Nat.add (Z.to_nat m)) (seq 0 (Z.to_nat (n - m)))).
  rewrite map_map. apply map_ext. intros k. f_equal. lia.
Qed.

Lemma file_bytes_ext f f' off n :
  (forall i, off <= i < off + n -> fdata f' i = fdata f i) ->
  file_bytes f' off n = file_bytes f off n.
Proof.
  intros H. unfold file_bytes. apply map_ext_in. intros k Hk.
  apply in_seq in Hk. apply H. lia.
Qed.

Lemma file_bytes_lookup f off n i :
  0 <= i < n -> file_bytes f off n !! Z.to_nat i = Some (fdata f (off + i)).
Proof.
  intros H. unfold file_bytes. change (map ?f ?l) with (fmap f l).
  rewrite list_lookup_fmap, lookup_seq_lt by lia. cbn. do 2 f_equal. lia.
Qed.

(** The first read of a fresh [bufio.Reader], for fewer bytes than its
    buffer holds. *)
Lemma bufio_Read_first f n :
  0 < n < 4096 ->
  bufio_Read (bufio_NewReader f 0) n =
    if Z.max 0 (fsize f) =? 0 then Err io_EOF
    else
      let k := Z.min 4096 (Z.max 0 (fsize f)) in
      Ok (take (Z.to_nat n) (file_bytes f 0 k),
          {| br_file := f; br_off := k; br_buf := drop (Z.to_nat n) (file_bytes f 0 k) |}).
Proof.
  intros Hn. unfold bufio_Read, bufio_NewReader. cbn [br_buf br_off br_file].
  destruct (Z.eqb_spec n 0); [lia|]. change (len (@nil byte) =? 0) with true. cbv iota.
  rewrite Z.sub_0_r. destruct (Z.max 0 (fsize f) =? 0); [done|].
  destruct (Z.leb_spec 4096 n); [lia|]. reflexivity.
Qed.

(** ** Flipping a bit *)

Lemma flip_byte_ne (b : byte) bit :
  0 <= bit < 8 -> byte.of_Z (Z.lxor (byte.unsigned b) (2 ^ bit)) <> b.
Proof.
  intros Hb Heq. apply (f_equal byte.unsigned) in Heq.
  rewrite byte.unsigned_of_Z in Heq. unfold byte.wrap in Heq.
  apply (f_equal (fun z => Z.testbit z bit)) in Heq.
  rewrite Z.mod_pow2_bits_low, Z.lxor_spec, Z.pow2_bits_true in Heq by lia.
  destruct (Z.testbit (byte.unsigned b) bit); discriminate.
Qed.

Lemma fsize_flipBit f off bit : fsize (flipBit f off bit) = fsize f.
Proof. reflexivity. Qed.

Lemma fdata_flipBit_other f off bit i : i <> off -> fdata (flipBit f off bit) i = fdata f i.
Proof. intros H. cbn. destruct (Z.eqb_spec i off); [done|reflexivity]. Qed.

Lemma fdata_flipBit_same f off bit :
  0 <= bit < 8 -> fdata (flipBit f off bit) off <> fdata f off.
Proof. intros H. cbn. rewrite Z.eqb_refl. apply flip_byte_ne, H. Qed.

Lemma file_bytes_flipBit_outside f off bit a n :
  off < a \/ a + n <= off ->
  file_bytes (flipBit f off bit) a n = file_bytes f a n.
Proof. intros H. apply file_bytes_ext. intros i Hi. apply fdata_flipBit_other. lia. Qed.

Lemma file_bytes_flipBit_inside f off bit a n :
  0 <= bit < 8 -> a <= off < a + n ->
  file_bytes (flipBit f off bit) a n <> file_bytes f a n.
Proof.
  intros Hb Hi Heq.
  apply (f_equal (fun l => l !! Z.to_nat (off - a))) in Heq.
  rewrite !file_bytes_lookup in Heq by lia.
  replace (a + (off - a)) with off in Heq by lia.
  injection Heq. apply fdata_flipBit_same, Hb.
Qed.

Lemma Uint32_4 b : length b = 4%nat -> Uint32 b = le_combine b.
Proof. intros H. unfold Uint32. rewrite take_ge by lia. reflexivity. Qed.

Lemma Uint32_drop_file_bytes f n m :
  0 <= m -> m + 4 <= n ->
  Uint32 (drop (Z.to_nat m) (file_bytes f 0 n)) = Uint32 (file_bytes f m 4).
Proof.
  intros H0 H. unfold Uint32. rewrite drop_file_bytes by lia.
  change 4%nat with (Z.to_nat 4). rewrite !take_file_bytes by lia.
  reflexivity.
Qed.

Lemma file_bytes_app f off n m :
  0 <= n -> 0 <= m -> file_bytes f off n ++ file_bytes f (off + n) m = file_bytes f off (n + m).
Proof.
  intros Hn Hm.
  rewrite <- (take_drop (Z.to_nat n) (file_bytes f off (n + m))).
  rewrite take_file_bytes, drop_file_bytes by lia.
  do 2 f_equal. lia.
Qed.

(** [readArchiveHeader] up to the checksum, in terms of the bytes of the
    file: [k] bytes reach the buffer, and [tail] is what follows a checksum
    that verifies. *)
Lemma readArchiveHeader_steps crypto options result :
  let f := File_ options in
  let k := Z.min 4096 (Z.max 0 (fsize f)) in
  let firstEntSize := Uint32 (file_bytes f 16 4) in
  let headerSize := Uint32 (file_bytes f 52 4) in
  let data := file_bytes f 0 headerSize in
  exists tail,
    readArchiveHeader crypto options result =
      if k =? 0 then Err io_EOF
      else if k <? 56 then Err errEarlyEOF
      else if negb (bool_decide (IdCvtmMagic = file_bytes f 0 16)) then Err errBadMagic
      else if firstEntSize <? 56 then Err (errBadEntrySize firstEntSize)
      else if headerSize <? firstEntSize then Err (errBadHeaderSize headerSize)
      else if headerSize >? maxHeaderSize then Err (errHeaderTooBig headerSize)
      else if negb (headerSize =? 56) && (k =? 56) then Err io_EOF
      else if k <? headerSize then Err errEarlyEOF
      else if negb (bool_decide (take 32 (drop 20 data) = sha256.Sum256 (zeroChecksum data)))
           then Err errBadChecksum
      else tail.
Proof.
  intros f k firstEntSize headerSize data.
  unfold readArchiveHeader. fold f.
  rewrite bufio_Read_first by lia. fold k.
  assert (Hk0 : (Z.max 0 (fsize f) =? 0) = (k =? 0)).
  { subst k. destruct (Z.eqb_spec (Z.max 0 (fsize f)) 0) as [E|E].
    - rewrite E. reflexivity.
    - symmetry. apply Z.eqb_neq. lia. }
  rewrite Hk0. destruct (Z.eqb_spec k 0) as [|Hk]; [exists (Err io_EOF); reflexivity|].
  cbv zeta. cbn [mbind Outcome_bind].
  assert (Hkr : 0 < k <= 4096) by (subst k; lia).
  assert (Hlen : len (take (Z.to_nat 56) (file_bytes f 0 k)) = Z.min 56 k).
  { unfold len. rewrite length_take, length_file_bytes. lia. }
  rewrite Hlen.
  destruct (Z.ltb_spec k 56) as [Hlt|Hge].
  { destruct (Z.eqb_spec (Z.min 56 k) 56); [lia|]. exists (Err io_EOF); reflexivity. }
  destruct (Z.eqb_spec (Z.min 56 k) 56); [|lia]. cbn [negb].
  rewrite take_file_bytes by lia.
  assert (H16 : take 16 (file_bytes f 0 56) = file_bytes f 0 16).
  { change 16%nat with (Z.to_nat 16). apply take_file_bytes. lia. }
  rewrite H16.
  destruct (bool_decide (IdCvtmMagic = file_bytes f 0 16)); cbn [negb];
    [|exists (Err io_EOF); reflexivity].
  assert (H16u : Uint32 (drop 16 (file_bytes f 0 56)) = firstEntSize)
    by (apply (Uint32_drop_file_bytes f 56 16); lia).
  assert (H52u : Uint32 (drop 52 (file_bytes f 0 56)) = headerSize)
    by (apply (Uint32_drop_file_bytes f 56 52); lia).
  rewrite !H16u, !H52u.
  destruct (Z.ltb_spec firstEntSize 56); [exists (Err io_EOF); reflexivity|].
  destruct (Z.ltb_spec headerSize firstEntSize); [exists (Err io_EOF); reflexivity|].
  destruct (Z.gtb_spec headerSize maxHeaderSize); [exists (Err io_EOF); reflexivity|].
  assert (Hhs0 : 0 <= headerSize).
  { subst headerSize. unfold Uint32. apply le_combine_bound. }
  unfold bufio_Read. cbn [br_buf br_off br_file].
  destruct (Z.eqb_spec (headerSize - 56) 0) as [Hz|Hnz].
  - (* the header is the first entry *)
    assert (headerSize = 56) by lia.
    cbn [mbind Outcome_bind]. change (len (@nil byte)) with 0.
    rewrite Hz. change (uint32 0) with 0. cbn [Z.eqb negb].
    destruct (Z.eqb_spec headerSize 56); [|lia]. cbn [negb andb].
    destruct (Z.ltb_spec k headerSize); [lia|].
    rewrite app_nil_r. subst data. replace headerSize with 56 by lia.
    destruct (negb _); [exists (Err io_EOF); reflexivity|eexists; reflexivity].
  - destruct (Z.eqb_spec headerSize 56); [lia|]. cbn [negb andb].
    rewrite drop_file_bytes by lia. rewrite len_file_bytes by lia.
    destruct (Z.eqb_spec (k - 56) 0) as [Hb|Hb].
    + (* nothing is buffered beyond the first entry: the file ends there *)
      destruct (Z.eqb_spec k 56); [|lia].
      assert (Hleft : Z.max 0 (fsize f - k) = 0) by (unfold k in *; lia).
      rewrite Hleft. cbn [Z.eqb]. exists (Err io_EOF); reflexivity.
    + destruct (Z.eqb_spec k 56); [lia|].
      cbn [mbind Outcome_bind].
      assert (Hu : uint32 (headerSize - 56) = headerSize - 56).
      { unfold uint32. apply Z.mod_small. unfold maxHeaderSize in *. lia. }
      rewrite Hu.
      assert (Hl2 : len (take (Z.to_nat (headerSize - 56)) (file_bytes f (0 + 56) (k - 56)))
                    = Z.min (headerSize - 56) (k - 56)).
      { unfold len. rewrite length_take, length_file_bytes. lia. }
      rewrite Hl2.
      destruct (Z.ltb_spec k headerSize).
      * destruct (Z.eqb_spec (Z.min (headerSize - 56) (k - 56)) (headerSize - 56)); [lia|].
        exists (Err io_EOF); reflexivity.
      * destruct (Z.eqb_spec (Z.min (headerSize - 56) (k - 56)) (headerSize - 56)); [|lia].
        cbn [negb]. rewrite take_file_bytes by lia.
        rewrite file_bytes_app by lia.
        replace (56 + (headerSize - 56)) with headerSize by lia. fold data.
        destruct (negb _); [exists (Err io_EOF); reflexivity|eexists; reflexivity].
Qed.

Lemma archiveNull_written :
  WriteEmptyArchive exampleRandom noCrypto confNull = Ok archiveNull.
Proof.
  unfold archiveNull.
  assert (H : isOk (WriteEmptyArchive exampleRandom noCrypto confNull) = true)
    by (vm_compute; reflexivity).
  destruct (WriteEmptyArchive exampleRandom noCrypto confNull); [reflexivity|discriminate H..].
Qed.

(** ** The synthesized image *)

(** *** Writes to a file *)

Lemma fdata_file_put_below f pos n g i :
  i < pos -> fdata (file_put f pos n g) i = fdata f i.
Proof.
  intros H. unfold file_put. destruct (n <=? 0); [reflexivity|]. cbn.
  destruct (Z.leb_spec pos i); [lia|]. reflexivity.
Qed.

Lemma fsize_file_put_le f pos n g : fsize f <= fsize (file_put f pos n g).
Proof. unfold file_put. destruct (n <=? 0); cbn; lia. Qed.

Lemma fsize_file_put f pos n g : 0 < n -> pos + n <= fsize (file_put f pos n g).
Proof. intros H. unfold file_put. destruct (Z.leb_spec n 0); [lia|]. cbn. lia. Qed.

Lemma fdata_file_write_in f pos p k :
  0 <= k < len p ->
  fdata (file_write f pos p) (pos + k) = nth (Z.to_nat k) p Byte.x00.
Proof.
  intros H. unfold file_write, file_put.
  destruct (Z.leb_spec (len p) 0); [lia|]. cbn.
  destruct (Z.leb_spec pos (pos + k)); [|lia].
  destruct (Z.ltb_spec (pos + k) (pos + len p)); [|lia]. cbn.
  f_equal. lia.
Qed.

Lemma file_bytes_file_write f pos p k m :
  0 <= k -> 0 <= m -> k + m <= len p ->
  file_bytes (file_write f pos p) (pos + k) m = take (Z.to_nat m) (drop (Z.to_nat k) p).
Proof.
  intros Hk Hm Hkm. unfold len in Hkm. apply list_eq. intros i.
  destruct (decide (i < Z.to_nat m)%nat) as [Hi|Hi].
  - replace i with (Z.to_nat (Z.of_nat i)) at 1 by lia.
    rewrite file_bytes_lookup by lia.
    rewrite lookup_take_lt, lookup_drop by lia.
    replace (pos + k + Z.of_nat i) with (pos + (k + Z.of_nat i)) by lia.
    rewrite fdata_file_write_in by (unfold len; lia).
    replace (Z.to_nat (k + Z.of_nat i)) with (Z.to_nat k + i)%nat by lia.
    destruct (lookup_lt_is_Some_2 p (Z.to_nat k + i)%nat ltac:(lia)) as [x Hx].
    rewrite nth_lookup, Hx. reflexivity.
  - rewrite lookup_ge_None_2 by (rewrite length_file_bytes; lia).
    symmetry. apply lookup_ge_None_2. rewrite length_take. lia.
Qed.

Lemma io_CopyN_spec dest dpos src soff n dest' dpos' soff' :
  io_CopyN dest dpos src soff n = Ok (dest', dpos', soff') ->
  dpos' = dpos + Z.max 0 n
  /\ (forall i, i < dpos -> fdata dest' i = fdata dest i)
  /\ fsize dest <= fsize dest'
  /\ (0 < n -> dpos' <= fsize dest').
Proof.
  unfold io_CopyN. destruct (Z.leb_spec n 0).
  - intros H0. assert (dest' = dest /\ dpos' = dpos) as [-> ->] by (split; congruence).
    repeat split; lia.
  - destruct (soff + n <=? fsize src); [|discriminate]. intros H0.
    assert (dest' = file_put dest dpos n (fun k => fdata src (soff + k)) /\ dpos' = dpos + n)
      as [-> ->] by (split; congruence).
    split; [lia|]. split; [intros; apply fdata_file_put_below; lia|].
    split; [apply fsize_file_put_le|]. intros _. apply fsize_file_put. lia.
Qed.

(** *** The indices read *)

Lemma readIndex_range ac r x r' :
  readIndex ac r = Ok (x, r') -> - 2 ^ 31 <= x < 2 ^ 31.
Proof.
  unfold readIndex. destruct (io_ReadFull r 4) as [[b r1]| |]; cbn; [|discriminate..].
  pose proof (int32_range (le_combine b)) as Hr.
  destruct (int32 (le_combine b) <? 0).
  - intros H. assert (x = int32 (le_combine b)) as -> by congruence. exact Hr.
  - destruct (int32 (le_combine b) >? ac); intros H.
    + assert (x = -1) as -> by congruence. lia.
    + assert (x = int32 (le_combine b)) as -> by congruence. exact Hr.
Qed.

Lemma readIndices_spec ac n : forall r xs r',
  readIndices ac r n = Ok (xs, r') ->
  length xs = n /\ Forall (fun x => - 2 ^ 31 <= x < 2 ^ 31) xs.
Proof.
  induction n as [|n IH]; intros r xs r'; cbn [readIndices].
  - intros H. assert (xs = []) as -> by congruence. split; [reflexivity|constructor].
  - destruct (readIndex ac r) as [[x r1]| |] eqn:Ex; cbn; [|discriminate..].
    destruct (readIndices ac r1 n) as [[ys r2]| |] eqn:Ey; cbn; [|discriminate..].
    intros H. assert (xs = x :: ys) as -> by congruence.
    destruct (IH _ _ _ Ey) as [Hl Hf].
    split; [cbn; congruence|]. constructor; [exact (readIndex_range _ _ _ _ Ex)|exact Hf].
Qed.

(** *** [sort.Ints] and [sort.SearchInts] *)

Lemma elem_of_insertInt x l y : y ∈ insertInt x l <-> y = x \/ y ∈ l.
Proof.
  induction l as [|z l IH]; cbn.
  - rewrite list_elem_of_singleton. split; [auto|]. intros [H|H]; [exact H|inversion H].
  - destruct (x <=? z).
    + rewrite elem_of_cons. reflexivity.
    + rewrite !elem_of_cons, IH. tauto.
Qed.

Lemma length_insertInt x l : length (insertInt x l) = S (length l).
Proof.
  induction l as [|z l IH]; cbn; [reflexivity|].
  destruct (x <=? z); cbn; [reflexivity|]. rewrite IH. reflexivity.
Qed.

Lemma ascending_insertInt x : forall l lo,
  lo <= x -> ascending lo l -> ascending lo (insertInt x l).
Proof.
  induction l as [|z l IH]; intros lo Hlo Hl; cbn.
  - auto.
  - destruct Hl as [Hz Hl]. destruct (Z.leb_spec x z); cbn.
    + repeat split; [lia|lia|exact Hl].
    + split; [exact Hz|]. apply IH; [lia|exact Hl].
Qed.

Lemma sort_Ints_cons x l : sort_Ints (x :: l) = insertInt x (sort_Ints l).
Proof. reflexivity. Qed.

Lemma elem_of_sort_Ints l y : y ∈ sort_Ints l <-> y ∈ l.
Proof.
  induction l as [|x l IH]; [reflexivity|].
  rewrite sort_Ints_cons, elem_of_insertInt, elem_of_cons, IH. reflexivity.
Qed.

Lemma length_sort_Ints l : length (sort_Ints l) = length l.
Proof.
  induction l as [|x l IH]; [reflexivity|].
  rewrite sort_Ints_cons, length_insertInt, IH. reflexivity.
Qed.

Lemma ascending_sort_Ints lo l :
  Forall (fun x => lo <= x) l -> ascending lo (sort_Ints l).
Proof.
  induction 1 as [|x l Hx Hl IH]; [exact I|].
  rewrite sort_Ints_cons. apply ascending_insertInt; assumption.
Qed.

Lemma ascending_lastOf : forall l lo, ascending lo l -> lo <= lastOf lo l.
Proof.
  induction l as [|z l IH]; intros lo Hl; cbn; [lia|].
  destruct Hl as [Hz Hl]. specialize (IH z Hl). lia.
Qed.

Lemma ascending_elem_lastOf : forall l lo x,
  ascending lo l -> x ∈ l -> lo <= x <= lastOf lo l.
Proof.
  induction l as [|z l IH]; intros lo x Hl Hx; [inversion Hx|].
  destruct Hl as [Hz Hl]. cbn [lastOf].
  apply elem_of_cons in Hx as [->|Hx].
  - split; [exact Hz|]. apply ascending_lastOf, Hl.
  - specialize (IH z x Hl Hx). lia.
Qed.

Lemma sort_SearchInts_bounds a x : 0 <= sort_SearchInts a x <= len a.
Proof.
  unfold len. induction a as [|y a IH]; cbn [sort_SearchInts length]; [lia|].
  destruct (x <=? y); lia.
Qed.

Lemma sort_SearchInts_elem a x : x ∈ a -> sort_SearchInts a x < len a.
Proof.
  unfold len. induction a as [|y a IH]; intros Hx; [inversion Hx|].
  cbn [sort_SearchInts length]. destruct (Z.leb_spec x y); [lia|].
  apply elem_of_cons in Hx as [->|Hx]; [lia|]. specialize (IH Hx). lia.
Qed.

Lemma be_combine_be_split n v : be_combine (be_split n v) = v mod 2 ^ (Z.of_nat n * 8).
Proof. unfold be_combine, be_split. rewrite rev_involutive. apply le_combine_split. Qed.

Lemma lor_top x : 0 <= x < 2 ^ 63 -> Z.lor 0x8000000000000000 x = 2 ^ 63 + x.
Proof.
  intros Hx. change 0x8000000000000000 with (2 ^ 63).
  symmetry. apply Z.add_nocarry_lor.
  apply Z.bits_inj'. intros n Hn. rewrite Z.land_spec, Z.bits_0.
  destruct (Z.eq_dec n 63) as [->|Hne].
  - rewrite (Z.bits_above_log2 x 63); [apply andb_false_r|lia|].
    destruct (Z.eq_dec x 0) as [->|]; [cbn; lia|].
    apply Z.log2_lt_pow2; lia.
  - rewrite Z.pow2_bits_false by lia. reflexivity.
Qed.

Lemma testbit_top x : 0 <= x < 2 ^ 63 -> Z.testbit (2 ^ 63 + x) 63 = true.
Proof.
  intros Hx. apply Z.testbit_true; [lia|].
  replace (2 ^ 63 + x) with (x + 1 * 2 ^ 63) by lia.
  rewrite Z.div_add by lia. rewrite Z.div_small by lia. reflexivity.
Qed.

Lemma land_top x : 0 <= x < 2 ^ 63 -> Z.land (2 ^ 63 + x) 0x7fffffffffffffff = x.
Proof. intros Hx. rewrite <- lor_top by exact Hx. apply land_lor_top, Hx. Qed.

Section Copying.

Variables (end_ : Z) (ending : EndingRead).
Local Abbreviation g := (geometry end_ ending).
Local Abbreviation cse := (ClusterSizeExp (ER_Ending ending)).
Local Abbreviation cluster_size := (2 ^ (9 + ClusterSizeExp (ER_Ending ending))).

Hypothesis Hcse : 0 <= cse <= 21.

Lemma l2_count : int64 (Z.shiftl 1 (uint8 (G_clusterExp g - 2))) = 2 ^ (7 + cse).
Proof.
  rewrite (G_clusterExp_eq end_ ending Hcse). rewrite uint8_small by lia.
  rewrite Z.shiftl_1_l. replace (9 + cse - 2) with (7 + cse) by lia.
  assert (2 ^ (7 + cse) <= 2 ^ 28) by (apply Z.pow_le_mono_r; lia).
  assert (0 < 2 ^ (7 + cse)) by (apply Z.pow_pos_nonneg; lia).
  apply int64_small. lia.
Qed.

Lemma l2_count_cluster : 8 * 2 ^ (7 + cse) = 2 * cluster_size.
Proof.
  replace (9 + cse) with (2 + (7 + cse)) by lia.
  rewrite (Z.pow_add_r 2 2 (7 + cse)) by lia. change (2 ^ 2) with 4. lia.
Qed.

Lemma len_l2Entries l ents : len (concat (map (l2Entry g l) ents)) = 8 * len ents.
Proof.
  induction ents as [|e ents IH]; [reflexivity|].
  cbn [map concat]. rewrite len_app, IH. unfold l2Entry, len at 1.
  rewrite length_be_split. unfold len. cbn [length]. lia.
Qed.

Lemma len_l1Entries l ents : len (concat (map (l1Entry g l) ents)) = 16 * len ents.
Proof.
  induction ents as [|e ents IH]; [reflexivity|].
  cbn [map concat]. rewrite len_app, IH.
  assert (len (l1Entry g l e) = 16) as ->.
  { unfold l1Entry. destruct (e <? 0); [reflexivity|].
    rewrite len_app. unfold len. rewrite !length_be_split. reflexivity. }
  unfold len. cbn [length]. lia.
Qed.

Lemma shift_cluster n :
  0 <= n < 2 ^ 32 -> Z.shiftl n (G_clusterExp g) = n * cluster_size /\ n * cluster_size < 2 ^ 62.
Proof.
  intros Hn. rewrite (G_clusterExp_eq end_ ending Hcse).
  rewrite Z.shiftl_mul_pow2 by lia. split; [reflexivity|].
  pose proof (cluster_size_bounds ending Hcse).
  change (2 ^ 62) with (2 ^ 32 * 2 ^ 30). nia.
Qed.

Lemma copyTable_spec src l st l2 st' :
  copyTable src g l st l2 = Ok st' ->
  0 <= l2 - cs_lastL2 st < 2 ^ 31 ->
  cs_lastL2 st' = l2
  /\ cs_dpos st' = cs_dpos st + (l2 - cs_lastL2 st) * cluster_size + 2 * cluster_size
  /\ (forall i, i < cs_dpos st -> fdata (cs_dest st') i = fdata (cs_dest st) i)
  /\ fsize (cs_dest st) <= fsize (cs_dest st')
  /\ cs_dpos st' <= fsize (cs_dest st').
Proof.
  intros H Hl2. unfold copyTable in H.
  destruct (shift_cluster (l2 - cs_lastL2 st) ltac:(lia)) as [Hs Hb].
  pose proof (cluster_size_bounds ending Hcse) as Hcs.
  rewrite Hs, (int64_small ((l2 - cs_lastL2 st) * cluster_size)) in H by nia.
  destruct (io_CopyN (cs_dest st) (cs_dpos st) src (cs_soff st) _)
    as [[[dest1 dpos1] soff1]| |] eqn:Ec; cbn [mbind Outcome_bind] in H; [|discriminate..].
  rewrite l2_count in H.
  destruct (readIndices _ _ _) as [[ents r]| |] eqn:Er; cbn [mbind Outcome_bind] in H;
    [|discriminate..].
  assert (st' = {| cs_dest := file_write dest1 dpos1 (concat (map (l2Entry g l) ents));
                   cs_dpos := dpos1 + len (concat (map (l2Entry g l) ents));
                   cs_soff := br_off r; cs_lastL2 := l2 |}) as -> by congruence.
  clear H. cbn [cs_dest cs_dpos cs_lastL2].
  apply io_CopyN_spec in Ec as (Hp & Hfr & Hsz & _).
  apply readIndices_spec in Er as [Hlen _].
  assert (Hlt : len (concat (map (l2Entry g l) ents)) = 2 * cluster_size).
  { rewrite len_l2Entries. unfold len. rewrite Hlen.
    rewrite Z2Nat.id by (apply Z.pow_nonneg; lia). apply l2_count_cluster. }
  rewrite Hlt. split; [reflexivity|]. split; [nia|].
  split; [|split].
  - intros i Hi. unfold file_write. rewrite fdata_file_put_below by nia. apply Hfr, Hi.
  - unfold file_write. etransitivity; [exact Hsz|apply fsize_file_put_le].
  - unfold file_write. rewrite <- Hlt. apply fsize_file_put. lia.
Qed.

Lemma copyTables_spec src l : forall todo st st',
  copyTables src g l st todo = Ok st' ->
  ascending (cs_lastL2 st) todo ->
  Forall (fun x => x < 2 ^ 31) todo ->
  0 <= cs_lastL2 st ->
  cs_lastL2 st' = lastOf (cs_lastL2 st) todo
  /\ cs_dpos st' = cs_dpos st + (lastOf (cs_lastL2 st) todo - cs_lastL2 st) * cluster_size
                   + 2 * cluster_size * len todo
  /\ (forall i, i < cs_dpos st -> fdata (cs_dest st') i = fdata (cs_dest st) i)
  /\ fsize (cs_dest st) <= fsize (cs_dest st')
  /\ (todo <> [] -> cs_dpos st' <= fsize (cs_dest st')).
Proof.
  pose proof (cluster_size_bounds ending Hcse) as Hcs.
  induction todo as [|l2 todo IH]; intros st st' H Hasc Hlt H0.
  - cbn in H. assert (st' = st) as -> by congruence. cbn [lastOf].
    unfold len. cbn [length]. repeat split; try lia. intros Hne. congruence.
  - cbn [copyTables] in H.
    destruct (copyTable src g l st l2) as [st1| |] eqn:E1; cbn [mbind Outcome_bind] in H;
      [|discriminate..].
    destruct Hasc as [Hle Hasc]. apply Forall_cons in Hlt as [Hl2 Hlt].
    destruct (copyTable_spec _ _ _ _ _ E1 ltac:(lia)) as (Hl & Hp & Hfr & Hsz & Hin).
    rewrite <- Hl in Hasc.
    destruct (IH st1 st' H Hasc Hlt ltac:(lia)) as (Hl' & Hp' & Hfr' & Hsz' & Hin').
    pose proof (ascending_lastOf _ _ Hasc) as Hmono.
    cbn [lastOf]. rewrite Hl in *. split; [exact Hl'|].
    split; [|split; [|split]].
    + rewrite Hp', Hp. unfold len. cbn [length]. lia.
    + intros i Hi. rewrite Hfr' by nia. apply Hfr, Hi.
    + lia.
    + intros _. destruct todo as [|l3 todo].
      * cbn in H. assert (st' = st1) as -> by congruence. exact Hin.
      * apply Hin'. discriminate.
Qed.

End Copying.

Lemma be_combine_zeros n : be_combine (replicate n Byte.x00) = 0.
Proof.
  unfold be_combine.
  assert (H : rev (replicate n Byte.x00) = replicate n Byte.x00).
  { induction n as [|n IH]; [reflexivity|].
    cbn [replicate rev]. rewrite IH. clear IH.
    induction n as [|n IH]; [reflexivity|]. cbn [replicate app]. rewrite IH. reflexivity. }
  rewrite H. clear H. induction n as [|n IH]; [reflexivity|].
  change (le_combine (replicate (S n) Byte.x00))
    with (Z.lor (byte.unsigned Byte.x00) (Z.shiftl (le_combine (replicate n Byte.x00)) 8)).
  rewrite IH. reflexivity.
Qed.

(** The [j]-th chunk of a table of 16-byte entries. *)
Lemma drop_concat_16 {A} (f : A -> list byte) :
  (forall x, length (f x) = 16%nat) ->
  forall l j x, l !! j = Some x ->
    exists rest, drop (16 * j) (concat (map f l)) = f x ++ rest.
Proof.
  intros Hf. induction l as [|y l IH]; intros j x Hj; [discriminate|].
  destruct j as [|j].
  - assert (y = x) as -> by (cbn in Hj; congruence).
    exists (concat (map f l)). reflexivity.
  - cbn in Hj. destruct (IH j x Hj) as [rest Hr]. exists rest.
    cbn [map concat]. replace (16 * S j)%nat with (16 + 16 * j)%nat by lia.
    rewrite drop_app_add' by (symmetry; apply Hf). exact Hr.
Qed.

Section Entries.

Variables (end_ : Z) (ending : EndingRead).
Local Abbreviation g := (geometry end_ ending).
Local Abbreviation cse := (ClusterSizeExp (ER_Ending ending)).
Local Abbreviation cluster_size := (2 ^ (9 + ClusterSizeExp (ER_Ending ending))).
Local Abbreviation regular := ((1 + G_l1ClusterCount g) * cluster_size).

Hypothesis Hcse : 0 <= cse <= 21.
Hypothesis Hl1 : 0 <= G_l1Len g.

Lemma clusterEntry_eq l c :
  0 <= c < 2 ^ 31 -> len l < 2 ^ 31 ->
  clusterEntry g l c = 2 ^ 63 + (regular + (sort_SearchInts l c + c) * cluster_size)
  /\ regular + (sort_SearchInts l c + c + 1) * cluster_size < 2 ^ 63.
Proof.
  intros Hc Hl. pose proof (sort_SearchInts_bounds l c) as Hs.
  destruct (G_regular_eq end_ ending Hcse Hl1) as [Hr Hm].
  pose proof (cluster_size_bounds ending Hcse) as Hcs.
  assert (Hr1 : 0 <= sort_SearchInts l c + c < 2 ^ 32) by lia.
  assert (Hr2 : 0 <= sort_SearchInts l c + c + 1 < 2 ^ 32) by lia.
  destruct (shift_cluster end_ ending Hcse _ Hr1) as [Hsh Hb].
  destruct (shift_cluster end_ ending Hcse _ Hr2) as [_ Hb'].
  destruct (G_l1ClusterCount_bounds end_ ending Hcse Hl1) as [Hcc _].
  unfold clusterEntry.
  rewrite (uint64_small (sort_SearchInts l c)) by lia.
  rewrite (uint64_small c) by lia.
  rewrite (uint64_small (sort_SearchInts l c + c)) by lia.
  rewrite Hsh. rewrite (uint64_small (_ * _)) by nia.
  rewrite Hr, lor_top by nia.
  rewrite uint64_small by nia.
  split; lia.
Qed.

Lemma l1Entry_first l c :
  0 <= c < 2 ^ 31 -> len l < 2 ^ 31 ->
  be_combine (take 8 (l1Entry g l c))
  = 2 ^ 63 + (regular + (sort_SearchInts l c + c) * cluster_size).
Proof.
  intros Hc Hl. destruct (clusterEntry_eq l c Hc Hl) as [He Hb].
  pose proof (sort_SearchInts_bounds l c) as Hs.
  pose proof (cluster_size_bounds ending Hcse) as Hcs.
  destruct (G_l1ClusterCount_bounds end_ ending Hcse Hl1) as [Hcc _].
  unfold l1Entry. destruct (Z.ltb_spec c 0); [lia|].
  rewrite take_app_length' by (symmetry; apply length_be_split).
  rewrite be_combine_be_split, He. apply Z.mod_small.
  change (2 ^ (Z.of_nat 8 * 8)) with (2 ^ 64). nia.
Qed.

Lemma l1Entry_second l c :
  0 <= c < 2 ^ 31 -> len l < 2 ^ 31 ->
  be_combine (take 8 (drop 8 (l1Entry g l c)))
  = 2 ^ 63 + (regular + (sort_SearchInts l c + c + 1) * cluster_size).
Proof.
  intros Hc Hl. destruct (clusterEntry_eq l c Hc Hl) as [He Hb].
  pose proof (sort_SearchInts_bounds l c) as Hs.
  pose proof (cluster_size_bounds ending Hcse) as Hcs.
  destruct (G_l1ClusterCount_bounds end_ ending Hcse Hl1) as [Hcc _].
  assert (Hr1 : 0 <= 1 < 2 ^ 32) by lia.
  destruct (shift_cluster end_ ending Hcse 1 Hr1) as [Hsh _].
  unfold l1Entry. destruct (Z.ltb_spec c 0); [lia|].
  rewrite drop_app_length' by (symmetry; apply length_be_split).
  rewrite take_ge by (rewrite length_be_split; lia).
  rewrite be_combine_be_split, He, Hsh.
  rewrite (uint64_small (1 * _)) by lia.
  rewrite uint64_small by nia.
  change (2 ^ (Z.of_nat 8 * 8)) with (2 ^ 64). rewrite Z.mod_small by nia. lia.
Qed.

Lemma l1Entry_unallocated l c :
  c < 0 ->
  be_combine (take 8 (l1Entry g l c)) = 0 /\ be_combine (take 8 (drop 8 (l1Entry g l c))) = 0.
Proof.
  intros Hc. unfold l1Entry. destruct (Z.ltb_spec c 0); [|lia].
  split; [exact (be_combine_zeros 8)|exact (be_combine_zeros 8)].
Qed.

Lemma length_l1Entry l c : length (l1Entry g l c) = 16%nat.
Proof.
  unfold l1Entry. destruct (c <? 0); [reflexivity|].
  rewrite length_app, !length_be_split. reflexivity.
Qed.

End Entries.

Lemma length_qcow3Header_bytes h : length (qcow3Header_bytes h) = 104%nat.
Proof. unfold qcow3Header_bytes. rewrite !length_app, !length_be_split. reflexivity. Qed.

(** * Further properties of the code *)

Lemma readArchiveHeader_unfold crypto options result :
  let f := File_ options in
  let k := Z.min 4096 (Z.max 0 (fsize f)) in
  let firstEntSize := Uint32 (file_bytes f 16 4) in
  let headerSize := Uint32 (file_bytes f 52 4) in
  let data := file_bytes f 0 headerSize in
  readArchiveHeader crypto options result =
      if k =? 0 then Err io_EOF
      else if k <? 56 then Err errEarlyEOF
      else if negb (bool_decide (IdCvtmMagic = file_bytes f 0 16)) then Err errBadMagic
      else if firstEntSize <? 56 then Err (errBadEntrySize firstEntSize)
      else if headerSize <? firstEntSize then Err (errBadHeaderSize headerSize)
      else if headerSize >? maxHeaderSize then Err (errHeaderTooBig headerSize)
      else if negb (headerSize =? 56) && (k =? 56) then Err io_EOF
      else if k <? headerSize then Err errEarlyEOF
      else if negb (bool_decide (take 32 (drop 20 data) = sha256.Sum256 (zeroChecksum data)))
           then Err errBadChecksum
      else
        tail ← sliceOf (zeroChecksum data) firstEntSize (len (zeroChecksum data));
        fields ← parseEntries tail firstEntSize (ArchiveHeaderRead_fields result);
        let result := ArchiveHeaderRead_set result fields in
        let result :=
          if EndingSize_Size (R_EndingSize result) =? 0
          then set_EndingSize result 1 else result in
        _ ← checkArchiveHeader crypto options result headerSize;
        Ok result.
Proof.
  intros f k firstEntSize headerSize data.
  unfold readArchiveHeader. fold f.
  rewrite bufio_Read_first by lia. fold k.
  assert (Hk0 : (Z.max 0 (fsize f) =? 0) = (k =? 0)).
  { subst k. destruct (Z.eqb_spec (Z.max 0 (fsize f)) 0) as [E|E].
    - rewrite E. reflexivity.
    - symmetry. apply Z.eqb_neq. lia. }
  rewrite Hk0. destruct (Z.eqb_spec k 0) as [|Hk]; [reflexivity|].
  cbv zeta. cbn [mbind Outcome_bind].
  assert (Hkr : 0 < k <= 4096) by (subst k; lia).
  assert (Hlen : len (take (Z.to_nat 56) (file_bytes f 0 k)) = Z.min 56 k).
  { unfold len. rewrite length_take, length_file_bytes. lia. }
  rewrite Hlen.
  destruct (Z.ltb_spec k 56) as [Hlt|Hge].
  { destruct (Z.eqb_spec (Z.min 56 k) 56); [lia|]. reflexivity. }
  destruct (Z.eqb_spec (Z.min 56 k) 56); [|lia]. cbn [negb].
  rewrite take_file_bytes by lia.
  assert (H16 : take 16 (file_bytes f 0 56) = file_bytes f 0 16).
  { change 16%nat with (Z.to_nat 16). apply take_file_bytes. lia. }
  rewrite H16.
  destruct (bool_decide (IdCvtmMagic = file_bytes f 0 16)); cbn [negb];
    [|reflexivity].
  assert (H16u : Uint32 (drop 16 (file_bytes f 0 56)) = firstEntSize)
    by (apply (Uint32_drop_file_bytes f 56 16); lia).
  assert (H52u : Uint32 (drop 52 (file_bytes f 0 56)) = headerSize)
    by (apply (Uint32_drop_file_bytes f 56 52); lia).
  rewrite !H16u, !H52u.
  destruct (Z.ltb_spec firstEntSize 56); [reflexivity|].
  destruct (Z.ltb_spec headerSize firstEntSize); [reflexivity|].
  destruct (Z.gtb_spec headerSize maxHeaderSize); [reflexivity|].
  assert (Hhs0 : 0 <= headerSize).
  { subst headerSize. unfold Uint32. apply le_combine_bound. }
  unfold bufio_Read. cbn [br_buf br_off br_file].
  destruct (Z.eqb_spec (headerSize - 56) 0) as [Hz|Hnz].
  - (* the header is the first entry *)
    assert (headerSize = 56) by lia.
    cbn [mbind Outcome_bind]. change (len (@nil byte)) with 0.
    rewrite Hz. change (uint32 0) with 0. cbn [Z.eqb negb].
    destruct (Z.eqb_spec headerSize 56); [|lia]. cbn [negb andb].
    destruct (Z.ltb_spec k headerSize); [lia|].
    rewrite app_nil_r. subst data. replace headerSize with 56 by lia.
    destruct (negb _); [reflexivity|reflexivity].
  - destruct (Z.eqb_spec headerSize 56); [lia|]. cbn [negb andb].
    rewrite drop_file_bytes by lia. rewrite len_file_bytes by lia.
    destruct (Z.eqb_spec (k - 56) 0) as [Hb|Hb].
    + (* nothing is buffered beyond the first entry: the file ends there *)
      destruct (Z.eqb_spec k 56); [|lia].
      assert (Hleft : Z.max 0 (fsize f - k) = 0) by (unfold k in *; lia).
      rewrite Hleft. cbn [Z.eqb]. reflexivity.
    + destruct (Z.eqb_spec k 56); [lia|].
      cbn [mbind Outcome_bind].
      assert (Hu : uint32 (headerSize - 56) = headerSize - 56).
      { unfold uint32. apply Z.mod_small. unfold maxHeaderSize in *. lia. }
      rewrite Hu.
      assert (Hl2 : len (take (Z.to_nat (headerSize - 56)) (file_bytes f (0 + 56) (k - 56)))
                    = Z.min (headerSize - 56) (k - 56)).
      { unfold len. rewrite length_take, length_file_bytes. lia. }
      rewrite Hl2.
      destruct (Z.ltb_spec k headerSize).
      * destruct (Z.eqb_spec (Z.min (headerSize - 56) (k - 56)) (headerSize - 56)); [lia|].
        reflexivity.
      * destruct (Z.eqb_spec (Z.min (headerSize - 56) (k - 56)) (headerSize - 56)); [|lia].
        cbn [negb]. rewrite take_file_bytes by lia.
        rewrite file_bytes_app by lia.
        replace (56 + (headerSize - 56)) with headerSize by lia. fold data.
        destruct (negb _); [reflexivity|reflexivity].
Qed.

Lemma TypeToID_inj t1 t2 : TypeToID t1 = TypeToID t2 -> t1 = t2.
Proof. destruct t1, t2; intros H; try reflexivity; vm_compute in H; discriminate H. Qed.

(** X5. The identifiers of the registered entry types are 16 bytes long and
    pairwise distinct. *)
Theorem TypeToID_injective (t1 t2 : EntryType) :
  length (TypeToID t1) = 16%nat /\ (TypeToID t1 = TypeToID t2 <-> t1 = t2).
Proof.
  split; [apply length_TypeToID|]. split; [apply TypeToID_inj|intros ->; reflexivity].
Qed.

Lemma parseFields_fixed_app vs : forall ds extra,
  Forall wfValue vs -> Forall wfValue ds -> Forall2 sameKind vs ds ->
  0 <= sizeofStruct vs ->
  parseFields (concat (map binaryWriteField vs) ++ extra) ds = Ok vs.
Proof.
  induction vs as [|v vs IH]; intros ds extra Hv Hd Hk Hs.
  - inversion Hk; subst. reflexivity.
  - inversion Hk as [|? d ? ds' Hk1 Hk2]; subst.
    inversion Hv; subst. inversion Hd; subst.
    cbn [sizeofStruct] in Hs.
    destruct (Z.ltb_spec (sizeofField v) 0) as [|Hf]; [cbn [orb] in Hs; lia|].
    destruct (Z.ltb_spec (sizeofStruct vs) 0) as [|Hr]; [cbn [orb] in Hs; lia|].
    cbn [map concat]. rewrite <- app_assoc.
    destruct v as [x|x|n b|b]; [| | |cbn in Hf; lia];
      (destruct d; try contradiction; cbn [parseFields];
       rewrite binary_Read_ptr_app; [|done..|cbn; lia]; cbn [mbind Outcome_bind];
       rewrite IH by done; reflexivity).
Qed.

(** X4. An entry of fixed size is decoded from the front of its payload;
    bytes that follow the last field are ignored. *)
Theorem parseEntry_ignores_trailing_bytes (p : Entry) (pos : Z) (extra : list byte) :
  Forall wfValue (fieldsOf p) ->
  0 <= sizeofStruct (fieldsOf p) ->
  parseEntry {| at_ := pos; data := bare p ++ extra |} (zero (typeOf p)) = Ok p.
Proof.
  intros Hw Hs. unfold parseEntry. cbn [binary_Read_value data at_].
  destruct (fieldsOf_zero_shape p) as (Hk & Hd & _ & _).
  rewrite bare_concat, parseFields_fixed_app by done.
  f_equal. apply setFields_fieldsOf. apply typeOf_zero.
Qed.

Lemma parseEntry_ignores_trailing_bytes_witness :
  Forall wfValue (fieldsOf exampleEnding)
  /\ 0 <= sizeofStruct (fieldsOf exampleEnding)
  /\ parseEntry {| at_ := 0; data := bare exampleEnding ++ [Byte.xff; Byte.xfe] |}
       (zero (typeOf exampleEnding)) = Ok exampleEnding.
Proof.
  assert (H1 : Forall wfValue (fieldsOf exampleEnding))
    by (repeat constructor; cbn; lia).
  assert (H2 : 0 <= sizeofStruct (fieldsOf exampleEnding)) by (vm_compute; discriminate).
  split; [exact H1|]. split; [exact H2|].
  exact (parseEntry_ignores_trailing_bytes exampleEnding 0 [Byte.xff; Byte.xfe] H1 H2).
Defined.

Lemma align_pow2 (n k : Z) :
  0 <= k < 62 -> 0 <= n < 2 ^ 62 ->
  alignUp n (2 ^ k) = 2 ^ k * ((n + 2 ^ k - 1) / 2 ^ k)
  /\ n <= alignUp n (2 ^ k) < n + 2 ^ k
  /\ alignDown n (2 ^ k) = 2 ^ k * (n / 2 ^ k)
  /\ alignDown n (2 ^ k) <= n < alignDown n (2 ^ k) + 2 ^ k.
Proof.
  intros Hk Hn.
  assert (Hp : 0 < 2 ^ k) by (apply Z.pow_pos_nonneg; lia).
  assert (Hp' : 2 ^ k < 2 ^ 62) by (apply Z.pow_lt_mono_r; lia).
  assert (Hu : alignUp n (2 ^ k) = 2 ^ k * ((n + 2 ^ k - 1) / 2 ^ k)).
  { unfold alignUp. rewrite (int64_small (2 ^ k - 1)) by lia.
    rewrite (int64_small (- 2 ^ k)) by lia. rewrite int64_small by lia.
    rewrite land_neg_pow2 by lia. f_equal. f_equal. lia. }
  assert (Hd : alignDown n (2 ^ k) = 2 ^ k * (n / 2 ^ k)).
  { unfold alignDown. rewrite (int64_small (- 2 ^ k)) by lia.
    apply land_neg_pow2. lia. }
  rewrite Hu, Hd.
  pose proof (Z.div_mod (n + 2 ^ k - 1) (2 ^ k) ltac:(lia)) as E1.
  pose proof (Z.mod_pos_bound (n + 2 ^ k - 1) (2 ^ k) Hp) as B1.
  pose proof (Z.div_mod n (2 ^ k) ltac:(lia)) as E2.
  pose proof (Z.mod_pos_bound n (2 ^ k) Hp) as B2.
  repeat split; lia.
Qed.

(** X17. [alignUp] and [alignDown] for a power of two: the nearest multiples
    of the alignment at or above, and at or below. *)
Theorem alignUp_alignDown_pow2 (n k : Z) :
  0 <= k < 62 -> 0 <= n < 2 ^ 62 ->
  alignUp n (2 ^ k) = 2 ^ k * ((n + 2 ^ k - 1) / 2 ^ k)
  /\ n <= alignUp n (2 ^ k) < n + 2 ^ k
  /\ alignDown n (2 ^ k) = 2 ^ k * (n / 2 ^ k)
  /\ alignDown n (2 ^ k) <= n < alignDown n (2 ^ k) + 2 ^ k.
Proof. exact (align_pow2 n k). Qed.

Lemma alignUp_alignDown_pow2_witness :
  alignUp 499 (2 ^ 12) = 2 ^ 12 * ((499 + 2 ^ 12 - 1) / 2 ^ 12)
  /\ 499 <= alignUp 499 (2 ^ 12) < 499 + 2 ^ 12
  /\ alignDown 499 (2 ^ 12) = 2 ^ 12 * (499 / 2 ^ 12)
  /\ alignDown 499 (2 ^ 12) <= 499 < alignDown 499 (2 ^ 12) + 2 ^ 12.
Proof. apply (alignUp_alignDown_pow2 499 12); lia. Defined.

(** X16. [readIndex] reads four bytes as a little-endian [int32].  An index
    that is negative or at most [allocatedClusters] is handed out as it is
    read; a greater one is replaced by -1.  So what is handed out is
    negative or at most [allocatedClusters]. *)
Theorem readIndex_clamps (allocatedClusters : Z) (r r' : bufReader) (x : Z) :
  readIndex allocatedClusters r = Ok (x, r') ->
  (exists b, io_ReadFull r 4 = Ok (b, r')
     /\ (int32 (le_combine b) < 0 \/ int32 (le_combine b) <= allocatedClusters ->
         x = int32 (le_combine b))
     /\ (0 <= int32 (le_combine b) -> allocatedClusters < int32 (le_combine b) -> x = -1))
  /\ (- 2 ^ 31 <= x < 0 \/ 0 <= x <= allocatedClusters /\ x < 2 ^ 31).
Proof.
  unfold readIndex. destruct (io_ReadFull r 4) as [[b r1]| |]; cbn [mbind Outcome_bind];
    [|discriminate..].
  pose proof (int32_range (le_combine b)) as Hr.
  destruct (Z.ltb_spec (int32 (le_combine b)) 0).
  - intros Hx. assert (x = int32 (le_combine b) /\ r1 = r') as [-> ->] by (split; congruence).
    split; [|lia]. exists b. split; [reflexivity|]. split; [reflexivity|lia].
  - destruct (Z.gtb_spec (int32 (le_combine b)) allocatedClusters); intros Hx.
    + assert (x = -1 /\ r1 = r') as [-> ->] by (split; congruence).
      split; [|lia]. exists b. split; [reflexivity|]. split; [lia|reflexivity].
    + assert (x = int32 (le_combine b) /\ r1 = r') as [-> ->] by (split; congruence).
      split; [|lia]. exists b. split; [reflexivity|]. split; [reflexivity|lia].
Qed.

(** An index of 7 stored at the reader's offset, with 3 clusters allocated. *)
Lemma readIndex_clamps_witness :
  exists x r',
    readIndex 3 (bufio_NewReader (file_write emptyFile 0 (le_split 4 7)) 0) = Ok (x, r')
    /\ x = -1
    /\ (exists b, io_ReadFull (bufio_NewReader (file_write emptyFile 0 (le_split 4 7)) 0) 4
                  = Ok (b, r')
          /\ (int32 (le_combine b) < 0 \/ int32 (le_combine b) <= 3 ->
              x = int32 (le_combine b))
          /\ (0 <= int32 (le_combine b) -> 3 < int32 (le_combine b) -> x = -1))
    /\ (- 2 ^ 31 <= x < 0 \/ 0 <= x <= 3 /\ x < 2 ^ 31).
Proof.
  destruct (readIndex 3 (bufio_NewReader (file_write emptyFile 0 (le_split 4 7)) 0))
    as [[x r']| |] eqn:E; [|vm_compute in E; discriminate..].
  exists x, r'. split; [reflexivity|].
  split; [vm_compute in E; congruence|].
  exact (readIndex_clamps 3 _ r' x E).
Defined.

(** X7. A file of fewer than 56 bytes has no room for the magic entry:
    [readArchiveHeader] returns [io.EOF] for an empty file and the early
    end of file error otherwise. *)
Theorem readArchiveHeader_short_file (crypto : Crypto) (options : ExtractOptions)
    (result : ArchiveHeaderRead) :
  fsize (File_ options) < 56 ->
  readArchiveHeader crypto options result
  = Err (if fsize (File_ options) <=? 0 then io_EOF else errEarlyEOF).
Proof.
  intros Hs. rewrite readArchiveHeader_unfold. cbv zeta.
  destruct (Z.leb_spec (fsize (File_ options)) 0).
  - destruct (Z.eqb_spec (Z.min 4096 (Z.max 0 (fsize (File_ options)))) 0); [reflexivity|lia].
  - destruct (Z.eqb_spec (Z.min 4096 (Z.max 0 (fsize (File_ options)))) 0); [lia|].
    destruct (Z.ltb_spec (Z.min 4096 (Z.max 0 (fsize (File_ options)))) 56); [reflexivity|lia].
Qed.

Lemma readArchiveHeader_short_file_witness :
  fsize (File_ (optionsFor (file_write emptyFile 0 IdCvtmMagic) None)) < 56
  /\ readArchiveHeader noCrypto (optionsFor (file_write emptyFile 0 IdCvtmMagic) None)
       ArchiveHeaderRead_zero
     = Err (if fsize (File_ (optionsFor (file_write emptyFile 0 IdCvtmMagic) None)) <=? 0
            then io_EOF else errEarlyEOF).
Proof.
  assert (H : fsize (File_ (optionsFor (file_write emptyFile 0 IdCvtmMagic) None)) < 56)
    by (vm_compute; reflexivity).
  split; [exact H|].
  exact (readArchiveHeader_short_file noCrypto _ ArchiveHeaderRead_zero H).
Defined.

(** X8. A header whose stated length is above the 4096 bytes of the read
    buffer is rejected with the early end of file error, however long the
    file is: the second read hands out only what the buffer holds. *)
Theorem readArchiveHeader_over_4096 (crypto : Crypto) (options : ExtractOptions)
    (result : ArchiveHeaderRead) :
  56 < fsize (File_ options) ->
  IdCvtmMagic = file_bytes (File_ options) 0 16 ->
  56 <= Uint32 (file_bytes (File_ options) 16 4) <= Uint32 (file_bytes (File_ options) 52 4) ->
  4096 < Uint32 (file_bytes (File_ options) 52 4) <= maxHeaderSize ->
  readArchiveHeader crypto options result = Err errEarlyEOF.
Proof.
  intros Hs Hm He Hh. rewrite readArchiveHeader_unfold. cbv zeta.
  set (k := Z.min 4096 (Z.max 0 (fsize (File_ options)))).
  assert (Hk : 56 < k <= 4096) by (subst k; lia).
  destruct (Z.eqb_spec k 0); [lia|].
  destruct (Z.ltb_spec k 56); [lia|].
  rewrite bool_decide_true by exact Hm. cbn [negb].
  destruct (Z.ltb_spec (Uint32 (file_bytes (File_ options) 16 4)) 56); [lia|].
  destruct (Z.ltb_spec (Uint32 (file_bytes (File_ options) 52 4))
              (Uint32 (file_bytes (File_ options) 16 4))); [lia|].
  destruct (Z.gtb_spec (Uint32 (file_bytes (File_ options) 52 4)) maxHeaderSize); [lia|].
  destruct (Z.eqb_spec k 56); [lia|]. rewrite andb_false_r.
  destruct (Z.ltb_spec k (Uint32 (file_bytes (File_ options) 52 4))); [reflexivity|lia].
Qed.

Lemma len_app_eq_0 {A} (l k : list A) : (len (l ++ k) =? 0) = true <-> l = [] /\ k = [].
Proof.
  rewrite Z.eqb_eq. unfold len. rewrite length_app.
  destruct l, k; cbn; split; intros H; try lia; try done; destruct H; discriminate.
Qed.

Lemma flat_map_nil_iff {A B} (f : A -> list B) (l : list A) :
  flat_map f l = [] <-> Forall (fun x => f x = []) l.
Proof.
  induction l as [|x l IH]; cbn; [split; [constructor|reflexivity]|].
  split.
  - intros H. apply app_eq_nil in H as [H1 H2]. constructor; [exact H1|apply IH, H2].
  - intros H. inversion H; subst. rewrite (proj2 IH) by assumption.
    rewrite app_nil_r. assumption.
Qed.

Lemma checkArchiveHeader_accepts_iff crypto options header headerSize :
  checkArchiveHeader crypto options header headerSize = Ok tt <->
    EndingSize_Size (R_EndingSize header) <= maxEndingSize
    /\ (EndingCipher_Algo (R_EndingCipher header) = EndingCipherNull
        \/ EndingCipher_Algo (R_EndingCipher header) = EndingCipherRSA
           /\ (ParsePKCS1PublicKey crypto (EndingCipher_Key (R_EndingCipher header)) = None
               \/ PrivateKey options <> None))
    /\ EndPointerChec_Algo (R_EndPointerChec header) <= 2
    /\ R_EndPointerLoca header <> []
    /\ Forall (fun e => endPointerPlaced header
                          (uint32 (headerSize + (BlockSize - 1)) / BlockSize) e = true)
         (R_EndPointerLoca header).
Proof.
  unfold checkArchiveHeader, checkArchiveHeader_errs. cbv zeta.
  set (placed := flat_map _ _).
  assert (Hplaced : placed = [] <->
            Forall (fun e => endPointerPlaced header
                               (uint32 (headerSize + (BlockSize - 1)) / BlockSize) e = true)
              (R_EndPointerLoca header)).
  { unfold placed. rewrite flat_map_nil_iff. apply Forall_iff. intros e.
    destruct (endPointerPlaced _ _ e); split; intros H; congruence. }
  rewrite <- Hplaced. clear Hplaced.
  assert (Hloca : (len (R_EndPointerLoca header) =? 0) = true <-> R_EndPointerLoca header = []).
  { rewrite Z.eqb_eq. unfold len. destruct (R_EndPointerLoca header); cbn; split; intros H;
      try done; try lia. }
  set (errs := (if len (R_EndPointerLoca header) =? 0 then _ else _)).
  assert (Hiff : (len (errs ++ placed) =? 0) = true <-> errs = [] /\ placed = [])
    by apply len_app_eq_0.
  assert (Hok : (if len (errs ++ placed) =? 0 then Ok tt else Err (errorList (errs ++ placed)))
                = Ok tt <-> errs = [] /\ placed = []).
  { rewrite <- Hiff. destruct (len (errs ++ placed) =? 0); split; intros H; congruence. }
  rewrite Hok. clear Hok Hiff.
  assert (Herrs : errs = [] <->
            EndingSize_Size (R_EndingSize header) <= maxEndingSize
            /\ (EndingCipher_Algo (R_EndingCipher header) = EndingCipherNull
                \/ EndingCipher_Algo (R_EndingCipher header) = EndingCipherRSA
                   /\ (ParsePKCS1PublicKey crypto (EndingCipher_Key (R_EndingCipher header)) = None
                       \/ PrivateKey options <> None))
            /\ EndPointerChec_Algo (R_EndPointerChec header) <= 2
            /\ R_EndPointerLoca header <> []).
  { unfold errs. clear errs placed.
    destruct (Z.gtb_spec (EndingSize_Size (R_EndingSize header)) maxEndingSize);
    destruct (Z.eqb_spec (EndingCipher_Algo (R_EndingCipher header)) EndingCipherNull);
    destruct (Z.eqb_spec (EndingCipher_Algo (R_EndingCipher header)) EndingCipherRSA);
    destruct (ParsePKCS1PublicKey crypto (EndingCipher_Key (R_EndingCipher header)));
    destruct (PrivateKey options);
    destruct (Z.gtb_spec (EndPointerChec_Algo (R_EndPointerChec header)) 2);
    destruct (len (R_EndPointerLoca header) =? 0) eqn:El;
    cbn [app]; (split; [intros Hx; try discriminate Hx|intros (K1 & K2 & K3 & K4)]);
    try (exfalso; lia);
    try (exfalso; apply K4, Hloca; reflexivity);
    try (exfalso; destruct K2 as [K2|[K2 [K5|K5]]]; congruence);
    try reflexivity;
    (split; [lia|]; split;
     [first [left; assumption | right; split; [assumption|first [left; reflexivity|right; discriminate]]]|];
     split; [lia|]; intros E; apply Hloca in E; congruence). }
  rewrite Herrs. tauto.
Qed.

(** X6. What [checkArchiveHeader] accepts: an ending of at most 32 blocks, a
    cipher it can handle with the keys at hand, a checksum algorithm of at
    most 2, and end pointers, each outside the header and the image area. *)
Theorem checkArchiveHeader_accepts (crypto : Crypto) (options : ExtractOptions)
    (header : ArchiveHeaderRead) (headerSize : Z) :
  checkArchiveHeader crypto options header headerSize = Ok tt <->
    EndingSize_Size (R_EndingSize header) <= maxEndingSize
    /\ (EndingCipher_Algo (R_EndingCipher header) = EndingCipherNull
        \/ EndingCipher_Algo (R_EndingCipher header) = EndingCipherRSA
           /\ (ParsePKCS1PublicKey crypto (EndingCipher_Key (R_EndingCipher header)) = None
               \/ PrivateKey options <> None))
    /\ EndPointerChec_Algo (R_EndPointerChec header) <= 2
    /\ R_EndPointerLoca header <> []
    /\ Forall (fun e => endPointerPlaced header
                          (uint32 (headerSize + (BlockSize - 1)) / BlockSize) e = true)
         (R_EndPointerLoca header).
Proof. apply checkArchiveHeader_accepts_iff. Qed.

Lemma readArchiveHeader_over_4096_witness :
  56 < fsize (File_ (optionsFor overlongHeader None))
  /\ readArchiveHeader noCrypto (optionsFor overlongHeader None) ArchiveHeaderRead_zero
     = Err errEarlyEOF.
Proof.
  assert (H1 : 56 < fsize (File_ (optionsFor overlongHeader None))) by (vm_compute; reflexivity).
  split; [exact H1|].
  apply (readArchiveHeader_over_4096 noCrypto (optionsFor overlongHeader None)
           ArchiveHeaderRead_zero H1).
  - vm_compute. reflexivity.
  - vm_compute. split; discriminate.
  - vm_compute. split; [reflexivity|discriminate].
Defined.

(** *** End pointers *)

Lemma readEndPointer_nonneg infile header at_byte a :
  readEndPointer infile header at_byte = Ok a -> 0 <= a.
Proof.
  unfold readEndPointer. destruct (ReadAt infile BlockSize at_byte) as [buf| |].
  - destruct (computeEndPointerChecksum _ _) as [[sum buf']| |]; cbn [mbind Outcome_bind];
      [|discriminate..].
    destruct (negb _); intros H; assert (Ha : a = 0 \/ a = BlockSize * Uint32 (drop 32 buf'))
      by (first [left; congruence|right; congruence]).
    + destruct Ha as [->| ->]; [lia|]. pose proof (le_combine_bound (take 4 (drop 32 buf'))).
      unfold Uint32, BlockSize. lia.
    + destruct Ha as [->| ->]; [lia|]. pose proof (le_combine_bound (take 4 (drop 32 buf'))).
      unfold Uint32, BlockSize. lia.
  - intros H. assert (a = 0) as -> by congruence. lia.
  - discriminate.
Qed.




Lemma length_makeEndPointer pointTo algo ep :
  makeEndPointer pointTo algo = Ok ep -> len ep = 512.
Proof.
  intros H. destruct (makeEndPointer_inv _ _ _ H) as (sum & Hl & -> & _).
  unfold len. rewrite !length_app, Hl, length_replicate. unfold PutUint32.
  rewrite length_le_split. reflexivity.
Qed.

Lemma ReadAt_file_write f pos p :
  0 <= pos -> 0 < len p -> ReadAt (file_write f pos p) (len p) pos = Ok p.
Proof.
  intros Hp Hl. unfold ReadAt.
  destruct (Z.ltb_spec pos 0); [lia|].
  pose proof (fsize_file_put f pos (len p) (fun k => nth (Z.to_nat k) p Byte.x00) Hl) as Hs.
  fold (file_write f pos p) in Hs.
  destruct (Z.leb_spec (pos + len p) (fsize (file_write f pos p))); [|lia].
  f_equal. pose proof (file_bytes_file_write f pos p 0 (len p)) as Hw.
  rewrite Z.add_0_r in Hw. rewrite Hw by lia.
  rewrite drop_0. apply take_ge. unfold len. lia.
Qed.

(** X10. The block that [makeEndPointer] makes for either checksum
    algorithm, once written to a file, is what [readEndPointer] accepts, and
    it yields the block number times 512. *)
Theorem readEndPointer_written (f : File) (header : ArchiveHeaderRead)
    (at_byte pointTo : Z) (ep : list byte) :
  makeEndPointer pointTo (EndPointerChec_Algo (R_EndPointerChec header)) = Ok ep ->
  0 <= at_byte ->
  readEndPointer (file_write f at_byte ep) header at_byte = Ok (BlockSize * uint32 pointTo).
Proof.
  intros Hm Hat. pose proof (length_makeEndPointer _ _ _ Hm) as Hl.
  apply (readEndPointer_makeEndPointer _ _ _ _ ep Hm).
  change BlockSize with 512. rewrite <- Hl. apply ReadAt_file_write; lia.
Qed.

Lemma readEndPointer_written_witness :
  exists ep,
    makeEndPointer 257 (EndPointerChec_Algo (R_EndPointerChec (withChecksumAlgo headerNull 1)))
    = Ok ep
    /\ readEndPointer (file_write emptyFile 4096 ep) (withChecksumAlgo headerNull 1) 4096
       = Ok (BlockSize * uint32 257).
Proof.
  destruct (makeEndPointer 257
              (EndPointerChec_Algo (R_EndPointerChec (withChecksumAlgo headerNull 1))))
    as [ep| |] eqn:E; [|vm_compute in E; discriminate..].
  exists ep. split; [reflexivity|].
  apply (readEndPointer_written emptyFile (withChecksumAlgo headerNull 1) 4096 257 ep E).
  lia.
Defined.

(** X11. The end pointer checksum algorithm 2 is let through by
    [checkArchiveHeader], and [findEnd] then panics on the first end pointer
    it can read. *)
Theorem checksum_algo_2_panics (crypto : Crypto) (options : ExtractOptions)
    (header : ArchiveHeaderRead) (headerSize : Z) (ent : EndPointerLoca)
    (rest : list EndPointerLoca) :
  EndPointerChec_Algo (R_EndPointerChec header) = 2 ->
  EndingSize_Size (R_EndingSize header) <= maxEndingSize ->
  EndingCipher_Algo (R_EndingCipher header) = EndingCipherNull ->
  R_EndPointerLoca header = ent :: rest ->
  Forall (fun e => endPointerPlaced header
                     (uint32 (headerSize + (BlockSize - 1)) / BlockSize) e = true)
    (R_EndPointerLoca header) ->
  0 <= Blk ent ->
  BlockSize * Blk ent + BlockSize <= fsize (File_ options) ->
  checkArchiveHeader crypto options header headerSize = Ok tt
  /\ findEnd (File_ options) header = Panic (panicChecksumType 2).
Proof.
  intros Ha Hs Hc Hl Hp Hb Hf. split.
  - apply checkArchiveHeader_accepts_iff.
    split; [exact Hs|]. split; [left; exact Hc|]. split; [lia|].
    split; [rewrite Hl; discriminate|exact Hp].
  - unfold findEnd. rewrite Hl. cbn [findEnd_loop]. unfold readEndPointer, ReadAt.
    unfold BlockSize in *.
    destruct (Z.ltb_spec (512 * Blk ent) 0); [lia|].
    destruct (Z.leb_spec (512 * Blk ent + 512) (fsize (File_ options))); [|lia].
    unfold computeEndPointerChecksum. rewrite len_file_bytes by lia.
    rewrite Ha. reflexivity.
Qed.

Lemma checksum_algo_2_panics_witness :
  checkArchiveHeader noCrypto (optionsFor archiveNull None) (withChecksumAlgo headerNull 2) 229
  = Ok tt
  /\ findEnd (File_ (optionsFor archiveNull None)) (withChecksumAlgo headerNull 2)
     = Panic (panicChecksumType 2).
Proof.
  apply (checksum_algo_2_panics noCrypto (optionsFor archiveNull None)
           (withChecksumAlgo headerNull 2) 229 {| Blk := 128 |} [{| Blk := 32640 |}]).
  - reflexivity.
  - vm_compute. discriminate.
  - vm_compute. reflexivity.
  - vm_compute. reflexivity.
  - assert (E : R_EndPointerLoca (withChecksumAlgo headerNull 2)
                = [{| Blk := 128 |}; {| Blk := 32640 |}]) by (vm_compute; reflexivity).
    rewrite E. repeat constructor; vm_compute; reflexivity.
  - cbn. lia.
  - vm_compute. discriminate.
Defined.

(** *** Endings *)

Lemma readEnding_NoMoreImages (crypto : Crypto) (end_ : Z) (result : EndingRead)
    (options : ExtractOptions) (header : ArchiveHeaderRead) :
  EndingCipher_Algo (R_EndingCipher header) = EndingCipherNull ->
  0 < EndingSize_Size (R_EndingSize header) ->
  BlockSize * EndingSize_Size (R_EndingSize header) <= end_ <= fsize (File_ options) ->
  file_bytes (File_ options) (end_ - BlockSize * EndingSize_Size (R_EndingSize header)) 16
  = IdNoMoreImages ->
  readEnding crypto end_ result options header = Err errNoMoreImages.
Proof.
  intros Ha Hs He Hid. unfold readEnding. cbv zeta.
  set (size := BlockSize * EndingSize_Size (R_EndingSize header)) in *.
  assert (Hsz : 512 <= size) by (unfold size, BlockSize; lia).
  destruct (Z.ltb_spec end_ size); [lia|].
  unfold ReadAt. destruct (Z.ltb_spec (end_ - size) 0); [lia|].
  destruct (Z.leb_spec (end_ - size + size) (fsize (File_ options))); [|lia].
  cbn [mbind Outcome_bind]. rewrite Ha. cbn [Z.eqb EndingCipherNull mbind Outcome_bind].
  rewrite (sliceOf_ok _ 0 16) by (rewrite ?len_file_bytes; lia).
  cbn [mbind Outcome_bind]. change (Z.to_nat 0) with 0%nat. rewrite drop_0.
  rewrite take_file_bytes by lia. change (16 - 0) with 16. rewrite Hid.
  rewrite bool_decide_true by reflexivity. reflexivity.
Qed.

(** X12. With the null ending cipher, an ending region that starts with the
    NO-MORE-IMAGES identifier makes [readEnding] return the no more images
    error, whatever follows the identifier. *)
Theorem readEnding_sentinel (crypto : Crypto) (end_ : Z) (result : EndingRead)
    (options : ExtractOptions) (header : ArchiveHeaderRead) :
  EndingCipher_Algo (R_EndingCipher header) = EndingCipherNull ->
  0 < EndingSize_Size (R_EndingSize header) ->
  BlockSize * EndingSize_Size (R_EndingSize header) <= end_ <= fsize (File_ options) ->
  file_bytes (File_ options) (end_ - BlockSize * EndingSize_Size (R_EndingSize header)) 16
  = IdNoMoreImages ->
  readEnding crypto end_ result options header = Err errNoMoreImages.
Proof. exact (readEnding_NoMoreImages crypto end_ result options header). Qed.

Lemma readEnding_sentinel_witness :
  readEnding noCrypto 131584 EndingRead_zero (optionsFor archiveNull None) headerNull
  = Err errNoMoreImages.
Proof.
  apply (readEnding_sentinel noCrypto 131584 EndingRead_zero (optionsFor archiveNull None)
           headerNull).
  - vm_compute. reflexivity.
  - vm_compute. reflexivity.
  - vm_compute. split; discriminate.
  - vm_compute. reflexivity.
Defined.

(** X13. An RSA archive whose stored key does not parse, read without a
    private key: the header is accepted, and reading an ending panics. *)
Theorem readEnding_without_private_key (crypto : Crypto) (options : ExtractOptions)
    (header : ArchiveHeaderRead) (headerSize end_ : Z) (result : EndingRead) :
  EndingCipher_Algo (R_EndingCipher header) = EndingCipherRSA ->
  ParsePKCS1PublicKey crypto (EndingCipher_Key (R_EndingCipher header)) = None ->
  PrivateKey options = None ->
  EndingSize_Size (R_EndingSize header) <= maxEndingSize ->
  EndPointerChec_Algo (R_EndPointerChec header) <= 2 ->
  R_EndPointerLoca header <> [] ->
  Forall (fun e => endPointerPlaced header
                     (uint32 (headerSize + (BlockSize - 1)) / BlockSize) e = true)
    (R_EndPointerLoca header) ->
  BlockSize * EndingSize_Size (R_EndingSize header) <= end_ <= fsize (File_ options) ->
  checkArchiveHeader crypto options header headerSize = Ok tt
  /\ readEnding crypto end_ result options header = Panic panicNilKey.
Proof.
  intros Ha Hk Hp Hs Hc Hl Hf He. split.
  - apply checkArchiveHeader_accepts_iff.
    split; [exact Hs|]. split; [right; split; [exact Ha|left; exact Hk]|].
    split; [exact Hc|]. split; [exact Hl|exact Hf].
  - unfold readEnding. cbv zeta.
    set (size := BlockSize * EndingSize_Size (R_EndingSize header)) in *.
    destruct (Z.ltb_spec end_ size); [lia|].
    unfold ReadAt. destruct (Z.ltb_spec (end_ - size) 0); [lia|].
    destruct (Z.leb_spec (end_ - size + size) (fsize (File_ options))); [|lia].
    cbn [mbind Outcome_bind]. rewrite Ha, Hp. reflexivity.
Qed.

Lemma readEnding_without_private_key_witness :
  checkArchiveHeader noCrypto (optionsFor archiveNull None)
    (withEndingCipher headerNull {| EndingCipher_Algo := EndingCipherRSA;
                                    EndingCipher_Key := [] |}) 229 = Ok tt
  /\ readEnding noCrypto 131584 EndingRead_zero (optionsFor archiveNull None)
       (withEndingCipher headerNull {| EndingCipher_Algo := EndingCipherRSA;
                                       EndingCipher_Key := [] |})
     = Panic panicNilKey.
Proof.
  apply (readEnding_without_private_key noCrypto (optionsFor archiveNull None)
           (withEndingCipher headerNull {| EndingCipher_Algo := EndingCipherRSA;
                                           EndingCipher_Key := [] |})
           229 131584 EndingRead_zero).
  - reflexivity.
  - reflexivity.
  - reflexivity.
  - vm_compute. discriminate.
  - vm_compute. discriminate.
  - assert (E : R_EndPointerLoca
                  (withEndingCipher headerNull {| EndingCipher_Algo := EndingCipherRSA;
                                                  EndingCipher_Key := [] |})
                = [{| Blk := 128 |}; {| Blk := 32640 |}]) by (vm_compute; reflexivity).
    rewrite E. discriminate.
  - assert (E : R_EndPointerLoca
                  (withEndingCipher headerNull {| EndingCipher_Algo := EndingCipherRSA;
                                                  EndingCipher_Key := [] |})
                = [{| Blk := 128 |}; {| Blk := 32640 |}]) by (vm_compute; reflexivity).
    rewrite E. repeat constructor; vm_compute; reflexivity.
  - vm_compute. split; discriminate.
Defined.

(** *** Images *)

(** X14. With [Raw] set, the image is the bytes of the archive from the
    start of the image to [end_]. *)
Theorem extractImage_raw (options : ExtractOptions) (index end_ : Z)
    (header : ArchiveHeaderRead) (ending : EndingRead) (dest : File) :
  Raw options = true ->
  extractImage options index end_ header ending = Ok dest ->
  BlockSize * Ending_Start (ER_Ending ending) <= end_
  /\ fsize dest = Z.max 0 (int64 (end_ - BlockSize * Ending_Start (ER_Ending ending)))
  /\ file_bytes dest 0 (int64 (end_ - BlockSize * Ending_Start (ER_Ending ending)))
     = file_bytes (File_ options) (BlockSize * Ending_Start (ER_Ending ending))
         (int64 (end_ - BlockSize * Ending_Start (ER_Ending ending))).
Proof.
  intros Hraw H. unfold extractImage in H. cbv zeta in H. rewrite Hraw in H.
  cbn [G_start G_allocatedBytes geometry] in H.
  set (start := BlockSize * Ending_Start (ER_Ending ending)) in *.
  set (n := int64 (end_ - start)) in *.
  destruct (Z.gtb_spec start end_); [discriminate|].
  split; [lia|].
  unfold io_CopyN in H. destruct (Z.leb_spec n 0).
  - cbn [mbind Outcome_bind] in H. assert (dest = emptyFile) as -> by congruence.
    split; [cbn; lia|]. unfold file_bytes.
    replace (Z.to_nat n) with 0%nat by lia. reflexivity.
  - destruct (start + n <=? fsize (File_ options)); [|discriminate].
    cbn [mbind Outcome_bind] in H.
    assert (dest = file_put emptyFile 0 n (fun k => fdata (File_ options) (start + k)))
      as -> by congruence.
    unfold file_put. destruct (Z.leb_spec n 0); [lia|]. cbn [fsize fdata emptyFile].
    split; [lia|]. unfold file_bytes. apply map_ext_in. intros k Hk.
    apply in_seq in Hk. cbn [fdata].
    destruct (Z.leb_spec 0 (0 + Z.of_nat k)); [|lia].
    destruct (Z.ltb_spec (0 + Z.of_nat k) (0 + n)); [|lia]. cbn [andb].
    f_equal; lia.
Qed.

Lemma extractImage_raw_witness :
  exists dest,
    extractImage (rawOptionsFor archive4K) 0 end4K ArchiveHeaderRead_zero ending4K = Ok dest
    /\ BlockSize * Ending_Start (ER_Ending ending4K) <= end4K
    /\ fsize dest = Z.max 0 (int64 (end4K - BlockSize * Ending_Start (ER_Ending ending4K)))
    /\ file_bytes dest 0 (int64 (end4K - BlockSize * Ending_Start (ER_Ending ending4K)))
       = file_bytes (File_ (rawOptionsFor archive4K))
           (BlockSize * Ending_Start (ER_Ending ending4K))
           (int64 (end4K - BlockSize * Ending_Start (ER_Ending ending4K))).
Proof.
  assert (Hok : isOk (extractImage (rawOptionsFor archive4K) 0 end4K ArchiveHeaderRead_zero
                        ending4K) = true) by (vm_compute; reflexivity).
  destruct (extractImage (rawOptionsFor archive4K) 0 end4K ArchiveHeaderRead_zero ending4K)
    as [dest| |] eqn:E; [|discriminate Hok..].
  exists dest. split; [reflexivity|].
  exact (extractImage_raw (rawOptionsFor archive4K) 0 end4K ArchiveHeaderRead_zero ending4K
           dest eq_refl E).
Defined.

(** X15. A cluster count above 2^31 makes the length of the top-level index
    negative, and [make] panics. *)
Theorem extractImage_negative_index_length (options : ExtractOptions) (index end_ : Z)
    (header : ArchiveHeaderRead) (ending : EndingRead) :
  Raw options = false ->
  0 <= ClusterSizeExp (ER_Ending ending) <= 21 ->
  2 ^ 31 < DataClusterCount (ER_Ending ending) ->
  DataClusterCount (ER_Ending ending) + 2 ^ (7 + ClusterSizeExp (ER_Ending ending)) <= 2 ^ 32 ->
  BlockSize * Ending_Start (ER_Ending ending) <= end_ ->
  extractImage options index end_ header ending
  = Panic (panicMakeLen (- ((2 ^ 32 - DataClusterCount (ER_Ending ending))
                            / 2 ^ (7 + ClusterSizeExp (ER_Ending ending)))))
  /\ - ((2 ^ 32 - DataClusterCount (ER_Ending ending))
        / 2 ^ (7 + ClusterSizeExp (ER_Ending ending))) < 0.
Proof.
  intros Hraw Hcse Hd Hd' Hs.
  set (dcc := DataClusterCount (ER_Ending ending)) in *.
  set (cse := ClusterSizeExp (ER_Ending ending)) in *.
  assert (Hp : 0 < 2 ^ (7 + cse)) by (apply Z.pow_pos_nonneg; lia).
  assert (Hq : 1 <= (2 ^ 32 - dcc) / 2 ^ (7 + cse)).
  { apply Z.div_le_lower_bound; lia. }
  assert (Hq' : (2 ^ 32 - dcc) / 2 ^ (7 + cse) < 2 ^ 31).
  { apply Z.div_lt_upper_bound; [lia|]. nia. }
  assert (Hl : G_l1Len (geometry end_ ending) = - ((2 ^ 32 - dcc) / 2 ^ (7 + cse))).
  { cbn [G_l1Len geometry]. fold dcc cse.
    rewrite (uint8_small (9 + cse)) by lia.
    rewrite (uint8_small (9 + cse - 2)) by lia.
    assert (Hu : uint32 (- dcc) = 2 ^ 32 - dcc).
    { unfold uint32. symmetry. apply Z.mod_unique with (q := -1); lia. }
    rewrite Hu, (int32_small (2 ^ 32 - dcc)) by lia.
    rewrite Z.shiftr_div_pow2 by lia.
    replace (9 + cse - 2) with (7 + cse) by lia.
    apply int32_small. lia. }
  split; [|lia].
  unfold extractImage. cbv zeta. rewrite Hraw, Hl.
  cbn [G_start geometry].
  destruct (Z.gtb_spec (BlockSize * Ending_Start (ER_Ending ending)) end_); [lia|].
  destruct (Z.ltb_spec (- ((2 ^ 32 - dcc) / 2 ^ (7 + cse))) 0); [reflexivity|lia].
Qed.

Lemma extractImage_negative_index_length_witness :
  extractImage (optionsFor archive4K None) 0 end4K ArchiveHeaderRead_zero endingHugeCount
  = Panic (panicMakeLen (- ((2 ^ 32 - DataClusterCount (ER_Ending endingHugeCount))
                            / 2 ^ (7 + ClusterSizeExp (ER_Ending endingHugeCount)))))
  /\ - ((2 ^ 32 - DataClusterCount (ER_Ending endingHugeCount))
        / 2 ^ (7 + ClusterSizeExp (ER_Ending endingHugeCount))) < 0.
Proof.
  apply (extractImage_negative_index_length (optionsFor archive4K None) 0 end4K
           ArchiveHeaderRead_zero endingHugeCount).
  - reflexivity.
  - cbn. lia.
  - cbn. lia.
  - cbn. lia.
  - vm_compute. discriminate.
Defined.

Lemma land_pred_pow2 n : 0 < n -> Z.land n (n - 1) = 0 -> n = 2 ^ Z.log2 n.
Proof.
  intros Hn Hl. destruct (Z.log2_spec n Hn) as [Hlo Hhi].
  destruct (Z.eq_dec n (2 ^ Z.log2 n)) as [|Hne]; [assumption|exfalso].
  assert (Hb : Z.testbit (Z.land n (n - 1)) (Z.log2 n) = true).
  { rewrite Z.land_spec, Z.bit_log2 by lia.
    assert (Hl2 : Z.log2 (n - 1) = Z.log2 n).
    { apply Z.log2_unique; [apply Z.log2_nonneg|].
      unfold Z.succ in Hhi. lia. }
    rewrite <- Hl2. rewrite Z.bit_log2; [reflexivity|].
    pose proof (Z.pow_pos_nonneg 2 (Z.log2 n) ltac:(lia) (Z.log2_nonneg n)). lia. }
  rewrite Hl, Z.bits_0 in Hb. discriminate.
Qed.

(** X18. [bytesToBlkExp] returns [r] exactly for [n = 512 * 2^r]; for every
    other [n] it exits with status 1. *)
Theorem bytesToBlkExp_spec (n : Z) :
  0 <= n < 2 ^ 32 ->
  (forall r, bytesToBlkExp n = Return r <-> 0 <= r <= 22 /\ n = 512 * 2 ^ r)
  /\ bytesToBlkExp n <> NoFuel
  /\ (~ (exists r, 0 <= r <= 22 /\ n = 512 * 2 ^ r) -> bytesToBlkExp n = Exits 1).
Proof.
  intros Hn.
  assert (Hcases : forall e, 9 <= e <= 31 -> bytesToBlkExp (2 ^ e) = Return (e - 9)).
  { intros e He.
    assert (Hc : e = 9 \/ e = 10 \/ e = 11 \/ e = 12 \/ e = 13 \/ e = 14 \/ e = 15 \/ e = 16
                 \/ e = 17 \/ e = 18 \/ e = 19 \/ e = 20 \/ e = 21 \/ e = 22 \/ e = 23
                 \/ e = 24 \/ e = 25 \/ e = 26 \/ e = 27 \/ e = 28 \/ e = 29 \/ e = 30
                 \/ e = 31) by lia.
    repeat (destruct Hc as [->|Hc]; [vm_compute; reflexivity|]).
    subst e. vm_compute. reflexivity. }
  assert (Hform : bytesToBlkExp n = Exits 1
                  \/ exists e, 9 <= e <= 31 /\ n = 2 ^ e).
  { unfold bytesToBlkExp, BlockSize.
    destruct (Z.ltb_spec n 512) as [|Hge]; [left; reflexivity|].
    rewrite uint32_small by lia.
    destruct (Z.eqb_spec (Z.land n (n - 1)) 0) as [Hl|]; [|left; reflexivity].
    right. exists (Z.log2 n).
    pose proof (land_pred_pow2 n ltac:(lia) Hl) as Hp.
    split; [|exact Hp].
    destruct (Z.log2_spec n ltac:(lia)) as [Hlo Hhi].
    split.
    - apply Z.log2_le_pow2; [lia|]. change (2 ^ 9) with 512. lia.
    - assert (Z.log2 n < 32); [|lia]. apply Z.log2_lt_pow2; lia. }
  destruct Hform as [Hx|(e & He & ->)].
  - rewrite Hx. split; [|split; [discriminate|reflexivity]].
    intros r. split; [discriminate|].
    intros [Hr ->].
    assert (Hp : 512 * 2 ^ r = 2 ^ (9 + r)) by (rewrite Z.pow_add_r by lia; reflexivity).
    rewrite Hp, Hcases in Hx by lia. discriminate.
  - rewrite Hcases by lia. split; [|split; [discriminate|]].
    + intros r. split.
      * intros Hr. assert (r = e - 9) as -> by congruence.
        split; [lia|]. change 512 with (2 ^ 9). rewrite <- Z.pow_add_r by lia.
        f_equal. lia.
      * intros [Hr Hp]. f_equal.
        assert (Hp' : 2 ^ e = 2 ^ (9 + r)).
        { rewrite Hp, Z.pow_add_r by lia. reflexivity. }
        apply Z.pow_inj_r in Hp'; lia.
    + intros Hno. exfalso. apply Hno. exists (e - 9).
      assert (He32 : 2 ^ e < 2 ^ 32) by lia.
      apply Z.pow_lt_mono_r_iff in He32; [|lia..].
      split; [lia|]. change 512 with (2 ^ 9). rewrite <- Z.pow_add_r by lia.
      f_equal. lia.
Qed.

Lemma bytesToBlkExp_spec_witness :
  (forall r, bytesToBlkExp 4096 = Return r <-> 0 <= r <= 22 /\ 4096 = 512 * 2 ^ r)
  /\ bytesToBlkExp 4096 <> NoFuel
  /\ (~ (exists r, 0 <= r <= 22 /\ 4096 = 512 * 2 ^ r) -> bytesToBlkExp 4096 = Exits 1).
Proof. apply (bytesToBlkExp_spec 4096). lia. Defined.

#[global] Instance EntryType_eq_dec : EqDecision EntryType.
Proof. solve_decision. Defined.

(** *** Streams of entries *)

Lemma len_writeEntry e : len (writeEntry e) = 20 + len (bare e).
Proof.
  unfold writeEntry. rewrite !len_app. unfold len at 1 2, PutUint32.
  rewrite length_TypeToID, length_le_split. lia.
Qed.

(** One turn of the loop of [splitEntries] on a stream that starts with a
    written entry. *)
Lemma splitEntries_loop_step fuel e rest start acc :
  20 + len (bare e) < 2 ^ 32 ->
  splitEntries_loop (S fuel) (writeEntry e ++ rest) start acc
  = splitEntries_loop fuel rest (start + len (writeEntry e)) (fileEntry acc (start, e)).
Proof.
  intros Hb. pose proof (len_nonneg (bare e)) as Hn. pose proof (len_nonneg rest) as Hr.
  pose proof (length_TypeToID (typeOf e)) as Hid.
  pose proof (len_writeEntry e) as Hlen.
  assert (Hl : len (writeEntry e ++ rest) = 20 + len (bare e) + len rest)
    by (rewrite len_app; lia).
  cbn [splitEntries_loop].
  destruct (Z.eqb_spec (len (writeEntry e ++ rest)) 0); [lia|].
  destruct (Z.ltb_spec (len (writeEntry e ++ rest)) 20); [lia|].
  rewrite sliceOf_ok by lia. cbn [mbind Outcome_bind].
  assert (Hsz : Uint32 (take (Z.to_nat (20 - 16)) (drop (Z.to_nat 16) (writeEntry e ++ rest)))
                = 20 + len (bare e)).
  { unfold writeEntry. rewrite <- !app_assoc. change (Z.to_nat 16) with 16%nat.
    rewrite drop_app_length' by done. unfold Uint32, PutUint32.
    change (Z.to_nat (20 - 16)) with 4%nat.
    rewrite take_app_length' by (symmetry; apply length_le_split).
    rewrite take_ge by (rewrite length_le_split; lia).
    rewrite le_combine_split. unfold uint32.
    change (2 ^ (Z.of_nat 4 * 8)) with (2 ^ 32).
    rewrite (Z.mod_small (len (bare e))) by lia.
    rewrite !(Z.mod_small (20 + len (bare e))) by lia. reflexivity. }
  rewrite Hsz.
  destruct (Z.gtb_spec (20 + len (bare e)) (len (writeEntry e ++ rest))); [lia|].
  rewrite sliceOf_ok by lia. cbn [mbind Outcome_bind].
  rewrite sliceOf_ok by lia. cbn [mbind Outcome_bind].
  assert (Hrest : take (Z.to_nat (len (writeEntry e ++ rest) - (20 + len (bare e))))
                    (drop (Z.to_nat (20 + len (bare e))) (writeEntry e ++ rest)) = rest).
  { rewrite drop_app_length' by (unfold len in *; lia).
    apply take_ge. unfold len in *. lia. }
  rewrite Hrest.
  assert (Hp : take (Z.to_nat (20 + len (bare e) - 20)) (drop (Z.to_nat 20) (writeEntry e ++ rest))
               = bare e).
  { unfold writeEntry. rewrite (app_assoc (TypeToID _)), <- (app_assoc (_ ++ _)).
    rewrite drop_app_length'.
    - apply take_app_length'. unfold len. lia.
    - rewrite length_app, Hid. unfold PutUint32. rewrite length_le_split. reflexivity. }
  rewrite Hp.
  assert (Hi : take 16 (writeEntry e ++ rest) = TypeToID (typeOf e)).
  { unfold writeEntry. rewrite <- app_assoc. apply take_app_length'. done. }
  rewrite Hi, Hlen. reflexivity.
Qed.

Lemma len_concat_writeEntry_ge es :
  (20 * length es <= length (concat (map writeEntry es)))%nat.
Proof.
  induction es as [|e es IH]; [cbn; lia|].
  cbn [map concat length]. rewrite length_app.
  pose proof (len_writeEntry e) as H. pose proof (len_nonneg (bare e)).
  unfold len in *. lia.
Qed.

(** The loop over a stream of written entries followed by [rest]. *)
Lemma splitEntries_loop_stream : forall es fuel rest start acc,
  Forall (fun e => 20 + len (bare e) < 2 ^ 32) es ->
  splitEntries_loop (length es + fuel) (concat (map writeEntry es) ++ rest) start acc
  = splitEntries_loop fuel rest (start + len (concat (map writeEntry es)))
      (fold_left fileEntry (located start es) acc).
Proof.
  induction es as [|e es IH]; intros fuel rest start acc Hl.
  - cbn [map concat app length located fold_left Nat.add]. unfold len. cbn [length].
    rewrite Z.add_0_r. reflexivity.
  - apply Forall_cons in Hl as [He Hl].
    cbn [map concat length located fold_left Nat.add]. rewrite <- app_assoc.
    rewrite splitEntries_loop_step by exact He.
    rewrite IH by exact Hl. rewrite len_app. f_equal. lia.
Qed.

Lemma lookup_fileEntry m pe t :
  default [] (fileEntry m pe !! TypeToID t)
  = default [] (m !! TypeToID t)
    ++ (if decide (typeOf pe.2 = t) then [{| at_ := pe.1; data := bare pe.2 |}] else []).
Proof.
  unfold fileEntry. destruct (decide (typeOf pe.2 = t)) as [->|Hne].
  - rewrite lookup_insert_eq. reflexivity.
  - rewrite lookup_insert_ne; [rewrite app_nil_r; reflexivity|].
    intros E. apply Hne. apply TypeToID_inj. exact E.
Qed.

Lemma lookup_fold_fileEntry t : forall l m,
  default [] (fold_left fileEntry l m !! TypeToID t)
  = default [] (m !! TypeToID t)
    ++ map (fun pe => {| at_ := pe.1; data := bare pe.2 |})
         (filter (fun pe => typeOf pe.2 = t) l).
Proof.
  induction l as [|pe l IH]; intros m; cbn [fold_left].
  - rewrite filter_nil. cbn. rewrite app_nil_r. reflexivity.
  - rewrite IH, lookup_fileEntry, filter_cons.
    destruct (decide (typeOf pe.2 = t)); cbn [map]; rewrite <- app_assoc; reflexivity.
Qed.

Lemma splitEntries_located (es : list Entry) (start : Z) :
  Forall (fun e => 20 + len (bare e) < 2 ^ 32) es ->
  exists m,
    splitEntries (concat (map writeEntry es)) start = Ok m
    /\ forall t,
         default [] (m !! TypeToID t)
         = map (fun pe => {| at_ := pe.1; data := bare pe.2 |})
             (filter (fun pe => typeOf pe.2 = t) (located start es)).
Proof.
  intros Hl. exists (fold_left fileEntry (located start es) ∅). split.
  - unfold splitEntries.
    pose proof (len_concat_writeEntry_ge es) as Hge.
    replace (S (length (concat (map writeEntry es))))
      with (length es + S (length (concat (map writeEntry es)) - length es))%nat by lia.
    rewrite <- (app_nil_r (concat (map writeEntry es))) at 2.
    rewrite splitEntries_loop_stream by exact Hl.
    reflexivity.
  - intros t. rewrite lookup_fold_fileEntry, lookup_empty. reflexivity.
Qed.

(** X2. A stream of written entries splits into the entries, each filed
    under the identifier of its type, in the order of the stream and with
    the offset it was written at. *)
Theorem splitEntries_stream (es : list Entry) (start : Z) :
  Forall (fun e => 20 + len (bare e) < 2 ^ 32) es ->
  exists m,
    splitEntries (concat (map writeEntry es)) start = Ok m
    /\ forall t,
         default [] (m !! TypeToID t)
         = map (fun pe => {| at_ := pe.1; data := bare pe.2 |})
             (filter (fun pe => typeOf pe.2 = t) (located start es)).
Proof. exact (splitEntries_located es start). Qed.

Lemma splitEntries_stream_witness :
  Forall (fun e => 20 + len (bare e) < 2 ^ 32) [exampleEnding; exampleEndingCipher]
  /\ exists m,
       splitEntries (concat (map writeEntry [exampleEnding; exampleEndingCipher])) 0 = Ok m
       /\ forall t,
            default [] (m !! TypeToID t)
            = map (fun pe => {| at_ := pe.1; data := bare pe.2 |})
                (filter (fun pe => typeOf pe.2 = t)
                   (located 0 [exampleEnding; exampleEndingCipher])).
Proof.
  assert (H : Forall (fun e => 20 + len (bare e) < 2 ^ 32) [exampleEnding; exampleEndingCipher])
    by (repeat constructor; vm_compute; reflexivity).
  split; [exact H|].
  exact (splitEntries_stream [exampleEnding; exampleEndingCipher] 0 H).
Defined.

(** X3. A stream that ends inside an entry: the error names the offset of
    the entry that is cut. *)
Theorem splitEntries_cut_entry (es : list Entry) (rest : list byte) (start : Z) :
  Forall (fun e => 20 + len (bare e) < 2 ^ 32) es ->
  0 < len rest < 20 \/ 20 <= len rest < Uint32 (take 4 (drop 16 rest)) ->
  splitEntries (concat (map writeEntry es) ++ rest) start
  = Err (badEntry (start + len (concat (map writeEntry es))) errCrossesBoundary).
Proof.
  intros Hl Hr. unfold splitEntries.
  pose proof (len_concat_writeEntry_ge es) as Hge.
  assert (Hrest : (0 < length rest)%nat) by (unfold len in Hr; lia).
  rewrite length_app.
  replace (S (length (concat (map writeEntry es)) + length rest))
    with (length es
          + S (length (concat (map writeEntry es)) + length rest - length es - 1 + 1))%nat
    by lia.
  rewrite splitEntries_loop_stream by exact Hl.
  cbn [splitEntries_loop].
  destruct (Z.eqb_spec (len rest) 0); [lia|].
  destruct Hr as [Hr|Hr].
  - destruct (Z.ltb_spec (len rest) 20); [reflexivity|lia].
  - destruct (Z.ltb_spec (len rest) 20); [lia|].
    rewrite sliceOf_ok by lia. cbn [mbind Outcome_bind].
    change (Z.to_nat (20 - 16)) with 4%nat. change (Z.to_nat 16) with 16%nat.
    destruct (Z.gtb_spec (Uint32 (take 4 (drop 16 rest))) (len rest)); [reflexivity|lia].
Qed.

Lemma splitEntries_cut_entry_witness :
  splitEntries (concat (map writeEntry [exampleEnding]) ++ take 19 (writeEntry exampleEnding)) 0
  = Err (badEntry (0 + len (concat (map writeEntry [exampleEnding]))) errCrossesBoundary).
Proof.
  apply (splitEntries_cut_entry [exampleEnding] (take 19 (writeEntry exampleEnding)) 0).
  - repeat constructor.
  - left. vm_compute. split; reflexivity.
Defined.

(** *** The header, written and read *)

Ltac decide_types :=
  repeat match goal with
         | |- context [decide (?a = ?b)] =>
             destruct (decide (a = b)); [try discriminate|try congruence]
         | H : context [decide (?a = ?b)] |- _ =>
             destruct (decide (a = b)); [try discriminate|try congruence]
         end.

Lemma parseEntry_data r p :
  data r = bare p -> Forall wfValue (fieldsOf p) -> parseEntry r (zero (typeOf p)) = Ok p.
Proof. destruct r as [a d]. cbn [data]. intros ->. apply parseEntry_bare. Qed.

Lemma parseAll_data t : forall ps bucket,
  map data bucket = map bare ps ->
  Forall (fun p => Forall wfValue (fieldsOf p) /\ typeOf p = t) ps ->
  parseAll bucket t = Ok ps.
Proof.
  induction ps as [|p ps IH]; intros bucket Hd Hw.
  - destruct bucket; [reflexivity|discriminate].
  - destruct bucket as [|r bucket]; [discriminate|].
    cbn [map] in Hd. assert (Hr : data r = bare p) by congruence.
    assert (Hrest : map data bucket = map bare ps) by congruence.
    apply Forall_cons in Hw as [[Hwp Ht] Hw].
    cbn [parseAll]. rewrite <- Ht, (parseEntry_data r p Hr Hwp). cbn [mbind Outcome_bind].
    rewrite Ht, (IH bucket Hrest Hw). reflexivity.
Qed.

Lemma parseField_slice ent t ps :
  map data (default [] (ent !! TypeToID t)) = map bare ps ->
  Forall (fun p => Forall wfValue (fieldsOf p) /\ typeOf p = t) ps ->
  parseField ent (FSlice t []) = Ok (FSlice t ps, delete (TypeToID t) ent).
Proof.
  intros Hd Hw. cbn [parseField].
  destruct (Z.eqb_spec (len (default [] (ent !! TypeToID t))) 0) as [Hz|Hz].
  - destruct (default [] (ent !! TypeToID t)); [|unfold len in Hz; cbn in Hz; lia].
    destruct ps; [reflexivity|discriminate].
  - rewrite (parseAll_data t ps _ Hd Hw). reflexivity.
Qed.

Lemma parseField_struct ent p :
  map data (default [] (ent !! TypeToID (typeOf p))) = [bare p] ->
  Forall wfValue (fieldsOf p) ->
  parseField ent (FStruct (zero (typeOf p)))
  = Ok (FStruct p, delete (TypeToID (typeOf p)) ent).
Proof.
  intros Hd Hw. cbn [parseField]. rewrite typeOf_zero.
  destruct (default [] (ent !! TypeToID (typeOf p))) as [|r [|r' rest]]; try discriminate.
  cbn [last]. assert (Hr : data r = bare p) by (cbn in Hd; congruence).
  rewrite (parseEntry_data r p Hr Hw). reflexivity.
Qed.

Lemma parseField_absent ent z :
  default [] (ent !! TypeToID (typeOf z)) = [] ->
  parseField ent (FStruct z) = Ok (FStruct z, delete (TypeToID (typeOf z)) ent).
Proof. intros Hd. cbn [parseField]. rewrite Hd. reflexivity. Qed.

(** The payloads filed under a type are those of the entries of the type. *)
Lemma bucket_data (t : EntryType) (es : list Entry) (start : Z)
    (m : gmap EntryTypeID (list entryRead)) :
  (forall t, default [] (m !! TypeToID t)
             = map (fun pe => {| at_ := pe.1; data := bare pe.2 |})
                 (filter (fun pe => typeOf pe.2 = t) (located start es))) ->
  map data (default [] (m !! TypeToID t)) = map bare (filter (fun e => typeOf e = t) es).
Proof.
  intros H. rewrite H. clear H. rewrite map_map. cbn [data].
  revert start. induction es as [|e es IH]; intros start; [reflexivity|].
  cbn [located]. rewrite !filter_cons. cbn [snd].
  destruct (decide (typeOf e = t)); cbn [map]; rewrite IH; reflexivity.
Qed.

Lemma filter_type_map {A} (c : A -> Entry) (tc t : EntryType) (l : list A) :
  (forall x, typeOf (c x) = tc) ->
  filter (fun e => typeOf e = t) (map c l) = if decide (tc = t) then map c l else [].
Proof.
  intros Hc. induction l as [|x l IH]; cbn [map].
  - destruct (decide (tc = t)); reflexivity.
  - rewrite filter_cons, IH, Hc. destruct (decide (tc = t)); reflexivity.
Qed.

Lemma omap_asEndPointerLoca l : omap asEndPointerLoca (map EEndPointerLoca l) = l.
Proof. induction l as [|x l IH]; [reflexivity|]. cbn. rewrite IH. reflexivity. Qed.
Lemma omap_asGlobalLogLocat l : omap asGlobalLogLocat (map EGlobalLogLocat l) = l.
Proof. induction l as [|x l IH]; [reflexivity|]. cbn. rewrite IH. reflexivity. Qed.
Lemma omap_asImageLog l : omap asImageLog (map EImageLog l) = l.
Proof. induction l as [|x l IH]; [reflexivity|]. cbn. rewrite IH. reflexivity. Qed.

Lemma delete_lookup_other (m : gmap EntryTypeID (list entryRead)) t t' :
  t <> t' -> delete (TypeToID t) m !! TypeToID t' = m !! TypeToID t'.
Proof. intros Hne. apply lookup_delete_ne. intros E. apply Hne, TypeToID_inj, E. Qed.

Lemma writeMultipleEntries_header h :
  W_Optional h = [] ->
  writeMultipleEntries (ArchiveHeaderWrite_fields h)
  = Ok (writeEntry (ECvtmMagic (W_CvtmMagic h)) ++ concat (map writeEntry (headerEntries h))).
Proof.
  intros Ho. unfold ArchiveHeaderWrite_fields, headerEntries. rewrite Ho.
  cbn [writeMultipleEntries writeField mbind Outcome_bind].
  f_equal. f_equal. rewrite !map_app, !concat_app. cbn [map concat].
  rewrite !app_nil_r, <- !app_assoc. reflexivity.
Qed.

Lemma len_writeEntry_CvtmMagic x : len (writeEntry (ECvtmMagic x)) = 56.
Proof.
  rewrite len_writeEntry, bare_concat. cbn [fieldsOf map concat binaryWriteField].
  rewrite !len_app. unfold len. rewrite length_take, length_app, length_replicate, length_le_split.
  cbn [length]. lia.
Qed.

Lemma header_parse (h : ArchiveHeaderWrite) :
  W_Optional h = [] ->
  Forall legal (headerEntries h) ->
  exists bs fs,
    writeMultipleEntries (ArchiveHeaderWrite_fields h) = Ok bs
    /\ parseEntries (drop 56 bs) 56 (ArchiveHeaderRead_fields ArchiveHeaderRead_zero) = Ok fs
    /\ ArchiveHeaderRead_set ArchiveHeaderRead_zero fs = readOf h.
Proof.
  intros Ho Hl.
  exists (writeEntry (ECvtmMagic (W_CvtmMagic h)) ++ concat (map writeEntry (headerEntries h))).
  assert (Hsizes : Forall (fun e => 20 + len (bare e) < 2 ^ 32) (headerEntries h)).
  { eapply Forall_impl; [exact Hl|]. intros e [_ He]. exact He. }
  destruct (splitEntries_located (headerEntries h) 56 Hsizes) as (m & Hm & Hb).
  assert (Hbucket : forall t, map data (default [] (m !! TypeToID t))
                              = map bare (filter (fun e => typeOf e = t) (headerEntries h))).
  { intros t. exact (bucket_data t _ 56 m Hb). }
  assert (Hwf : forall e, e ∈ headerEntries h -> Forall wfValue (fieldsOf e)).
  { intros e He. rewrite Forall_forall in Hl. exact (proj1 (Hl e He)). }
  assert (Hin : forall e, e ∈ headerEntries h <->
            e = EEndPointerChec (W_EndPointerChec h)
            \/ e ∈ map EEndPointerLoca (W_EndPointerLoca h)
            \/ e = EEndingCipher (W_EndingCipher h) \/ e = EEndingSize (W_EndingSize h)
            \/ e ∈ map EGlobalLogLocat (W_GlobalLogLocat h)
            \/ e = EImageArea (W_ImageArea h) \/ e = EImageBasic (W_ImageBasic h)
            \/ e ∈ map EImageLog (W_ImageLog h)).
  { intros e. unfold headerEntries. rewrite !elem_of_app, !elem_of_cons, !elem_of_nil. tauto. }
  assert (Hfilter : forall t, filter (fun e => typeOf e = t) (headerEntries h)
      = (if decide (TEndPointerChec = t) then [EEndPointerChec (W_EndPointerChec h)] else [])
        ++ (if decide (TEndPointerLoca = t) then map EEndPointerLoca (W_EndPointerLoca h) else [])
        ++ (if decide (TEndingCipher = t) then [EEndingCipher (W_EndingCipher h)] else [])
        ++ (if decide (TEndingSize = t) then [EEndingSize (W_EndingSize h)] else [])
        ++ (if decide (TGlobalLogLocat = t) then map EGlobalLogLocat (W_GlobalLogLocat h) else [])
        ++ (if decide (TImageArea = t) then [EImageArea (W_ImageArea h)] else [])
        ++ (if decide (TImageBasic = t) then [EImageBasic (W_ImageBasic h)] else [])
        ++ (if decide (TImageLog = t) then map EImageLog (W_ImageLog h) else [])).
  { intros t. unfold headerEntries. rewrite !filter_app, !filter_cons, !filter_nil.
    rewrite (filter_type_map EEndPointerLoca TEndPointerLoca) by reflexivity.
    rewrite (filter_type_map EGlobalLogLocat TGlobalLogLocat) by reflexivity.
    rewrite (filter_type_map EImageLog TImageLog) by reflexivity.
    cbn [typeOf].
    destruct (decide (TEndPointerChec = t)), (decide (TEndingCipher = t)),
      (decide (TEndingSize = t)), (decide (TImageArea = t)), (decide (TImageBasic = t));
      cbn [app]; rewrite <- ?app_assoc; reflexivity. }
  exists [ FStruct (EAllocateOnce {| AllocationIncrement := 0 |});
           FStruct (EEndPointerChec (W_EndPointerChec h));
           FSlice TEndPointerLoca (map EEndPointerLoca (W_EndPointerLoca h));
           FStruct (EEndingCipher (W_EndingCipher h));
           FStruct (EEndingSize (W_EndingSize h));
           FSlice TGlobalLogLocat (map EGlobalLogLocat (W_GlobalLogLocat h));
           FStruct (EImageArea (W_ImageArea h));
           FStruct (EImageBasic (W_ImageBasic h));
           FSlice TImageLog (map EImageLog (W_ImageLog h));
           FStruct (ESdCid {| SdCid_SdCid := replicate 15 Byte.x00 |}) ].
  split; [apply writeMultipleEntries_header, Ho|]. split.
  - pose proof (len_writeEntry_CvtmMagic (W_CvtmMagic h)) as H56.
    rewrite drop_app_length' by (unfold len in H56; lia).
    unfold parseEntries. rewrite Hm. cbn [mbind Outcome_bind].
    unfold ArchiveHeaderRead_fields, ArchiveHeaderRead_zero.
    cbn [R_AllocateOnce R_EndPointerChec R_EndPointerLoca R_EndingCipher R_EndingSize
         R_GlobalLogLocat R_ImageArea R_ImageBasic R_ImageLog R_SdCid map].
    (* ALLOCATE-ONCE: not written *)
    cbn [parseFieldsOf].
    rewrite (parseField_absent m (EAllocateOnce {| AllocationIncrement := 0 |})).
    2: { apply nil_length_inv.
         pose proof (f_equal (@length _) (Hbucket TAllocateOnce)) as Hlen.
         rewrite Hfilter in Hlen. decide_types. cbn [app map length] in Hlen.
         rewrite length_map in Hlen. exact Hlen. }
    cbn [mbind Outcome_bind typeOf].
    (* END-POINTER-CHEC *)
    change (EEndPointerChec {| EndPointerChec_Algo := 0 |})
      with (zero (typeOf (EEndPointerChec (W_EndPointerChec h)))).
    rewrite parseField_struct.
    2: { cbn [typeOf]. rewrite delete_lookup_other by discriminate.
         rewrite Hbucket, Hfilter. reflexivity. }
    2: { apply Hwf, Hin. tauto. }
    cbn [mbind Outcome_bind typeOf].
    (* END-POINTER-LOCA *)
    rewrite (parseField_slice _ TEndPointerLoca (map EEndPointerLoca (W_EndPointerLoca h))).
    2: { rewrite !delete_lookup_other by discriminate. rewrite Hbucket, Hfilter.
         cbn. rewrite ?app_nil_r. reflexivity. }
    2: { apply Forall_forall. intros e He. split; [apply Hwf, Hin; tauto|].
         apply list_elem_of_fmap in He as (x & -> & _). reflexivity. }
    cbn [mbind Outcome_bind].
    (* ENDING-CIPHER *)
    change (EEndingCipher {| EndingCipher_Algo := 0; EndingCipher_Key := [] |})
      with (zero (typeOf (EEndingCipher (W_EndingCipher h)))).
    rewrite parseField_struct.
    2: { cbn [typeOf]. rewrite !delete_lookup_other by discriminate.
         rewrite Hbucket, Hfilter. reflexivity. }
    2: { apply Hwf, Hin. tauto. }
    cbn [mbind Outcome_bind typeOf].
    (* ENDING-SIZE *)
    change (EEndingSize {| EndingSize_Size := 0 |})
      with (zero (typeOf (EEndingSize (W_EndingSize h)))).
    rewrite parseField_struct.
    2: { cbn [typeOf]. rewrite !delete_lookup_other by discriminate.
         rewrite Hbucket, Hfilter. reflexivity. }
    2: { apply Hwf, Hin. tauto. }
    cbn [mbind Outcome_bind typeOf].
    (* GLOBAL-LOG-LOCAT *)
    rewrite (parseField_slice _ TGlobalLogLocat (map EGlobalLogLocat (W_GlobalLogLocat h))).
    2: { rewrite !delete_lookup_other by discriminate. rewrite Hbucket, Hfilter.
         cbn. rewrite ?app_nil_r. reflexivity. }
    2: { apply Forall_forall. intros e He. split; [apply Hwf, Hin; tauto|].
         apply list_elem_of_fmap in He as (x & -> & _). reflexivity. }
    cbn [mbind Outcome_bind].
    (* IMAGE-AREA *)
    change (EImageArea {| ImageArea_Start := 0; ImageArea_End := 0 |})
      with (zero (typeOf (EImageArea (W_ImageArea h)))).
    rewrite parseField_struct.
    2: { cbn [typeOf]. rewrite !delete_lookup_other by discriminate.
         rewrite Hbucket, Hfilter. reflexivity. }
    2: { apply Hwf, Hin. tauto. }
    cbn [mbind Outcome_bind typeOf].
    (* IMAGE-BASIC *)
    change (EImageBasic {| ImgCipher := 0; ImgClusterSizeExp := 0 |})
      with (zero (typeOf (EImageBasic (W_ImageBasic h)))).
    rewrite parseField_struct.
    2: { cbn [typeOf]. rewrite !delete_lookup_other by discriminate.
         rewrite Hbucket, Hfilter. reflexivity. }
    2: { apply Hwf, Hin. tauto. }
    cbn [mbind Outcome_bind typeOf].
    (* IMAGE-LOG *)
    rewrite (parseField_slice _ TImageLog (map EImageLog (W_ImageLog h))).
    2: { rewrite !delete_lookup_other by discriminate. rewrite Hbucket, Hfilter.
         cbn. rewrite ?app_nil_r. reflexivity. }
    2: { apply Forall_forall. intros e He. split; [apply Hwf, Hin; tauto|].
         apply list_elem_of_fmap in He as (x & -> & _). reflexivity. }
    cbn [mbind Outcome_bind].
    (* SD-CID: not written *)
    rewrite (parseField_absent _ (ESdCid {| SdCid_SdCid := replicate 15 Byte.x00 |})).
    2: { cbn [typeOf]. rewrite !delete_lookup_other by discriminate.
         apply nil_length_inv.
         pose proof (f_equal (@length _) (Hbucket TSdCid)) as Hlen.
         rewrite Hfilter in Hlen. decide_types. cbn [app map length] in Hlen.
         rewrite length_map in Hlen. exact Hlen. }
    reflexivity.
  - unfold ArchiveHeaderRead_set, readOf. cbn [lookup list_lookup].
    rewrite omap_asEndPointerLoca, omap_asGlobalLogLocat, omap_asImageLog. reflexivity.
Qed.

(** X1. The header that the writer encodes is the header that the reader
    decodes. *)
Theorem header_roundtrip (h : ArchiveHeaderWrite) :
  W_Optional h = [] ->
  Forall legal (headerEntries h) ->
  exists bs fs,
    writeMultipleEntries (ArchiveHeaderWrite_fields h) = Ok bs
    /\ parseEntries (drop 56 bs) 56 (ArchiveHeaderRead_fields ArchiveHeaderRead_zero) = Ok fs
    /\ ArchiveHeaderRead_set ArchiveHeaderRead_zero fs = readOf h.
Proof. exact (header_parse h). Qed.

Lemma header_roundtrip_witness :
  Forall legal (headerEntries exampleHeader)
  /\ exists bs fs,
       writeMultipleEntries (ArchiveHeaderWrite_fields exampleHeader) = Ok bs
       /\ parseEntries (drop 56 bs) 56 (ArchiveHeaderRead_fields ArchiveHeaderRead_zero) = Ok fs
       /\ ArchiveHeaderRead_set ArchiveHeaderRead_zero fs = readOf exampleHeader.
Proof.
  assert (H : Forall legal (headerEntries exampleHeader)).
  { unfold headerEntries, exampleHeader. cbn [map app W_EndPointerChec W_EndPointerLoca
      W_EndingCipher W_EndingSize W_GlobalLogLocat W_ImageArea W_ImageBasic W_ImageLog].
    unfold EndPointerChecksumCRC32, EndingCipherRSA, ImgCipherNull.
    repeat (constructor; [split; [repeat constructor; cbn; lia|vm_compute; reflexivity]|]).
    constructor. }
  split; [exact H|]. exact (header_roundtrip exampleHeader eq_refl H).
Defined.

(** *** The fill writer *)

Lemma extends_refl w : extends w w.
Proof. unfold extends. repeat split; try lia; auto. Qed.

Lemma extends_trans w1 w2 w3 : extends w1 w2 -> extends w2 w3 -> extends w1 w3.
Proof.
  intros (Hp & Hm & Hf & Hs & Hc) (Hp' & Hm' & Hf' & Hs' & Hc'). unfold extends.
  split; [lia|]. split; [congruence|]. split; [|split; [lia|]].
  - intros i Hi. rewrite Hf' by lia. apply Hf, Hi.
  - intros Hn Hcov. apply Hc'; [rewrite Hm; exact Hn|apply Hc; assumption].
Qed.

Lemma land_le_l a b : 0 <= a -> 0 <= Z.land a b <= a.
Proof.
  intros Ha. split; [apply Z.land_nonneg; left; exact Ha|].
  assert (Hsum : a = Z.land a b + Z.ldiff a b).
  { rewrite Z.add_nocarry_lor.
    - apply Z.bits_inj'. intros n Hn.
      rewrite Z.lor_spec, Z.land_spec, Z.ldiff_spec.
      destruct (Z.testbit a n), (Z.testbit b n); reflexivity.
    - apply Z.bits_inj'. intros n Hn.
      rewrite !Z.land_spec, Z.ldiff_spec, Z.bits_0.
      destruct (Z.testbit a n), (Z.testbit b n); reflexivity. }
  assert (0 <= Z.ldiff a b) by (apply Z.ldiff_nonneg; left; exact Ha).
  lia.
Qed.

Lemma fs_Write_spec w p :
  0 <= pos w -> pos w + len p < 2 ^ 63 ->
  extends w (fs_Write w p)
  /\ pos (fs_Write w p) = pos w + len p
  /\ (forall k, 0 <= k < len p ->
        fdata (target (fs_Write w p)) (pos w + k) = nth (Z.to_nat k) p Byte.x00)
  /\ (0 < len p -> pos w + len p <= fsize (target (fs_Write w p))).
Proof.
  intros Hp Hb. pose proof (len_nonneg p) as Hl.
  unfold fs_Write, extends. cbn [pos target method].
  rewrite int64_small by lia.
  split; [split; [lia|]; split; [reflexivity|]; split; [|split]|].
  - intros i Hi. unfold file_write. apply fdata_file_put_below, Hi.
  - unfold file_write. apply fsize_file_put_le.
  - intros Hc. unfold file_write, file_put. destruct (Z.leb_spec (len p) 0); cbn [fsize]; lia.
  - split; [reflexivity|]. split.
    + intros k Hk. apply fdata_file_write_in, Hk.
    + intros Hpos. unfold file_write. apply fsize_file_put, Hpos.
Qed.

Lemma writeZeros_spec w n w' :
  writeZeros w n = Ok w' -> 0 <= pos w -> pos w + n < 2 ^ 63 ->
  0 <= n /\ extends w w' /\ pos w' = pos w + n
  /\ (forall i, pos w <= i < pos w + n -> fdata (target w') i = Byte.x00)
  /\ (0 < n -> pos w + n <= fsize (target w')).
Proof.
  unfold writeZeros. destruct (Z.ltb_spec n 0); [discriminate|].
  intros Hw Hp Hb.
  assert (w' = {| target := file_put (target w) (pos w) n (fun _ => Byte.x00);
                  pos := int64 (pos w + n); method := method w; consumed := consumed w |})
    as -> by congruence.
  cbn [pos target method]. rewrite int64_small by lia. unfold extends. cbn [pos target method].
  split; [lia|]. split; [split; [lia|]; split; [reflexivity|]; split; [|split]|].
  - intros i Hi. apply fdata_file_put_below, Hi.
  - apply fsize_file_put_le.
  - intros Hc. unfold file_put. destruct (Z.leb_spec n 0); cbn [fsize]; lia.
  - split; [reflexivity|]. split.
    + intros i Hi. unfold file_put. destruct (Z.leb_spec n 0); [lia|]. cbn [fdata].
      destruct (Z.leb_spec (pos w) i); [|lia]. destruct (Z.ltb_spec i (pos w + n)); [|lia].
      reflexivity.
    + intros Hpos. apply fsize_file_put, Hpos.
Qed.

Section Filling.

Variable randReader : Z -> byte.
Variable crypto : Crypto.

Lemma writeRandom_spec w n w' :
  writeRandom randReader w n = Ok w' -> 0 <= pos w -> pos w + n < 2 ^ 63 ->
  0 <= n /\ extends w w' /\ pos w' = pos w + n
  /\ (0 < n -> pos w + n <= fsize (target w')).
Proof.
  unfold writeRandom. destruct (Z.ltb_spec n 0); [discriminate|].
  intros Hw Hp Hb.
  assert (w' = {| target := file_put (target w) (pos w) n
                              (fun k => randReader (consumed w + k));
                  pos := int64 (pos w + n); method := method w;
                  consumed := consumed w + n |})
    as -> by congruence.
  cbn [pos target method]. rewrite int64_small by lia. unfold extends. cbn [pos target method].
  split; [lia|]. split; [split; [lia|]; split; [reflexivity|]; split; [|split]|].
  - intros i Hi. apply fdata_file_put_below, Hi.
  - apply fsize_file_put_le.
  - intros Hc. unfold file_put. destruct (Z.leb_spec n 0); cbn [fsize]; lia.
  - split; [reflexivity|]. intros Hpos. apply fsize_file_put, Hpos.
Qed.

(** A fill by [offset] bytes, with zeros or random bytes. *)
Lemma fill_spec w offset w' :
  method w = FillZero \/ method w = FillRandom ->
  (if method w =? FillZero then writeZeros w offset
   else if method w =? FillRandom then writeRandom randReader w offset
   else Panic (panicFillMethod (method w))) = Ok w' ->
  0 <= pos w -> pos w + offset < 2 ^ 63 ->
  0 <= offset /\ extends w w' /\ pos w' = pos w + offset
  /\ (method w = FillZero ->
      forall i, pos w <= i < pos w + offset -> fdata (target w') i = Byte.x00)
  /\ (0 < offset -> pos w + offset <= fsize (target w')).
Proof.
  intros Hm H Hp Hb. destruct Hm as [Hm|Hm]; rewrite Hm in H; cbn [Z.eqb FillZero FillRandom] in H.
  - destruct (writeZeros_spec _ _ _ H Hp Hb) as (H1 & H2 & H3 & H4 & H5). auto.
  - change (2 =? 1) with false in H. cbn iota in H.
    destruct (writeRandom_spec _ _ _ H Hp Hb) as (H1 & H2 & H3 & H5).
    split; [exact H1|]. split; [exact H2|]. split; [exact H3|]. split; [|exact H5].
    rewrite Hm. discriminate.
Qed.

Lemma fs_Seek_start_spec w offset w' :
  method w = FillZero \/ method w = FillRandom ->
  fs_Seek randReader w offset SeekStart = Ok w' ->
  0 <= pos w < 2 ^ 63 -> 0 <= offset < 2 ^ 63 ->
  pos w <= offset /\ extends w w' /\ pos w' = offset
  /\ (method w = FillZero ->
      forall i, pos w <= i < offset -> fdata (target w') i = Byte.x00)
  /\ (pos w < offset -> offset <= fsize (target w')).
Proof.
  intros Hm H Hp Ho. unfold fs_Seek in H.
  change (SeekStart =? SeekStart) with true in H.
  change (SeekStart =? SeekCurrent) with false in H. cbn [andb orb] in H.
  destruct (Z.eqb_spec offset (pos w)) as [->|Hne]; cbn [orb] in H.
  - assert (w' = w) as -> by congruence.
    split; [lia|]. split; [apply extends_refl|]. split; [reflexivity|].
    split; intros; lia.
  - assert (Hms : (method w =? FillSeek) = false).
    { destruct Hm as [-> | ->]; reflexivity. }
    rewrite Hms in H. cbn [mbind Outcome_bind] in H.
    rewrite (int64_small (offset - pos w)) in H by lia.
    destruct (Z.ltb_spec (offset - pos w) 0); [discriminate|].
    destruct (fill_spec w (offset - pos w) w' Hm H ltac:(lia) ltac:(lia))
      as (H1 & H2 & H3 & H4 & H5).
    split; [lia|]. split; [exact H2|]. split; [lia|]. split.
    + intros Hz i Hi. apply H4; [exact Hz|lia].
    + intros Hlt. specialize (H5 ltac:(lia)). lia.
Qed.

Lemma fs_Seek_current_spec w offset w' :
  method w = FillZero \/ method w = FillRandom ->
  fs_Seek randReader w offset SeekCurrent = Ok w' ->
  0 <= pos w -> pos w + offset < 2 ^ 63 ->
  0 <= offset /\ extends w w' /\ pos w' = pos w + offset.
Proof.
  intros Hm H Hp Ho. unfold fs_Seek in H.
  change (SeekCurrent =? SeekStart) with false in H.
  change (SeekCurrent =? SeekCurrent) with true in H. cbn [andb orb] in H.
  destruct (Z.eqb_spec offset 0) as [->|Hne].
  - assert (w' = w) as -> by congruence.
    split; [lia|]. split; [apply extends_refl|lia].
  - assert (Hms : (method w =? FillSeek) = false).
    { destruct Hm as [-> | ->]; reflexivity. }
    rewrite Hms in H. cbn [mbind Outcome_bind] in H.
    destruct (Z.ltb_spec offset 0); [discriminate|].
    destruct (fill_spec w offset w' Hm H Hp Ho) as (H1 & H2 & H3 & _).
    auto.
Qed.

Lemma alignWriter_spec w alignment w' :
  method w = FillZero \/ method w = FillRandom ->
  alignWriter randReader w alignment = Ok w' ->
  0 <= pos w < 2 ^ 62 -> 0 < alignment < 2 ^ 62 ->
  extends w w' /\ pos w' = pos w + Z.land (alignment - 1) (- pos w)
  /\ pos w <= pos w' < pos w + alignment.
Proof.
  intros Hm H Hp Ha. unfold alignWriter in H.
  assert (H0 : fs_Seek randReader w 0 SeekCurrent = Ok w) by reflexivity.
  rewrite H0 in H. cbn [mbind Outcome_bind] in H.
  rewrite (int64_small (alignment - 1)), (int64_small (- pos w)) in H by lia.
  pose proof (land_le_l (alignment - 1) (- pos w) ltac:(lia)) as Hl.
  destruct (fs_Seek_current_spec _ _ _ Hm H ltac:(lia) ltac:(lia)) as (H1 & H2 & H3).
  split; [exact H2|]. split; [exact H3|]. lia.
Qed.

(** [writeRepeatedly]: after at least one turn, the first copy of [data]
    is at the offset the writer had. *)
Lemma writeRepeatedly_spec data alignment : forall repeat w w',
  method w = FillZero \/ method w = FillRandom ->
  writeRepeatedly randReader w data repeat alignment = Ok w' ->
  0 <= pos w -> pos w + Z.of_nat repeat * (len data + alignment) < 2 ^ 62 ->
  0 < alignment ->
  extends w w'
  /\ pos w' <= pos w + Z.of_nat repeat * (len data + alignment)
  /\ ((0 < repeat)%nat ->
      pos w + len data <= pos w'
      /\ forall k, 0 <= k < len data ->
           fdata (target w') (pos w + k) = nth (Z.to_nat k) data Byte.x00).
Proof.
  pose proof (len_nonneg data) as Hd.
  induction repeat as [|n IH]; intros w w' Hm H Hp Hb Ha.
  - cbn in H. assert (w' = w) as -> by congruence.
    split; [apply extends_refl|]. split; [lia|]. intros; lia.
  - cbn [writeRepeatedly] in H.
    destruct (alignWriter randReader (fs_Write w data) alignment) as [w1| |] eqn:E1;
      cbn [mbind Outcome_bind] in H; [|discriminate..].
    destruct (fs_Write_spec w data Hp ltac:(nia)) as (Hx1 & Hp1 & Hd1 & _).
    assert (Hm1 : method (fs_Write w data) = FillZero \/ method (fs_Write w data) = FillRandom)
      by exact Hm.
    destruct (alignWriter_spec _ _ _ Hm1 E1 ltac:(nia) ltac:(nia)) as (Hx2 & _ & Hp2).
    assert (Hm2 : method w1 = FillZero \/ method w1 = FillRandom).
    { destruct Hx2 as (_ & -> & _). exact Hm1. }
    destruct (IH w1 w' Hm2 H ltac:(lia) ltac:(nia) Ha) as (Hx3 & Hp3 & _).
    split; [exact (extends_trans _ _ _ (extends_trans _ _ _ Hx1 Hx2) Hx3)|].
    split; [nia|]. intros _. destruct Hx3 as (Hq & _ & Hf3 & _).
    destruct Hx2 as (_ & _ & Hf2 & _).
    split; [lia|]. intros k Hk.
    rewrite Hf3 by lia. rewrite Hf2 by lia. apply Hd1, Hk.
Qed.

Lemma writeImageEnding_spec w ent cipher key blocks w' :
  writeImageEnding randReader crypto w ent cipher key blocks = Ok w' ->
  0 <= pos w -> 0 <= blocks -> pos w + blocks * BlockSize < 2 ^ 63 ->
  extends w w'
  /\ pos w' = pos w + blocks * BlockSize
  /\ (cipher <> EndingCipherRSA ->
      exists data, writeMultipleEntries (map FStruct ent) = Ok data
                   /\ len data <= blocks * BlockSize
                   /\ forall k, 0 <= k < len data ->
                        fdata (target w') (pos w + k) = nth (Z.to_nat k) data Byte.x00)
  /\ (0 < blocks -> pos w + blocks * BlockSize <= fsize (target w')).
Proof.
  intros H Hp Hb Hs. unfold writeImageEnding in H.
  assert (Hu : uint64 (blocks * BlockSize) = blocks * BlockSize)
    by (apply uint64_small; unfold BlockSize in *; lia).
  rewrite Hu in H.
  destruct (writeMultipleEntries (map FStruct ent)) as [data| |] eqn:Ed;
    cbn [mbind Outcome_bind] in H; [|discriminate..].
  set (enc := (if cipher =? EndingCipherRSA then _ else _)) in H.
  destruct enc as [data'| |] eqn:Eenc; cbn [mbind Outcome_bind] in H; [|discriminate..].
  destruct (Z.gtb_spec (len data') (blocks * BlockSize)) as [|Hle]; [discriminate|].
  pose proof (len_nonneg data') as Hl.
  destruct (fs_Write_spec w data' Hp ltac:(lia)) as (Hx1 & Hp1 & Hd1 & Hs1).
  assert (Hfinal : extends w w' /\ pos w' = pos w + blocks * BlockSize
                   /\ (forall k, 0 <= k < len data' ->
                         fdata (target w') (pos w + k) = nth (Z.to_nat k) data' Byte.x00)
                   /\ (0 < blocks -> pos w + blocks * BlockSize <= fsize (target w'))).
  { destruct (Z.eqb_spec (blocks * BlockSize - len data') 0) as [Hz|Hz].
    - assert (w' = fs_Write w data') as -> by congruence.
      split; [exact Hx1|]. split; [lia|]. split; [exact Hd1|].
      intros Hb0. unfold BlockSize in *. specialize (Hs1 ltac:(lia)). lia.
    - destruct (writeRandom_spec _ _ _ H ltac:(lia) ltac:(lia)) as (_ & Hx2 & Hp2 & Hs2).
      split; [exact (extends_trans _ _ _ Hx1 Hx2)|]. split; [lia|]. split.
      + intros k Hk. destruct Hx2 as (_ & _ & Hf2 & _). rewrite Hf2 by lia. apply Hd1, Hk.
      + intros _. specialize (Hs2 ltac:(lia)). lia. }
  destruct Hfinal as (Hx & Hp' & Hd' & Hs').
  split; [exact Hx|]. split; [exact Hp'|]. split; [|exact Hs'].
  intros Hc. exists data. split; [reflexivity|].
  assert (data' = data) as ->.
  { unfold enc in Eenc. destruct (Z.eqb_spec cipher EndingCipherRSA); [contradiction|].
    congruence. }
  split; [exact Hle|exact Hd'].
Qed.

(** A seek with the fill method seek moves the offset and leaves the file. *)
Lemma fs_Seek_start_seek w offset :
  method w = FillSeek -> 0 <= offset ->
  exists w',
    fs_Seek randReader w offset SeekStart = Ok w'
    /\ target w' = target w /\ method w' = method w /\ pos w' = offset.
Proof.
  intros Hm Ho. unfold fs_Seek. rewrite Hm. change (FillSeek =? FillSeek) with true.
  cbv iota.
  change (SeekStart =? SeekStart) with true.
  change (SeekStart =? SeekCurrent) with false. cbn [andb orb].
  destruct (Z.eqb_spec offset (pos w)) as [E|E].
  - exists w. rewrite Hm. repeat split. symmetry. exact E.
  - destruct (Z.ltb_spec offset 0); [lia|]. eexists. split; [reflexivity|].
    cbn [target method pos]. repeat split.
Qed.

Lemma fs_Seek_current_seek w offset :
  method w = FillSeek -> 0 <= pos w + offset < 2 ^ 63 ->
  exists w',
    fs_Seek randReader w offset SeekCurrent = Ok w'
    /\ target w' = target w /\ method w' = method w /\ pos w' = pos w + offset.
Proof.
  intros Hm Ho. unfold fs_Seek. rewrite Hm. change (FillSeek =? FillSeek) with true.
  cbv iota.
  change (SeekCurrent =? SeekStart) with false.
  change (SeekCurrent =? SeekCurrent) with true. cbn [andb orb].
  destruct (Z.eqb_spec offset 0) as [E|E].
  - exists w. rewrite Hm. repeat split. lia.
  - rewrite int64_small by lia. destruct (Z.ltb_spec (pos w + offset) 0); [lia|].
    eexists. split; [reflexivity|]. cbn [target method pos]. repeat split.
Qed.

(** A writer that has moved on and left the file as it was. *)
Lemma extends_seek w w' :
  method w = FillSeek -> target w' = target w -> method w' = method w -> pos w <= pos w' ->
  extends w w'.
Proof.
  intros Hm Ht Hm' Hp. unfold extends. rewrite Ht.
  split; [exact Hp|]. split; [exact Hm'|]. split; [reflexivity|]. split; [lia|].
  intros Hn. contradiction.
Qed.

(** A seek to an absolute offset that is not behind the current one,
    whatever the fill method. *)
Lemma fs_Seek_start_any w offset w' :
  validFill (method w) ->
  fs_Seek randReader w offset SeekStart = Ok w' ->
  0 <= pos w -> pos w <= offset < 2 ^ 63 ->
  extends w w' /\ pos w' = offset.
Proof.
  intros [Hm|[Hm|Hm]] H Hp Ho.
  - destruct (fs_Seek_start_spec w offset w' (or_introl Hm) H ltac:(lia) ltac:(lia))
      as (_ & Hx & Hp' & _). auto.
  - destruct (fs_Seek_start_spec w offset w' (or_intror Hm) H ltac:(lia) ltac:(lia))
      as (_ & Hx & Hp' & _). auto.
  - destruct (fs_Seek_start_seek w offset Hm ltac:(lia)) as (w1 & E & Ht & Hm1 & Hp1).
    rewrite E in H. injection H as <-.
    split; [|exact Hp1]. apply extends_seek; [assumption..|lia].
Qed.

End Filling.

Lemma file_bytes_nth f off p :
  (forall k, 0 <= k < len p -> fdata f (off + k) = nth (Z.to_nat k) p Byte.x00) ->
  file_bytes f off (len p) = p.
Proof.
  intros H. apply list_eq. intros i. unfold len in *.
  destruct (decide (i < length p)%nat) as [Hi|Hi].
  - replace i with (Z.to_nat (Z.of_nat i)) at 1 by lia.
    rewrite file_bytes_lookup by lia. rewrite H by lia.
    rewrite Nat2Z.id. symmetry.
    destruct (nth_lookup_or_length p i Byte.x00) as [Hx|Hx]; [exact Hx|lia].
  - rewrite !lookup_ge_None_2; [reflexivity|lia|rewrite length_file_bytes; lia].
Qed.

Lemma land_ones_mod x k : 0 <= k -> Z.land (2 ^ k - 1) x = x mod 2 ^ k.
Proof.
  intros Hk. rewrite Z.land_comm, <- Z.land_ones by exact Hk.
  f_equal. rewrite Z.ones_equiv. lia.
Qed.

Section FillWriter.

Variable randReader : Z -> byte.
Variable crypto : Crypto.

(** X19. With the fill method zero or random, a seek to an absolute offset
    behind the current one is an error, and a seek forward writes the gap:
    the offset becomes the one asked for, no byte before the old offset
    changes, and the gap holds zeros or the next bytes of the random
    source. *)
Theorem fs_Seek_fills (w : fillSeeker) (offset : Z) :
  method w = FillZero \/ method w = FillRandom ->
  0 <= pos w < 2 ^ 63 -> 0 <= offset < 2 ^ 63 ->
  (offset < pos w ->
   fs_Seek randReader w offset SeekStart
   = Err (errFillBackwards (pos w) (offset - pos w)))
  /\ (pos w <= offset ->
      exists w', fs_Seek randReader w offset SeekStart = Ok w'
        /\ pos w' = offset
        /\ (forall i, i < pos w -> fdata (target w') i = fdata (target w) i)
        /\ (forall i, pos w <= i < offset ->
              fdata (target w') i
              = if method w =? FillZero then Byte.x00
                else randReader (consumed w + (i - pos w)))).
Proof.
  intros Hm Hp Ho.
  assert (Hms : (method w =? FillSeek) = false) by (destruct Hm as [-> | ->]; reflexivity).
  unfold fs_Seek.
  change (SeekStart =? SeekStart) with true.
  change (SeekStart =? SeekCurrent) with false. cbn [andb orb].
  split.
  - intros Hlt. destruct (Z.eqb_spec offset (pos w)); [lia|]. cbn [orb].
    rewrite Hms. cbn [mbind Outcome_bind].
    rewrite (int64_small (offset - pos w)) by lia.
    destruct (Z.ltb_spec (offset - pos w) 0); [reflexivity|lia].
  - intros Hle. destruct (Z.eqb_spec offset (pos w)) as [->|Hne]; cbn [orb].
    + exists w. split; [reflexivity|]. split; [reflexivity|].
      split; [reflexivity|]. intros i Hi. lia.
    + rewrite Hms. cbn [mbind Outcome_bind].
      rewrite (int64_small (offset - pos w)) by lia.
      destruct (Z.ltb_spec (offset - pos w) 0); [lia|].
      destruct Hm as [Hm|Hm]; rewrite Hm.
      * change (FillZero =? FillZero) with true. cbn iota.
        unfold writeZeros. destruct (Z.ltb_spec (offset - pos w) 0); [lia|].
        eexists. split; [reflexivity|]. cbn [pos target].
        split; [rewrite int64_small by lia; lia|]. split.
        -- intros i Hi. apply fdata_file_put_below, Hi.
        -- intros i Hi. unfold file_put.
           destruct (Z.leb_spec (offset - pos w) 0); [lia|]. cbn [fdata].
           destruct (Z.leb_spec (pos w) i); [|lia].
           destruct (Z.ltb_spec i (pos w + (offset - pos w))); [|lia]. reflexivity.
      * change (FillRandom =? FillZero) with false.
        change (FillRandom =? FillRandom) with true. cbn iota.
        unfold writeRandom. destruct (Z.ltb_spec (offset - pos w) 0); [lia|].
        eexists. split; [reflexivity|]. cbn [pos target].
        split; [rewrite int64_small by lia; lia|]. split.
        -- intros i Hi. apply fdata_file_put_below, Hi.
        -- intros i Hi. unfold file_put.
           destruct (Z.leb_spec (offset - pos w) 0); [lia|]. cbn [fdata].
           destruct (Z.leb_spec (pos w) i); [|lia].
           destruct (Z.ltb_spec i (pos w + (offset - pos w))); [|lia]. reflexivity.
Qed.

(** X20. Whatever the fill method and the kind of seek, a seek that succeeds
    changes no byte before the current offset and does not shorten the
    file; with the fill method seek it leaves the file as it is. *)
Theorem fs_Seek_keeps_written (w w' : fillSeeker) (offset whence : Z) :
  fs_Seek randReader w offset whence = Ok w' ->
  (forall i, i < pos w -> fdata (target w') i = fdata (target w) i)
  /\ fsize (target w) <= fsize (target w')
  /\ (method w = FillSeek -> target w' = target w).
Proof.
  unfold fs_Seek.
  destruct ((whence =? SeekStart) && (offset =? pos w)
            || (whence =? SeekCurrent) && (offset =? 0)).
  { intros [= <-]. split; [reflexivity|]. split; [lia|reflexivity]. }
  destruct (Z.eqb_spec (method w) FillSeek) as [Hs|Hs].
  { match goal with |- context [?n <? 0] => destruct (n <? 0) end; [discriminate|].
    intros [= <-]. cbn [target]. split; [reflexivity|]. split; [lia|reflexivity]. }
  set (off := (if whence =? SeekStart then _ else _)).
  destruct off as [o| |]; cbn [mbind Outcome_bind]; [|discriminate..].
  destruct (o <? 0); [discriminate|].
  assert (Hput : forall g c,
            Ok {| target := file_put (target w) (pos w) o g; pos := int64 (pos w + o);
                  method := method w; consumed := c |} = Ok w' ->
            (forall i, i < pos w -> fdata (target w') i = fdata (target w) i)
            /\ fsize (target w) <= fsize (target w')
            /\ (method w = FillSeek -> target w' = target w)).
  { intros g c [= <-]. cbn [target]. split; [|split].
    - intros i Hi. apply fdata_file_put_below, Hi.
    - apply fsize_file_put_le.
    - intros E. contradiction. }
  destruct (method w =? FillZero).
  { unfold writeZeros. destruct (o <? 0); [discriminate|]. apply Hput. }
  destruct (method w =? FillRandom); [|discriminate].
  unfold writeRandom. destruct (o <? 0); [discriminate|]. apply Hput.
Qed.

(** [alignWriter] for a power of two. *)
Lemma alignWriter_pow2 w k :
  method w = FillZero \/ method w = FillRandom ->
  0 <= k < 62 -> 0 <= pos w < 2 ^ 62 ->
  exists w', alignWriter randReader w (2 ^ k) = Ok w'
    /\ extends w w'
    /\ pos w' = pos w + (- pos w) mod 2 ^ k.
Proof.
  intros Hm Hk Hp.
  assert (H2k : 0 < 2 ^ k < 2 ^ 62).
  { split; [apply Z.pow_pos_nonneg; lia|apply Z.pow_lt_mono_r; lia]. }
  pose proof (Z.mod_pos_bound (- pos w) (2 ^ k) ltac:(lia)) as Hmod.
  assert (Hms : (method w =? FillSeek) = false) by (destruct Hm as [-> | ->]; reflexivity).
  assert (Hstep : alignWriter randReader w (2 ^ k)
                  = fs_Seek randReader w ((- pos w) mod 2 ^ k) SeekCurrent).
  { unfold alignWriter.
    assert (H0 : fs_Seek randReader w 0 SeekCurrent = Ok w) by reflexivity.
    rewrite H0. cbn [mbind Outcome_bind].
    rewrite (int64_small (2 ^ k - 1)), (int64_small (- pos w)) by lia.
    rewrite land_ones_mod by lia. reflexivity. }
  rewrite Hstep.
  destruct (fs_Seek randReader w ((- pos w) mod 2 ^ k) SeekCurrent) as [w'| |] eqn:E.
  - exists w'. split; [reflexivity|].
    destruct (fs_Seek_current_spec randReader _ _ _ Hm E ltac:(lia) ltac:(lia)) as (_ & H2 & H3).
    split; [exact H2|exact H3].
  - exfalso. unfold fs_Seek in E.
    change (SeekCurrent =? SeekStart) with false in E.
    change (SeekCurrent =? SeekCurrent) with true in E. cbn [andb orb] in E.
    destruct (_ =? 0) in E; [discriminate|]. rewrite Hms in E. cbn [mbind Outcome_bind] in E.
    destruct (Z.ltb_spec ((- pos w) mod 2 ^ k) 0); [lia|].
    destruct Hm as [Hm|Hm]; rewrite Hm in E.
    + unfold writeZeros in E. cbn [Z.eqb FillZero] in E.
      destruct (_ <? 0) in E; discriminate.
    + unfold writeRandom in E. change (FillRandom =? FillZero) with false in E.
      change (FillRandom =? FillRandom) with true in E. cbn iota in E.
      destruct (_ <? 0) in E; discriminate.
  - exfalso. unfold fs_Seek in E.
    change (SeekCurrent =? SeekStart) with false in E.
    change (SeekCurrent =? SeekCurrent) with true in E. cbn [andb orb] in E.
    destruct (_ =? 0) in E; [discriminate|]. rewrite Hms in E. cbn [mbind Outcome_bind] in E.
    destruct (Z.ltb_spec ((- pos w) mod 2 ^ k) 0); [lia|].
    destruct Hm as [Hm|Hm]; rewrite Hm in E.
    + unfold writeZeros in E. cbn [Z.eqb FillZero] in E.
      destruct (Z.ltb_spec ((- pos w) mod 2 ^ k) 0); [lia|discriminate].
    + unfold writeRandom in E. change (FillRandom =? FillZero) with false in E.
      change (FillRandom =? FillRandom) with true in E. cbn iota in E.
      destruct (Z.ltb_spec ((- pos w) mod 2 ^ k) 0); [lia|discriminate].
Qed.

(** One turn of [writeRepeatedly] from an aligned offset. *)
Lemma write_align_pow2 w data k :
  method w = FillZero \/ method w = FillRandom ->
  0 <= k < 62 -> 0 < len data <= 2 ^ k ->
  0 <= pos w -> pos w mod 2 ^ k = 0 -> pos w + 2 ^ k < 2 ^ 62 ->
  exists w', alignWriter randReader (fs_Write w data) (2 ^ k) = Ok w'
    /\ extends w w'
    /\ pos w' = pos w + 2 ^ k
    /\ file_bytes (target w') (pos w) (len data) = data.
Proof.
  intros Hm Hk Hd Hp Ha Hb.
  assert (H2k : 0 < 2 ^ k) by (apply Z.pow_pos_nonneg; lia).
  destruct (fs_Write_spec w data Hp ltac:(lia)) as (Hx1 & Hp1 & Hd1 & _).
  destruct (alignWriter_pow2 (fs_Write w data) k Hm Hk ltac:(lia)) as (w' & E & Hx2 & Hp2).
  exists w'. split; [exact E|]. split; [exact (extends_trans _ _ _ Hx1 Hx2)|].
  assert (Hmod : (- pos (fs_Write w data)) mod 2 ^ k = 2 ^ k - len data).
  { rewrite Hp1. apply Z.mod_divide in Ha; [|lia]. destruct Ha as [q Hq].
    destruct (Z.eq_dec (len data) (2 ^ k)) as [El|El].
    - rewrite El. replace (- (pos w + 2 ^ k)) with ((- q - 1) * 2 ^ k) by lia.
      rewrite Z.mod_mul by lia. lia.
    - replace (- (pos w + len data)) with (2 ^ k - len data + (- q - 1) * 2 ^ k) by lia.
      rewrite Z.mod_add by lia. apply Z.mod_small. lia. }
  split; [lia|].
  apply file_bytes_nth. intros j Hj.
  destruct Hx2 as (_ & _ & Hf2 & _). rewrite Hf2 by lia. apply Hd1, Hj.
Qed.

Lemma writeRepeatedly_pow2 data k :
  0 <= k < 62 -> 0 < len data <= 2 ^ k ->
  forall repeat w,
  method w = FillZero \/ method w = FillRandom ->
  0 <= pos w -> pos w mod 2 ^ k = 0 ->
  pos w + Z.of_nat repeat * 2 ^ k < 2 ^ 62 ->
  exists w', writeRepeatedly randReader w data repeat (2 ^ k) = Ok w'
    /\ extends w w'
    /\ pos w' = pos w + Z.of_nat repeat * 2 ^ k
    /\ forall j, 0 <= j < Z.of_nat repeat ->
         file_bytes (target w') (pos w + j * 2 ^ k) (len data) = data.
Proof.
  intros Hk Hd.
  assert (H2k : 0 < 2 ^ k) by (apply Z.pow_pos_nonneg; lia).
  induction repeat as [|n IH]; intros w Hm Hp Ha Hb.
  - exists w. split; [reflexivity|]. split; [apply extends_refl|]. split; [lia|].
    intros j Hj. lia.
  - destruct (write_align_pow2 w data k Hm Hk Hd Hp Ha ltac:(nia)) as (w1 & E1 & Hx1 & Hp1 & Hd1).
    assert (Hm1 : method w1 = FillZero \/ method w1 = FillRandom).
    { destruct Hx1 as (_ & -> & _). exact Hm. }
    assert (Ha1 : pos w1 mod 2 ^ k = 0).
    { rewrite Hp1. rewrite <- Z.add_mod_idemp_r, Z.mod_same, Z.add_0_r by lia. exact Ha. }
    destruct (IH w1 Hm1 ltac:(lia) Ha1 ltac:(nia)) as (w' & E & Hx & Hp' & Hd').
    exists w'. cbn [writeRepeatedly]. rewrite E1. cbn [mbind Outcome_bind].
    split; [exact E|]. split; [exact (extends_trans _ _ _ Hx1 Hx)|]. split; [nia|].
    intros j Hj. destruct (Z.eq_dec j 0) as [->|Hj0].
    + rewrite Z.mul_0_l, Z.add_0_r. etransitivity; [|exact Hd1]. apply file_bytes_ext.
      intros i Hi. destruct Hx as (_ & _ & Hf & _). apply Hf. lia.
    + specialize (Hd' (j - 1) ltac:(lia)). etransitivity; [|exact Hd'].
      f_equal. nia.
Qed.

(** X21. [writeRepeatedly] with the fill method zero or random, from an
    offset that is a multiple of a power of two taken as the alignment, and
    with data no longer than the alignment: the copies of the data are at
    the successive multiples of the alignment, the offset ends one alignment
    past the last copy, and no byte before the first copy changes. *)
Theorem writeRepeatedly_copies (w : fillSeeker) (data : list byte) (repeat : nat)
    (k : Z) :
  method w = FillZero \/ method w = FillRandom ->
  0 <= k < 62 -> 0 < len data <= 2 ^ k ->
  0 <= pos w -> pos w mod 2 ^ k = 0 ->
  pos w + Z.of_nat repeat * 2 ^ k < 2 ^ 62 ->
  exists w', writeRepeatedly randReader w data repeat (2 ^ k) = Ok w'
    /\ pos w' = pos w + Z.of_nat repeat * 2 ^ k
    /\ (forall i, i < pos w -> fdata (target w') i = fdata (target w) i)
    /\ forall j, 0 <= j < Z.of_nat repeat ->
         file_bytes (target w') (pos w + j * 2 ^ k) (len data) = data.
Proof.
  intros Hm Hk Hd Hp Ha Hb.
  destruct (writeRepeatedly_pow2 data k Hk Hd repeat w Hm Hp Ha Hb)
    as (w' & E & (_ & _ & Hf & _) & Hp' & Hd').
  exists w'. auto.
Qed.

(** [writeImageEnding] without encryption. *)
Lemma writeImageEnding_plain w ent cipher key blocks data :
  cipher <> EndingCipherRSA ->
  writeMultipleEntries (map FStruct ent) = Ok data ->
  0 <= pos w -> 0 <= blocks -> pos w + blocks * BlockSize < 2 ^ 63 ->
  len data <= blocks * BlockSize ->
  exists w', writeImageEnding randReader crypto w ent cipher key blocks = Ok w'
    /\ extends w w'
    /\ pos w' = pos w + blocks * BlockSize
    /\ file_bytes (target w') (pos w) (len data) = data
    /\ (forall i, len data <= i < blocks * BlockSize ->
          fdata (target w') (pos w + i) = randReader (consumed w + (i - len data)))
    /\ (0 < blocks -> pos w + blocks * BlockSize <= fsize (target w')).
Proof.
  intros Hc Hd Hp Hb Hs Hle. unfold writeImageEnding. rewrite Hd. cbn [mbind Outcome_bind].
  destruct (Z.eqb_spec cipher EndingCipherRSA); [contradiction|]. cbn [mbind Outcome_bind].
  rewrite uint64_small by (unfold BlockSize in *; lia).
  destruct (Z.gtb_spec (len data) (blocks * BlockSize)); [lia|].
  pose proof (len_nonneg data) as Hl.
  destruct (fs_Write_spec w data Hp ltac:(lia)) as (Hx1 & Hp1 & Hd1 & Hs1).
  destruct (Z.eqb_spec (blocks * BlockSize - len data) 0) as [Hz|Hz].
  - exists (fs_Write w data). split; [reflexivity|]. split; [exact Hx1|].
    split; [lia|]. split; [apply file_bytes_nth, Hd1|]. split; [intros i Hi; lia|].
    intros Hb0. unfold BlockSize in *. specialize (Hs1 ltac:(lia)). lia.
  - unfold writeRandom. destruct (Z.ltb_spec (blocks * BlockSize - len data) 0); [lia|].
    eexists. split; [reflexivity|]. cbn [pos target].
    split; [|split; [|split; [|split]]].
    + eapply extends_trans; [exact Hx1|]. unfold extends. cbn [pos target method].
      rewrite int64_small by lia. split; [lia|]. split; [reflexivity|]. split; [|split].
      * intros i Hi. apply fdata_file_put_below, Hi.
      * apply fsize_file_put_le.
      * intros Hcov. unfold file_put.
        destruct (Z.leb_spec (blocks * BlockSize - len data) 0); cbn [fsize]; lia.
    + rewrite int64_small by lia. lia.
    + apply file_bytes_nth. intros j Hj.
      rewrite fdata_file_put_below by lia. apply Hd1, Hj.
    + intros i Hi. unfold file_put.
      destruct (Z.leb_spec (blocks * BlockSize - len data) 0); [lia|]. cbn [fdata].
      rewrite Hp1.
      destruct (Z.leb_spec (pos w + len data) (pos w + i)); [|lia].
      destruct (Z.ltb_spec (pos w + i) (pos w + len data + (blocks * BlockSize - len data)));
        [|lia].
      cbn [consumed fs_Write]. f_equal. lia.
    + intros _. pose proof (fsize_file_put (target (fs_Write w data)) (pos (fs_Write w data))
                              (blocks * BlockSize - len data)
                              (fun k0 => randReader (consumed (fs_Write w data) + k0))
                              ltac:(lia)) as Hf.
      lia.
Qed.

(** X22. [writeImageEnding] without encryption refuses entries that take more
    than the blocks given; otherwise it writes them at the current offset,
    fills the rest of the blocks with the next bytes of the random source,
    whatever the fill method, and leaves the offset at the end of the
    blocks. *)
Theorem writeImageEnding_blocks (w : fillSeeker) (ent : list Entry) (cipher : Z)
    (key : option rsa.PublicKey) (blocks : Z) (data : list byte) :
  cipher <> EndingCipherRSA ->
  writeMultipleEntries (map FStruct ent) = Ok data ->
  0 <= pos w -> 0 <= blocks -> pos w + blocks * BlockSize < 2 ^ 63 ->
  (blocks * BlockSize < len data ->
   writeImageEnding randReader crypto w ent cipher key blocks
   = Err (errEndingTooLong (len data) (blocks * BlockSize)))
  /\ (len data <= blocks * BlockSize ->
      exists w', writeImageEnding randReader crypto w ent cipher key blocks = Ok w'
        /\ pos w' = pos w + blocks * BlockSize
        /\ file_bytes (target w') (pos w) (len data) = data
        /\ (forall i, len data <= i < blocks * BlockSize ->
              fdata (target w') (pos w + i) = randReader (consumed w + (i - len data)))
        /\ (forall i, i < pos w -> fdata (target w') i = fdata (target w) i)).
Proof.
  intros Hc Hd Hp Hb Hs. split.
  - intros Hlt. unfold writeImageEnding. rewrite Hd. cbn [mbind Outcome_bind].
    destruct (Z.eqb_spec cipher EndingCipherRSA); [contradiction|]. cbn [mbind Outcome_bind].
    rewrite uint64_small by (unfold BlockSize in *; lia).
    destruct (Z.gtb_spec (len data) (blocks * BlockSize)); [reflexivity|lia].
  - intros Hle.
    destruct (writeImageEnding_plain w ent cipher key blocks data Hc Hd Hp Hb Hs Hle)
      as (w' & E & (_ & _ & Hf & _) & Hp' & Hd' & Hr & _).
    exists w'. auto.
Qed.

End FillWriter.

Lemma fs_Seek_fills_witness :
  (1024 < pos exampleWriter ->
   fs_Seek exampleRandom exampleWriter 1024 SeekStart
   = Err (errFillBackwards (pos exampleWriter) (1024 - pos exampleWriter)))
  /\ (pos exampleWriter <= 1024 ->
      exists w', fs_Seek exampleRandom exampleWriter 1024 SeekStart = Ok w'
        /\ pos w' = 1024
        /\ (forall i, i < pos exampleWriter ->
              fdata (target w') i = fdata (target exampleWriter) i)
        /\ (forall i, pos exampleWriter <= i < 1024 ->
              fdata (target w') i
              = if method exampleWriter =? FillZero then Byte.x00
                else exampleRandom (consumed exampleWriter + (i - pos exampleWriter)))).
Proof.
  apply (fs_Seek_fills exampleRandom exampleWriter 1024).
  - left. reflexivity.
  - unfold exampleWriter, BlockSize; cbn [pos]; lia.
  - lia.
Defined.

Lemma fs_Seek_keeps_written_witness :
  (forall i, i < pos exampleWriter ->
     fdata (target exampleWriterAt1024) i = fdata (target exampleWriter) i)
  /\ fsize (target exampleWriter) <= fsize (target exampleWriterAt1024)
  /\ (method exampleWriter = FillSeek -> target exampleWriterAt1024 = target exampleWriter).
Proof.
  apply (fs_Seek_keeps_written exampleRandom exampleWriter exampleWriterAt1024
           1024 SeekStart).
  reflexivity.
Defined.

Lemma writeRepeatedly_copies_witness :
  exists w', writeRepeatedly exampleRandom exampleWriter IdCvtmMagic 2 (2 ^ 9) = Ok w'
    /\ pos w' = pos exampleWriter + Z.of_nat 2 * 2 ^ 9
    /\ (forall i, i < pos exampleWriter ->
          fdata (target w') i = fdata (target exampleWriter) i)
    /\ forall j, 0 <= j < Z.of_nat 2 ->
         file_bytes (target w') (pos exampleWriter + j * 2 ^ 9) (len IdCvtmMagic)
         = IdCvtmMagic.
Proof.
  apply (writeRepeatedly_copies exampleRandom exampleWriter IdCvtmMagic 2 9).
  - left. reflexivity.
  - lia.
  - vm_compute. split; [reflexivity|discriminate].
  - unfold exampleWriter, BlockSize; cbn [pos]; lia.
  - reflexivity.
  - unfold exampleWriter, BlockSize; cbn [pos]; lia.
Defined.

Lemma writeImageEnding_blocks_witness :
  (1 * BlockSize < len (writeEntry (ENoMoreImages Build_NoMoreImages)) ->
   writeImageEnding exampleRandom noCrypto exampleWriter
     [ENoMoreImages Build_NoMoreImages] EndingCipherNull None 1
   = Err (errEndingTooLong (len (writeEntry (ENoMoreImages Build_NoMoreImages)))
            (1 * BlockSize)))
  /\ (len (writeEntry (ENoMoreImages Build_NoMoreImages)) <= 1 * BlockSize ->
      exists w', writeImageEnding exampleRandom noCrypto exampleWriter
                   [ENoMoreImages Build_NoMoreImages] EndingCipherNull None 1 = Ok w'
        /\ pos w' = pos exampleWriter + 1 * BlockSize
        /\ file_bytes (target w') (pos exampleWriter)
             (len (writeEntry (ENoMoreImages Build_NoMoreImages)))
           = writeEntry (ENoMoreImages Build_NoMoreImages)
        /\ (forall i, len (writeEntry (ENoMoreImages Build_NoMoreImages)) <= i < 1 * BlockSize ->
              fdata (target w') (pos exampleWriter + i)
              = exampleRandom (consumed exampleWriter
                               + (i - len (writeEntry (ENoMoreImages Build_NoMoreImages)))))
        /\ (forall i, i < pos exampleWriter ->
              fdata (target w') i = fdata (target exampleWriter) i)).
Proof.
  apply (writeImageEnding_blocks exampleRandom noCrypto exampleWriter
           [ENoMoreImages Build_NoMoreImages] EndingCipherNull None 1
           (writeEntry (ENoMoreImages Build_NoMoreImages))).
  - discriminate.
  - vm_compute. reflexivity.
  - unfold exampleWriter, BlockSize; cbn [pos]; lia.
  - lia.
  - unfold exampleWriter, BlockSize; cbn [pos]; lia.
Defined.

(** *** The fill writer, whatever the fill method *)

Section AnyFill.

Variable randReader : Z -> byte.
Variable crypto : Crypto.

Lemma alignWriter_pow2_any w k :
  validFill (method w) ->
  0 <= k < 62 -> 0 <= pos w < 2 ^ 62 ->
  exists w', alignWriter randReader w (2 ^ k) = Ok w'
    /\ extends w w'
    /\ pos w' = pos w + (- pos w) mod 2 ^ k.
Proof.
  intros [Hm|[Hm|Hm]] Hk Hp.
  - apply alignWriter_pow2; auto.
  - apply alignWriter_pow2; auto.
  - assert (H2k : 0 < 2 ^ k < 2 ^ 62).
    { split; [apply Z.pow_pos_nonneg; lia|apply Z.pow_lt_mono_r; lia]. }
    pose proof (Z.mod_pos_bound (- pos w) (2 ^ k) ltac:(lia)) as Hmod.
    assert (Hstep : alignWriter randReader w (2 ^ k)
                    = fs_Seek randReader w ((- pos w) mod 2 ^ k) SeekCurrent).
    { unfold alignWriter.
      assert (H0 : fs_Seek randReader w 0 SeekCurrent = Ok w) by reflexivity.
      rewrite H0. cbn [mbind Outcome_bind].
      rewrite (int64_small (2 ^ k - 1)), (int64_small (- pos w)) by lia.
      rewrite land_ones_mod by lia. reflexivity. }
    rewrite Hstep.
    destruct (fs_Seek_current_seek randReader w ((- pos w) mod 2 ^ k) Hm ltac:(lia))
      as (w' & E & Ht & Hm' & Hp').
    exists w'. split; [exact E|]. split; [|exact Hp'].
    apply extends_seek; [assumption..|lia].
Qed.

(** One turn of [writeRepeatedly] from an aligned offset. *)
Lemma write_align_pow2_any w data k :
  validFill (method w) ->
  0 <= k < 62 -> 0 < len data <= 2 ^ k ->
  0 <= pos w -> pos w mod 2 ^ k = 0 -> pos w + 2 ^ k < 2 ^ 62 ->
  exists w', alignWriter randReader (fs_Write w data) (2 ^ k) = Ok w'
    /\ extends w w'
    /\ pos w' = pos w + 2 ^ k
    /\ file_bytes (target w') (pos w) (len data) = data
    /\ pos w + len data <= fsize (target w').
Proof.
  intros Hm Hk Hd Hp Ha Hb.
  assert (H2k : 0 < 2 ^ k) by (apply Z.pow_pos_nonneg; lia).
  destruct (fs_Write_spec w data Hp ltac:(lia)) as (Hx1 & Hp1 & Hd1 & Hs1).
  destruct (alignWriter_pow2_any (fs_Write w data) k Hm Hk ltac:(lia)) as (w' & E & Hx2 & Hp2).
  exists w'. split; [exact E|]. split; [exact (extends_trans _ _ _ Hx1 Hx2)|].
  assert (Hmod : (- pos (fs_Write w data)) mod 2 ^ k = 2 ^ k - len data).
  { rewrite Hp1. apply Z.mod_divide in Ha; [|lia]. destruct Ha as [q Hq].
    destruct (Z.eq_dec (len data) (2 ^ k)) as [El|El].
    - rewrite El. replace (- (pos w + 2 ^ k)) with ((- q - 1) * 2 ^ k) by lia.
      rewrite Z.mod_mul by lia. lia.
    - replace (- (pos w + len data)) with (2 ^ k - len data + (- q - 1) * 2 ^ k) by lia.
      rewrite Z.mod_add by lia. apply Z.mod_small. lia. }
  split; [lia|]. split.
  - apply file_bytes_nth. intros j Hj.
    destruct Hx2 as (_ & _ & Hf2 & _). rewrite Hf2 by lia. apply Hd1, Hj.
  - destruct Hx2 as (_ & _ & _ & Hs2 & _). specialize (Hs1 ltac:(lia)). lia.
Qed.

(** [writeRepeatedly] with a power of two as the alignment: the copies are
    at the successive multiples of the alignment, inside the file. *)
Lemma writeRepeatedly_pow2_any data k :
  0 <= k < 62 -> 0 < len data <= 2 ^ k ->
  forall repeat w,
  validFill (method w) ->
  0 <= pos w -> pos w mod 2 ^ k = 0 ->
  pos w + Z.of_nat repeat * 2 ^ k < 2 ^ 62 ->
  exists w', writeRepeatedly randReader w data repeat (2 ^ k) = Ok w'
    /\ extends w w'
    /\ pos w' = pos w + Z.of_nat repeat * 2 ^ k
    /\ forall j, 0 <= j < Z.of_nat repeat ->
         file_bytes (target w') (pos w + j * 2 ^ k) (len data) = data
         /\ pos w + j * 2 ^ k + len data <= fsize (target w').
Proof.
  intros Hk Hd.
  assert (H2k : 0 < 2 ^ k) by (apply Z.pow_pos_nonneg; lia).
  induction repeat as [|n IH]; intros w Hm Hp Ha Hb.
  - exists w. split; [reflexivity|]. split; [apply extends_refl|]. split; [lia|].
    intros j Hj. lia.
  - destruct (write_align_pow2_any w data k Hm Hk Hd Hp Ha ltac:(nia))
      as (w1 & E1 & Hx1 & Hp1 & Hd1 & Hs1).
    assert (Hm1 : validFill (method w1)).
    { destruct Hx1 as (_ & -> & _). exact Hm. }
    assert (Ha1 : pos w1 mod 2 ^ k = 0).
    { rewrite Hp1. rewrite <- Z.add_mod_idemp_r, Z.mod_same, Z.add_0_r by lia. exact Ha. }
    destruct (IH w1 Hm1 ltac:(lia) Ha1 ltac:(nia)) as (w' & E & Hx & Hp' & Hd').
    exists w'. cbn [writeRepeatedly]. rewrite E1. cbn [mbind Outcome_bind].
    split; [exact E|]. split; [exact (extends_trans _ _ _ Hx1 Hx)|]. split; [nia|].
    intros j Hj. destruct (Z.eq_dec j 0) as [->|Hj0].
    + rewrite Z.mul_0_l, Z.add_0_r. split.
      * etransitivity; [|exact Hd1]. apply file_bytes_ext.
        intros i Hi. destruct Hx as (_ & _ & Hf & _). apply Hf. lia.
      * destruct Hx as (_ & _ & _ & Hs & _). lia.
    + destruct (Hd' (j - 1) ltac:(lia)) as [Hd2 Hs2].
      replace (pos w + j * 2 ^ k) with (pos w1 + (j - 1) * 2 ^ k) by nia.
      split; [exact Hd2|exact Hs2].
Qed.

End AnyFill.

(** *** The size of a header *)

Lemma len_concat_writeEntry_map {A} (f : A -> Entry) c (l : list A) :
  (forall x, len (bare (f x)) = c) ->
  len (concat (map writeEntry (map f l))) = (20 + c) * len l.
Proof.
  intros H. induction l as [|x l IH]; [unfold len; cbn; lia|].
  cbn [map concat]. rewrite len_app, IH, len_writeEntry, H. unfold len. cbn [length]. lia.
Qed.

Ltac len_bare :=
  rewrite bare_concat;
  cbn [fieldsOf map concat binaryWriteField EndingCipher_Algo EndingCipher_Key];
  rewrite ?len_app; unfold len; rewrite ?length_le_split; cbn [length]; lia.

Lemma len_headerEntries h :
  len (concat (map writeEntry (headerEntries h)))
  = 125 + 24 * len (W_EndPointerLoca h) + len (EndingCipher_Key (W_EndingCipher h))
    + 28 * len (W_GlobalLogLocat h) + 24 * len (W_ImageLog h).
Proof.
  unfold headerEntries. rewrite !map_app, !concat_app, !len_app.
  rewrite (len_concat_writeEntry_map EEndPointerLoca 4) by (intros; len_bare).
  rewrite (len_concat_writeEntry_map EGlobalLogLocat 8) by (intros; len_bare).
  rewrite (len_concat_writeEntry_map EImageLog 4) by (intros; len_bare).
  cbn [map concat]. rewrite !len_app, !len_writeEntry.
  assert (H1 : len (bare (EEndPointerChec (W_EndPointerChec h))) = 4) by len_bare.
  assert (H2 : len (bare (EEndingCipher (W_EndingCipher h)))
               = 4 + len (EndingCipher_Key (W_EndingCipher h))) by len_bare.
  assert (H3 : len (bare (EEndingSize (W_EndingSize h))) = 4) by len_bare.
  assert (H4 : len (bare (EImageArea (W_ImageArea h))) = 8) by len_bare.
  assert (H5 : len (bare (EImageBasic (W_ImageBasic h))) = 5) by len_bare.
  rewrite H1, H2, H3, H4, H5. change (len (@nil byte)) with 0. lia.
Qed.

Lemma len_header h bs :
  W_Optional h = [] ->
  writeMultipleEntries (ArchiveHeaderWrite_fields h) = Ok bs ->
  len bs = 181 + 24 * len (W_EndPointerLoca h) + len (EndingCipher_Key (W_EndingCipher h))
           + 28 * len (W_GlobalLogLocat h) + 24 * len (W_ImageLog h).
Proof.
  intros Ho H. rewrite writeMultipleEntries_header in H by exact Ho.
  assert (bs = writeEntry (ECvtmMagic (W_CvtmMagic h))
               ++ concat (map writeEntry (headerEntries h))) as -> by congruence.
  rewrite len_app, len_writeEntry_CvtmMagic, len_headerEntries. lia.
Qed.

(** *** The loops of the layout *)

Lemma pow2_bounds k : 0 <= k <= 31 -> 0 < 2 ^ k <= 2 ^ 31.
Proof.
  intros Hk. split; [apply Z.pow_pos_nonneg; lia|apply Z.pow_le_mono_r; lia].
Qed.

Lemma mod_add_multiple s x k : 0 < 2 ^ k -> s mod 2 ^ k = 0 -> (s + 2 ^ k * x) mod 2 ^ k = 0.
Proof.
  intros Hp Hs. rewrite Z.mul_comm, Z.mod_add by lia. exact Hs.
Qed.

Lemma globalLogs_spec k : 0 <= k <= 31 ->
  forall logs s es s',
  Forall (fun v => 0 <= LogConf_Size v < 2 ^ 32) logs ->
  0 <= s -> s + len logs * 2 ^ 33 < 2 ^ 62 -> s mod 2 ^ k = 0 ->
  globalLogs logs s (2 ^ k) = (es, s') ->
  s <= s' <= s + len logs * 2 ^ 33 /\ s' mod 2 ^ k = 0 /\ len es = len logs
  /\ Forall (fun e => 0 <= GlobalLogLocat_Start e < 2 ^ 32
                      /\ 0 <= GlobalLogLocat_Count e < 2 ^ 32) es.
Proof.
  intros Hk. pose proof (pow2_bounds k Hk) as Hp.
  induction logs as [|v logs IH]; intros s es s' Hl Hs Hb Hm H.
  - cbn in H. assert (es = [] /\ s' = s) as [-> ->] by (split; congruence).
    change (len (@nil LogConf)) with 0. repeat split; try lia. constructor.
  - cbn [globalLogs] in H. inversion Hl as [|v' logs' Hv Hl']; subst.
    assert (Hlen : len (v :: logs) = 1 + len logs) by (unfold len; cbn [length]; lia).
    rewrite Hlen in Hb. pose proof (len_nonneg logs) as Hn.
    destruct (align_pow2 (LogConf_Size v) k ltac:(lia) ltac:(lia)) as (Hu & Hur & _).
    rewrite (int64_small (s + alignUp (LogConf_Size v) (2 ^ k))) in H by lia.
    destruct (globalLogs logs (s + alignUp (LogConf_Size v) (2 ^ k)) (2 ^ k))
      as [es1 s1] eqn:E.
    assert (es = {| GlobalLogLocat_Start := uint32 s;
                    GlobalLogLocat_Count := LogConf_Size v |} :: es1 /\ s' = s1)
      as [-> ->] by (split; congruence).
    assert (A1 : 0 <= s + alignUp (LogConf_Size v) (2 ^ k)) by lia.
    assert (A2 : s + alignUp (LogConf_Size v) (2 ^ k) + len logs * 2 ^ 33 < 2 ^ 62) by lia.
    assert (A3 : (s + alignUp (LogConf_Size v) (2 ^ k)) mod 2 ^ k = 0)
      by (rewrite Hu; apply mod_add_multiple; [lia|exact Hm]).
    destruct (IH _ _ _ Hl' A1 A2 A3 E) as (I1 & I2 & I3 & I4).
    split; [lia|]. split; [exact I2|]. split.
    + unfold len in *. cbn [length]. lia.
    + constructor; [|exact I4]. cbn. split; [apply uint32_range|exact Hv].
Qed.

Lemma headPointers_spec a : forall n s es s',
  0 <= s -> 0 <= a -> s + Z.of_nat n * a < 2 ^ 62 ->
  headPointers n s a = (es, s') ->
  s' = s + Z.of_nat n * a /\ length es = n
  /\ forall e, e ∈ es -> exists j, 0 <= j < Z.of_nat n /\ Blk e = uint32 (s + j * a).
Proof.
  induction n as [|n IH]; intros s es s' Hs Ha Hb H.
  - cbn in H. assert (es = [] /\ s' = s) as [-> ->] by (split; congruence).
    split; [lia|]. split; [reflexivity|]. intros e He. inversion He.
  - cbn [headPointers] in H. rewrite (int64_small (s + a)) in H by nia.
    destruct (headPointers n (s + a) a) as [es1 s1] eqn:E.
    assert (es = {| Blk := uint32 s |} :: es1 /\ s' = s1) as [-> ->] by (split; congruence).
    assert (A1 : 0 <= s + a) by lia.
    assert (A2 : s + a + Z.of_nat n * a < 2 ^ 62) by nia.
    destruct (IH _ _ _ A1 Ha A2 E) as (I1 & I2 & I3).
    split; [nia|]. split; [cbn [length]; lia|].
    intros e He. apply elem_of_cons in He as [->|He].
    + exists 0. split; [lia|]. cbn. f_equal. lia.
    + destruct (I3 e He) as (j & Hj & Hje). exists (j + 1). split; [lia|].
      rewrite Hje. f_equal. nia.
Qed.

Lemma tailPointers_spec a e0 : forall n i,
  0 <= e0 -> 0 <= a -> 0 <= i -> e0 + (i + Z.of_nat n) * a < 2 ^ 32 ->
  length (tailPointers n i e0 a) = n
  /\ forall e, e ∈ tailPointers n i e0 a ->
       exists j, i <= j < i + Z.of_nat n /\ Blk e = e0 + j * a.
Proof.
  induction n as [|n IH]; intros i He0 Ha Hi Hb.
  - cbn. split; [reflexivity|]. intros e He. inversion He.
  - cbn [tailPointers].
    assert (A1 : 0 <= i + 1) by lia.
    assert (A2 : e0 + (i + 1 + Z.of_nat n) * a < 2 ^ 32) by nia.
    destruct (IH (i + 1) He0 Ha A1 A2) as (I1 & I2).
    split; [cbn [length]; lia|].
    intros e He. apply elem_of_cons in He as [->|He].
    + exists i. split; [lia|]. cbn [Blk].
      destruct (Z.eq_dec a 0) as [->|Ha0].
      * rewrite (uint32_small 0) by lia. rewrite Z.mul_0_r.
        rewrite (uint32_small 0) by lia. rewrite Z.add_0_r, uint32_idem.
        rewrite uint32_small by lia. lia.
      * assert (i < 2 ^ 32) by nia. assert (a < 2 ^ 32) by nia.
        rewrite (uint32_small e0), (uint32_small i), (uint32_small a) by lia.
        rewrite (uint32_small (i * a)) by nia. apply uint32_small. nia.
    + destruct (I2 e He) as (j & Hj & Hje). exists j. split; [lia|exact Hje].
Qed.

Lemma quot_512 x : 0 <= x -> x ÷ BlockSize = x / 512.
Proof. intros H. apply Z.quot_div_nonneg; unfold BlockSize; lia. Qed.

Lemma pow2_9 k : 0 <= k -> 2 ^ k * 512 = 2 ^ (k + 9).
Proof. intros H. rewrite Z.pow_add_r by lia. reflexivity. Qed.

Lemma mul_bound j n a : 0 <= j < n -> 0 <= a -> 0 <= j * a /\ j * a + a <= n * a.
Proof. intros Hj Ha. nia. Qed.

Lemma mul_small a b A B : 0 <= a <= A -> 0 <= b <= B -> 0 <= a * b <= A * B.
Proof. intros Ha Hb. nia. Qed.

Lemma layout_laidOut conf k l :
  sizedConf conf k ->
  (forall pk, Conf.EndingCipher conf = EndingCipherRSA ->
     Conf.PublicKeyRSA conf = Some pk ->
     len (x509.MarshalPKCS1PublicKey pk) < 2 ^ 31) ->
  layout conf = Ok l ->
  exists key,
    laidOut conf k key l
    /\ (Conf.EndingCipher conf = EndingCipherNull /\ key = [] /\ L_endingSize l = 1
        \/ exists pk, Conf.EndingCipher conf = EndingCipherRSA
                      /\ Conf.PublicKeyRSA conf = Some pk
                      /\ key = x509.MarshalPKCS1PublicKey pk
                      /\ L_endingSize l = uint32 (alignUp (rsa.Size pk) BlockSize)).
Proof.
  intros (Hf & Ha & Hk & Hh & Ht & Hht & HG & HI & Hcs & Hic & Hie & Hsz & Hd) Hkey H.
  pose proof (pow2_bounds k Hk) as Hp.
  pose proof (len_nonneg (Conf.GlobalLogs conf)) as HnG.
  pose proof (len_nonneg (Conf.ImgLogs conf)) as HnI.
  unfold layout in H. rewrite Ha in H.
  set (cipher := (if Conf.EndingCipher conf =? EndingCipherNull then _ else _)) in H.
  assert (Hc : forall es key, cipher = Ok (es, key) ->
             0 <= es < 2 ^ 32 /\ len key < 2 ^ 31
             /\ (Conf.EndingCipher conf = EndingCipherNull /\ key = [] /\ es = 1
                 \/ exists pk, Conf.EndingCipher conf = EndingCipherRSA
                               /\ Conf.PublicKeyRSA conf = Some pk
                               /\ key = x509.MarshalPKCS1PublicKey pk
                               /\ es = uint32 (alignUp (rsa.Size pk) BlockSize))).
  { intros es key. unfold cipher.
    destruct (Z.eqb_spec (Conf.EndingCipher conf) EndingCipherNull) as [E|].
    - intros [= <- <-]. split; [lia|]. split; [reflexivity|]. left. done.
    - destruct (Z.eqb_spec (Conf.EndingCipher conf) EndingCipherRSA) as [E|]; [|done].
      destruct (Conf.PublicKeyRSA conf) as [pk|] eqn:Epk; [|done].
      intros [= <- <-]. split; [apply uint32_range|]. split; [apply Hkey; [exact E|reflexivity]|].
      right. exists pk. done. }
  destruct cipher as [[es key]| |]; cbn [mbind Outcome_bind] in H; [|discriminate..].
  destruct (Hc es key eq_refl) as (Hes & Hlk & Hcase). clear Hc.
  pose proof (len_nonneg key) as Hnk.
  exists key.
  unfold sizeOfHeader in H. rewrite writeMultipleEntries_header in H by reflexivity.
  cbn [mbind Outcome_bind] in H.
  rewrite len_app, len_writeEntry_CvtmMagic, len_headerEntries in H.
  cbn [W_EndPointerLoca W_EndingCipher EndingCipher_Key W_GlobalLogLocat W_ImageLog
       W_EndPointerChec W_EndingSize W_ImageBasic W_Optional] in H.
  rewrite (uint64_small (Conf.EndPointersHead conf + Conf.EndPointersTail conf)) in H by lia.
  assert (Hhs : 56 + (125 + 24 * len (replicate (Z.to_nat (Conf.EndPointersHead conf
                                                           + Conf.EndPointersTail conf))
                                         {| Blk := 0 |})
                      + len key
                      + 28 * len (replicate (length (Conf.GlobalLogs conf))
                                    {| GlobalLogLocat_Start := 0;
                                       GlobalLogLocat_Count := 0 |})
                      + 24 * len (replicate (length (Conf.ImgLogs conf)) {| BlkCount := 0 |}))
                = headerSizeOf conf key).
  { unfold headerSizeOf, len. rewrite !length_replicate. lia. }
  rewrite Hhs in H. clear Hhs.
  set (hs := headerSizeOf conf key) in *.
  assert (Hhsb : 181 <= hs < 2 ^ 31 + 4096) by (unfold hs, headerSizeOf; lia).
  (* the first block after the header *)
  rewrite (int64_small (2 ^ k * BlockSize)) in H by (unfold BlockSize; lia).
  change BlockSize with 512 in H at 1. rewrite (pow2_9 k) in H by lia.
  destruct (align_pow2 hs (k + 9) ltac:(lia) ltac:(lia)) as (Hu & Hur & _).
  assert (H2k9 : 2 ^ (k + 9) = 2 ^ k * 512) by (symmetry; apply pow2_9; lia).
  set (q := (hs + 2 ^ (k + 9) - 1) / 2 ^ (k + 9)) in *.
  assert (Hs0 : alignUp hs (2 ^ (k + 9)) ÷ BlockSize = 2 ^ k * q).
  { rewrite quot_512 by lia. rewrite Hu, H2k9.
    replace (2 ^ k * 512 * q) with (2 ^ k * q * 512) by lia. apply Z.div_mul. lia. }
  rewrite Hs0 in H.
  assert (Hq : hs <= 512 * (2 ^ k * q) < hs + 2 ^ k * 512) by (rewrite Hu, H2k9 in Hur; lia).
  assert (Hq0 : 0 <= 2 ^ k * q) by lia.
  destruct (globalLogs (Conf.GlobalLogs conf) (2 ^ k * q) (2 ^ k)) as [gl eps] eqn:Eg.
  assert (A1 : 2 ^ k * q + len (Conf.GlobalLogs conf) * 2 ^ 33 < 2 ^ 62) by lia.
  assert (A2 : (2 ^ k * q) mod 2 ^ k = 0) by (rewrite Z.mul_comm; apply Z.mod_mul; lia).
  destruct (globalLogs_spec k Hk _ _ _ _ HG Hq0 A1 A2 Eg) as (G1 & G2 & G3 & G4).
  destruct (Z.ltb_spec (Conf.EndPointersHead conf + Conf.EndPointersTail conf)
              (Conf.EndPointersHead conf)); [lia|].
  destruct (headPointers (Z.to_nat (Conf.EndPointersHead conf)) eps (2 ^ k))
    as [hl ias] eqn:Eh.
  pose proof (mul_small (Conf.EndPointersHead conf) (2 ^ k) 163 (2 ^ 31)
                ltac:(lia) ltac:(lia)) as Hhk.
  pose proof (mul_small (2 ^ k) (Conf.EndPointersTail conf) (2 ^ 31) 163
                ltac:(lia) ltac:(lia)) as Htk.
  assert (A3 : eps + Z.of_nat (Z.to_nat (Conf.EndPointersHead conf)) * 2 ^ k < 2 ^ 62)
    by (rewrite Z2Nat.id by lia; lia).
  assert (A3a : 0 <= eps) by lia.
  assert (A3b : 0 <= 2 ^ k) by lia.
  destruct (headPointers_spec _ _ _ _ _ A3a A3b A3 Eh) as (P1 & P2 & P3).
  rewrite Z2Nat.id in P1, P3 by lia.
  (* the end of the image area *)
  rewrite (quot_512 (Conf.DiskSize conf)) in H by lia.
  assert (Hdb : 0 <= Conf.DiskSize conf / 512 < 2 ^ 32).
  { split; [apply Z.div_pos; lia|apply Z.div_lt_upper_bound; lia]. }
  destruct (align_pow2 (Conf.DiskSize conf / 512) k ltac:(lia) ltac:(lia))
    as (_ & _ & Hdn & Hdr).
  rewrite (int64_small (Conf.EndPointersTail conf)) in H by lia.
  rewrite (int64_small (2 ^ k * Conf.EndPointersTail conf)) in H by lia.
  assert (Htop : 0 <= alignDown (Conf.DiskSize conf / 512) (2 ^ k)).
  { rewrite Hdn. apply Z.mul_nonneg_nonneg; [lia|apply Z.div_pos; lia]. }
  set (top := alignDown (Conf.DiskSize conf / 512) (2 ^ k)) in *.
  rewrite (int64_small (top - 2 ^ k * Conf.EndPointersTail conf)) in H by lia.
  set (iae := top - 2 ^ k * Conf.EndPointersTail conf) in *.
  rewrite (int64_small (ias + es)) in H by lia.
  destruct (Z.gtb_spec (ias + es) iae) as [|Hroom]; [discriminate|].
  rewrite writeMultipleEntries_header in H by reflexivity.
  cbn [mbind Outcome_bind] in H.
  assert (Hias : 0 <= ias < 2 ^ 32) by lia.
  assert (Hiae : 0 <= iae < 2 ^ 32) by lia.
  assert (A4 : iae + (0 + Z.of_nat (Z.to_nat (Conf.EndPointersTail conf))) * 2 ^ k < 2 ^ 32)
    by (rewrite Z2Nat.id by lia; unfold iae; lia).
  assert (A4a : 0 <= iae) by lia.
  assert (A4b : 0 <= 0) by lia.
  destruct (tailPointers_spec (2 ^ k) iae (Z.to_nat (Conf.EndPointersTail conf)) 0
              A4a A3b A4b A4) as (T1 & T2).
  rewrite Z2Nat.id in T2 by lia.
  set (tl := tailPointers (Z.to_nat (Conf.EndPointersTail conf)) 0 iae (2 ^ k)) in *.
  injection H as <-.
  split; [|cbn [L_endingSize]; exact Hcase].
  unfold laidOut.
  cbn [L_header L_endingSize L_endPointerStart L_imgAreaStart L_imgAreaEnd L_sentinelEnd
       W_CvtmMagic W_EndPointerChec W_EndPointerLoca W_EndingCipher W_EndingSize
       W_GlobalLogLocat W_ImageArea W_ImageBasic W_ImageLog W_Optional].
  assert (Hloca : forall e, e ∈ hl ++ tl ->
            (exists j, 0 <= j < Conf.EndPointersHead conf /\ Blk e = eps + j * 2 ^ k)
            \/ (exists j, 0 <= j < Conf.EndPointersTail conf /\ Blk e = iae + j * 2 ^ k)).
  { intros e He. apply elem_of_app in He as [He|He].
    - left. destruct (P3 e He) as (j & Hj & Hb). exists j. split; [exact Hj|].
      rewrite Hb. apply uint32_small.
      pose proof (mul_bound j _ (2 ^ k) Hj A3b). lia.
    - right. destruct (T2 e He) as (j & Hj & Hb). exists j. split; [lia|exact Hb]. }
  assert (Hhsu : uint32 hs = hs) by (apply uint32_small; lia).
  rewrite Hhsu.
  assert (Huias : uint32 ias = ias) by (apply uint32_small; lia).
  assert (Huiae : uint32 iae = iae) by (apply uint32_small; lia).
  rewrite Huias, Huiae.
  split; [exact Hes|]. split; [lia|]. split; [lia|]. split; [exact G2|].
  split; [lia|]. split; [reflexivity|]. split; [exact Hroom|].
  split.
  { unfold iae. rewrite Hdn. replace (2 ^ k * (Conf.DiskSize conf / 512 / 2 ^ k)
                                     - 2 ^ k * Conf.EndPointersTail conf)
      with ((Conf.DiskSize conf / 512 / 2 ^ k - Conf.EndPointersTail conf) * 2 ^ k) by lia.
    apply Z.mod_mul. lia. }
  split.
  { unfold iae. pose proof (Z.mul_div_le (Conf.DiskSize conf) 512 ltac:(lia)). lia. }
  split; [reflexivity|].
  assert (Hlegal : Forall legal (headerEntries
            {| W_CvtmMagic := {| CvtmMagic_Checksum := replicate 32 Byte.x00;
                                 CvtmMagic_HeaderLength := hs |};
               W_EndPointerChec := {| EndPointerChec_Algo := Conf.EndPointerChecksum conf |};
               W_EndPointerLoca := hl ++ tl;
               W_EndingCipher := {| EndingCipher_Algo := Conf.EndingCipher conf;
                                    EndingCipher_Key := key |};
               W_EndingSize := {| EndingSize_Size := es |};
               W_GlobalLogLocat := gl;
               W_ImageArea := {| ImageArea_Start := ias; ImageArea_End := iae |};
               W_ImageBasic := {| ImgCipher := Conf.ImgCipher conf;
                                  ImgClusterSizeExp := Conf.ImgClusterSizeExp conf |};
               W_ImageLog := map (fun v => {| BlkCount := LogConf_Size v |})
                               (Conf.ImgLogs conf);
               W_Optional := [] |})).
  { unfold headerEntries.
    cbn [W_EndPointerChec W_EndPointerLoca W_EndingCipher W_EndingSize
         W_GlobalLogLocat W_ImageArea W_ImageBasic W_ImageLog].
    assert (Hcv : 0 <= Conf.EndingCipher conf < 2 ^ 32).
    { destruct Hcase as [(-> & _)|(pk & -> & _)]; unfold EndingCipherNull, EndingCipherRSA; lia. }
    repeat (apply Forall_app; split); repeat apply Forall_cons_2; try apply Forall_nil_2.
    - split; [repeat constructor; cbn; lia|].
      assert (len (bare (EEndPointerChec {| EndPointerChec_Algo := Conf.EndPointerChecksum conf |})) = 4)
        by len_bare. lia.
    - apply Forall_forall. intros e He. apply list_elem_of_fmap in He as (x & -> & Hx).
      split.
      + assert (Hbx : 0 <= Blk x < 2 ^ 32).
        { destruct (Hloca x Hx) as [(j & Hj & ->)|(j & Hj & ->)];
            pose proof (mul_bound j _ (2 ^ k) Hj A3b); unfold iae in *; lia. }
        repeat constructor; cbn; lia.
      + assert (len (bare (EEndPointerLoca x)) = 4) by len_bare. lia.
    - split; [repeat constructor; cbn; lia|].
      assert (len (bare (EEndingCipher {| EndingCipher_Algo := Conf.EndingCipher conf;
                                          EndingCipher_Key := key |})) = 4 + len key)
        by len_bare. lia.
    - split; [repeat constructor; cbn; lia|].
      assert (len (bare (EEndingSize {| EndingSize_Size := es |})) = 4) by len_bare. lia.
    - apply Forall_forall. intros e He. apply list_elem_of_fmap in He as (x & -> & Hx).
      rewrite Forall_forall in G4. specialize (G4 x Hx).
      split.
      + repeat constructor; cbn; lia.
      + assert (len (bare (EGlobalLogLocat x)) = 8) by len_bare. lia.
    - split; [repeat constructor; cbn; lia|].
      assert (len (bare (EImageArea {| ImageArea_Start := ias; ImageArea_End := iae |})) = 8)
        by len_bare. lia.
    - split; [repeat constructor; cbn; lia|].
      assert (len (bare (EImageBasic {| ImgCipher := Conf.ImgCipher conf;
                                        ImgClusterSizeExp := Conf.ImgClusterSizeExp conf |})) = 5)
        by len_bare. lia.
    - apply Forall_forall. intros e He. apply list_elem_of_fmap in He as (x & -> & Hx).
      apply list_elem_of_fmap in Hx as (v & -> & Hv).
      rewrite Forall_forall in HI. specialize (HI v Hv).
      split.
      + repeat constructor; cbn; lia.
      + assert (len (bare (EImageLog {| BlkCount := LogConf_Size v |})) = 4) by len_bare. lia. }
  split; [exact Hlegal|].
  split; [reflexivity|].
  split.
  { rewrite len_headerEntries.
    cbn [W_EndPointerLoca W_EndingCipher EndingCipher_Key W_GlobalLogLocat W_ImageLog].
    unfold hs, headerSizeOf. rewrite G3. unfold len at 1 4.
    rewrite length_app, P2, T1, length_map. unfold len. lia. }
  split.
  { intros E. apply (f_equal (@length _)) in E. rewrite length_app, P2, T1 in E.
    cbn [length] in E. lia. }
  split; [exact Hloca|].
  repeat split.
Qed.

Lemma extends_file_bytes w w' off n :
  extends w w' -> off + n <= pos w ->
  file_bytes (target w') off n = file_bytes (target w) off n.
Proof.
  intros (_ & _ & Hf & _) Hb. apply file_bytes_ext. intros i Hi. apply Hf. lia.
Qed.

Lemma extends_method w w' m :
  extends w w' -> method w = m -> method w' = m.
Proof. intros (_ & Hm & _) H. congruence. Qed.

Lemma extends_covered w w' :
  extends w w' -> method w <> FillSeek ->
  pos w <= fsize (target w) -> pos w' <= fsize (target w').
Proof. intros (_ & _ & _ & _ & Hc). exact Hc. Qed.

Lemma extends_fsize w w' : extends w w' -> fsize (target w) <= fsize (target w').
Proof. intros (_ & _ & _ & Hs & _). exact Hs. Qed.

Section Written.

Variable randReader : Z -> byte.
Variable crypto : Crypto.

(** What [WriteEmptyArchive] leaves in the file. *)
Lemma WriteEmptyArchive_written conf k f :
  sizedConf conf k ->
  (forall pk, Conf.EndingCipher conf = EndingCipherRSA ->
     Conf.PublicKeyRSA conf = Some pk ->
     len (x509.MarshalPKCS1PublicKey pk) < 2 ^ 31) ->
  WriteEmptyArchive randReader crypto conf = Ok f ->
  exists l key hb ep,
    layout conf = Ok l /\ laidOut conf k key l
    /\ (Conf.EndingCipher conf = EndingCipherNull /\ key = [] /\ L_endingSize l = 1
        \/ exists pk, Conf.EndingCipher conf = EndingCipherRSA
                      /\ Conf.PublicKeyRSA conf = Some pk
                      /\ key = x509.MarshalPKCS1PublicKey pk
                      /\ L_endingSize l = uint32 (alignUp (rsa.Size pk) BlockSize))
    /\ writeMultipleEntries (ArchiveHeaderWrite_fields (L_header l)) = Ok hb
    /\ len hb = headerSizeOf conf key
    /\ makeEndPointer (uint32 (L_sentinelEnd l)) (Conf.EndPointerChecksum conf) = Ok ep
    /\ file_bytes f 0 (len hb) = hb
    /\ (forall j, 0 <= j < Conf.EndPointersHead conf ->
          file_bytes f (512 * (L_endPointerStart l + j * 2 ^ k)) 512 = ep
          /\ 512 * (L_endPointerStart l + j * 2 ^ k) + 512 <= fsize f)
    /\ (forall j, 0 <= j < Conf.EndPointersTail conf ->
          file_bytes f (512 * (L_imgAreaEnd l + j * 2 ^ k)) 512 = ep
          /\ 512 * (L_imgAreaEnd l + j * 2 ^ k) + 512 <= fsize f)
    /\ (Conf.EndingCipher conf = EndingCipherNull ->
        file_bytes f (512 * L_imgAreaStart l) 20
        = writeEntry (ENoMoreImages Build_NoMoreImages)
        /\ 512 * L_imgAreaStart l + 512 <= fsize f)
    /\ (Conf.FillMethod conf <> FillSeek -> Conf.DiskSize conf <= fsize f).
Proof.
  intros Hconf Hkey H.
  pose proof Hconf as (Hf & Ha & Hk & Hh & Ht & Hht & HG & HI & Hcs & Hic & Hie & Hsz & Hd).
  pose proof (pow2_bounds k Hk) as Hp.
  unfold WriteEmptyArchive in H.
  destruct (layout conf) as [l| |] eqn:El; cbn [mbind Outcome_bind] in H; [|discriminate..].
  destruct (layout_laidOut conf k l Hconf Hkey El) as (key & Hl & Hcase).
  pose proof Hl as (L1 & L2 & L3 & L4 & L5 & L6 & L7 & L8 & L9 & L10 & L11 & L12 & L13 & _).
  rewrite Ha in H.
  rewrite (writeMultipleEntries_header (L_header l) L10) in H. cbn [mbind Outcome_bind] in H.
  set (hb := writeEntry (ECvtmMagic (W_CvtmMagic (L_header l)))
             ++ concat (map writeEntry (headerEntries (L_header l)))) in *.
  assert (Hhb : len hb = headerSizeOf conf key).
  { unfold hb. rewrite len_app, len_writeEntry_CvtmMagic, L13. lia. }
  set (hs := headerSizeOf conf key) in *.
  assert (Hhsb : 181 <= hs).
  { unfold hs, headerSizeOf. pose proof (len_nonneg key).
    pose proof (len_nonneg (Conf.GlobalLogs conf)). pose proof (len_nonneg (Conf.ImgLogs conf)).
    lia. }
  set (eps := L_endPointerStart l) in *.
  set (ias := L_imgAreaStart l) in *.
  set (iae := L_imgAreaEnd l) in *.
  set (es := L_endingSize l) in *.
  assert (Hh2 : 0 <= Conf.EndPointersHead conf * 2 ^ k) by (apply Z.mul_nonneg_nonneg; lia).
  assert (Ht2 : 0 <= Conf.EndPointersTail conf * 2 ^ k) by (apply Z.mul_nonneg_nonneg; lia).
  assert (Hbig : 512 * (iae + Conf.EndPointersTail conf * 2 ^ k) < 2 ^ 41) by lia.
  (* the header *)
  set (w0 := {| target := Conf.Output conf; pos := 0; method := Conf.FillMethod conf;
                consumed := 0 |}) in *.
  assert (Hm0 : validFill (method w0)) by exact Hf.
  assert (A0 : 0 <= pos w0) by (cbn; lia).
  assert (A1 : pos w0 + len hb < 2 ^ 63) by (cbn [pos w0]; lia).
  destruct (fs_Write_spec w0 hb A0 A1) as (X1 & P1 & D1 & S1).
  set (w1 := fs_Write w0 hb) in *. cbn [pos w0] in P1, D1, S1.
  assert (C1 : pos w1 <= fsize (target w1)) by lia.
  assert (B1 : file_bytes (target w1) 0 (len hb) = hb) by (apply file_bytes_nth; exact D1).
  (* the zeros up to the first end pointer *)
  rewrite (int64_small (eps * BlockSize)) in H by (unfold BlockSize; lia).
  rewrite (int64_small (eps * BlockSize - pos w1)) in H by (unfold BlockSize; lia).
  destruct (writeZeros w1 (eps * BlockSize - pos w1)) as [w2| |] eqn:E2;
    cbn [mbind Outcome_bind] in H; [|discriminate..].
  assert (A2 : 0 <= pos w1) by lia.
  assert (A2' : pos w1 + (eps * BlockSize - pos w1) < 2 ^ 63) by (unfold BlockSize; lia).
  destruct (writeZeros_spec _ _ _ E2 A2 A2') as (_ & X2 & P2 & _).
  assert (P2' : pos w2 = 512 * eps) by (unfold BlockSize in P2; lia).
  (* the end pointers at the start *)
  destruct (makeEndPointer (uint32 (L_sentinelEnd l)) (Conf.EndPointerChecksum conf))
    as [ep| |] eqn:Eep; cbn [mbind Outcome_bind] in H; [|discriminate..].
  pose proof (length_makeEndPointer _ _ _ Eep) as Hep.
  rewrite (int64_small (2 ^ k * BlockSize)) in H by (unfold BlockSize; lia).
  assert (H2k9 : 2 ^ (k + 9) = 2 ^ k * 512) by (symmetry; apply pow2_9; lia).
  replace (2 ^ k * BlockSize) with (2 ^ (k + 9)) in H by (unfold BlockSize; lia).
  assert (Hm2 : validFill (method w2)).
  { rewrite (extends_method _ _ _ X2 (extends_method _ _ _ X1 eq_refl)). exact Hm0. }
  assert (Hk9 : 0 <= k + 9 < 62) by lia.
  assert (Hep9 : 0 < len ep <= 2 ^ (k + 9)) by lia.
  assert (A3 : pos w2 mod 2 ^ (k + 9) = 0).
  { rewrite P2', H2k9. apply Z.mod_divide in L4; [|lia]. destruct L4 as [c Hc].
    fold eps in Hc. rewrite Hc. replace (512 * (c * 2 ^ k)) with (c * (2 ^ k * 512)) by lia.
    apply Z.mod_mul. lia. }
  assert (A3' : pos w2 + Z.of_nat (Z.to_nat (Conf.EndPointersHead conf)) * 2 ^ (k + 9)
                < 2 ^ 62) by (rewrite Z2Nat.id by lia; lia).
  destruct (writeRepeatedly_pow2_any randReader ep (k + 9) Hk9 Hep9 _ w2 Hm2 ltac:(lia) A3 A3')
    as (w3 & E3 & X3 & P3 & D3).
  rewrite E3 in H. cbn [mbind Outcome_bind] in H.
  rewrite Z2Nat.id in P3, D3 by lia.
  assert (P3' : pos w3 = 512 * ias) by lia.
  assert (Hm3 : validFill (method w3)).
  { rewrite (extends_method _ _ _ X3 eq_refl). exact Hm2. }
  (* the ending *)
  rewrite (int64_small (ias * BlockSize)) in H by (unfold BlockSize; lia).
  destruct (fs_Seek randReader w3 (ias * BlockSize) SeekStart) as [w4| |] eqn:E4;
    cbn [mbind Outcome_bind] in H; [|discriminate..].
  assert (A4 : 0 <= pos w3) by lia.
  assert (A4' : pos w3 <= ias * BlockSize < 2 ^ 63) by (unfold BlockSize; lia).
  destruct (fs_Seek_start_any randReader _ _ _ Hm3 E4 A4 A4') as (X4 & P4).
  assert (P4' : pos w4 = 512 * ias) by (unfold BlockSize in P4; lia).
  destruct (writeImageEnding randReader crypto w4 [ENoMoreImages Build_NoMoreImages]
              (Conf.EndingCipher conf) (Conf.PublicKeyRSA conf) es) as [w5| |] eqn:E5;
    cbn [mbind Outcome_bind] in H; [|discriminate..].
  assert (A5 : pos w4 + es * BlockSize < 2 ^ 63) by (unfold BlockSize; lia).
  destruct (writeImageEnding_spec randReader crypto _ _ _ _ _ _ E5 ltac:(lia) ltac:(lia) A5)
    as (X5 & P5 & D5 & S5).
  assert (P5' : pos w5 = 512 * (ias + es)) by (unfold BlockSize in P5; lia).
  assert (Hm5 : validFill (method w5)).
  { rewrite (extends_method _ _ _ X5 (extends_method _ _ _ X4 eq_refl)). exact Hm3. }
  (* the image area and the end pointers at the end *)
  rewrite (int64_small (iae * BlockSize)) in H by (unfold BlockSize; lia).
  destruct (fs_Seek randReader w5 (iae * BlockSize) SeekStart) as [w6| |] eqn:E6;
    cbn [mbind Outcome_bind] in H; [|discriminate..].
  assert (A6 : 0 <= pos w5) by lia.
  assert (A6' : pos w5 <= iae * BlockSize < 2 ^ 63) by (unfold BlockSize; lia).
  destruct (fs_Seek_start_any randReader _ _ _ Hm5 E6 A6 A6') as (X6 & P6).
  assert (P6' : pos w6 = 512 * iae) by (unfold BlockSize in P6; lia).
  assert (Hm6 : validFill (method w6)).
  { rewrite (extends_method _ _ _ X6 eq_refl). exact Hm5. }
  assert (A7 : pos w6 mod 2 ^ (k + 9) = 0).
  { rewrite P6', H2k9. apply Z.mod_divide in L8; [|lia]. destruct L8 as [c Hc].
    fold iae in Hc. rewrite Hc. replace (512 * (c * 2 ^ k)) with (c * (2 ^ k * 512)) by lia.
    apply Z.mod_mul. lia. }
  assert (A7' : pos w6 + Z.of_nat (Z.to_nat (Conf.EndPointersTail conf)) * 2 ^ (k + 9)
                < 2 ^ 62) by (rewrite Z2Nat.id by lia; lia).
  destruct (writeRepeatedly_pow2_any randReader ep (k + 9) Hk9 Hep9 _ w6 Hm6 ltac:(lia) A7 A7')
    as (w7 & E7 & X7 & P7 & D7).
  rewrite E7 in H. cbn [mbind Outcome_bind] in H.
  rewrite Z2Nat.id in P7, D7 by lia.
  assert (Hm7 : validFill (method w7)).
  { rewrite (extends_method _ _ _ X7 eq_refl). exact Hm6. }
  (* the rest of the disk *)
  destruct (fs_Seek randReader w7 (Conf.DiskSize conf) SeekStart) as [w8| |] eqn:E8;
    cbn [mbind Outcome_bind] in H; [|discriminate..].
  assert (A8 : 0 <= pos w7) by lia.
  assert (A8' : pos w7 <= Conf.DiskSize conf < 2 ^ 63) by lia.
  destruct (fs_Seek_start_any randReader _ _ _ Hm7 E8 A8 A8') as (X8 & P8).
  assert (f = target w8) as -> by congruence.
  pose proof X8 as Y7.
  pose proof (extends_trans _ _ _ X7 Y7) as Y6.
  pose proof (extends_trans _ _ _ X6 Y6) as Y5.
  pose proof (extends_trans _ _ _ X5 Y5) as Y4.
  pose proof (extends_trans _ _ _ X4 Y4) as Y3.
  pose proof (extends_trans _ _ _ X3 Y3) as Y2.
  pose proof (extends_trans _ _ _ X2 Y2) as Y1.
  exists l, key, hb, ep.
  split; [reflexivity|]. split; [exact Hl|]. split; [exact Hcase|].
  split; [apply writeMultipleEntries_header, L10|]. split; [exact Hhb|].
  split; [exact Eep|].
  split.
  { rewrite (extends_file_bytes w1 w8) by (try exact Y1; lia). exact B1. }
  split.
  { intros j Hj. pose proof (mul_bound j _ (2 ^ k) Hj ltac:(lia)) as Hjb.
    destruct (D3 j Hj) as [D3j S3j]. split.
    - rewrite (extends_file_bytes w3 w8) by (try exact Y3; lia).
      etransitivity; [|exact D3j]. rewrite Hep. f_equal. lia.
    - pose proof (extends_fsize _ _ Y3). lia. }
  split.
  { intros j Hj. pose proof (mul_bound j _ (2 ^ k) Hj ltac:(lia)) as Hjb.
    destruct (D7 j Hj) as [D7j S7j]. split.
    - rewrite (extends_file_bytes w7 w8) by (try exact Y7; lia).
      etransitivity; [|exact D7j]. rewrite Hep. f_equal. lia.
    - pose proof (extends_fsize _ _ Y7). lia. }
  split.
  { intros Hnull.
    assert (Hne : Conf.EndingCipher conf <> EndingCipherRSA) by (rewrite Hnull; discriminate).
    destruct (D5 Hne) as (data & Hdata & Hdl & Hdd).
    assert (Hx : writeMultipleEntries (map FStruct [ENoMoreImages Build_NoMoreImages])
                 = Ok (writeEntry (ENoMoreImages Build_NoMoreImages)))
      by (vm_compute; reflexivity).
    rewrite Hx in Hdata. injection Hdata as <-.
    assert (Hlen : len (writeEntry (ENoMoreImages Build_NoMoreImages)) = 20) by reflexivity.
    rewrite Hlen in Hdd.
    assert (Hes1 : es = 1) by (destruct Hcase as [(_ & _ & E)|(pk & E & _)]; [exact E|congruence]).
    split.
    - rewrite (extends_file_bytes w5 w8) by (try exact Y5; lia).
      replace (512 * L_imgAreaStart l) with (pos w4) by exact P4'.
      change 20 with (len (writeEntry (ENoMoreImages Build_NoMoreImages))).
      apply file_bytes_nth. rewrite Hlen. exact Hdd.
    - pose proof (extends_fsize _ _ Y5). specialize (S5 ltac:(lia)).
      unfold BlockSize in S5. fold ias. lia. }
  intros Hns. rewrite <- P8. apply (extends_covered w1 w8 Y1); [exact Hns|exact C1].
Qed.

End Written.

(** *** Reading a header that was written *)

Lemma writeEntry_CvtmMagic sum hs :
  length sum = 32%nat ->
  writeEntry (ECvtmMagic {| CvtmMagic_Checksum := sum; CvtmMagic_HeaderLength := hs |})
  = (IdCvtmMagic ++ PutUint32 56) ++ sum ++ PutUint32 hs.
Proof.
  intros Hs. unfold writeEntry.
  assert (Hb : bare (ECvtmMagic {| CvtmMagic_Checksum := sum; CvtmMagic_HeaderLength := hs |})
               = sum ++ PutUint32 hs).
  { rewrite bare_concat. cbn [fieldsOf map concat binaryWriteField CvtmMagic_Checksum
                              CvtmMagic_HeaderLength].
    rewrite app_nil_r. rewrite take_app_length' by (rewrite Hs; reflexivity). reflexivity. }
  rewrite Hb. cbn [typeOf TypeToID].
  assert (Hl : len (sum ++ PutUint32 hs) = 36).
  { rewrite len_app. unfold len, PutUint32. rewrite Hs, length_le_split. reflexivity. }
  rewrite Hl. change (uint32 (20 + uint32 36)) with 56.
  rewrite <- app_assoc. reflexivity.
Qed.

Lemma file_bytes_sub f n hb a m :
  file_bytes f 0 n = hb -> 0 <= a -> 0 <= m -> a + m <= n ->
  file_bytes f a m = take (Z.to_nat m) (drop (Z.to_nat a) hb).
Proof.
  intros H Ha Hm Hb. rewrite <- H. rewrite drop_file_bytes by lia.
  rewrite take_file_bytes by lia. reflexivity.
Qed.

Section ReadWritten.

Variable crypto : Crypto.

Lemma readArchiveHeader_of_written options result sum hs rest :
  length sum = 32%nat -> 56 <= hs <= 4096 -> len rest = hs - 56 ->
  sum = sha256.Sum256 ((IdCvtmMagic ++ PutUint32 56) ++ replicate 32 Byte.x00
                       ++ PutUint32 hs ++ rest) ->
  file_bytes (File_ options) 0 hs = (IdCvtmMagic ++ PutUint32 56) ++ sum ++ PutUint32 hs ++ rest ->
  hs <= fsize (File_ options) ->
  readArchiveHeader crypto options result
  = (fields ← parseEntries rest 56 (ArchiveHeaderRead_fields result);
     let result := ArchiveHeaderRead_set result fields in
     let result := if EndingSize_Size (R_EndingSize result) =? 0
                   then set_EndingSize result 1 else result in
     _ ← checkArchiveHeader crypto options result hs;
     Ok result).
Proof.
  intros Hs Hhs Hr Hsum Hfile Hsize.
  set (hb := (IdCvtmMagic ++ PutUint32 56) ++ sum ++ PutUint32 hs ++ rest) in *.
  assert (Hl20 : length (IdCvtmMagic ++ PutUint32 56) = 20%nat) by reflexivity.
  assert (Hl4 : length (PutUint32 hs) = 4%nat) by (unfold PutUint32; apply length_le_split).
  assert (H16 : file_bytes (File_ options) 0 16 = IdCvtmMagic).
  { rewrite (file_bytes_sub _ hs hb 0 16 Hfile) by lia. unfold hb.
    rewrite <- !app_assoc. rewrite drop_0. apply take_app_length'. reflexivity. }
  assert (H16_4 : file_bytes (File_ options) 16 4 = PutUint32 56).
  { rewrite (file_bytes_sub _ hs hb 16 4 Hfile) by lia. unfold hb.
    rewrite <- !app_assoc. rewrite drop_app_length' by reflexivity.
    apply take_app_length'. reflexivity. }
  assert (H52_4 : file_bytes (File_ options) 52 4 = PutUint32 hs).
  { rewrite (file_bytes_sub _ hs hb 52 4 Hfile) by lia. unfold hb.
    rewrite (app_assoc _ sum). rewrite drop_app_length' by (rewrite length_app, Hl20, Hs; reflexivity).
    apply take_app_length'. rewrite Hl4; reflexivity. }
  assert (U1 : Uint32 (file_bytes (File_ options) 16 4) = 56).
  { rewrite H16_4. rewrite <- (app_nil_r (PutUint32 56)). rewrite Uint32_PutUint32. reflexivity. }
  assert (U2 : Uint32 (file_bytes (File_ options) 52 4) = hs).
  { rewrite H52_4. rewrite <- (app_nil_r (PutUint32 hs)). rewrite Uint32_PutUint32.
    apply uint32_small. lia. }
  rewrite readArchiveHeader_unfold. cbv zeta. rewrite U1, U2, H16, Hfile.
  set (k := Z.min 4096 (Z.max 0 (fsize (File_ options)))).
  assert (Hk : hs <= k) by (unfold k; lia).
  destruct (Z.eqb_spec k 0); [lia|].
  destruct (Z.ltb_spec k 56); [lia|].
  rewrite bool_decide_true by reflexivity. cbn [negb].
  destruct (Z.ltb_spec 56 56); [lia|].
  destruct (Z.ltb_spec hs 56); [lia|].
  destruct (Z.gtb_spec hs maxHeaderSize); [unfold maxHeaderSize in *; lia|].
  assert (Hne : (negb (hs =? 56) && (k =? 56)) = false).
  { destruct (Z.eqb_spec hs 56); [reflexivity|]. destruct (Z.eqb_spec k 56); [lia|reflexivity]. }
  rewrite Hne. destruct (Z.ltb_spec k hs); [lia|].
  assert (Hz : zeroChecksum hb
               = (IdCvtmMagic ++ PutUint32 56) ++ replicate 32 Byte.x00 ++ PutUint32 hs ++ rest).
  { unfold zeroChecksum, hb. rewrite take_app_length' by reflexivity.
    rewrite (app_assoc _ sum). rewrite drop_app_length' by (rewrite length_app, Hl20, Hs; reflexivity).
    rewrite <- app_assoc. reflexivity. }
  assert (Hc : take 32 (drop 20 hb) = sum).
  { unfold hb. rewrite drop_app_length' by reflexivity. apply take_app_length'. rewrite Hs; reflexivity. }
  rewrite Hz, Hc, <- Hsum. rewrite bool_decide_true by reflexivity. cbn [negb].
  set (z := (IdCvtmMagic ++ PutUint32 56) ++ replicate 32 Byte.x00 ++ PutUint32 hs ++ rest).
  assert (Hlz : len z = hs).
  { assert (Hi : length IdCvtmMagic = 16%nat) by reflexivity.
    assert (Hp : length (PutUint32 56) = 4%nat) by reflexivity.
    unfold z, len in *. rewrite !length_app, length_replicate. lia. }
  rewrite sliceOf_ok by lia. cbn [mbind Outcome_bind].
  assert (Ht : take (Z.to_nat (len z - 56)) (drop (Z.to_nat 56) z) = rest).
  { rewrite Hlz. unfold z.
    rewrite (app_assoc _ (replicate 32 Byte.x00)), (app_assoc _ (PutUint32 hs)).
    rewrite drop_app_length'
      by (rewrite !length_app, length_replicate, Hl4; reflexivity).
    apply take_ge. unfold len in Hr. lia. }
  rewrite Ht. reflexivity.
Qed.

End ReadWritten.

(** *** The end pointers of a written archive *)

Lemma makeEndPointer_algo pointTo algo ep :
  makeEndPointer pointTo algo = Ok ep ->
  algo = EndPointerChecksumSHA256 \/ algo = EndPointerChecksumCRC32.
Proof.
  unfold makeEndPointer, computeEndPointerChecksum.
  destruct (_ <? 32); [discriminate|].
  destruct (Z.eqb_spec algo EndPointerChecksumSHA256); [left; assumption|].
  destruct (Z.eqb_spec algo EndPointerChecksumCRC32); [right; assumption|].
  discriminate.
Qed.

(** [findEnd] when every end pointer gives the same value. *)
Lemma findEnd_loop_same infile header v : forall loca acc,
  (forall e, e ∈ loca -> readEndPointer infile header (BlockSize * Blk e) = Ok v) ->
  acc <= v ->
  findEnd_loop infile header loca acc = Ok (match loca with [] => acc | _ => v end).
Proof.
  induction loca as [|e loca IH]; intros acc Hall Hacc; [reflexivity|].
  cbn [findEnd_loop]. rewrite (Hall e) by left. cbn [mbind Outcome_bind].
  rewrite IH.
  - f_equal. destruct loca; [|reflexivity].
    destruct (Z.gtb_spec v acc); [reflexivity|lia].
  - intros e' He'. apply Hall. right. exact He'.
  - destruct (Z.gtb_spec v acc); lia.
Qed.

(** The value stored in a block of the file that is an end pointer. *)
Lemma Uint32_stored f at_byte pointTo algo ep :
  makeEndPointer pointTo algo = Ok ep ->
  file_bytes f at_byte 512 = ep ->
  Uint32 (file_bytes f (at_byte + 32) 4) = uint32 pointTo.
Proof.
  intros Hm Hf. destruct (makeEndPointer_inv _ _ _ Hm) as (sum & Hl & Hep & _).
  assert (Hb : file_bytes f (at_byte + 32) 4 = take 4 (drop 32 ep)).
  { rewrite <- Hf. change 32%nat with (Z.to_nat 32). change 4%nat with (Z.to_nat 4).
    rewrite drop_file_bytes by lia. rewrite take_file_bytes by lia. reflexivity. }
  rewrite Hb, Hep. rewrite drop_app_length' by (symmetry; exact Hl).
  unfold Uint32. rewrite take_take. change (4 `min` 4)%nat with 4%nat.
  change (le_combine (take 4 ?l)) with (Uint32 l).
  rewrite Uint32_PutUint32. apply uint32_idem.
Qed.

Section WrittenEndPointers.

Variable randReader : Z -> byte.
Variable crypto : Crypto.

(** Every end pointer block that the header of a written archive lists is
    in the file and is the block made for the end of the sentinel. *)
Lemma written_end_pointers conf k f :
  sizedConf conf k ->
  (forall pk, Conf.EndingCipher conf = EndingCipherRSA ->
     Conf.PublicKeyRSA conf = Some pk ->
     len (x509.MarshalPKCS1PublicKey pk) < 2 ^ 31) ->
  WriteEmptyArchive randReader crypto conf = Ok f ->
  exists l ep,
    layout conf = Ok l
    /\ makeEndPointer (uint32 (L_sentinelEnd l)) (Conf.EndPointerChecksum conf) = Ok ep
    /\ L_sentinelEnd l = L_imgAreaStart l + L_endingSize l
    /\ 0 <= L_imgAreaStart l /\ 0 <= L_endingSize l
    /\ L_imgAreaStart l + L_endingSize l < 2 ^ 32
    /\ W_EndPointerLoca (L_header l) <> []
    /\ forall e, e ∈ W_EndPointerLoca (L_header l) ->
         0 <= Blk e
         /\ file_bytes f (512 * Blk e) 512 = ep
         /\ ReadAt f BlockSize (BlockSize * Blk e) = Ok ep.
Proof.
  intros Hconf Hkey Hw.
  pose proof Hconf as (Hf & Ha & Hk & Hh & Ht & Hht & HG & HI & Hcs & Hic & Hie & Hsz & Hd).
  pose proof (pow2_bounds k Hk) as Hp.
  destruct (WriteEmptyArchive_written randReader crypto conf k f Hconf Hkey Hw)
    as (l & key & hb & ep & El & Hl & Hcase & Hhb & Hlen & Hep & F1 & F2 & F3 & F4 & F5).
  destruct Hl as (L1 & L2 & L3 & L4 & L5 & L6 & L7 & L8 & L9 & L10 & L11 & L12 & L13 & L14
                  & L15 & _).
  assert (Hh2 : 0 <= Conf.EndPointersHead conf * 2 ^ k) by (apply Z.mul_nonneg_nonneg; lia).
  assert (Ht2 : 0 <= Conf.EndPointersTail conf * 2 ^ k) by (apply Z.mul_nonneg_nonneg; lia).
  exists l, ep. split; [exact El|]. split; [exact Hep|]. split; [exact L6|].
  split; [lia|]. split; [lia|]. split; [lia|]. split; [exact L14|].
  intros e He.
  assert (Hat : 0 <= Blk e /\ file_bytes f (512 * Blk e) 512 = ep
                /\ 512 * Blk e + 512 <= fsize f).
  { destruct (L15 e He) as [(j & Hj & Hb)|(j & Hj & Hb)];
      pose proof (mul_bound j _ (2 ^ k) Hj ltac:(lia)) as Hjb; rewrite Hb.
    - split; [lia|]. apply F2, Hj.
    - split; [lia|]. apply F3, Hj. }
  destruct Hat as (B0 & B1 & B2).
  split; [exact B0|]. split; [exact B1|].
  unfold ReadAt, BlockSize. destruct (Z.ltb_spec (512 * Blk e) 0); [lia|].
  destruct (Z.leb_spec (512 * Blk e + 512) (fsize f)); [|lia]. rewrite B1. reflexivity.
Qed.

(** C3, as amended.  Let [WriteEmptyArchive] write the archive [f], with
    [imgAreaStart] and [EndingSize] the values of its header.  Every end
    pointer block that the header lists is the block made by
    [makeEndPointer]; the 32-bit little-endian value it stores at bytes 32
    to 35 is [imgAreaStart + EndingSize], the number of the block at which
    the sentinel ending ends, not a byte offset; the reader multiplies the
    stored value by 512, so that every end pointer read, and [findEnd] over
    them all, gives the byte offset [(imgAreaStart + EndingSize) * 512]. *)
Theorem end_pointer_stores_block_number (conf : NewArchiveOptions) (k : Z) (f : File) :
  sizedConf conf k ->
  (forall pk, Conf.EndingCipher conf = EndingCipherRSA ->
     Conf.PublicKeyRSA conf = Some pk ->
     len (x509.MarshalPKCS1PublicKey pk) < 2 ^ 31) ->
  WriteEmptyArchive randReader crypto conf = Ok f ->
  exists l ep,
    layout conf = Ok l
    /\ ImageArea_Start (W_ImageArea (L_header l)) = L_imgAreaStart l
    /\ EndingSize_Size (W_EndingSize (L_header l)) = L_endingSize l
    /\ makeEndPointer (uint32 (L_sentinelEnd l)) (Conf.EndPointerChecksum conf) = Ok ep
    /\ W_EndPointerLoca (L_header l) <> []
    /\ (forall e, e ∈ W_EndPointerLoca (L_header l) ->
          file_bytes f (512 * Blk e) 512 = ep
          /\ Uint32 (file_bytes f (512 * Blk e + 32) 4)
             = L_imgAreaStart l + L_endingSize l
          /\ forall header,
               EndPointerChec_Algo (R_EndPointerChec header) = Conf.EndPointerChecksum conf ->
               readEndPointer f header (512 * Blk e)
               = Ok (512 * (L_imgAreaStart l + L_endingSize l)))
    /\ forall header,
         EndPointerChec_Algo (R_EndPointerChec header) = Conf.EndPointerChecksum conf ->
         R_EndPointerLoca header = W_EndPointerLoca (L_header l) ->
         findEnd f header = Ok (512 * (L_imgAreaStart l + L_endingSize l)).
Proof.
  intros Hconf Hkey Hw.
  destruct (written_end_pointers conf k f Hconf Hkey Hw)
    as (l & ep & El & Hep & Hse & Hi0 & He0 & Hlt & Hne & Hall).
  assert (Hv : uint32 (uint32 (L_sentinelEnd l)) = L_imgAreaStart l + L_endingSize l).
  { rewrite uint32_idem, Hse. apply uint32_small. lia. }
  assert (Hread : forall header e,
            EndPointerChec_Algo (R_EndPointerChec header) = Conf.EndPointerChecksum conf ->
            e ∈ W_EndPointerLoca (L_header l) ->
            readEndPointer f header (BlockSize * Blk e)
            = Ok (512 * (L_imgAreaStart l + L_endingSize l))).
  { intros header e Halgo He. destruct (Hall e He) as (_ & _ & Hra).
    rewrite <- Halgo in Hep.
    rewrite (readEndPointer_makeEndPointer f header _ _ ep Hep Hra), Hv. reflexivity. }
  destruct (layout_inv _ _ El) as (_ & _ & Hsize & Hstart & _).
  exists l, ep. split; [exact El|].
  split; [rewrite Hstart; apply uint32_small; lia|]. split; [exact Hsize|].
  split; [exact Hep|]. split; [exact Hne|]. split.
  - intros e He. destruct (Hall e He) as (Hb0 & Hfb & _).
    split; [exact Hfb|]. split.
    + rewrite (Uint32_stored f (512 * Blk e) _ _ ep Hep Hfb).
      exact Hv.
    + intros header Halgo. exact (Hread header e Halgo He).
  - intros header Halgo Hloca. unfold findEnd. rewrite Hloca.
    rewrite (findEnd_loop_same f header (512 * (L_imgAreaStart l + L_endingSize l)))
      by (try (intros e He; exact (Hread header e Halgo He)); lia).
    destruct (W_EndPointerLoca (L_header l)); [contradiction|reflexivity].
Qed.

End WrittenEndPointers.

(** [confNull] is within the ranges, with allocation units of [2^7]
    blocks. *)
Lemma sizedConf_confNull : sizedConf confNull 7.
Proof.
  unfold sizedConf, validFill.
  split; [left; reflexivity|]. split; [reflexivity|].
  cbn. unfold EndPointerChecksumSHA256, ImgCipherNull. change (len (@nil LogConf)) with 0.
  repeat split; try lia; constructor.
Qed.

Lemma end_pointer_stores_block_number_witness :
  sizedConf confNull 7
  /\ WriteEmptyArchive exampleRandom noCrypto confNull = Ok archiveNull
  /\ exists l ep,
       layout confNull = Ok l
       /\ ImageArea_Start (W_ImageArea (L_header l)) = L_imgAreaStart l
       /\ EndingSize_Size (W_EndingSize (L_header l)) = L_endingSize l
       /\ makeEndPointer (uint32 (L_sentinelEnd l)) (Conf.EndPointerChecksum confNull) = Ok ep
       /\ W_EndPointerLoca (L_header l) <> []
       /\ (forall e, e ∈ W_EndPointerLoca (L_header l) ->
             file_bytes archiveNull (512 * Blk e) 512 = ep
             /\ Uint32 (file_bytes archiveNull (512 * Blk e + 32) 4)
                = L_imgAreaStart l + L_endingSize l
             /\ forall header,
                  EndPointerChec_Algo (R_EndPointerChec header)
                  = Conf.EndPointerChecksum confNull ->
                  readEndPointer archiveNull header (512 * Blk e)
                  = Ok (512 * (L_imgAreaStart l + L_endingSize l)))
       /\ forall header,
            EndPointerChec_Algo (R_EndPointerChec header) = Conf.EndPointerChecksum confNull ->
            R_EndPointerLoca header = W_EndPointerLoca (L_header l) ->
            findEnd archiveNull header = Ok (512 * (L_imgAreaStart l + L_endingSize l)).
Proof.
  split; [exact sizedConf_confNull|]. split; [exact archiveNull_written|].
  apply (end_pointer_stores_block_number exampleRandom noCrypto confNull 7 archiveNull
           sizedConf_confNull).
  - intros pk E. discriminate E.
  - exact archiveNull_written.
Defined.

(** C3, as stated, fails on the archive of [confNull]: its image area
    starts at block 256 and its ending size is 1, and both end pointer
    blocks store 257, which is not (256 + 1) * 512. *)
Lemma end_pointer_value_is_not_a_byte_offset :
  holds (WriteEmptyArchive exampleRandom noCrypto confNull) (fun f =>
  holds (layout confNull) (fun l =>
    L_imgAreaStart l = 256 /\ L_endingSize l = 1
    /\ W_EndPointerLoca (L_header l) = [ {| Blk := 128 |}; {| Blk := 32640 |} ]
    /\ Uint32 (file_bytes f (128 * 512 + 32) 4) = 257
    /\ Uint32 (file_bytes f (32640 * 512 + 32) 4) = 257
    /\ Uint32 (file_bytes f (128 * 512 + 32) 4)
       <> (L_imgAreaStart l + L_endingSize l) * 512)).
Proof. vm_compute. repeat split. discriminate. Qed.

(** *** From an empty archive to its extraction *)

Lemma Ok_inj {A} (a b : A) : Ok a = Ok b -> a = b.
Proof. intros H. injection H. auto. Qed.

Lemma div_le_of_le_mul a b : 0 <= b -> a <= 512 * b -> (a + 511) / 512 <= b.
Proof.
  intros Hb H. assert ((a + 511) / 512 < b + 1); [|lia].
  apply Z.div_lt_upper_bound; lia.
Qed.

Section EndToEnd.

Variable randReader : Z -> byte.
Variable crypto : Crypto.

(** The reader on the header that the writer has laid out: it comes back
    as it was written, if [checkArchiveHeader] accepts it. *)
Lemma written_header_read conf k f priv l key hb :
  laidOut conf k key l ->
  writeMultipleEntries (ArchiveHeaderWrite_fields (L_header l)) = Ok hb ->
  len hb = headerSizeOf conf key ->
  file_bytes f 0 (len hb) = hb ->
  headerSizeOf conf key <= fsize f ->
  56 <= headerSizeOf conf key <= 4096 ->
  L_endingSize l <> 0 ->
  readArchiveHeader crypto (optionsFor f priv) ArchiveHeaderRead_zero
  = (_ ← checkArchiveHeader crypto (optionsFor f priv) (readOf (L_header l))
           (headerSizeOf conf key);
     Ok (readOf (L_header l))).
Proof.
  intros Hl Hhb Hlen F1 Hfs Hhs Hes.
  destruct Hl as (L1 & L2 & L3 & L4 & L5 & L6 & L7 & L8 & L9 & L10 & L11 & L12 & L13 & L14
                  & L15 & L16 & L17 & L18 & L19).
  set (h := L_header l) in *.
  set (hs := headerSizeOf conf key) in *.
  set (rest := concat (map writeEntry (headerEntries h))) in *.
  set (sum := CvtmMagic_Checksum (W_CvtmMagic h)).
  assert (Hsum32 : length sum = 32%nat).
  { unfold sum. rewrite L12. cbn [CvtmMagic_Checksum]. apply length_Sum256. }
  assert (Hmagic : W_CvtmMagic h = {| CvtmMagic_Checksum := sum; CvtmMagic_HeaderLength := hs |}).
  { unfold sum. rewrite L12. reflexivity. }
  assert (Hhbeq : hb = (IdCvtmMagic ++ PutUint32 56) ++ sum ++ PutUint32 hs ++ rest).
  { rewrite (writeMultipleEntries_header h L10) in Hhb. apply Ok_inj in Hhb.
    rewrite <- Hhb. rewrite Hmagic. rewrite writeEntry_CvtmMagic by exact Hsum32.
    rewrite <- !app_assoc. reflexivity. }
  assert (Hsumeq : sum = sha256.Sum256 ((IdCvtmMagic ++ PutUint32 56) ++ replicate 32 Byte.x00
                                        ++ PutUint32 hs ++ rest)).
  { unfold sum. rewrite L12. cbn [CvtmMagic_Checksum].
    rewrite writeEntry_CvtmMagic by apply length_replicate.
    rewrite <- !app_assoc. reflexivity. }
  assert (Hrest : len rest = hs - 56) by exact L13.
  destruct (header_parse h L10 L11) as (bs & fs & Hbs & Hparse & Hset).
  assert (Hdrop : drop 56 bs = rest).
  { rewrite (writeMultipleEntries_header h L10) in Hbs. apply Ok_inj in Hbs.
    rewrite <- Hbs. apply drop_app_length'.
    pose proof (len_writeEntry_CvtmMagic (W_CvtmMagic h)) as E.
    unfold len in E. lia. }
  rewrite Hdrop in Hparse.
  assert (Hfile : file_bytes (File_ (optionsFor f priv)) 0 hs
                  = (IdCvtmMagic ++ PutUint32 56) ++ sum ++ PutUint32 hs ++ rest).
  { cbn [File_ optionsFor]. rewrite <- Hhbeq, <- Hlen. exact F1. }
  rewrite (readArchiveHeader_of_written crypto (optionsFor f priv) ArchiveHeaderRead_zero
             sum hs rest Hsum32 Hhs Hrest Hsumeq Hfile Hfs).
  rewrite Hparse. cbn [mbind Outcome_bind]. cbv zeta. rewrite Hset.
  assert (Hsz : EndingSize_Size (R_EndingSize (readOf h)) = L_endingSize l).
  { cbn [readOf R_EndingSize]. rewrite L18. reflexivity. }
  rewrite Hsz. destruct (Z.eqb_spec (L_endingSize l) 0); [contradiction|]. reflexivity.
Qed.

(** An empty archive written with the null ending cipher, and read back. *)
Lemma extract_empty_null conf k f priv :
  Conf.EndingCipher conf = EndingCipherNull ->
  sizedConf conf k ->
  WriteEmptyArchive randReader crypto conf = Ok f ->
  exists l header,
    layout conf = Ok l
    /\ readArchiveHeader crypto (optionsFor f priv) ArchiveHeaderRead_zero = Ok header
    /\ ImageArea_Start (R_ImageArea header) = L_imgAreaStart l
    /\ EndingSize_Size (R_EndingSize header) = 1
    /\ L_endingSize l = 1
    /\ findEnd f header = Ok (512 * (L_imgAreaStart l + 1))
    /\ readEnding crypto (512 * (L_imgAreaStart l + 1)) EndingRead_zero (optionsFor f priv)
         header = Err errNoMoreImages
    /\ ExtractArchive crypto (optionsFor f priv) = Ok [].
Proof.
  intros Hnull Hconf Hw.
  pose proof Hconf as (Hf & Ha & Hk & Hh & Ht & Hht & HG & HI & Hcs & Hic & Hie & Hsz & Hd).
  pose proof (pow2_bounds k Hk) as Hp.
  assert (Hkey : forall pk, Conf.EndingCipher conf = EndingCipherRSA ->
            Conf.PublicKeyRSA conf = Some pk ->
            len (x509.MarshalPKCS1PublicKey pk) < 2 ^ 31).
  { intros pk E. rewrite Hnull in E. discriminate. }
  destruct (WriteEmptyArchive_written randReader crypto conf k f Hconf Hkey Hw)
    as (l & key & hb & ep & El & Hl & Hcase & Hhb & Hlen & Hep & F1 & F2 & F3 & F4 & F5).
  assert (key = [] /\ L_endingSize l = 1) as [-> Hes].
  { destruct Hcase as [(_ & E1 & E2)|(pk & E & _)]; [done|]. rewrite Hnull in E. discriminate. }
  pose proof Hl as Hl0.
  destruct Hl as (L1 & L2 & L3 & L4 & L5 & L6 & L7 & L8 & L9 & L10 & L11 & L12 & L13 & L14
                  & L15 & L16 & L17 & L18 & L19).
  set (h := L_header l) in *.
  set (hs := headerSizeOf conf []) in *.
  assert (Hhs : 181 <= hs <= 4096).
  { unfold hs, headerSizeOf. change (len (@nil byte)) with 0.
    pose proof (len_nonneg (Conf.GlobalLogs conf)). pose proof (len_nonneg (Conf.ImgLogs conf)).
    lia. }
  set (eps := L_endPointerStart l) in *.
  set (ias := L_imgAreaStart l) in *.
  set (iae := L_imgAreaEnd l) in *.
  assert (Hh2 : 0 <= Conf.EndPointersHead conf * 2 ^ k) by (apply Z.mul_nonneg_nonneg; lia).
  assert (Ht2 : 0 <= Conf.EndPointersTail conf * 2 ^ k) by (apply Z.mul_nonneg_nonneg; lia).
  rewrite Hes in *.
  destruct (F4 Hnull) as [F4a F4b]. fold ias in F4a, F4b.
  assert (Hfs : hs <= fsize f) by lia.
  assert (Hsz1 : EndingSize_Size (R_EndingSize (readOf h)) = 1).
  { cbn [readOf R_EndingSize]. rewrite L18. reflexivity. }
  assert (Halgo : EndPointerChec_Algo (R_EndPointerChec (readOf h))
                  = Conf.EndPointerChecksum conf).
  { cbn [readOf R_EndPointerChec]. rewrite L16. reflexivity. }
  assert (Hcipher : EndingCipher_Algo (R_EndingCipher (readOf h)) = EndingCipherNull).
  { cbn [readOf R_EndingCipher]. rewrite L17. exact Hnull. }
  assert (Harea : R_ImageArea (readOf h) = {| ImageArea_Start := ias; ImageArea_End := iae |}).
  { cbn [readOf R_ImageArea]. exact L19. }
  assert (Hcheck : checkArchiveHeader crypto (optionsFor f priv) (readOf h) hs = Ok tt).
  { apply checkArchiveHeader_accepts_iff.
    rewrite Hsz1, Hcipher, Halgo.
    split; [unfold maxEndingSize; lia|]. split; [left; reflexivity|].
    split.
    { destruct (makeEndPointer_algo _ _ _ Hep) as [-> | ->];
        unfold EndPointerChecksumSHA256, EndPointerChecksumCRC32; lia. }
    split; [exact L14|].
    apply Forall_forall. intros e He. unfold endPointerPlaced. rewrite Harea.
    cbn [ImageArea_Start ImageArea_End].
    rewrite (uint32_small (hs + (BlockSize - 1))) by (unfold BlockSize; lia).
    pose proof (div_le_of_le_mul hs eps L2 L3) as Hblk.
    change (hs + (BlockSize - 1)) with (hs + 511). change BlockSize with 512.
    destruct (L15 e He) as [(j & Hj & Hb)|(j & Hj & Hb)];
      pose proof (mul_bound j _ (2 ^ k) Hj ltac:(lia)) as Hjb.
    - destruct (Z.geb_spec (Blk e) ((hs + 511) / 512)); [|lia].
      destruct (Z.ltb_spec (Blk e) ias); [reflexivity|lia].
    - destruct (Z.geb_spec (Blk e) iae); [apply orb_true_r|lia]. }
  assert (Hhdr : readArchiveHeader crypto (optionsFor f priv) ArchiveHeaderRead_zero
                 = Ok (readOf h)).
  { rewrite (written_header_read conf k f priv l [] hb Hl0 Hhb Hlen F1 Hfs ltac:(lia)
               ltac:(lia)).
    fold h hs. rewrite Hcheck. reflexivity. }
  (* the end pointers *)
  set (se := 512 * (ias + 1)).
  assert (Hread : forall e, e ∈ R_EndPointerLoca (readOf h) ->
            readEndPointer f (readOf h) (BlockSize * Blk e) = Ok se).
  { intros e He.
    assert (Hat : 0 <= Blk e /\ 512 * Blk e + 512 <= fsize f
                  /\ file_bytes f (512 * Blk e) 512 = ep).
    { destruct (L15 e He) as [(j & Hj & Hb)|(j & Hj & Hb)];
        pose proof (mul_bound j _ (2 ^ k) Hj ltac:(lia)) as Hjb; rewrite Hb.
      - destruct (F2 j Hj) as [Fa Fb]. split; [lia|]. split; [exact Fb|exact Fa].
      - destruct (F3 j Hj) as [Fa Fb]. split; [lia|]. split; [exact Fb|exact Fa]. }
    destruct Hat as (B0 & B1 & B2).
    assert (Hra : ReadAt f BlockSize (BlockSize * Blk e) = Ok ep).
    { unfold ReadAt, BlockSize. destruct (Z.ltb_spec (512 * Blk e) 0); [lia|].
      destruct (Z.leb_spec (512 * Blk e + 512) (fsize f)); [|lia]. rewrite B2. reflexivity. }
    rewrite <- Halgo in Hep.
    rewrite (readEndPointer_makeEndPointer f (readOf h) _ _ ep Hep Hra).
    f_equal. rewrite uint32_idem. rewrite L6. unfold se, BlockSize.
    rewrite uint32_small by lia. reflexivity. }
  assert (Hfind : findEnd f (readOf h) = Ok se).
  { unfold findEnd. rewrite (findEnd_loop_same _ _ se) by (try exact Hread; unfold se; lia).
    assert (Hne : R_EndPointerLoca (readOf h) <> []) by exact L14.
    destruct (R_EndPointerLoca (readOf h)); [contradiction|reflexivity]. }
  (* the sentinel *)
  assert (Hend : readEnding crypto se EndingRead_zero (optionsFor f priv) (readOf h)
                 = Err errNoMoreImages).
  { apply readEnding_NoMoreImages; [exact Hcipher|rewrite Hsz1; lia| |].
    - rewrite Hsz1. cbn [File_ optionsFor]. unfold BlockSize, se. lia.
    - rewrite Hsz1. cbn [File_ optionsFor]. unfold BlockSize, se.
      replace (512 * (ias + 1) - 512 * 1) with (512 * ias) by lia.
      rewrite <- (take_file_bytes f (512 * ias) 20 16) by lia. rewrite F4a. reflexivity. }
  exists l, (readOf h). split; [exact El|]. split; [exact Hhdr|].
  split; [rewrite Harea; reflexivity|]. split; [exact Hsz1|]. split; [exact Hes|].
  split; [exact Hfind|]. split; [exact Hend|].
  (* the walk *)
  unfold ExtractArchive. rewrite Hhdr. cbn [mbind Outcome_bind File_ optionsFor].
  rewrite Hfind. cbn [mbind Outcome_bind].
  destruct (Z.eqb_spec se 0); [unfold se in *; lia|].
  replace (Z.to_nat (se / BlockSize) + 2)%nat with (S (Z.to_nat (se / BlockSize) + 1)) by lia.
  cbn [walk]. unfold walkGuard. rewrite Harea. cbn [ImageArea_Start].
  destruct (Z.leb_spec se ias); [unfold se in *; lia|].
  destruct (Z.eqb_spec se ias); [unfold se in *; lia|].
  rewrite Hend. reflexivity.
Qed.

(** A header whose ending size is above [maxEndingSize] is rejected, and
    that is the first error listed. *)
Lemma checkArchiveHeader_too_big options header hs :
  maxEndingSize < EndingSize_Size (R_EndingSize header) ->
  exists rest,
    checkArchiveHeader crypto options header hs
    = Err (errorList (errEndingTooBig (EndingSize_Size (R_EndingSize header)) :: rest)).
Proof.
  intros Hbig. unfold checkArchiveHeader, checkArchiveHeader_errs. cbv zeta.
  destruct (Z.gtb_spec (EndingSize_Size (R_EndingSize header)) maxEndingSize) as [_|]; [|lia].
  destruct (EndingCipher_Algo (R_EndingCipher header) =? EndingCipherNull);
    [|destruct (EndingCipher_Algo (R_EndingCipher header) =? EndingCipherRSA);
      [destruct (ParsePKCS1PublicKey crypto _); [destruct (PrivateKey options)|]|]];
    destruct (EndPointerChec_Algo (R_EndPointerChec header) >? 2);
    destruct (len (R_EndPointerLoca header) =? 0);
    cbn [app];
    (match goal with
     | |- context [len ?l =? 0] => destruct (Z.eqb_spec (len l) 0) as [E|E]
     end;
     [exfalso; unfold len in E; cbn [length] in E; lia|eexists; reflexivity]).
Qed.

(** An empty archive written with the RSA ending cipher, and read back:
    the ending size in the header is 512 blocks, and the reader rejects
    the header. *)
Lemma extract_empty_rsa conf k f priv pk :
  Conf.EndingCipher conf = EndingCipherRSA ->
  Conf.PublicKeyRSA conf = Some pk ->
  0 < rsa.Size pk <= 512 ->
  headerSizeOf conf (x509.MarshalPKCS1PublicKey pk) <= 4096 ->
  sizedConf conf k ->
  WriteEmptyArchive randReader crypto conf = Ok f ->
  exists l rest,
    layout conf = Ok l
    /\ L_endingSize l = 512
    /\ EndingSize_Size (W_EndingSize (L_header l)) = 512
    /\ readArchiveHeader crypto (optionsFor f priv) ArchiveHeaderRead_zero
       = Err (errorList (errEndingTooBig 512 :: rest))
    /\ ExtractArchive crypto (optionsFor f priv)
       = Err (errorList (errEndingTooBig 512 :: rest)).
Proof.
  intros Hrsa Hpk Hsize Hhs4096 Hconf Hw.
  pose proof Hconf as (Hf & Ha & Hk & Hh & Ht & Hht & HG & HI & Hcs & Hic & Hie & Hsz & Hd).
  pose proof (pow2_bounds k Hk) as Hp.
  pose proof (len_nonneg (Conf.GlobalLogs conf)) as HnG.
  pose proof (len_nonneg (Conf.ImgLogs conf)) as HnI.
  assert (Hkey : forall pk', Conf.EndingCipher conf = EndingCipherRSA ->
            Conf.PublicKeyRSA conf = Some pk' ->
            len (x509.MarshalPKCS1PublicKey pk') < 2 ^ 31).
  { intros pk' _ E. rewrite Hpk in E. injection E as <-.
    unfold headerSizeOf in Hhs4096. lia. }
  destruct (WriteEmptyArchive_written randReader crypto conf k f Hconf Hkey Hw)
    as (l & key & hb & ep & El & Hl & Hcase & Hhb & Hlen & Hep & F1 & F2 & F3 & F4 & F5).
  assert (key = x509.MarshalPKCS1PublicKey pk /\ L_endingSize l = 512) as [-> Hes].
  { destruct Hcase as [(E & _)|(pk' & _ & E & E1 & E2)]; [rewrite Hrsa in E; discriminate|].
    rewrite Hpk in E. injection E as <-. split; [exact E1|].
    rewrite E2. apply endingSize_rsa, Hsize. }
  pose proof Hl as (L1 & L2 & L3 & L4 & L5 & L6 & L7 & L8 & L9 & L10 & L11 & L12 & L13 & L14
                    & L15 & L16 & L17 & L18 & L19).
  assert (Hh2 : 0 <= Conf.EndPointersHead conf * 2 ^ k) by (apply Z.mul_nonneg_nonneg; lia).
  pose proof (len_nonneg (x509.MarshalPKCS1PublicKey pk)) as HnK.
  set (hs := headerSizeOf conf (x509.MarshalPKCS1PublicKey pk)) in *.
  assert (Hhs : 56 <= hs <= 4096) by (unfold hs, headerSizeOf in *; lia).
  assert (Hfs : hs <= fsize f).
  { destruct (Z.lt_ge_cases 0 (Conf.EndPointersHead conf)) as [Hh1|Hh0].
    - destruct (F2 0 ltac:(lia)) as [_ S]. lia.
    - destruct (F3 0 ltac:(lia)) as [_ S]. lia. }
  assert (Hsz512 : EndingSize_Size (R_EndingSize (readOf (L_header l))) = 512).
  { cbn [readOf R_EndingSize]. rewrite L18. exact Hes. }
  destruct (checkArchiveHeader_too_big (optionsFor f priv) (readOf (L_header l)) hs)
    as [rest Hrest].
  { rewrite Hsz512. unfold maxEndingSize. lia. }
  rewrite Hsz512 in Hrest.
  assert (Hhdr : readArchiveHeader crypto (optionsFor f priv) ArchiveHeaderRead_zero
                 = Err (errorList (errEndingTooBig 512 :: rest))).
  { rewrite (written_header_read conf k f priv l _ hb Hl Hhb Hlen F1 Hfs Hhs ltac:(lia)).
    fold hs. rewrite Hrest. reflexivity. }
  exists l, rest. split; [exact El|]. split; [exact Hes|].
  split; [rewrite L18; exact Hes|]. split; [exact Hhdr|].
  unfold ExtractArchive. rewrite Hhdr. reflexivity.
Qed.

(** X23. An empty archive written with the null ending cipher, whatever the
    fill method, is read back in full: the reader accepts the header, whose
    image area starts where the writer put it and whose ending size is 1;
    [findEnd] gives the end of the sentinel, one block past the start of the
    image area; the ending read there is the sentinel; and [ExtractArchive]
    returns no image. *)
Theorem empty_null_archive_extracts_to_nothing (conf : NewArchiveOptions) (k : Z)
    (f : File) (priv : option rsa.PrivateKey) :
  Conf.EndingCipher conf = EndingCipherNull ->
  sizedConf conf k ->
  WriteEmptyArchive randReader crypto conf = Ok f ->
  exists l header,
    layout conf = Ok l
    /\ readArchiveHeader crypto (optionsFor f priv) ArchiveHeaderRead_zero = Ok header
    /\ ImageArea_Start (R_ImageArea header) = L_imgAreaStart l
    /\ EndingSize_Size (R_EndingSize header) = 1
    /\ L_endingSize l = 1
    /\ findEnd f header = Ok (512 * (L_imgAreaStart l + 1))
    /\ readEnding crypto (512 * (L_imgAreaStart l + 1)) EndingRead_zero (optionsFor f priv)
         header = Err errNoMoreImages
    /\ ExtractArchive crypto (optionsFor f priv) = Ok [].
Proof. exact (extract_empty_null conf k f priv). Qed.

(** X24. What [WriteEmptyArchive] leaves in the file: the header, as
    [writeMultipleEntries] gives it for the header laid out, at offset 0;
    with the null ending cipher, the NO-MORE-IMAGES entry at the start of
    the image area, inside the file; and, unless the fill method is seek, a
    file of at least the size asked for. *)
Theorem WriteEmptyArchive_contents (conf : NewArchiveOptions) (k : Z) (f : File) :
  sizedConf conf k ->
  (forall pk, Conf.EndingCipher conf = EndingCipherRSA ->
     Conf.PublicKeyRSA conf = Some pk ->
     len (x509.MarshalPKCS1PublicKey pk) < 2 ^ 31) ->
  WriteEmptyArchive randReader crypto conf = Ok f ->
  exists l hb,
    layout conf = Ok l
    /\ writeMultipleEntries (ArchiveHeaderWrite_fields (L_header l)) = Ok hb
    /\ file_bytes f 0 (len hb) = hb
    /\ len hb <= 512 * L_endPointerStart l
    /\ L_endPointerStart l <= L_imgAreaStart l
    /\ (Conf.EndingCipher conf = EndingCipherNull ->
        file_bytes f (512 * L_imgAreaStart l) 20
        = writeEntry (ENoMoreImages Build_NoMoreImages)
        /\ 512 * L_imgAreaStart l + 512 <= fsize f)
    /\ (Conf.FillMethod conf <> FillSeek -> Conf.DiskSize conf <= fsize f).
Proof.
  intros Hconf Hkey Hw.
  pose proof Hconf as (Hf & Ha & Hk & Hh & Ht & _).
  pose proof (pow2_bounds k Hk) as Hp.
  destruct (WriteEmptyArchive_written randReader crypto conf k f Hconf Hkey Hw)
    as (l & key & hb & ep & El & Hl & Hcase & Hhb & Hlen & Hep & F1 & F2 & F3 & F4 & F5).
  destruct Hl as (L1 & L2 & L3 & L4 & L5 & _).
  assert (Hh2 : 0 <= Conf.EndPointersHead conf * 2 ^ k) by (apply Z.mul_nonneg_nonneg; lia).
  exists l, hb. split; [exact El|]. split; [exact Hhb|]. split; [exact F1|].
  split; [lia|]. split; [lia|]. split; [exact F4|exact F5].
Qed.

End EndToEnd.

Lemma sizedConf_confRSA : sizedConf confRSA 3.
Proof.
  unfold sizedConf, validFill.
  split; [left; reflexivity|]. split; [reflexivity|].
  cbn. unfold EndPointerChecksumSHA256, ImgCipherNull. change (len (@nil LogConf)) with 0.
  repeat split; try lia; constructor.
Qed.

Lemma empty_null_archive_extracts_to_nothing_witness :
  Conf.EndingCipher confNull = EndingCipherNull
  /\ sizedConf confNull 7
  /\ WriteEmptyArchive exampleRandom noCrypto confNull = Ok archiveNull
  /\ exists l header,
       layout confNull = Ok l
       /\ readArchiveHeader noCrypto (optionsFor archiveNull None) ArchiveHeaderRead_zero
          = Ok header
       /\ ImageArea_Start (R_ImageArea header) = L_imgAreaStart l
       /\ EndingSize_Size (R_EndingSize header) = 1
       /\ L_endingSize l = 1
       /\ findEnd archiveNull header = Ok (512 * (L_imgAreaStart l + 1))
       /\ readEnding noCrypto (512 * (L_imgAreaStart l + 1)) EndingRead_zero
            (optionsFor archiveNull None) header = Err errNoMoreImages
       /\ ExtractArchive noCrypto (optionsFor archiveNull None) = Ok [].
Proof.
  split; [reflexivity|]. split; [exact sizedConf_confNull|].
  split; [exact archiveNull_written|].
  exact (empty_null_archive_extracts_to_nothing exampleRandom noCrypto confNull 7 archiveNull
           None eq_refl sizedConf_confNull archiveNull_written).
Defined.

Lemma WriteEmptyArchive_contents_witness :
  sizedConf confNull 7
  /\ WriteEmptyArchive exampleRandom noCrypto confNull = Ok archiveNull
  /\ exists l hb,
       layout confNull = Ok l
       /\ writeMultipleEntries (ArchiveHeaderWrite_fields (L_header l)) = Ok hb
       /\ file_bytes archiveNull 0 (len hb) = hb
       /\ len hb <= 512 * L_endPointerStart l
       /\ L_endPointerStart l <= L_imgAreaStart l
       /\ (Conf.EndingCipher confNull = EndingCipherNull ->
           file_bytes archiveNull (512 * L_imgAreaStart l) 20
           = writeEntry (ENoMoreImages Build_NoMoreImages)
           /\ 512 * L_imgAreaStart l + 512 <= fsize archiveNull)
       /\ (Conf.FillMethod confNull <> FillSeek -> Conf.DiskSize confNull <= fsize archiveNull).
Proof.
  split; [exact sizedConf_confNull|]. split; [exact archiveNull_written|].
  apply (WriteEmptyArchive_contents exampleRandom noCrypto confNull 7 archiveNull
           sizedConf_confNull).
  - intros pk E. discriminate E.
  - exact archiveNull_written.
Defined.

(** C2 (the code departs from the claim).  The archive that
    [WriteEmptyArchive] writes for [confRSA], a configuration with the RSA
    ending cipher and a key of 2048 bits, is not extracted: its header
    carries an ending size of 512 blocks, the reader rejects the header
    with the ending too big error before any end pointer is read, and
    [ExtractArchive] returns that error instead of no image.  This holds
    whatever the random source and the crypto library; with a crypto
    library whose ciphertexts have the length of the modulus the archive
    is written and the error list is that one error. *)
Theorem empty_rsa_archive_is_rejected :
  (forall randReader crypto f priv,
     WriteEmptyArchive randReader crypto confRSA = Ok f ->
     exists l rest,
       layout confRSA = Ok l
       /\ L_endingSize l = 512
       /\ EndingSize_Size (W_EndingSize (L_header l)) = 512
       /\ readArchiveHeader crypto (optionsFor f priv) ArchiveHeaderRead_zero
          = Err (errorList (errEndingTooBig 512 :: rest))
       /\ ExtractArchive crypto (optionsFor f priv)
          = Err (errorList (errEndingTooBig 512 :: rest)))
  /\ holds (WriteEmptyArchive exampleRandom sizedCrypto confRSA) (fun f =>
       ExtractArchive sizedCrypto (optionsFor f None)
       = Err (errorList [errEndingTooBig 512])).
Proof.
  split.
  - intros randReader crypto f priv Hw.
    apply (extract_empty_rsa randReader crypto confRSA 3 f priv key2048);
      [reflexivity|reflexivity|vm_compute; split; [reflexivity|discriminate]
      |vm_compute; discriminate|exact sizedConf_confRSA|exact Hw].
  - vm_compute. reflexivity.
Qed.

(** *** The image that [extractImage] writes *)

(** The fields of a header that starts a file. *)
Lemma qcow3Header_fields f h :
  file_bytes f 0 104 = qcow3Header_bytes h ->
  file_bytes f 20 4 = be_split 4 (ClusterBits h)
  /\ file_bytes f 36 4 = be_split 4 (L1Size h)
  /\ file_bytes f 40 8 = be_split 8 (L1TableOffset h)
  /\ file_bytes f 48 8 = be_split 8 (RefcountTableOffset h)
  /\ file_bytes f 56 4 = be_split 4 (RefcountTableClusters h).
Proof.
  intros H.
  assert (Hf : forall a n, 0 <= a -> 0 <= n -> a + n <= 104 ->
            file_bytes f a n = take (Z.to_nat n) (drop (Z.to_nat a) (qcow3Header_bytes h))).
  { intros a n Ha Hn Han. rewrite <- H, drop_file_bytes, take_file_bytes by lia.
    reflexivity. }
  repeat split; rewrite Hf by lia; reflexivity.
Qed.

(** The rounded-up quotient, the way the code computes it. *)
Lemma neg_shiftr_neg_ceil n k :
  0 <= k -> - Z.shiftr (- n) k = (n + 2 ^ k - 1) / 2 ^ k.
Proof.
  intros Hk. rewrite Z.shiftr_div_pow2 by lia.
  assert (Hp : 0 < 2 ^ k) by (apply Z.pow_pos_nonneg; lia).
  pose proof (Z.div_mod (- n) (2 ^ k) ltac:(lia)) as Hd.
  pose proof (Z.mod_pos_bound (- n) (2 ^ k) Hp) as Hm.
  apply Z.div_unique with (r := 2 ^ k - 1 - (- n) mod 2 ^ k); [lia|]. nia.
Qed.

(** With at most [2^31] data clusters the length of [l1Data] is the number
    of entries of the top-level index. *)
Lemma G_l1Len_topLevel end_ ending :
  0 <= ClusterSizeExp (ER_Ending ending) <= 21 ->
  0 <= DataClusterCount (ER_Ending ending) <= 2 ^ 31 ->
  G_l1Len (geometry end_ ending) = topLevelEntries (ER_Ending ending)
  /\ 0 <= topLevelEntries (ER_Ending ending) < 2 ^ 31.
Proof.
  intros Hcse Hd. unfold topLevelEntries. cbv zeta.
  set (D := DataClusterCount (ER_Ending ending)) in *.
  set (cse := ClusterSizeExp (ER_Ending ending)) in *.
  assert (Hq : 2 ^ (9 + cse) / 4 = 2 ^ (7 + cse)).
  { replace (9 + cse) with (7 + cse + 2) by lia. rewrite Z.pow_add_r by lia.
    change (2 ^ 2) with 4. apply Z.div_mul. lia. }
  rewrite Hq.
  assert (Hp : 2 ^ 7 <= 2 ^ (7 + cse)) by (apply Z.pow_le_mono_r; lia).
  assert (Hneg : int32 (uint32 (- D)) = - D).
  { unfold int32, uint32. change (2 ^ 32) with 4294967296 in *.
    change (2 ^ 31) with 2147483648 in *. Z.div_mod_to_equations. lia. }
  assert (Hc : 0 <= (D + 2 ^ (7 + cse) - 1) / 2 ^ (7 + cse) < 2 ^ 31).
  { split.
    - apply Z.div_pos; lia.
    - apply Z.div_lt_upper_bound; [lia|]. change (2 ^ 7) with 128 in Hp.
      change (2 ^ 31) with 2147483648 in *. nia. }
  split; [|exact Hc].
  cbn [G_l1Len geometry]. fold D cse.
  rewrite (uint8_small (9 + cse)) by lia.
  replace (9 + cse - 2) with (7 + cse) by lia.
  rewrite (uint8_small (7 + cse)) by lia.
  rewrite Hneg, neg_shiftr_neg_ceil by lia.
  apply int32_small. lia.
Qed.

(** What a synthesized image holds: the header in its first 104 bytes, the
    L1 table, made from the indices read, one cluster into the file, and
    L1 entries that are zero or have bit 63 set and, with that bit masked,
    point behind the clusters of the L1 table and into the file. *)
Lemma extractImage_image (options : ExtractOptions) (index end_ : Z)
    (header : ArchiveHeaderRead) (ending : EndingRead) (dest : File) :
  0 <= ClusterSizeExp (ER_Ending ending) <= 21 ->
  Raw options = false ->
  extractImage options index end_ header ending = Ok dest ->
  0 <= G_l1Len (geometry end_ ending)
  /\ file_bytes dest 0 104 = qcow3Header_bytes (qcowHeader (geometry end_ ending) ending)
  /\ (exists l1Data r,
        readIndices (G_allocatedClusters (geometry end_ ending))
          (bufio_NewReader (File_ options) (G_start (geometry end_ ending)))
          (Z.to_nat (G_l1Len (geometry end_ ending))) = Ok (l1Data, r)
        /\ len l1Data = G_l1Len (geometry end_ ending)
        /\ file_bytes dest (2 ^ (9 + ClusterSizeExp (ER_Ending ending)))
             (16 * G_l1Len (geometry end_ ending))
           = concat (map (l1Entry (geometry end_ ending)
                            (sort_Ints (filter (fun v => 0 <= v) l1Data))) l1Data))
  /\ forall i, 0 <= i < 2 * G_l1Len (geometry end_ ending) ->
       be_combine (file_bytes dest (2 ^ (9 + ClusterSizeExp (ER_Ending ending)) + 8 * i) 8)
       <> 0 ->
       Z.testbit (be_combine (file_bytes dest
                     (2 ^ (9 + ClusterSizeExp (ER_Ending ending)) + 8 * i) 8)) 63
       = true
       /\ (1 + G_l1ClusterCount (geometry end_ ending))
            * 2 ^ (9 + ClusterSizeExp (ER_Ending ending))
          <= Z.land (be_combine (file_bytes dest
                       (2 ^ (9 + ClusterSizeExp (ER_Ending ending)) + 8 * i) 8))
                    0x7fffffffffffffff
          < fsize dest.
Proof.
  intros Hcse Hraw Hok.
  unfold extractImage in Hok. cbv zeta in Hok. rewrite Hraw in Hok.
  destruct (G_start (geometry end_ ending) >? end_); [discriminate|].
  destruct (Z.ltb_spec (G_l1Len (geometry end_ ending)) 0) as [|Hl1]; [discriminate|].
  destruct (readIndices _ _ _) as [[l1Data r]| |] eqn:Er; cbn [mbind Outcome_bind] in Hok;
    [|discriminate..].
  pose proof (G_l1Start_eq end_ ending Hcse) as Hs.
  pose proof (G_clusterExp_eq end_ ending Hcse) as Hce.
  pose proof (cluster_size_bounds ending Hcse) as Hcs.
  pose proof (G_l1Len_bound end_ ending) as Hlb.
  destruct (G_regular_eq end_ ending Hcse Hl1) as [Hr Hm].
  destruct (G_l1ClusterCount_bounds end_ ending Hcse Hl1) as [Hcc Hcc16].
  set (g := geometry end_ ending) in *.
  set (C := 2 ^ (9 + ClusterSizeExp (ER_Ending ending))) in *.
  set (R := (1 + G_l1ClusterCount g) * C) in *.
  rewrite Hs, (int64_small C) in Hok by lia.
  destruct (Z.ltb_spec C 0); [lia|].
  rewrite Hr, land_lor_top, (int64_small R) in Hok by lia.
  set (l2AtSrc := sort_Ints (filter (fun v => 0 <= v) l1Data)) in *.
  set (hdr := qcow3Header_bytes (qcowHeader g ending)) in *.
  set (table := concat (map (l1Entry g l2AtSrc) l1Data)) in *.
  destruct (copyTables _ _ _ _ _) as [st| |] eqn:Ect; cbn [mbind Outcome_bind] in Hok;
    [|discriminate..].
  destruct (io_CopyN _ _ _ _ _) as [[[dest' dpos'] soff']| |] eqn:Ecn;
    cbn [mbind Outcome_bind] in Hok; [|discriminate..].
  assert (dest' = dest) as -> by congruence. clear Hok.
  (* the indices read *)
  destruct (readIndices_spec _ _ _ _ _ Er) as [Hlen Hrange].
  assert (Hlen' : len l1Data = G_l1Len g) by (unfold len; lia).
  assert (Hl2range : Forall (fun x => 0 <= x < 2 ^ 31) l2AtSrc).
  { apply Forall_forall. intros x Hx. unfold l2AtSrc in Hx.
    rewrite elem_of_sort_Ints, list_elem_of_filter in Hx. destruct Hx as [Hx0 Hx].
    rewrite Forall_forall in Hrange. specialize (Hrange x Hx). lia. }
  assert (Hl2len : len l2AtSrc <= len l1Data).
  { unfold len, l2AtSrc. rewrite length_sort_Ints.
    pose proof (length_filter (fun v => 0 <= v) l1Data). lia. }
  (* the copying loop *)
  assert (Hasc : ascending 0 l2AtSrc).
  { apply ascending_sort_Ints, Forall_forall. intros x Hx.
    apply list_elem_of_filter in Hx as [Hx0 _]. exact Hx0. }
  destruct (copyTables_spec end_ ending Hcse _ _ _ _ _ Ect) as (Hlast & Hpos & Hfr & Hsz & Hin).
  { exact Hasc. }
  { eapply Forall_impl; [exact Hl2range|]. cbn. intros; lia. }
  { cbn. lia. }
  cbn [cs_lastL2 cs_dpos cs_dest] in Hlast, Hpos, Hfr, Hsz, Hin.
  fold C in Hpos.
  pose proof (ascending_lastOf _ _ Hasc) as Hlast0.
  pose proof (len_nonneg l2AtSrc) as Hn0.
  apply io_CopyN_spec in Ecn as (_ & Hfr2 & Hsz2 & _).
  assert (Hframe : forall i, i < R -> fdata dest i = fdata (file_write (file_write emptyFile 0 hdr) C table) i).
  { intros i Hi. rewrite Hfr2 by nia. apply Hfr, Hi. }
  assert (Htable : len table = 16 * G_l1Len g).
  { unfold table. rewrite (len_l1Entries end_ ending). lia. }
  assert (Hhdr : len hdr = 104).
  { unfold len, hdr. rewrite length_qcow3Header_bytes. reflexivity. }
  split; [exact Hl1|]. split; [|split].
  - (* the header *)
    rewrite (file_bytes_ext _ dest 0 104 (fun i Hi => Hframe i ltac:(nia))).
    rewrite (file_bytes_ext (file_write emptyFile 0 hdr)).
    + pose proof (file_bytes_file_write emptyFile 0 hdr 0 104) as Hw.
      change (0 + 0) with 0 in Hw. rewrite Hw by lia.
      rewrite drop_0. apply take_ge. unfold len in Hhdr. lia.
    + intros i Hi. unfold file_write at 1. apply fdata_file_put_below. lia.
  - (* the L1 table *)
    exists l1Data, r. split; [reflexivity|]. split; [exact Hlen'|].
    fold l2AtSrc table.
    rewrite (file_bytes_ext (file_write (file_write emptyFile 0 hdr) C table) dest).
    + pose proof (file_bytes_file_write (file_write emptyFile 0 hdr) C table 0
                    (16 * G_l1Len g)) as Hw.
      rewrite Z.add_0_r in Hw. rewrite Hw by lia.
      rewrite drop_0. apply take_ge. unfold len in Htable. lia.
    + intros k Hk. apply Hframe. nia.
  - 
    intros i Hi.
    (* the entry is one half of the pair of the index [i / 2] *)
    assert (Hbytes : file_bytes dest (C + 8 * i) 8
                     = take 8 (drop (Z.to_nat (8 * i)) table)).
    { rewrite (file_bytes_ext (file_write (file_write emptyFile 0 hdr) C table) dest).
      - change 8%nat with (Z.to_nat 8). apply file_bytes_file_write; lia.
      - intros k Hk. apply Hframe. nia. }
    rewrite Hbytes. clear Hbytes.
    set (j := Z.to_nat (i / 2)).
    assert (Hj : (j < length l1Data)%nat).
    { subst j. apply Nat2Z.inj_lt. rewrite Z2Nat.id by (apply Z.div_pos; lia).
      apply Z.div_lt_upper_bound; lia. }
    destruct (lookup_lt_is_Some_2 l1Data j Hj) as [l2 Hl2].
    destruct (drop_concat_16 (l1Entry g l2AtSrc) (length_l1Entry end_ ending l2AtSrc)
                l1Data j l2 Hl2) as [rest Hrest]. fold table in Hrest.
    assert (Hi2 : i = 2 * (i / 2) + i mod 2) by (apply Z.div_mod; lia).
    assert (Hmod : i mod 2 = 0 \/ i mod 2 = 1)
      by (pose proof (Z.mod_pos_bound i 2 ltac:(lia)); lia).
    assert (Hdrop : drop (Z.to_nat (8 * i)) table
                    = drop (Z.to_nat (8 * (i mod 2))) (l1Entry g l2AtSrc l2 ++ rest)).
    { rewrite <- Hrest, drop_drop. f_equal. subst j. lia. }
    rewrite Hdrop. clear Hdrop.
    assert (Hentry : take 8 (drop (Z.to_nat (8 * (i mod 2))) (l1Entry g l2AtSrc l2 ++ rest))
                     = take 8 (drop (Z.to_nat (8 * (i mod 2))) (l1Entry g l2AtSrc l2))).
    { pose proof (length_l1Entry end_ ending l2AtSrc l2) as Hl16. fold g in Hl16.
      rewrite drop_app_le by lia. apply take_app_le. rewrite length_drop. lia. }
    rewrite Hentry. clear Hentry.
    destruct (Z.lt_ge_cases l2 0) as [Hneg|Hpos0].
    + (* not allocated: the entry is zero *)
      destruct (l1Entry_unallocated end_ ending l2AtSrc l2 Hneg) as [Hz1 Hz2].
      fold g in Hz1, Hz2.
      destruct Hmod as [-> | ->].
      * change (Z.to_nat (8 * 0)) with 0%nat. rewrite drop_0, Hz1. intros Hne. congruence.
      * change (Z.to_nat (8 * 1)) with 8%nat. rewrite Hz2. intros Hne. congruence.
    + (* allocated *)
      intros _.
      assert (Hl2in : l2 ∈ l2AtSrc).
      { unfold l2AtSrc. rewrite elem_of_sort_Ints, list_elem_of_filter.
        split; [lia|].
        eapply list_elem_of_lookup_2, Hl2. }
      assert (Hl2r : 0 <= l2 < 2 ^ 31).
      { rewrite Forall_forall in Hl2range. apply Hl2range, Hl2in. }
      destruct (ascending_elem_lastOf _ _ _ Hasc Hl2in) as [_ Hmax].
      pose proof (sort_SearchInts_elem _ _ Hl2in) as Hslt.
      pose proof (sort_SearchInts_bounds l2AtSrc l2) as Hsb.
      assert (Hne : l2AtSrc <> []) by (intros E; rewrite E in Hl2in; inversion Hl2in).
      specialize (Hin Hne).
      assert (Hl2lt : len l2AtSrc < 2 ^ 31) by lia.
      destruct (clusterEntry_eq end_ ending Hcse Hl1 l2AtSrc l2 Hl2r Hl2lt) as [_ Hb].
      fold g C R in Hb.
      assert (Hfs : R + (sort_SearchInts l2AtSrc l2 + l2 + 1) * C < fsize dest) by nia.
      destruct Hmod as [-> | ->].
      * change (Z.to_nat (8 * 0)) with 0%nat. rewrite drop_0.
        rewrite (l1Entry_first end_ ending Hcse Hl1) by assumption. fold g C R.
        rewrite testbit_top, land_top by nia. split; [reflexivity|split; nia].
      * change (Z.to_nat (8 * 1)) with 8%nat.
        rewrite (l1Entry_second end_ ending Hcse Hl1) by assumption. fold g C R.
        rewrite testbit_top, land_top by nia. split; [reflexivity|split; nia].
Qed.
Lemma be_combine_be_split_4 v : 0 <= v < 2 ^ 32 -> be_combine (be_split 4 v) = v.
Proof. intros H. rewrite be_combine_be_split. apply Z.mod_small. exact H. Qed.

Lemma be_combine_be_split_8 v : 0 <= v < 2 ^ 64 -> be_combine (be_split 8 v) = v.
Proof. intros H. rewrite be_combine_be_split. apply Z.mod_small. exact H. Qed.

(** The fields of the header of a synthesized image, as numbers. *)
Lemma extractImage_header_fields (options : ExtractOptions) (index end_ : Z)
    (header : ArchiveHeaderRead) (ending : EndingRead) (dest : File) :
  0 <= ClusterSizeExp (ER_Ending ending) <= 21 ->
  Raw options = false ->
  extractImage options index end_ header ending = Ok dest ->
  be_combine (file_bytes dest 20 4) = 9 + ClusterSizeExp (ER_Ending ending)
  /\ be_combine (file_bytes dest 36 4) = 2 * G_l1Len (geometry end_ ending)
  /\ be_combine (file_bytes dest 40 8) = 2 ^ (9 + ClusterSizeExp (ER_Ending ending))
  /\ be_combine (file_bytes dest 48 8) = 2 ^ (9 + ClusterSizeExp (ER_Ending ending))
  /\ be_combine (file_bytes dest 56 4) = 1.
Proof.
  intros Hcse Hraw Hok.
  destruct (extractImage_image _ _ _ _ _ _ Hcse Hraw Hok) as (Hl1 & Hhdr & _).
  destruct (qcow3Header_fields _ _ Hhdr) as (F20 & F36 & F40 & F48 & F56).
  pose proof (G_l1Start_eq end_ ending Hcse) as Hs.
  pose proof (G_clusterExp_eq end_ ending Hcse) as Hce.
  pose proof (cluster_size_bounds ending Hcse) as Hcs.
  pose proof (G_l1Len_bound end_ ending) as Hlb.
  rewrite F20, F36, F40, F48, F56.
  cbn [ClusterBits L1Size L1TableOffset RefcountTableOffset RefcountTableClusters qcowHeader].
  rewrite Hs, Hce, Z.shiftl_1_l.
  rewrite (uint32_small (2 * _)) by lia.
  rewrite (uint64_small (2 ^ _)) by lia.
  rewrite !be_combine_be_split_4, !be_combine_be_split_8 by lia.
  repeat split.
Qed.

(** C6, as amended.  Let [extractImage] write the QCOW2 image [dest] for an
    ending whose cluster size exponent is at most 21 and whose data cluster
    count is at most [2^31].  Then the first 104 bytes of [dest] are the
    header; its [cluster_bits], at bytes 20 to 23, is 9 plus the cluster size
    exponent and lies in [9, 30]; its [L1Size], at bytes 36 to 39, is twice
    the number of entries of the source's top-level index, and that many
    indices are read from the source at the start of the image; and every
    non-zero entry of the L1 table of [dest], which starts at the offset
    given at bytes 40 to 47, has bit 63 set and, with that bit masked, is
    an offset below the size of [dest]. *)
Theorem qcow2_image_valid (options : ExtractOptions) (index end_ : Z)
    (header : ArchiveHeaderRead) (ending : EndingRead) (dest : File) :
  0 <= ClusterSizeExp (ER_Ending ending) <= 21 ->
  0 <= DataClusterCount (ER_Ending ending) <= 2 ^ 31 ->
  Raw options = false ->
  extractImage options index end_ header ending = Ok dest ->
  file_bytes dest 0 104 = qcow3Header_bytes (qcowHeader (geometry end_ ending) ending)
  /\ be_combine (file_bytes dest 20 4) = 9 + ClusterSizeExp (ER_Ending ending)
  /\ 9 <= be_combine (file_bytes dest 20 4) <= 30
  /\ be_combine (file_bytes dest 36 4) = 2 * topLevelEntries (ER_Ending ending)
  /\ (exists l1Data r,
        readIndices (G_allocatedClusters (geometry end_ ending))
          (bufio_NewReader (File_ options) (BlockSize * Ending_Start (ER_Ending ending)))
          (Z.to_nat (topLevelEntries (ER_Ending ending))) = Ok (l1Data, r)
        /\ len l1Data = topLevelEntries (ER_Ending ending))
  /\ forall i, 0 <= i < be_combine (file_bytes dest 36 4) ->
       be_combine (file_bytes dest (be_combine (file_bytes dest 40 8) + 8 * i) 8) <> 0 ->
       Z.testbit (be_combine (file_bytes dest (be_combine (file_bytes dest 40 8) + 8 * i) 8))
         63 = true
       /\ Z.land (be_combine (file_bytes dest (be_combine (file_bytes dest 40 8) + 8 * i) 8))
            0x7fffffffffffffff
          < fsize dest.
Proof.
  intros Hcse Hcount Hraw Hok.
  destruct (extractImage_image _ _ _ _ _ _ Hcse Hraw Hok)
    as (Hl1 & Hhdr & (l1Data & r & Er & Hlen & _) & Hent).
  destruct (extractImage_header_fields _ _ _ _ _ _ Hcse Hraw Hok)
    as (F20 & F36 & F40 & _).
  destruct (G_l1Len_topLevel end_ ending Hcse Hcount) as [Htop _].
  rewrite F20, F36, F40. rewrite Htop in *.
  split; [exact Hhdr|]. split; [reflexivity|]. split; [lia|]. split; [reflexivity|].
  split.
  - exists l1Data, r. split; [exact Er|exact Hlen].
  - intros i Hi Hne. destruct (Hent i Hi Hne) as (Hbit & _ & Hin).
    split; [exact Hbit|exact Hin].
Qed.

Lemma qcow2_image_valid_witness :
  0 <= ClusterSizeExp (ER_Ending ending4K) <= 21
  /\ 0 <= DataClusterCount (ER_Ending ending4K) <= 2 ^ 31
  /\ Raw (optionsFor archive4K None) = false
  /\ exists dest,
       extractImage (optionsFor archive4K None) 0 end4K ArchiveHeaderRead_zero ending4K = Ok dest
       /\ be_combine (file_bytes dest 20 4) = 9 + ClusterSizeExp (ER_Ending ending4K)
       /\ 9 <= be_combine (file_bytes dest 20 4) <= 30
       /\ be_combine (file_bytes dest 36 4) = 2 * topLevelEntries (ER_Ending ending4K).
Proof.
  assert (H1 : 0 <= ClusterSizeExp (ER_Ending ending4K) <= 21) by (cbn; lia).
  assert (H2 : 0 <= DataClusterCount (ER_Ending ending4K) <= 2 ^ 31) by (cbn; lia).
  split; [exact H1|]. split; [exact H2|]. split; [reflexivity|].
  assert (Hok : isOk (extractImage (optionsFor archive4K None) 0 end4K
                        ArchiveHeaderRead_zero ending4K) = true)
    by (vm_compute; reflexivity).
  destruct (extractImage (optionsFor archive4K None) 0 end4K ArchiveHeaderRead_zero ending4K)
    as [dest| |] eqn:E; [|discriminate Hok..].
  exists dest. split; [reflexivity|].
  destruct (qcow2_image_valid (optionsFor archive4K None) 0 end4K ArchiveHeaderRead_zero
              ending4K dest H1 H2 eq_refl E) as (_ & Ha & Hb & Hc & _).
  split; [exact Ha|]. split; [exact Hb|exact Hc].
Defined.

(** C6, as stated, fails in two ways, for endings that the reader accepts.
    For an ending with cluster size exponent 22 the image is written and the
    [cluster_bits] of its header is 31.  For an ending with [2^32 - 1] data
    clusters and clusters of 4 KiB the image is written and the [L1Size] of
    its header is 0, where the top-level index of the source has 4194304
    entries. *)
Lemma qcow2_cluster_bits_can_exceed_30 :
  holds (extractImage (optionsFor archive4K None) 0 (256 * 512) ArchiveHeaderRead_zero
           endingExp22)
    (fun dest =>
       be_combine (file_bytes dest 20 4) = 31
       /\ ~ (9 <= be_combine (file_bytes dest 20 4) <= 30))
  /\ holds (extractImage (optionsFor archive4K None) 0 end4K ArchiveHeaderRead_zero
              endingCountMax)
       (fun dest =>
          be_combine (file_bytes dest 36 4) = 0
          /\ topLevelEntries (ER_Ending endingCountMax) = 4194304
          /\ be_combine (file_bytes dest 36 4)
             <> 2 * topLevelEntries (ER_Ending endingCountMax)).
Proof.
  split.
  - vm_compute. split; [reflexivity|]. intros [_ H]. apply H. reflexivity.
  - vm_compute. repeat split. discriminate.
Qed.

(** C5 (the code departs from the claim).  A synthesized image has no
    cluster for a refcount table: its header gives the refcount table, of
    one cluster, and the L1 table the same offset, one cluster into the
    file; the L1 table is written there; and the L1 entries point at
    [(1 + L1_clusters)] clusters and beyond, where the doubled L2 tables and
    the data clusters are.  In the image synthesized from [archive4K], with
    clusters of 4096 bytes, both offsets are 4096 and not 4096 and 8192, the
    bytes at 4096 are not zero but the first L1 entry, and that entry points
    at 8192, which is [(1 + 1)] clusters and not [(2 + 1)]. *)
Theorem qcow2_refcount_table_is_the_l1_table :
  (forall options index end_ header ending dest,
     0 <= ClusterSizeExp (ER_Ending ending) <= 21 ->
     Raw options = false ->
     extractImage options index end_ header ending = Ok dest ->
     be_combine (file_bytes dest 48 8) = 1 * 2 ^ (9 + ClusterSizeExp (ER_Ending ending))
     /\ be_combine (file_bytes dest 56 4) = 1
     /\ be_combine (file_bytes dest 40 8) = 1 * 2 ^ (9 + ClusterSizeExp (ER_Ending ending))
     /\ (exists l1Data r,
           readIndices (G_allocatedClusters (geometry end_ ending))
             (bufio_NewReader (File_ options) (G_start (geometry end_ ending)))
             (Z.to_nat (G_l1Len (geometry end_ ending))) = Ok (l1Data, r)
           /\ file_bytes dest (1 * 2 ^ (9 + ClusterSizeExp (ER_Ending ending)))
                (16 * len l1Data)
              = concat (map (l1Entry (geometry end_ ending)
                               (sort_Ints (filter (fun v => 0 <= v) l1Data))) l1Data))
     /\ forall i, 0 <= i < be_combine (file_bytes dest 36 4) ->
          be_combine (file_bytes dest (1 * 2 ^ (9 + ClusterSizeExp (ER_Ending ending)) + 8 * i) 8)
          <> 0 ->
          (1 + G_l1ClusterCount (geometry end_ ending))
            * 2 ^ (9 + ClusterSizeExp (ER_Ending ending))
          <= Z.land (be_combine (file_bytes dest
                       (1 * 2 ^ (9 + ClusterSizeExp (ER_Ending ending)) + 8 * i) 8))
                    0x7fffffffffffffff)
  /\ holds (extractImage (optionsFor archive4K None) 0 end4K ArchiveHeaderRead_zero ending4K)
       (fun dest =>
          be_combine (file_bytes dest 20 4) = 12
          /\ be_combine (file_bytes dest 48 8) = 1 * 4096
          /\ be_combine (file_bytes dest 56 4) = 1
          /\ be_combine (file_bytes dest 40 8) = 1 * 4096
          /\ be_combine (file_bytes dest 40 8) <> 2 * 4096
          /\ G_l1ClusterCount (geometry end4K ending4K) = 1
          /\ file_bytes dest 4096 8 <> replicate 8 Byte.x00
          /\ be_combine (file_bytes dest 4096 8) = 2 ^ 63 + (1 + 1) * 4096
          /\ be_combine (file_bytes dest 4096 8) <> 2 ^ 63 + (2 + 1) * 4096).
Proof.
  split.
  - intros options index end_ header ending dest Hcse Hraw Hok.
    destruct (extractImage_image _ _ _ _ _ _ Hcse Hraw Hok)
      as (Hl1 & Hhdr & (l1Data & r & Er & Hlen & Htab) & Hent).
    destruct (extractImage_header_fields _ _ _ _ _ _ Hcse Hraw Hok)
      as (_ & F36 & F40 & F48 & F56).
    rewrite F36, F40, F48, F56, !Z.mul_1_l.
    split; [reflexivity|]. split; [reflexivity|]. split; [reflexivity|]. split.
    + exists l1Data, r. split; [exact Er|]. rewrite Hlen. exact Htab.
    + intros i Hi Hne. destruct (Hent i Hi Hne) as (_ & Hlo & _). exact Hlo.
  - vm_compute. repeat split; discriminate.
Qed.

(** *** A flipped bit in the header *)

(** The checksum field of a header of at least 52 bytes, as the reader
    takes it from the bytes it has read. *)
Lemma stored_checksum f n :
  52 <= n -> take 32 (drop 20 (file_bytes f 0 n)) = file_bytes f 20 32.
Proof.
  intros Hn. change 32%nat with (Z.to_nat 32). change 20%nat with (Z.to_nat 20).
  rewrite drop_file_bytes by lia. rewrite take_file_bytes by lia. reflexivity.
Qed.

(** C8, as amended: let the header of [f] be accepted, and flip one bit of
    a byte of the header outside the checksum field.  Then
    [readArchiveHeader] fails.  For a byte of the magic number, at an offset
    in [0, 16), the error is the bad magic number error.  For a byte behind
    the fixed part, at an offset in [56, HeaderLength), it is the bad
    checksum error.  For a byte of the first entry's length, in [16, 20), or
    of the header length, in [52, 56), it is the bad checksum error or the
    error of one of the checks that come before the checksum: bad entry
    size, bad header size, header too big, or an end of file.  All this
    holds provided the SHA-256 digest of the header that the reader then
    takes (checksum field zeroed) differs from that of the original
    header. *)
Theorem header_bit_flip_rejected (crypto : Crypto) (options : ExtractOptions) (f : File)
    (result h : ArchiveHeaderRead) (off bit : Z) :
  readArchiveHeader crypto (withFile options f) result = Ok h ->
  0 <= bit < 8 ->
  0 <= off < 20 \/ 52 <= off < Uint32 (file_bytes f 52 4) ->
  (16 <= off ->
   sha256.Sum256 (zeroChecksum (file_bytes (flipBit f off bit) 0
                                  (Uint32 (file_bytes (flipBit f off bit) 52 4))))
   <> sha256.Sum256 (zeroChecksum (file_bytes f 0 (Uint32 (file_bytes f 52 4))))) ->
  exists e,
    readArchiveHeader crypto (withFile options (flipBit f off bit)) result = Err e
    /\ (off < 16 -> e = errBadMagic)
    /\ (56 <= off -> e = errBadChecksum)
    /\ (16 <= off < 56 ->
        e = errBadChecksum
        \/ e = errBadEntrySize (Uint32 (file_bytes (flipBit f off bit) 16 4))
        \/ e = errBadHeaderSize (Uint32 (file_bytes (flipBit f off bit) 52 4))
        \/ e = errHeaderTooBig (Uint32 (file_bytes (flipBit f off bit) 52 4))
        \/ e = errEarlyEOF
        \/ e = io_EOF).
Proof.
  intros Hok Hbit Hoff Hsha.
  set (headerSize := Uint32 (file_bytes f 52 4)) in *.
  destruct (readArchiveHeader_steps crypto (withFile options f) result) as [tail Ht].
  cbn [File_ withFile] in Ht. fold headerSize in Ht. rewrite Hok in Ht.
  destruct (Z.eqb_spec (Z.min 4096 (Z.max 0 (fsize f))) 0) as [|Hk0]; [discriminate|].
  destruct (Z.ltb_spec (Z.min 4096 (Z.max 0 (fsize f))) 56) as [|Hk56]; [discriminate|].
  destruct (bool_decide_reflect (IdCvtmMagic = file_bytes f 0 16)) as [Hmagic|];
    [|discriminate]. cbn [negb] in Ht.
  destruct (Z.ltb_spec (Uint32 (file_bytes f 16 4)) 56) as [|Hfes]; [discriminate|].
  destruct (Z.ltb_spec headerSize (Uint32 (file_bytes f 16 4))) as [|Hhs]; [discriminate|].
  destruct (Z.gtb_spec headerSize maxHeaderSize) as [|Hmax]; [discriminate|].
  destruct (negb (headerSize =? 56) && (Z.min 4096 (Z.max 0 (fsize f)) =? 56)) eqn:Hbuf;
    [discriminate|].
  destruct (Z.ltb_spec (Z.min 4096 (Z.max 0 (fsize f))) headerSize) as [|Hkhs]; [discriminate|].
  destruct (bool_decide_reflect
              (take 32 (drop 20 (file_bytes f 0 headerSize))
               = sha256.Sum256 (zeroChecksum (file_bytes f 0 headerSize)))) as [Hsum|];
    [|discriminate]. clear Ht tail.
  rewrite stored_checksum in Hsum by lia.
  destruct (readArchiveHeader_steps crypto (withFile options (flipBit f off bit)) result)
    as [tail Ht].
  rewrite Ht. clear Ht. cbn [File_ withFile].
  rewrite (fsize_flipBit f off bit).
  destruct (Z.eqb_spec (Z.min 4096 (Z.max 0 (fsize f))) 0); [lia|].
  destruct (Z.ltb_spec (Z.min 4096 (Z.max 0 (fsize f))) 56); [lia|].
  assert (Hcases : 0 <= off < 16 \/ 16 <= off < 20 \/ 52 <= off < 56
                   \/ 56 <= off < headerSize) by lia.
  clear Hoff. destruct Hcases as [Hlow|[Hfirst|[Hlen|Hhigh]]].
  - (* a bit of the magic number *)
    exists errBadMagic. split; [|split; [reflexivity|split; intros; lia]].
    rewrite bool_decide_false; [reflexivity|].
    rewrite Hmagic. intros Heq. symmetry in Heq. revert Heq.
    apply file_bytes_flipBit_inside; lia.
  - (* a bit of the length of the first entry *)
    rewrite (file_bytes_flipBit_outside f off bit 0 16) by lia.
    rewrite (file_bytes_flipBit_outside f off bit 52 4) in * by lia.
    fold headerSize in Hsha |- *.
    rewrite bool_decide_true by exact Hmagic. cbn [negb].
    set (fes := Uint32 (file_bytes (flipBit f off bit) 16 4)).
    destruct (Z.ltb_spec fes 56).
    { eexists. split; [reflexivity|]. split; [lia|]. split; [lia|]. intros _. tauto. }
    destruct (Z.ltb_spec headerSize fes).
    { eexists. split; [reflexivity|]. split; [lia|]. split; [lia|]. intros _. tauto. }
    destruct (Z.gtb_spec headerSize maxHeaderSize); [lia|].
    rewrite Hbuf.
    destruct (Z.ltb_spec (Z.min 4096 (Z.max 0 (fsize f))) headerSize); [lia|].
    exists errBadChecksum. split; [|split; [lia|]; split; [reflexivity|]; intros _; tauto].
    rewrite bool_decide_false; [reflexivity|].
    rewrite stored_checksum by lia.
    rewrite (file_bytes_flipBit_outside f off bit 20 32) by lia.
    rewrite Hsum. intros Heq. apply Hsha; [lia|]. symmetry. exact Heq.
  - (* a bit of the header length *)
    rewrite (file_bytes_flipBit_outside f off bit 0 16) by lia.
    rewrite (file_bytes_flipBit_outside f off bit 16 4) by lia.
    rewrite bool_decide_true by exact Hmagic. cbn [negb].
    set (hs := Uint32 (file_bytes (flipBit f off bit) 52 4)) in *.
    destruct (Z.ltb_spec (Uint32 (file_bytes f 16 4)) 56); [lia|].
    destruct (Z.ltb_spec hs (Uint32 (file_bytes f 16 4))).
    { eexists. split; [reflexivity|]. split; [lia|]. split; [lia|]. intros _. tauto. }
    destruct (Z.gtb_spec hs maxHeaderSize).
    { eexists. split; [reflexivity|]. split; [lia|]. split; [lia|]. intros _. tauto. }
    destruct (negb (hs =? 56) && (Z.min 4096 (Z.max 0 (fsize f)) =? 56)).
    { eexists. split; [reflexivity|]. split; [lia|]. split; [lia|]. intros _. tauto. }
    destruct (Z.ltb_spec (Z.min 4096 (Z.max 0 (fsize f))) hs).
    { eexists. split; [reflexivity|]. split; [lia|]. split; [lia|]. intros _. tauto. }
    exists errBadChecksum. split; [|split; [lia|]; split; [reflexivity|]; intros _; tauto].
    rewrite bool_decide_false; [reflexivity|].
    rewrite stored_checksum by lia.
    rewrite (file_bytes_flipBit_outside f off bit 20 32) by lia.
    rewrite Hsum. intros Heq. apply Hsha; [lia|]. symmetry. exact Heq.
  - (* a bit behind the fixed part *)
    rewrite (file_bytes_flipBit_outside f off bit 0 16) by lia.
    rewrite (file_bytes_flipBit_outside f off bit 16 4) by lia.
    rewrite (file_bytes_flipBit_outside f off bit 52 4) in * by lia.
    fold headerSize in Hsha |- *.
    rewrite bool_decide_true by exact Hmagic. cbn [negb].
    destruct (Z.ltb_spec (Uint32 (file_bytes f 16 4)) 56); [lia|].
    destruct (Z.ltb_spec headerSize (Uint32 (file_bytes f 16 4))); [lia|].
    destruct (Z.gtb_spec headerSize maxHeaderSize); [lia|].
    rewrite Hbuf.
    destruct (Z.ltb_spec (Z.min 4096 (Z.max 0 (fsize f))) headerSize); [lia|].
    exists errBadChecksum. split; [|split; [lia|]; split; [reflexivity|]; intros; lia].
    rewrite bool_decide_false; [reflexivity|].
    rewrite stored_checksum by lia.
    rewrite (file_bytes_flipBit_outside f off bit 20 32) by lia.
    rewrite Hsum. intros Heq. apply Hsha; [lia|]. symmetry. exact Heq.
Qed.

(** Bit 0 of byte 52 of the archive written for [confNull]: the header
    length becomes 228 and the header is rejected. *)
Lemma header_bit_flip_rejected_witness :
  exists h,
    readArchiveHeader noCrypto (withFile (optionsFor emptyFile None) archiveNull)
      ArchiveHeaderRead_zero = Ok h
    /\ exists e,
         readArchiveHeader noCrypto
           (withFile (optionsFor emptyFile None) (flipBit archiveNull 52 0))
           ArchiveHeaderRead_zero = Err e
         /\ (52 < 16 -> e = errBadMagic)
         /\ (56 <= 52 -> e = errBadChecksum)
         /\ (16 <= 52 < 56 ->
             e = errBadChecksum
             \/ e = errBadEntrySize (Uint32 (file_bytes (flipBit archiveNull 52 0) 16 4))
             \/ e = errBadHeaderSize (Uint32 (file_bytes (flipBit archiveNull 52 0) 52 4))
             \/ e = errHeaderTooBig (Uint32 (file_bytes (flipBit archiveNull 52 0) 52 4))
             \/ e = errEarlyEOF
             \/ e = io_EOF).
Proof.
  destruct (readArchiveHeader noCrypto (withFile (optionsFor emptyFile None) archiveNull)
              ArchiveHeaderRead_zero)
    as [h| |] eqn:Eh; [|vm_compute in Eh; discriminate..].
  exists h. split; [reflexivity|].
  apply (header_bit_flip_rejected noCrypto (optionsFor emptyFile None) archiveNull
           ArchiveHeaderRead_zero h 52 0 Eh).
  - lia.
  - right. vm_compute. split; [discriminate|reflexivity].
  - intros _. vm_compute. discriminate.
Defined.

(** C8, as stated, fails on the archive written for [confNull], whose header
    is accepted: with bit 0 of byte 0 flipped (in the magic number, outside
    the checksum field) the header is rejected with the bad magic number
    error, and with bit 3 of byte 16 flipped (in the length of the first
    entry) with the bad entry size error; neither is the bad checksum
    error. *)
Lemma bit_flip_in_magic_or_length_is_not_bad_checksum :
  isOk (readArchiveHeader noCrypto (optionsFor archiveNull None) ArchiveHeaderRead_zero) = true
  /\ readArchiveHeader noCrypto (optionsFor (flipBit archiveNull 0 0) None) ArchiveHeaderRead_zero
     = Err errBadMagic
  /\ readArchiveHeader noCrypto (optionsFor (flipBit archiveNull 16 3) None) ArchiveHeaderRead_zero
     = Err (errBadEntrySize 48)
  /\ errBadMagic <> errBadChecksum
  /\ errBadEntrySize 48 <> errBadChecksum.
Proof. vm_compute. repeat split; discriminate. Qed.
